(** * Hook runtime of xrpld-hooks: a shallow embedding of applyHook.cpp

    The development follows src/ripple/app/tx/impl/applyHook.cpp.  Machine
    integers are integers of [Z] with the wrap-around of their C++ type
    written out, guest memory is a list of bytes, the per-invocation
    [HookContext] is a record threaded through the host calls, and the
    ledger view and the transaction codec (external collaborators of the
    runtime) appear as records and section variables. *)

From Stdlib Require Import ZArith Lia Bool List.
From stdpp Require Import base option list gmap sorting.

Local Open Scope Z_scope.

(** ** Fixed-width integers *)

Definition u8  (x : Z) : Z := x mod 2^8.
Definition u16 (x : Z) : Z := x mod 2^16.
Definition u32 (x : Z) : Z := x mod 2^32.
Definition u64 (x : Z) : Z := x mod 2^64.
Definition i32 (x : Z) : Z := (x + 2^31) mod 2^32 - 2^31.
Definition i64 (x : Z) : Z := (x + 2^63) mod 2^64 - 2^63.

Definition is_u32 (x : Z) : Prop := 0 <= x < 2^32.
Definition is_i32 (x : Z) : Prop := - 2^31 <= x < 2^31.
Definition is_i64 (x : Z) : Prop := - 2^63 <= x < 2^63.

(** ** Loops

    A [while] loop of the source is the iteration of its body; the body
    answers [inl s'] to go round again and [inr r] to leave the loop (by its
    condition or by a [return]).  The number of rounds is bounded by a binary
    numeral, so that a bound of 2^32 costs nothing to write down; [inl] is
    only returned when the bound is reached. *)

Fixpoint iter_nat {St R : Type} (n : nat) (body : St -> St + R) (s : St) : St + R :=
  match n with
  | O => inl s
  | S n' =>
      match body s with
      | inl s' => iter_nat n' body s'
      | inr r => inr r
      end
  end.

Fixpoint iter_pos {St R : Type} (p : positive) (body : St -> St + R) (s : St) : St + R :=
  match p with
  | xH => body s
  | xO p' =>
      match iter_pos p' body s with
      | inl s' => iter_pos p' body s'
      | inr r => inr r
      end
  | xI p' =>
      match body s with
      | inl s0 =>
          match iter_pos p' body s0 with
          | inl s' => iter_pos p' body s'
          | inr r => inr r
          end
      | inr r => inr r
      end
  end.

(** [None] stands for a loop that is still running when the bound of the
    model is reached; the totality lemmas below show that the bounds chosen
    are never reached. *)
Definition loop {St R : Type} (bound : positive) (body : St -> St + R) (s : St) : option R :=
  match iter_pos bound body s with
  | inl _ => None
  | inr r => Some r
  end.

(** ** Return codes

    Modelled from the spec: the enumeration [hook_api::hook_return_code] is
    declared in applyHook.h, which is not among the sources.  The spec fixes
    the names and that every error kind is a negative 64-bit value; the
    numerals are those of the hook API header.  The theorems below use
    negativity and, where two codes are told apart, distinctness. *)
Module hook_api.
Definition SUCCESS              : Z := 0.
Definition OUT_OF_BOUNDS        : Z := -1.
Definition INTERNAL_ERROR       : Z := -2.
Definition TOO_BIG              : Z := -3.
Definition TOO_SMALL            : Z := -4.
Definition DOESNT_EXIST         : Z := -5.
Definition NO_FREE_SLOTS        : Z := -6.
Definition INVALID_ARGUMENT     : Z := -7.
Definition ALREADY_SET          : Z := -8.
Definition PREREQUISITE_NOT_MET : Z := -9.
Definition FEE_TOO_LARGE        : Z := -10.
Definition EMISSION_FAILURE     : Z := -11.
Definition TOO_MANY_NONCES      : Z := -12.
Definition TOO_MANY_EMITTED_TXN : Z := -13.
Definition INVALID_ACCOUNT      : Z := -15.
Definition GUARD_VIOLATION      : Z := -16.
Definition INVALID_FIELD        : Z := -17.
Definition PARSE_ERROR          : Z := -18.
Definition RC_ROLLBACK          : Z := -19.
Definition RC_ACCEPT            : Z := -20.
Definition NO_SUCH_KEYLET       : Z := -21.
Definition NOT_AN_ARRAY         : Z := -22.
Definition NOT_AN_OBJECT        : Z := -23.
Definition INVALID_FLOAT        : Z := -10024.
Definition DIVISION_BY_ZERO     : Z := -25.
Definition MANTISSA_OVERSIZED   : Z := -26.
Definition EXPONENT_OVERSIZED   : Z := -28.
Definition EXPONENT_UNDERSIZED  : Z := -29.
Definition OVERFLOW             : Z := -30.
Definition NOT_AN_AMOUNT        : Z := -32.
Definition CANT_RETURN_NEGATIVE : Z := -33.

Inductive ExitType := ROLLBACK | ACCEPT | WASM_ERROR.
End hook_api.
Import hook_api.

(** ** namespace hook_float *)
Module hook_float.

Definition minMantissa : Z := 1000000000000000.
Definition maxMantissa : Z := 9999999999999999.
Definition minExponent : Z := -96.
Definition maxExponent : Z := 80.

(* int32_t get_exponent(int64_t) *)
Definition get_exponent (float1 : Z) : Z :=
  if float1 <? 0 then i32 INVALID_FLOAT
  else if float1 =? 0 then 0
  else i32 (Z.land (Z.shiftr (u64 float1) 54) 255) - 97.

(* uint64_t get_mantissa(int64_t) *)
Definition get_mantissa (float1 : Z) : Z :=
  if float1 <? 0 then u64 INVALID_FLOAT
  else if float1 =? 0 then 0
  else u64 (float1 - Z.shiftl (Z.shiftr (u64 float1) 54) 54).

Definition is_negative (float1 : Z) : bool :=
  Z.land (Z.shiftr float1 62) 1 =? 0.

Definition invert_sign (float1 : Z) : Z :=
  i64 (Z.lxor (u64 float1) (Z.shiftl 1 62)).

Definition set_sign (float1 : Z) (set_negative : bool) : Z :=
  let neg := is_negative float1 in
  if (neg && set_negative) || (negb neg && negb set_negative)
  then float1
  else invert_sign float1.

(* the mantissa argument is a uint64_t *)
Definition set_mantissa (float1 : Z) (mantissa : Z) : Z :=
  if mantissa >? u64 maxMantissa then MANTISSA_OVERSIZED
  else i64 (float1 - get_mantissa float1 + mantissa).

Definition set_exponent (float1 : Z) (exponent : Z) : Z :=
  if exponent >? maxExponent then EXPONENT_OVERSIZED
  else if exponent <? minExponent then EXPONENT_UNDERSIZED
  else
    let exp := u64 (Z.shiftl (u64 (exponent + 97)) 54) in
    let float1 := Z.land float1 (Z.lnot (Z.shiftl 255 54)) in
    i64 (float1 + i64 exp).

(** The ledger's IOU amount, as far as the runtime reads it: a signed
    mantissa and an exponent. *)
Record IOUAmount := { mantissa : Z; exponent : Z }.

Definition make_float_iou (amt : IOUAmount) : Z :=
  let man_out := mantissa amt in
  let float_out := 0 in
  let neg := man_out <? 0 in
  let man_out := if neg then i64 (man_out * -1) else man_out in
  let float_out := set_sign float_out neg in
  let float_out := set_mantissa float_out (u64 man_out) in
  let float_out := set_exponent float_out (exponent amt) in
  float_out.

Definition make_float (mantissa : Z) (exponent : Z) : Z :=
  if mantissa =? 0 then 0
  else if mantissa >? maxMantissa then MANTISSA_OVERSIZED
  else if exponent >? maxExponent then EXPONENT_OVERSIZED
  else if exponent <? minExponent then EXPONENT_UNDERSIZED
  else
    let neg := mantissa <? 0 in
    let mantissa := if neg then i64 (mantissa * -1) else mantissa in
    let out := 0 in
    let out := set_mantissa out (u64 mantissa) in
    let out := set_exponent out exponent in
    let out := set_sign out neg in
    out.

(** The two normalisation loops of [float_set]; the state is the pair
    (mantissa, exp).  A [return] inside the loop leaves it with
    [inr (inl code)], the loop condition with [inr (inr state)]. *)
Definition normalize_up (st : Z * Z) : (Z * Z) + (Z + Z * Z) :=
  let '(mantissa, exp) := st in
  if mantissa <? minMantissa then
    let mantissa := i64 (mantissa * 10) in
    let exp := i32 (exp - 1) in
    if exp <? minExponent then inr (inl INVALID_FLOAT)
    else inl (mantissa, exp)
  else inr (inr (mantissa, exp)).

Definition normalize_down (st : Z * Z) : (Z * Z) + (Z + Z * Z) :=
  let '(mantissa, exp) := st in
  if mantissa >? maxMantissa then
    let mantissa := Z.quot mantissa 10 in
    let exp := i32 (exp + 1) in
    if exp >? maxExponent then inr (inl INVALID_FLOAT)
    else inl (mantissa, exp)
  else inr (inr (mantissa, exp)).

Definition loop_bound : positive := 8589934592.

(** Both loops in sequence: [Some (inl code)] for a [return] from inside a
    loop, [Some (inr (mantissa, exp))] when both loops are left by their
    conditions. *)
Definition normalize (mantissa exp : Z) : option (Z + Z * Z) :=
  match loop loop_bound normalize_up (mantissa, exp) with
  | None => None
  | Some (inl code) => Some (inl code)
  | Some (inr st) => loop loop_bound normalize_down st
  end.

Definition float_set (exp : Z) (mantissa : Z) : option Z :=
  if mantissa =? 0 then Some 0
  else
    let neg := mantissa <? 0 in
    let mantissa := if neg then i64 (mantissa * -1) else mantissa in
    match normalize mantissa exp with
    | None => None
    | Some (inl code) => Some code
    | Some (inr (mantissa, exp)) =>
        Some (make_float (i64 ((if neg then -1 else 1) * mantissa)) exp)
    end.

End hook_float.

(** ** Host calls of the decimal-float library that do not touch memory *)

(* RETURN_IF_INVALID_FLOAT: [true] when the macro returns INVALID_FLOAT *)
Definition invalid_float (float1 : Z) : bool :=
  if float1 <? 0 then true
  else if negb (float1 =? 0) then
    let mantissa := i64 (hook_float.get_mantissa float1) in
    let exponent := hook_float.get_exponent float1 in
    (mantissa <? hook_float.minMantissa) || (mantissa >? hook_float.maxMantissa) ||
    (exponent >? hook_float.maxExponent) || (exponent <? hook_float.minExponent)
  else false.

(* the host call float_set(int32_t exp, int64_t mantissa): no sign handling *)
Definition float_set (exp : Z) (mantissa : Z) : option Z :=
  if mantissa =? 0 then Some 0
  else
    match hook_float.normalize mantissa exp with
    | None => None
    | Some (inl code) => Some code
    | Some (inr (mantissa, exp)) => Some (hook_float.make_float mantissa exp)
    end.

Definition float_negate (float1 : Z) : Z :=
  if float1 =? 0 then 0
  else if invalid_float float1 then INVALID_FLOAT
  else hook_float.invert_sign float1.

Definition float_one_internal : Z := hook_float.make_float 1000000000000000 (-15).

Definition float_one : Z := float_one_internal.

Definition float_sign_set (float1 : Z) (negative : Z) : Z :=
  if invalid_float float1 then INVALID_FLOAT
  else if float1 =? 0 then 0
  else hook_float.set_sign float1 (negb (negative =? 0)).

Definition float_exponent (float1 : Z) : Z :=
  if invalid_float float1 then INVALID_FLOAT
  else if float1 =? 0 then 0
  else hook_float.get_exponent float1.

Definition float_mantissa (float1 : Z) : Z :=
  if invalid_float float1 then INVALID_FLOAT
  else if float1 =? 0 then 0
  else i64 (hook_float.get_mantissa float1).

Definition float_sign (float1 : Z) : Z :=
  if invalid_float float1 then INVALID_FLOAT
  else if float1 =? 0 then 0
  else if hook_float.is_negative float1 then 1 else 0.

Definition float_exponent_set (float1 : Z) (exponent : Z) : Z :=
  if invalid_float float1 then INVALID_FLOAT
  else if float1 =? 0 then 0
  else hook_float.set_exponent float1 exponent.

Definition float_mantissa_set (float1 : Z) (mantissa : Z) : Z :=
  if invalid_float float1 then INVALID_FLOAT
  else if mantissa =? 0 then 0
  else hook_float.set_mantissa float1 (u64 mantissa).

(* inline void umul64wide (uint64_t a, uint64_t b, uint64_t *hi, uint64_t *lo):
   the pair (hi, lo) *)
Definition umul64wide (a b : Z) : Z * Z :=
  let a_lo := u32 a in
  let a_hi := Z.shiftr a 32 in
  let b_lo := u32 b in
  let b_hi := Z.shiftr b 32 in
  let p0 := u64 (a_lo * b_lo) in
  let p1 := u64 (a_lo * b_hi) in
  let p2 := u64 (a_hi * b_lo) in
  let p3 := u64 (a_hi * b_hi) in
  let cy := u32 (Z.shiftr (u64 (u64 (Z.shiftr p0 32 + u32 p1) + u32 p2)) 32) in
  let lo := u64 (u64 (p0 + u64 (Z.shiftl p1 32)) + u64 (Z.shiftl p2 32)) in
  let hi := u64 (u64 (u64 (p3 + Z.shiftr p1 32) + Z.shiftr p2 32) + cy) in
  (hi, lo).

(** The two loops of float_int; the state is the pair (man1, exp1), with
    man1 a uint64_t and exp1 an int32_t. *)
Definition float_int_up (st : Z * Z) : (Z * Z) + (Z * Z) :=
  let '(man1, exp1) := st in
  if exp1 >? -6 then inl (u64 (man1 * 10), i32 (exp1 - 1))
  else inr (man1, exp1).

Definition float_int_down (st : Z * Z) : (Z * Z) + (Z * Z) :=
  let '(man1, exp1) := st in
  if exp1 <? -6 then inl (man1 / 10, i32 (exp1 + 1))
  else inr (man1, exp1).

(* the host call float_int(int64_t float1, uint32_t decimal_places,
   uint32_t absolute); the comparison before the return is one of a uint64_t
   with itself converted to int64_t and back *)
Definition float_int (float1 : Z) (decimal_places absolute : Z) : option Z :=
  if invalid_float float1 then Some INVALID_FLOAT
  else if float1 =? 0 then Some 0
  else
    let man1 := hook_float.get_mantissa float1 in
    let exp1 := hook_float.get_exponent float1 in
    let neg1 := hook_float.is_negative float1 in
    if neg1 && (absolute =? 0) then Some CANT_RETURN_NEGATIVE
    else
      match loop hook_float.loop_bound float_int_up (man1, exp1) with
      | None => None
      | Some st =>
          match loop hook_float.loop_bound float_int_down st with
          | None => None
          | Some (man1, _) =>
              if u64 (i64 man1) <? man1 then Some INVALID_FLOAT
              else Some (i64 man1)
          end
      end.

(** ** Guest memory

    The guest's linear memory is a list of bytes; pointers are offsets into
    it.  [memory_length] is the [memory_length] of HOOK_SETUP. *)
Definition memory_length (memory : list Z) : Z := Z.of_nat (length memory).

(* #define NOT_IN_BOUNDS(ptr, len, memory_length) *)
Definition NOT_IN_BOUNDS (ptr len memory_length : Z) : bool :=
  (ptr >? memory_length) || (u64 (u64 ptr + u64 len) >? u64 memory_length).

(** The bytes [memory + ptr .. memory + ptr + len); the callers have checked
    the range, outside of it the list is cut at the end of the memory. *)
Definition read_bytes (memory : list Z) (ptr len : Z) : list Z :=
  take (Z.to_nat len) (drop (Z.to_nat ptr) memory).

(** [memoryCtx.setBytes(span, dst, 0, n)]: the first [n] bytes of [span] are
    copied to offset [dst]. *)
Definition setBytes (memory : list Z) (span : list Z) (dst n : Z) : list Z :=
  take (Z.to_nat dst) memory ++ take (Z.to_nat n) span ++
  drop (Z.to_nat (dst + n)) memory.

(** #define WRITE_WASM_MEMORY: [inl code] is the macro's [return], [inr] the
    memory after the copy and the updated [bytes_written]. *)
Definition WRITE_WASM_MEMORY (memory : list Z) (bytes_written : Z)
    (guest_dst_ptr guest_dst_len : Z) (host_src : list Z) (host_src_len : Z)
    : Z + (list Z * Z) :=
  let bytes_to_write := Z.min (i64 host_src_len) (i64 guest_dst_len) in
  if u64 (guest_dst_ptr + bytes_to_write) >? memory_length memory
  then inl OUT_OF_BOUNDS
  else inr (setBytes memory host_src guest_dst_ptr bytes_to_write,
            i64 (bytes_written + bytes_to_write)).

(* #define WRITE_WASM_MEMORY_AND_RETURN *)
Definition WRITE_WASM_MEMORY_AND_RETURN (memory : list Z)
    (guest_dst_ptr guest_dst_len : Z) (host_src : list Z) (host_src_len : Z)
    : Z * list Z :=
  match WRITE_WASM_MEMORY memory 0 guest_dst_ptr guest_dst_len host_src host_src_len with
  | inl code => (code, memory)
  | inr (memory', bytes_written) => (bytes_written, memory')
  end.

(* int64_t data_as_int64(void* ptr_raw, uint32_t len) *)
Fixpoint data_as_int64_loop (ptr : list Z) (j : Z) (output : Z) : Z :=
  match ptr with
  | [] => output
  | b :: rest => data_as_int64_loop rest (j - 8) (u64 (output + u64 (Z.shiftl b j)))
  end.

Definition data_as_int64 (ptr : list Z) (len : Z) : Z :=
  if len >? 8 then TOO_BIG
  else
    let output := data_as_int64_loop (take (Z.to_nat len) ptr) ((len - 1) * 8) 0 in
    if negb (Z.land (Z.shiftl 1 63) output =? 0) then TOO_BIG
    else i64 output.

(* std::optional<uint256> make_state_key(std::string_view source) *)
Definition make_state_key (source : list Z) : option (list Z) :=
  let source_len := Z.of_nat (length source) in
  if (source_len >? 32) || (source_len <? 1) then None
  else
    let pad := 32 - source_len in
    Some (replicate (Z.to_nat pad) 0 ++ source).

(** ** Transactions and the ledger view, as the runtime reads them

    The transaction codec and the ledger are external collaborators.  A
    transaction is the record of the fields the runtime looks at, an absent
    field is [None]; the view holds the ledger entries the runtime peeks,
    inserts and erases, keyed as their keylets are (by account, by account
    and state key, by transaction id). *)
Record EmitDetails := {
  sfEmitGeneration  : option Z;
  sfEmitBurden      : option Z;
  sfEmitParentTxnID : option (list Z);
  sfEmitNonce       : option (list Z);
  sfEmitCallback    : option (list Z) }.

Record STTx := {
  TransactionID         : list Z;
  sfSequence            : option Z;
  sfSigningPubKey       : option (list Z);
  sfEmitDetails         : option EmitDetails;
  sfSignature           : option (list Z);
  sfLastLedgerSequence  : option Z;
  sfFirstLedgerSequence : option Z;
  sfFee                 : option Z }.

Record AccountRoot := { sfOwnerCount : Z; sfBalance : Z }.

Record HookSLE := { sfHookStateDataMaxSize : Z; sfHookStateCount : Z }.

Record HookStateSLE := {
  sfHookStateData : list Z;
  sfHookStateKey  : list Z;
  sfAccount       : list Z;
  sfOwnerNode     : option Z }.

Record EmittedSLE := { sfEmittedTxn : STTx; emitted_sfOwnerNode : Z }.

(* the sfHookExecution object of the transaction metadata *)
Record HookExecution := {
  sfHookResult           : ExitType;
  sfHookHash             : list Z;
  sfHookAccount          : list Z;
  sfHookReturnCode       : Z;
  sfHookReturnString     : list Z;
  sfHookInstructionCount : Z;
  sfHookEmitCount        : Z;
  sfHookExecutionIndex   : Z;
  sfHookStateChangeCount : Z }.

Record View := {
  open             : bool;
  account_roots    : gmap (list Z) AccountRoot;
  hooks            : gmap (list Z) HookSLE;
  hook_states      : gmap (list Z * list Z) HookStateSLE;
  emitted          : gmap (list Z) EmittedSLE;
  fees_base        : Z;
  fees_reserve     : Z;
  fees_increment   : Z;
  hookExecutionIndex : Z;
  hookMetaData     : list HookExecution }.

Record ApplyContext := {
  tx   : STTx;
  view : View;
  validLedgerIndex : Z }.

Definition with_view (v : View) (a : ApplyContext) : ApplyContext :=
  {| tx := tx a; view := v; validLedgerIndex := validLedgerIndex a |}.

Definition with_account_roots (x : gmap (list Z) AccountRoot) (v : View) : View :=
  {| open := open v; account_roots := x; hooks := hooks v;
     hook_states := hook_states v; emitted := emitted v; fees_base := fees_base v;
     fees_reserve := fees_reserve v; fees_increment := fees_increment v;
     hookExecutionIndex := hookExecutionIndex v; hookMetaData := hookMetaData v |}.

Definition with_hooks (x : gmap (list Z) HookSLE) (v : View) : View :=
  {| open := open v; account_roots := account_roots v; hooks := x;
     hook_states := hook_states v; emitted := emitted v; fees_base := fees_base v;
     fees_reserve := fees_reserve v; fees_increment := fees_increment v;
     hookExecutionIndex := hookExecutionIndex v; hookMetaData := hookMetaData v |}.

Definition with_hook_states (x : gmap (list Z * list Z) HookStateSLE) (v : View) : View :=
  {| open := open v; account_roots := account_roots v; hooks := hooks v;
     hook_states := x; emitted := emitted v; fees_base := fees_base v;
     fees_reserve := fees_reserve v; fees_increment := fees_increment v;
     hookExecutionIndex := hookExecutionIndex v; hookMetaData := hookMetaData v |}.

Definition with_emitted (x : gmap (list Z) EmittedSLE) (v : View) : View :=
  {| open := open v; account_roots := account_roots v; hooks := hooks v;
     hook_states := hook_states v; emitted := x; fees_base := fees_base v;
     fees_reserve := fees_reserve v; fees_increment := fees_increment v;
     hookExecutionIndex := hookExecutionIndex v; hookMetaData := hookMetaData v |}.

(** [avi.nextHookExecutionIndex()] and [avi.addHookMetaData(meta)] of the
    apply view: the next index is handed out and the counter advances; the
    metadata object is appended. *)
Definition nextHookExecutionIndex (v : View) : Z * View :=
  (hookExecutionIndex v,
   {| open := open v; account_roots := account_roots v; hooks := hooks v;
      hook_states := hook_states v; emitted := emitted v; fees_base := fees_base v;
      fees_reserve := fees_reserve v; fees_increment := fees_increment v;
      hookExecutionIndex := hookExecutionIndex v + 1;
      hookMetaData := hookMetaData v |}).

Definition addHookMetaData (meta : HookExecution) (v : View) : View :=
  {| open := open v; account_roots := account_roots v; hooks := hooks v;
     hook_states := hook_states v; emitted := emitted v; fees_base := fees_base v;
     fees_reserve := fees_reserve v; fees_increment := fees_increment v;
     hookExecutionIndex := hookExecutionIndex v;
     hookMetaData := hookMetaData v ++ [meta] |}.

(** Modelled from the spec: [adjustOwnerCount] (View.cpp) is not among the
    sources; by the spec's owner-reserve accounting it moves the owner count
    of the account by one unit up or down. *)
Definition adjustOwnerCount (v : View) (acc : list Z) (amount : Z) : View :=
  match account_roots v !! acc with
  | None => v
  | Some sle =>
      with_account_roots
        (<[acc := {| sfOwnerCount := Z.max 0 (sfOwnerCount sle + amount);
                     sfBalance := sfBalance sle |}]> (account_roots v)) v
  end.

(* view.fees().accountReserve(ownerCount) *)
Definition accountReserve (v : View) (ownerCount : Z) : Z :=
  fees_reserve v + ownerCount * fees_increment v.

Inductive TER :=
  | tesSUCCESS | tefINTERNAL | tefBAD_LEDGER | temHOOK_DATA_TOO_LARGE
  | tecINSUFFICIENT_RESERVE | tecDIR_FULL.

(* #define COMPUTE_HOOK_DATA_OWNER_COUNT(state_count): the ceiling of
   state_count / 5.0, exact on 32-bit counts *)
Definition COMPUTE_HOOK_DATA_OWNER_COUNT (state_count : Z) : Z :=
  (state_count + 4) / 5.

(** Keys of [changedState] in the order of [std::map<uint256, ...>]: the
    256-bit keys compare as big-endian numbers, byte by byte. *)
Fixpoint key_leb (a b : list Z) : bool :=
  match a, b with
  | [], _ => true
  | _ :: _, [] => false
  | x :: a', y :: b' => (x <? y) || ((x =? y) && key_leb a' b')
  end.

Definition entry_le (a b : list Z * (bool * list Z)) : Prop :=
  Is_true (key_leb (fst a) (fst b)).

Global Instance entry_le_dec a b : Decision (entry_le a b).
Proof. unfold entry_le. apply _. Defined.

(** What the runtime calls and does not define: the transaction codec, the
    hash, the ledger's directories, and the constants of applyHook.h, which
    is not among the sources. *)
Class Externals := {
  (* STTx(SerialIter): [None] when the constructor throws *)
  parse_STTx : list Z -> option STTx;
  (* Transaction(stpTrans, reason, app)->getStatus() == NEW *)
  status_is_NEW : STTx -> bool;
  (* sha512Half(HashPrefix::emitTxnNonce, txn id, counter, account) *)
  sha512Half_nonce : list Z -> Z -> list Z -> list Z;
  (* (int64_t)((double)(drops) * hook_api::fee_base_multiplier) *)
  scaled_fee_base : Z -> Z;
  (* view.dirRemove(directory, page, key, false) *)
  dirRemove : View -> list Z -> Z -> list Z -> bool;
  (* dirAdd(view, ownerDir, key, ...) *)
  dirAdd : View -> list Z -> list Z -> option Z;
  (* view.dirAppend(emittedDir, key, ...) *)
  dirAppend : View -> list Z -> option Z;
  (* hook_api constants *)
  drops_per_byte : Z;
  max_emit : Z;
  max_nonce : Z;
  (* width in bits of the iteration counters held in guard_map *)
  guard_counter_bits : Z }.

(** ** namespace hook: HookResult and HookContext

    Modelled from the spec: both structs are declared in applyHook.h, which
    is not among the sources.  The fields are those the source reads and
    writes ([hookCtx.expected_etxn_count], [hookCtx.result.changedState],
    ...), with the initial values the spec gives (expected emission count
    -1, empty tables). *)
Module hook.

Record HookResult := {
  hookSetTxnID     : list Z;
  hookHash         : list Z;
  account          : list Z;
  otxnAccount      : list Z;
  changedState     : gmap (list Z) (bool * list Z);
  emittedTxn       : list STTx;
  exitType         : ExitType;
  exitReason       : list Z;
  exitCode         : Z;
  instructionCount : Z }.

Record HookContext := {
  applyCtx            : ApplyContext;
  result              : HookResult;
  expected_etxn_count : Z;
  nonce_counter       : Z;
  nonce_used          : gmap (list Z) bool;
  generation          : Z;
  burden              : Z;
  fee_base            : Z;
  guard_map           : gmap Z Z }.

Definition with_changedState (v : gmap (list Z) (bool * list Z)) (r : HookResult) :=
  {| hookSetTxnID := hookSetTxnID r; hookHash := hookHash r; account := account r;
     otxnAccount := otxnAccount r; changedState := v; emittedTxn := emittedTxn r;
     exitType := exitType r; exitReason := exitReason r; exitCode := exitCode r;
     instructionCount := instructionCount r |}.

Definition with_emittedTxn (v : list STTx) (r : HookResult) :=
  {| hookSetTxnID := hookSetTxnID r; hookHash := hookHash r; account := account r;
     otxnAccount := otxnAccount r; changedState := changedState r; emittedTxn := v;
     exitType := exitType r; exitReason := exitReason r; exitCode := exitCode r;
     instructionCount := instructionCount r |}.

Definition with_exit (t : ExitType) (code : Z) (r : HookResult) :=
  {| hookSetTxnID := hookSetTxnID r; hookHash := hookHash r; account := account r;
     otxnAccount := otxnAccount r; changedState := changedState r;
     emittedTxn := emittedTxn r;
     exitType := t; exitReason := exitReason r; exitCode := code;
     instructionCount := instructionCount r |}.

Definition with_exitReason (v : list Z) (r : HookResult) :=
  {| hookSetTxnID := hookSetTxnID r; hookHash := hookHash r; account := account r;
     otxnAccount := otxnAccount r; changedState := changedState r;
     emittedTxn := emittedTxn r;
     exitType := exitType r; exitReason := v; exitCode := exitCode r;
     instructionCount := instructionCount r |}.

Definition with_result (v : HookResult) (c : HookContext) :=
  {| applyCtx := applyCtx c; result := v;
     expected_etxn_count := expected_etxn_count c; nonce_counter := nonce_counter c;
     nonce_used := nonce_used c; generation := generation c; burden := burden c;
     fee_base := fee_base c; guard_map := guard_map c |}.

Definition with_expected_etxn_count (v : Z) (c : HookContext) :=
  {| applyCtx := applyCtx c; result := result c;
     expected_etxn_count := v; nonce_counter := nonce_counter c;
     nonce_used := nonce_used c; generation := generation c; burden := burden c;
     fee_base := fee_base c; guard_map := guard_map c |}.

Definition with_nonce (counter : Z) (used : gmap (list Z) bool) (c : HookContext) :=
  {| applyCtx := applyCtx c; result := result c;
     expected_etxn_count := expected_etxn_count c; nonce_counter := counter;
     nonce_used := used; generation := generation c; burden := burden c;
     fee_base := fee_base c; guard_map := guard_map c |}.

Definition with_generation (v : Z) (c : HookContext) :=
  {| applyCtx := applyCtx c; result := result c;
     expected_etxn_count := expected_etxn_count c; nonce_counter := nonce_counter c;
     nonce_used := nonce_used c; generation := v; burden := burden c;
     fee_base := fee_base c; guard_map := guard_map c |}.

Definition with_burden (v : Z) (c : HookContext) :=
  {| applyCtx := applyCtx c; result := result c;
     expected_etxn_count := expected_etxn_count c; nonce_counter := nonce_counter c;
     nonce_used := nonce_used c; generation := generation c; burden := v;
     fee_base := fee_base c; guard_map := guard_map c |}.

Definition with_fee_base (v : Z) (c : HookContext) :=
  {| applyCtx := applyCtx c; result := result c;
     expected_etxn_count := expected_etxn_count c; nonce_counter := nonce_counter c;
     nonce_used := nonce_used c; generation := generation c; burden := burden c;
     fee_base := v; guard_map := guard_map c |}.

Definition with_guard_map (v : gmap Z Z) (c : HookContext) :=
  {| applyCtx := applyCtx c; result := result c;
     expected_etxn_count := expected_etxn_count c; nonce_counter := nonce_counter c;
     nonce_used := nonce_used c; generation := generation c; burden := burden c;
     fee_base := fee_base c; guard_map := v |}.

(* bits of cclMode *)
Definition cclAPPLY  : Z := 1.
Definition cclREMOVE : Z := 2.

End hook.

(** ** The serialized-object parser

    [get_stobject_length start maxptr ...]: the list is the bytes from
    [start] up to [maxptr], offsets ([upto], [payload_start]) count from
    [start].  [inl code] is a negative return, [inr] the length returned
    together with the out-parameters.  The first argument is the nesting
    still allowed: the source returns -4 when [recursion_depth > 10]. *)
Record sto_object := {
  so_length         : Z;
  so_type           : Z;
  so_field          : Z;
  so_payload_start  : Z;
  so_payload_length : Z }.

Definition byte_at (buf : list Z) (i : Z) : Z := nth (Z.to_nat i) buf 0.

(** The tag: [inr (type, field, upto)] with [upto] the offset after it. *)
Definition sto_header (buf : list Z) : Z + (Z * Z * Z) :=
  let end_ := Z.of_nat (length buf) in
  let upto := 0 in
  let high := Z.shiftr (byte_at buf upto) 4 in
  let low := Z.land (byte_at buf upto) 15 in
  let upto := upto + 1 in
  if upto >=? end_ then inl (-1)
  else
    if (high >? 0) && (low >? 0) then
      (* common type common field *)
      inr (high, low, upto)
    else if high >? 0 then
      (* common type, uncommon field *)
      inr (high, byte_at buf upto, upto + 1)
    else if low >? 0 then
      (* common field, uncommon type *)
      inr (byte_at buf upto, low, upto + 1)
    else
      (* uncommon type and field *)
      let type := byte_at buf upto in
      let upto := upto + 1 in
      if upto >=? end_ then inl (-1)
      else inr (type, byte_at buf upto, upto + 1).

(** The length of a field that is neither an object nor an array:
    [inr (length, upto)], with [length = -1] for objects and arrays. *)
Definition sto_leaf_length (buf : list Z) (type upto : Z) : Z + (Z * Z) :=
  let end_ := Z.of_nat (length buf) in
  let is_vl := (type =? 8) || (type =? 7) || (type =? 18) || (type =? 19) in
  if is_vl then
    let length := byte_at buf upto in
    let upto := upto + 1 in
    if upto >=? end_ then inl (-1)
    else if length <? 193 then inr (length, upto)
    else if (length >? 192) && (length <? 241) then
      let length := (length - 193) * 256 in
      let length := length + (byte_at buf upto + 193) in
      let upto := upto + 1 in
      if upto >? end_ then inl (-1) else inr (length, upto)
    else
      let b2 := byte_at buf upto in
      let upto := upto + 1 in
      if upto >=? end_ then inl (-1)
      else
        let length := (length - 241) * 65536 in
        let length := length + (12481 + b2 * 256 + byte_at buf upto) in
        let upto := upto + 1 in
        if upto >=? end_ then inl (-1) else inr (length, upto)
  else if ((type >=? 1) && (type <=? 5)) || (type =? 16) || (type =? 17) then
    inr ((if type =? 1 then 2 else
          if type =? 2 then 4 else
          if type =? 3 then 8 else
          if type =? 4 then 16 else
          if type =? 5 then 32 else
          if type =? 16 then 1 else
          if type =? 17 then 20 else -1), upto)
  else if type =? 6 then
    let length := if Z.shiftr (byte_at buf upto) 6 =? 1 then 8 else 48 in
    if upto >=? end_ then inl (-1) else inr (length, upto)
  else inr (-1, upto).

Definition sto_loop_bound : nat := 1024.

(** One round of the loop over the fields nested in an object or array:
    [inl upto] to go round again, [inr] for a [return].  [sub] is the
    recursive call. *)
Definition sto_nested_step (sub : list Z -> Z + sto_object) (buf : list Z)
    (type field payload_start : Z) (upto : Z) : Z + (Z + sto_object) :=
  let end_ := Z.of_nat (length buf) in
  match sub (drop (Z.to_nat upto) buf) with
  | inl _ => inr (inl (-1))
  | inr o =>
      let upto := upto + so_length o in
      if upto >=? end_ then inr (inl (-1))
      else if ((byte_at buf upto =? 225) && (type =? 14))
              || ((byte_at buf upto =? 241) && (type =? 15))
      then
        inr (inr {| so_length := upto + 1; so_type := type;
                    so_field := field;
                    so_payload_start := payload_start;
                    so_payload_length := upto - payload_start |})
      else inl upto
  end.

Fixpoint get_stobject_length (depth : nat) (buf : list Z) : Z + sto_object :=
  match depth with
  | O => inl (-4)
  | S depth' =>
      let end_ := Z.of_nat (length buf) in
      match sto_header buf with
      | inl code => inl code
      | inr (type, field, upto) =>
          if upto >=? end_ then inl (-1)
          else if (type <? 1) || (type >? 19) || ((type >=? 9) && (type <=? 13))
          then inl (-2)
          else
            match sto_leaf_length buf type upto with
            | inl code => inl code
            | inr (length, upto) =>
                if length >? -1 then
                  inr {| so_length := length + upto; so_type := type;
                         so_field := field; so_payload_start := upto;
                         so_payload_length := length |}
                else if (type =? 15) || (type =? 14) then
                  let payload_start := upto in
                  match iter_nat sto_loop_bound
                          (sto_nested_step (get_stobject_length depth') buf
                             type field payload_start) upto with
                  | inl _ => inl (-5)
                  | inr r => r
                  end
                else inl (-3)
            end
      end
  end.

(** [recursion_depth = 0] at the outermost call, and nesting up to 10. *)
Definition sto_max_depth : nat := 11.

(** The loop shared by sto_emplace, sto_erase and sto_validate:
    [for (int i = 0; i < 1024 && upto < end; ++i)] over the top-level fields
    of [buf].  [visit] receives the offset and the parsed field and answers
    [inr] to leave the loop ([break] or [return]) or [inl] with the loop
    state to go on; a negative length leaves the loop with [on_error]. *)
Definition sto_fields_step {A R : Type} (buf : list Z) (on_error : R)
    (visit : A -> Z -> sto_object -> A + R) (st : A * Z)
    : (A * Z) + ((A * Z) + R) :=
  let end_ := Z.of_nat (length buf) in
  let '(a, upto) := st in
  if upto <? end_ then
    match get_stobject_length sto_max_depth (drop (Z.to_nat upto) buf) with
    | inl _ => inr (inr on_error)
    | inr o =>
        match visit a upto o with
        | inl a' => inl (a', upto + so_length o)
        | inr r => inr (inr r)
        end
    end
  else inr (inl st).

Definition sto_fields_loop {A R : Type} (buf : list Z) (on_error : R)
    (visit : A -> Z -> sto_object -> A + R) (init : A) : (A * Z) + R :=
  match iter_nat sto_loop_bound (sto_fields_step buf on_error visit) (init, 0) with
  | inl st => inl st
  | inr (inl st) => inl st
  | inr (inr r) => inr r
  end.

(** ** Host calls

    A host call takes the context, the guest memory and its arguments
    (32-bit unsigned unless said otherwise) and answers its 64-bit return
    code together with the context and memory it leaves. *)
Section HostCalls.
Context `{Externals}.

(** *** Identity *)


Definition hook_account (hookCtx : hook.HookContext) (memory : list Z)
    (write_ptr ptr_len : Z) : Z * list Z :=
  if NOT_IN_BOUNDS write_ptr 20 (memory_length memory)
  then (OUT_OF_BOUNDS, memory)
  else WRITE_WASM_MEMORY_AND_RETURN memory write_ptr 20
         (hook.account (hook.result hookCtx)) 20.

Definition otxn_id (hookCtx : hook.HookContext) (memory : list Z)
    (write_ptr write_len : Z) : Z * list Z :=
  let txID := TransactionID (tx (hook.applyCtx hookCtx)) in
  let size := Z.of_nat (length txID) in
  if size >? write_len then (TOO_SMALL, memory)
  else if NOT_IN_BOUNDS write_ptr size (memory_length memory)
  then (OUT_OF_BOUNDS, memory)
  else WRITE_WASM_MEMORY_AND_RETURN memory write_ptr size txID size.

Definition nonce (hookCtx : hook.HookContext) (memory : list Z)
    (write_ptr write_len : Z) : Z * hook.HookContext * list Z :=
  if write_len <? 32 then (TOO_SMALL, hookCtx, memory)
  else if NOT_IN_BOUNDS write_ptr write_len (memory_length memory)
  then (OUT_OF_BOUNDS, hookCtx, memory)
  else if hook.nonce_counter hookCtx >? max_nonce
  then (TOO_MANY_NONCES, hookCtx, memory)
  else
    let hash := sha512Half_nonce (TransactionID (tx (hook.applyCtx hookCtx)))
                  (hook.nonce_counter hookCtx)
                  (hook.account (hook.result hookCtx)) in
    let hookCtx := hook.with_nonce (i32 (hook.nonce_counter hookCtx + 1))
                     (<[hash := true]> (hook.nonce_used hookCtx)) hookCtx in
    let '(code, memory) :=
      WRITE_WASM_MEMORY_AND_RETURN memory write_ptr 32 hash 32 in
    (code, hookCtx, memory).

(** *** Emission *)

Definition etxn_reserve (hookCtx : hook.HookContext) (count : Z)
    : Z * hook.HookContext :=
  if hook.expected_etxn_count hookCtx >? -1 then (ALREADY_SET, hookCtx)
  else if count >? max_emit then (TOO_BIG, hookCtx)
  else (count, hook.with_expected_etxn_count count hookCtx).

Definition otxn_burden (hookCtx : hook.HookContext) : Z * hook.HookContext :=
  if negb (hook.burden hookCtx =? 0) then (hook.burden hookCtx, hookCtx)
  else
    match sfEmitDetails (tx (hook.applyCtx hookCtx)) with
    | None => (1, hookCtx)
    | Some pd =>
        match sfEmitBurden pd with
        | None => (1, hookCtx)
        | Some burden =>
            let burden := Z.land burden (Z.shiftl 1 63 - 1) in
            (i64 burden, hook.with_burden (i64 burden) hookCtx)
        end
    end.

Definition otxn_generation (hookCtx : hook.HookContext) : Z * hook.HookContext :=
  if negb (hook.generation hookCtx =? 0) then (hook.generation hookCtx, hookCtx)
  else
    match sfEmitDetails (tx (hook.applyCtx hookCtx)) with
    | None => (1, hookCtx)
    | Some pd =>
        match sfEmitGeneration pd with
        | None => (1, hookCtx)
        | Some g =>
            let g := if u32 (g + 1) >? g then u32 (g + 1) else g in
            (g, hook.with_generation g hookCtx)
        end
    end.

Definition etxn_generation (hookCtx : hook.HookContext) : Z * hook.HookContext :=
  let '(g, hookCtx) := otxn_generation hookCtx in (i64 (g + 1), hookCtx).

Definition etxn_burden (hookCtx : hook.HookContext) : Z * hook.HookContext :=
  if hook.expected_etxn_count hookCtx <=? -1 then (PREREQUISITE_NOT_MET, hookCtx)
  else
    let '(b, hookCtx) := otxn_burden hookCtx in
    let last_burden := u64 b in
    let burden := u64 (last_burden * u64 (hook.expected_etxn_count hookCtx)) in
    if burden <? last_burden then (FEE_TOO_LARGE, hookCtx)
    else (i64 burden, hookCtx).

Definition fee_base (hookCtx : hook.HookContext) : Z :=
  scaled_fee_base (fees_base (view (hook.applyCtx hookCtx))).

Definition etxn_fee_base (hookCtx : hook.HookContext) (tx_byte_count : Z)
    : Z * hook.HookContext :=
  if hook.expected_etxn_count hookCtx <=? -1 then (PREREQUISITE_NOT_MET, hookCtx)
  else
    let base_fee := u64 (fee_base hookCtx) in
    let '(burden, hookCtx) := etxn_burden hookCtx in
    if burden <? 1 then (FEE_TOO_LARGE, hookCtx)
    else
      let fee := u64 (base_fee * u64 burden) in
      if (fee <? u64 burden) || negb (Z.land fee (Z.shiftl 3 62) =? 0)
      then (FEE_TOO_LARGE, hookCtx)
      else
        let hookCtx := hook.with_fee_base (i64 fee) hookCtx in
        (i64 (fee * drops_per_byte * tx_byte_count), hookCtx).

(** The seven rules of [emit], after the transaction has been parsed;
    [inl] is a rule that fails (the call returns EMISSION_FAILURE), [inr]
    the context left by the checks (the cached generation, burden and fee
    base). *)
Definition emit_rules (hookCtx : hook.HookContext) (stpTrans : STTx)
    (read_len : Z) : hook.HookContext + hook.HookContext :=
  (* rule 1: sfSequence must be present and 0 *)
  if negb (bool_decide (sfSequence stpTrans = Some 0)) then inl hookCtx
  else
  (* rule 2: sfSigningPubKey must be present and 00...00 *)
  match sfSigningPubKey stpTrans with
  | None => inl hookCtx
  | Some pk =>
  if negb (Z.of_nat (length pk) =? 33) && negb (Z.of_nat (length pk) =? 0)
  then inl hookCtx
  else if negb (forallb (Z.eqb 0) pk) then inl hookCtx
  else
  (* rule 3: sfEmitDetails must be present and valid *)
  match sfEmitDetails stpTrans with
  | None => inl hookCtx
  | Some emitDetails =>
  match sfEmitGeneration emitDetails, sfEmitBurden emitDetails,
        sfEmitParentTxnID emitDetails, sfEmitNonce emitDetails,
        sfEmitCallback emitDetails with
  | Some gen, Some bur, Some pTxnID, Some nonce, Some callback =>
  let '(g, hookCtx) := etxn_generation hookCtx in
  let gen_proper := u32 g in
  if negb (gen =? gen_proper) then inl hookCtx
  else
  let '(b, hookCtx) := etxn_burden hookCtx in
  let bur_proper := u64 b in
  if negb (bur =? bur_proper) then inl hookCtx
  else if negb (bool_decide (pTxnID = TransactionID (tx (hook.applyCtx hookCtx))))
  then inl hookCtx
  else if negb (bool_decide (is_Some (hook.nonce_used hookCtx !! nonce)))
  then inl hookCtx
  else if negb (bool_decide (callback = hook.account (hook.result hookCtx)))
  then inl hookCtx
  else
  (* rule 4: sfSignature must be absent *)
  if bool_decide (is_Some (sfSignature stpTrans)) then inl hookCtx
  else
  (* rule 5: LastLedgerSeq must be present and after current ledger *)
  let tx_lls := default 0 (sfLastLedgerSequence stpTrans) in
  let ledgerSeq := u32 (validLedgerIndex (hook.applyCtx hookCtx) + 1) in
  if negb (bool_decide (is_Some (sfLastLedgerSequence stpTrans)))
     || (tx_lls <? u32 (ledgerSeq + 1))
  then inl hookCtx
  else
  (* rule 6 *)
  match sfFirstLedgerSequence stpTrans with
  | None => inl hookCtx
  | Some fls =>
  if fls >? tx_lls then inl hookCtx
  else
  (* rule 7 check the emitted txn pays the appropriate fee *)
  let hookCtx :=
    if hook.fee_base hookCtx =? 0 then
      let '(f, hookCtx) := etxn_fee_base hookCtx read_len in
      hook.with_fee_base f hookCtx
    else hookCtx in
  let minfee := i64 (hook.fee_base hookCtx * drops_per_byte * read_len) in
  if (minfee <? 0) || (hook.fee_base hookCtx <? 0) then inl hookCtx
  else
  match sfFee stpTrans with
  | None => inl hookCtx
  | Some fee =>
  if fee <? minfee then inl hookCtx
  else if negb (status_is_NEW stpTrans) then inl hookCtx
  else inr hookCtx
  end
  end
  | _, _, _, _, _ => inl hookCtx
  end
  end
  end.

Definition emit (hookCtx : hook.HookContext) (memory : list Z)
    (read_ptr read_len : Z) : Z * hook.HookContext :=
  if NOT_IN_BOUNDS read_ptr read_len (memory_length memory)
  then (OUT_OF_BOUNDS, hookCtx)
  else if hook.expected_etxn_count hookCtx <? 0
  then (PREREQUISITE_NOT_MET, hookCtx)
  else if Z.of_nat (length (hook.emittedTxn (hook.result hookCtx)))
          >=? u64 (hook.expected_etxn_count hookCtx)
  then (TOO_MANY_EMITTED_TXN, hookCtx)
  else
    match parse_STTx (read_bytes memory read_ptr read_len) with
    | None => (EMISSION_FAILURE, hookCtx)
    | Some stpTrans =>
        match emit_rules hookCtx stpTrans read_len with
        | inl hookCtx => (EMISSION_FAILURE, hookCtx)
        | inr hookCtx =>
            let result := hook.result hookCtx in
            let result :=
              hook.with_emittedTxn (hook.emittedTxn result ++ [stpTrans]) result in
            (read_len, hook.with_result result hookCtx)
        end
    end.

(** *** State *)

Definition state_set (hookCtx : hook.HookContext) (memory : list Z)
    (read_ptr read_len kread_ptr kread_len : Z) : Z * hook.HookContext :=
  if NOT_IN_BOUNDS kread_ptr 32 (memory_length memory)
  then (OUT_OF_BOUNDS, hookCtx)
  else if negb ((read_ptr =? 0) && (read_len =? 0))
          && NOT_IN_BOUNDS read_ptr read_len (memory_length memory)
  then (OUT_OF_BOUNDS, hookCtx)
  else if kread_len >? 32 then (TOO_BIG, hookCtx)
  else if kread_len <? 1 then (TOO_SMALL, hookCtx)
  else
    let result := hook.result hookCtx in
    match hooks (view (hook.applyCtx hookCtx)) !! hook.account result with
    | None => (INTERNAL_ERROR, hookCtx)
    | Some sle =>
        let maxSize := sfHookStateDataMaxSize sle in
        if read_len >? maxSize then (TOO_BIG, hookCtx)
        else
          match make_state_key (read_bytes memory kread_ptr kread_len) with
          | None => (INTERNAL_ERROR, hookCtx) (* not reached: 1 <= kread_len <= 32 *)
          | Some key =>
              let changed :=
                <[key := (true, read_bytes memory read_ptr read_len)]>
                  (hook.changedState result) in
              (read_len,
               hook.with_result (hook.with_changedState changed result) hookCtx)
          end
    end.

Definition state_foreign (hookCtx : hook.HookContext) (memory : list Z)
    (write_ptr write_len kread_ptr kread_len aread_ptr aread_len : Z)
    : Z * hook.HookContext * list Z :=
  let is_foreign := negb (aread_ptr =? 0) in
  if NOT_IN_BOUNDS kread_ptr kread_len (memory_length memory)
     || NOT_IN_BOUNDS aread_ptr aread_len (memory_length memory)
     || NOT_IN_BOUNDS write_ptr write_len (memory_length memory)
  then (OUT_OF_BOUNDS, hookCtx, memory)
  else if kread_len >? 32 then (TOO_BIG, hookCtx, memory)
  else if is_foreign && negb (aread_len =? 20) then (INVALID_ACCOUNT, hookCtx, memory)
  else
    match make_state_key (read_bytes memory kread_ptr kread_len) with
    | None => (INVALID_ARGUMENT, hookCtx, memory)
    | Some key =>
        let result := hook.result hookCtx in
        (* first check if the requested state was previously cached *)
        match (if is_foreign then None else hook.changedState result !! key) with
        | Some cacheEntry =>
            let blob := snd cacheEntry in
            let size := Z.of_nat (length blob) in
            if write_ptr =? 0 then (data_as_int64 blob size, hookCtx, memory)
            else if size >? write_len then (TOO_SMALL, hookCtx, memory)
            else
              let '(code, memory) :=
                WRITE_WASM_MEMORY_AND_RETURN memory write_ptr write_len blob size in
              (code, hookCtx, memory)
        | None =>
            (* cache miss look it up *)
            let v := view (hook.applyCtx hookCtx) in
            match hooks v !! hook.account result with
            | None => (INTERNAL_ERROR, hookCtx, memory)
            | Some sle =>
                let acc := if is_foreign then read_bytes memory aread_ptr 20
                           else hook.account result in
                match hook_states v !! (acc, key) with
                | None => (DOESNT_EXIST, hookCtx, memory)
                | Some hsSLE =>
                    let b := sfHookStateData hsSLE in
                    let size := Z.of_nat (length b) in
                    let hookCtx :=
                      if is_foreign then hookCtx
                      else
                        hook.with_result
                          (hook.with_changedState
                             (<[key := (false, b)]> (hook.changedState result)) result)
                          hookCtx in
                    if write_ptr =? 0 then (data_as_int64 b size, hookCtx, memory)
                    else if size >? write_len then (TOO_SMALL, hookCtx, memory)
                    else
                      let '(code, memory) :=
                        WRITE_WASM_MEMORY_AND_RETURN memory write_ptr write_len b size in
                      (code, hookCtx, memory)
                end
            end
        end
    end.

Definition state (hookCtx : hook.HookContext) (memory : list Z)
    (write_ptr write_len kread_ptr kread_len : Z)
    : Z * hook.HookContext * list Z :=
  state_foreign hookCtx memory write_ptr write_len kread_ptr kread_len 0 0.

(** *** Guard *)

(* int32_t _g(uint32_t id, uint32_t maxitr) *)
Definition _g (hookCtx : hook.HookContext) (id maxitr : Z) : Z * hook.HookContext :=
  let guard_map :=
    match hook.guard_map hookCtx !! id with
    | None => <[id := 1]> (hook.guard_map hookCtx)
    | Some count =>
        <[id := (count + 1) mod 2 ^ guard_counter_bits]> (hook.guard_map hookCtx)
    end in
  let hookCtx := hook.with_guard_map guard_map hookCtx in
  if default 0 (guard_map !! id) >? maxitr then
    let result := hook.with_exit ROLLBACK GUARD_VIOLATION (hook.result hookCtx) in
    (RC_ROLLBACK, hook.with_result result hookCtx)
  else (1, hookCtx).

(** *** Serialized objects *)

(** Where sto_emplace injects: [(inject_start, inject_end)] as offsets from
    [start]; [inl PARSE_ERROR] when a field does not parse. *)
Definition sto_emplace_find (src : list Z) (field_id : Z) : Z + (Z * Z) :=
  let end_ := Z.of_nat (length src) in
  let visit (_ : unit) (upto : Z) (o : sto_object) : unit + (Z + (Z * Z)) :=
    let code := Z.shiftl (so_type o) 16 + so_field o in
    if code =? field_id then inr (inr (upto, upto + so_length o))
    else if code >? field_id then inr (inr (upto, upto))
    else inl tt in
  match sto_fields_loop src (inl PARSE_ERROR) visit tt with
  | inl _ => inr (end_, end_)
  | inr r => r
  end.

Definition sto_emplace (memory : list Z)
    (write_ptr write_len sread_ptr sread_len fread_ptr fread_len field_id : Z)
    : Z * list Z :=
  if NOT_IN_BOUNDS write_ptr write_len (memory_length memory)
  then (OUT_OF_BOUNDS, memory)
  else if NOT_IN_BOUNDS sread_ptr sread_len (memory_length memory)
  then (OUT_OF_BOUNDS, memory)
  else if NOT_IN_BOUNDS fread_ptr fread_len (memory_length memory)
  then (OUT_OF_BOUNDS, memory)
  else if write_len <? u32 (sread_len + fread_len) then (TOO_SMALL, memory)
  else if sread_len >? 1024 * 16 then (TOO_BIG, memory)
  else if fread_len >? 4096 then (TOO_BIG, memory)
  else
    let end_ := sread_len in
    match sto_emplace_find (read_bytes memory sread_ptr sread_len) field_id with
    | inl code => (code, memory)
    | inr (inject_start, inject_end) =>
        let bytes_written := 0 in
        (* part 1 *)
        match (if inject_start >? 0 then
                 WRITE_WASM_MEMORY memory bytes_written write_ptr write_len
                   (read_bytes memory sread_ptr inject_start) inject_start
               else inr (memory, bytes_written)) with
        | inl code => (code, memory)
        | inr (memory1, bytes_written) =>
            (* write the field *)
            match WRITE_WASM_MEMORY memory1 bytes_written
                    (write_ptr + bytes_written) (write_len - bytes_written)
                    (read_bytes memory1 fread_ptr fread_len) fread_len with
            | inl code => (code, memory1)
            | inr (memory2, bytes_written) =>
                (* part 2 *)
                if end_ - inject_end >? 0 then
                  match WRITE_WASM_MEMORY memory2 bytes_written
                          (write_ptr + bytes_written) (write_len - bytes_written)
                          (read_bytes memory2 (sread_ptr + inject_end)
                             (end_ - inject_end))
                          (end_ - inject_end) with
                  | inl code => (code, memory2)
                  | inr (memory3, bytes_written) => (bytes_written, memory3)
                  end
                else (bytes_written, memory2)
            end
        end
    end.

(** What sto_erase erases: [Some (erase_start, erase_end)] as offsets from
    [start], [None] for the two null pointers. *)
Definition sto_erase_find (src : list Z) (field_id : Z) : Z + option (Z * Z) :=
  let visit (found : option (Z * Z)) (upto : Z) (o : sto_object)
      : option (Z * Z) + (Z + option (Z * Z)) :=
    if Z.shiftl (so_type o) 16 + so_field o =? field_id
    then inl (Some (upto, upto + so_length o))
    else inl found in
  match sto_fields_loop src (inl PARSE_ERROR) visit None with
  | inl (found, _) => inr found
  | inr r => r
  end.

Definition sto_erase (memory : list Z)
    (write_ptr write_len read_ptr read_len field_id : Z) : Z * list Z :=
  if NOT_IN_BOUNDS write_ptr write_len (memory_length memory)
  then (OUT_OF_BOUNDS, memory)
  else if NOT_IN_BOUNDS read_ptr read_len (memory_length memory)
  then (OUT_OF_BOUNDS, memory)
  else if read_len >? 16 * 1024 then (TOO_BIG, memory)
  else if write_len <? read_len then (TOO_SMALL, memory)
  else
    let end_ := read_len in
    match sto_erase_find (read_bytes memory read_ptr read_len) field_id with
    | inl code => (code, memory)
    | inr None => (DOESNT_EXIST, memory)
    | inr (Some (erase_start, erase_end)) =>
        if (erase_start >=? 0) && (erase_end >=? 0)
           && (erase_start <=? end_) && (erase_end <=? end_) then
          (* do erasure via selective copy *)
          let bytes_written := 0 in
          (* part 1 *)
          match (if erase_start >? 0 then
                   WRITE_WASM_MEMORY memory bytes_written write_ptr write_len
                     (read_bytes memory read_ptr erase_start) erase_start
                 else inr (memory, bytes_written)) with
          | inl code => (code, memory)
          | inr (memory1, bytes_written) =>
              (* part 2 *)
              if end_ - erase_end >? 0 then
                match WRITE_WASM_MEMORY memory1 bytes_written
                        (write_ptr + bytes_written) (write_len - bytes_written)
                        (read_bytes memory1 (read_ptr + erase_end)
                           (end_ - erase_end))
                        (end_ - erase_end) with
                | inl code => (code, memory1)
                | inr (memory2, bytes_written) => (bytes_written, memory2)
                end
              else (bytes_written, memory1)
          end
        else (DOESNT_EXIST, memory)
    end.

Definition sto_validate (memory : list Z) (read_ptr read_len : Z) : Z :=
  if NOT_IN_BOUNDS read_ptr read_len (memory_length memory) then OUT_OF_BOUNDS
  else if read_len <? 1 then TOO_SMALL
  else
    match sto_fields_loop (A := unit) (read_bytes memory read_ptr read_len) 0
            (fun _ _ _ => inl tt) tt with
    | inl _ => 1
    | inr r => r
    end.

(** *** Floats in serialized form *)

(** The two loops of float_sto that bring an XRP amount to exponent -6;
    the state is (man, exp), [man] a uint64_t. *)
Definition xrp_scale_up (st : Z * Z) : (Z * Z) + (Z * Z) :=
  let '(man, exp) := st in
  if exp <? -6 then inl (Z.div man 10, i32 (exp + 1)) else inr st.

Definition xrp_scale_down (st : Z * Z) : (Z * Z) + (Z * Z) :=
  let '(man, exp) := st in
  if exp >? -6 then inl (u64 (man * 10), i32 (exp - 1)) else inr st.

Definition xrp_normalize (man exp : Z) : option (Z * Z) :=
  match loop hook_float.loop_bound xrp_scale_up (man, exp) with
  | None => None
  | Some st => loop hook_float.loop_bound xrp_scale_down st
  end.

(* the eight bytes out[0..7] *)
Definition float_sto_amount (is_xrp : bool) (man exp : Z) (neg : bool)
    : option (list Z) :=
  if is_xrp then
    match xrp_normalize man exp with
    | None => None
    | Some (man, exp) =>
        Some [ u8 ((if neg then 0 else 64) + u8 (Z.land (Z.shiftr man 56) 63));
               u8 (Z.land (Z.shiftr man 48) 255);
               u8 (Z.land (Z.shiftr man 40) 255);
               u8 (Z.land (Z.shiftr man 32) 255);
               u8 (Z.land (Z.shiftr man 24) 255);
               u8 (Z.land (Z.shiftr man 16) 255);
               u8 (Z.land (Z.shiftr man 8) 255);
               u8 (Z.land (Z.shiftr man 0) 255) ]
    end
  else if man =? 0 then Some [192; 0; 0; 0; 0; 0; 0; 0]
  else
    let exp := i32 (exp + 97) in
    Some [ u8 ((if neg then 128 else 192) + u8 (Z.shiftr exp 2));
           u8 (u8 (Z.shiftl (u8 (Z.land exp 3)) 6)
               + Z.land (u8 (Z.shiftr man 48)) 63);
           u8 (Z.land (Z.shiftr man 40) 255);
           u8 (Z.land (Z.shiftr man 32) 255);
           u8 (Z.land (Z.shiftr man 24) 255);
           u8 (Z.land (Z.shiftr man 16) 255);
           u8 (Z.land (Z.shiftr man 8) 255);
           u8 (Z.land (Z.shiftr man 0) 255) ].

(* the field header written by float_sto *)
Definition float_sto_header (is_xrp is_short : bool) (type field : Z) : list Z :=
  if is_xrp || is_short then []
  else if (field <? 16) && (type <? 16) then
    [ u8 (Z.shiftl (u8 type) 4 + u8 field) ]
  else if (field >=? 16) && (type <? 16) then
    [ u8 (Z.shiftl (u8 type) 4); u8 field ]
  else if (field <? 16) && (type >=? 16) then
    [ u8 (Z.shiftl (u8 field) 4); u8 type ]
  else [ 0; u8 type; u8 field ].

(** [None]: the bound of the model's loops is reached (see
    [float_sto_total]). *)
Definition float_sto (memory : list Z)
    (write_ptr write_len cread_ptr cread_len iread_ptr iread_len : Z)
    (float1 : Z) (field_code : Z) : option (Z * list Z) :=
  if invalid_float float1 then Some (INVALID_FLOAT, memory)
  else
    let field := Z.land field_code 65535 in
    let type := u16 (Z.shiftr field_code 16) in
    let is_xrp := field_code =? 0 in
    let is_short := field_code =? 4294967295 in
    let bytes_needed :=
      8 + (if (field =? 0) && (type =? 0) then 0 else
           if (field =? 65535) && (type =? 65535) then 0 else
           if (field <? 16) && (type <? 16) then 1 else
           if (field >=? 16) && (type <? 16) then 2 else
           if (field <? 16) && (type >=? 16) then 2 else 3) in
    if NOT_IN_BOUNDS write_ptr write_len (memory_length memory)
    then Some (OUT_OF_BOUNDS, memory)
    else if negb is_xrp && negb is_short
            && ((cread_ptr =? 0) && (cread_len =? 0)
                && (iread_ptr =? 0) && (iread_len =? 0))
    then Some (INVALID_ARGUMENT, memory)
    else if negb is_xrp && negb is_short
            && (NOT_IN_BOUNDS cread_ptr cread_len (memory_length memory)
                || NOT_IN_BOUNDS iread_ptr iread_len (memory_length memory))
    then Some (OUT_OF_BOUNDS, memory)
    else if negb is_xrp && negb is_short
            && (negb (cread_len =? 20) || negb (iread_len =? 20))
    then Some (INVALID_ARGUMENT, memory)
    else
      let bytes_needed :=
        if negb is_xrp && negb is_short then bytes_needed + 40 else bytes_needed in
      if bytes_needed >? write_len then Some (TOO_SMALL, memory)
      else
        let header := float_sto_header is_xrp is_short type field in
        let memory := setBytes memory header write_ptr (Z.of_nat (length header)) in
        let bytes_written := Z.of_nat (length header) in
        let man := hook_float.get_mantissa float1 in
        let exp := hook_float.get_exponent float1 in
        let neg := hook_float.is_negative float1 in
        match float_sto_amount is_xrp man exp neg with
        | None => None
        | Some out =>
            match WRITE_WASM_MEMORY memory bytes_written
                    (write_ptr + bytes_written) (write_len - bytes_written)
                    out 8 with
            | inl code => Some (code, memory)
            | inr (memory, bytes_written) =>
                if negb is_xrp && negb is_short then
                  match WRITE_WASM_MEMORY memory bytes_written
                          (write_ptr + bytes_written) (write_len - bytes_written)
                          (read_bytes memory cread_ptr 20) 20 with
                  | inl code => Some (code, memory)
                  | inr (memory1, bytes_written) =>
                      match WRITE_WASM_MEMORY memory1 bytes_written
                              (write_ptr + bytes_written)
                              (write_len - bytes_written)
                              (read_bytes memory1 iread_ptr 20) 20 with
                      | inl code => Some (code, memory1)
                      | inr (memory2, bytes_written) => Some (bytes_written, memory2)
                      end
                  end
                else Some (bytes_written, memory)
            end
        end.

(** The eight bytes at [upto] decoded by float_sto_set: always as the
    sign, exponent and mantissa of the non-native amount format. *)
Definition float_sto_set_amount (upto : list Z) : option Z :=
  match upto with
  | [b0; b1; b2; b3; b4; b5; b6; b7] =>
      let is_negative := Z.land b0 64 =? 0 in
      let exponent := Z.shiftl (Z.land b0 63) 2 in
      let exponent := exponent + Z.shiftr b1 6 in
      let exponent := exponent - 97 in
      let mantissa := u64 (Z.shiftl (Z.land b1 63) 48) in
      let mantissa := u64 (mantissa + u64 (Z.shiftl b2 40)) in
      let mantissa := u64 (mantissa + u64 (Z.shiftl b3 32)) in
      let mantissa := u64 (mantissa + u64 (Z.shiftl b4 24)) in
      let mantissa := u64 (mantissa + u64 (Z.shiftl b5 16)) in
      let mantissa := u64 (mantissa + u64 (Z.shiftl b6 8)) in
      let mantissa := u64 (mantissa + b7) in
      if mantissa =? 0 then Some 0
      else
        hook_float.float_set exponent
          (i64 ((if is_negative then -1 else 1) * i64 mantissa))
  | _ => None
  end.

(** float_sto_set checks neither [read_ptr] nor [read_len] against the
    memory.  [None]: a byte is read outside the guest memory, where the
    source has no defined result (or the bound of the model's loops is
    reached, see [float_set_total]). *)
Definition float_sto_set (memory : list Z) (read_ptr read_len : Z) : option Z :=
  if read_len <? 8 then Some NOT_AN_OBJECT
  else
    let skip : option (Z + Z) :=
      if read_len >? 8 then
        match memory !! Z.to_nat read_ptr with
        | None => None
        | Some b =>
            let hi := Z.shiftr b 4 in
            let lo := Z.land b 15 in
            if (hi =? 0) && (lo =? 0) then
              (* typecode >= 16 && fieldcode >= 16 *)
              if read_len <? 11 then Some (inl NOT_AN_OBJECT) else Some (inr 3)
            else if (hi =? 0) || (lo =? 0) then
              (* typecode >= 16 && fieldcode < 16 *)
              if read_len <? 10 then Some (inl NOT_AN_OBJECT) else Some (inr 2)
            else
              (* typecode < 16 && fieldcode < 16 *)
              Some (inr 1)
        end
      else Some (inr 0) in
    match skip with
    | None => None
    | Some (inl code) => Some code
    | Some (inr n) =>
        let upto := read_ptr + n in
        if upto + 8 >? memory_length memory then None
        else float_sto_set_amount (read_bytes memory upto 8)
    end.

(** *** Commit *)

(* TER hook::setHookState(hookResult, applyCtx, hookStateKeylet, key, data) *)
Definition setHookState (hookResult : hook.HookResult) (v : View)
    (key : list Z) (data : list Z) : TER * View :=
  let acc := hook.account hookResult in
  match account_roots v !! acc with
  | None => (tefINTERNAL, v)
  | Some sle =>
  match hooks v !! acc with
  | None => (tefINTERNAL, v)
  | Some hook_sle =>
      let hookDataMax := sfHookStateDataMaxSize hook_sle in
      (* if the blob is too large don't set it *)
      if Z.of_nat (length data) >? hookDataMax then (temHOOK_DATA_TOO_LARGE, v)
      else
        let stateCount := sfHookStateCount hook_sle in
        let oldStateReserve := u32 (COMPUTE_HOOK_DATA_OWNER_COUNT stateCount) in
        let oldHookState := hook_states v !! (acc, key) in
        (* if the blob is nil then delete the entry if it exists *)
        if Z.of_nat (length data) =? 0 then
          match oldHookState with
          | None => (tesSUCCESS, v)
          | Some old =>
              let hint := default 0 (sfOwnerNode old) in
              if negb (dirRemove v acc hint key) then (tefBAD_LEDGER, v)
              else
                let v := with_hook_states (delete (acc, key) (hook_states v)) v in
                let stateCount :=
                  if stateCount >? 0 then stateCount - 1 else stateCount in
                let v :=
                  if COMPUTE_HOOK_DATA_OWNER_COUNT stateCount <? oldStateReserve
                  then adjustOwnerCount v acc (-1) else v in
                let v :=
                  with_hooks
                    (<[acc := {| sfHookStateDataMaxSize := hookDataMax;
                                 sfHookStateCount :=
                                   u32 (COMPUTE_HOOK_DATA_OWNER_COUNT stateCount) |}]>
                       (hooks v)) v in
                (tesSUCCESS, v)
          end
        else
          let ownerCount := sfOwnerCount sle in
          let grown : TER + View :=
            match oldHookState with
            | Some _ => inr (with_hook_states (delete (acc, key) (hook_states v)) v)
            | None =>
                let stateCount := u32 (stateCount + 1) in
                let reserved : TER + View :=
                  if COMPUTE_HOOK_DATA_OWNER_COUNT stateCount >? oldStateReserve then
                    let ownerCount := u32 (ownerCount + 1) in
                    let newReserve := accountReserve v ownerCount in
                    if sfBalance sle <? newReserve then inl tecINSUFFICIENT_RESERVE
                    else inr (adjustOwnerCount v acc 1)
                  else inr v in
                match reserved with
                | inl e => inl e
                | inr v =>
                    (* update state count *)
                    inr (with_hooks
                           (<[acc := {| sfHookStateDataMaxSize := hookDataMax;
                                        sfHookStateCount := stateCount |}]>
                              (hooks v)) v)
                end
            end in
          match grown with
          | inl e => (e, v)
          | inr v =>
              (* add new data to ledger *)
              let newHookState :=
                {| sfHookStateData := data; sfHookStateKey := key;
                   sfAccount := acc; sfOwnerNode := None |} in
              let v := with_hook_states (<[(acc, key) := newHookState]> (hook_states v)) v in
              match oldHookState with
              | Some _ => (tesSUCCESS, v)
              | None =>
                  match dirAdd v acc key with
                  | None => (tecDIR_FULL, v)
                  | Some page =>
                      let newHookState :=
                        {| sfHookStateData := data; sfHookStateKey := key;
                           sfAccount := acc; sfOwnerNode := Some page |} in
                      (tesSUCCESS,
                       with_hook_states
                         (<[(acc, key) := newHookState]> (hook_states v)) v)
                  end
              end
          end
  end
  end.

(** The loop over [changedState]: every modified entry is counted and
    written with [setHookState], whose result is not looked at. *)
Fixpoint commit_state_changes (hookResult : hook.HookResult)
    (entries : list (list Z * (bool * list Z))) (v : View) (change_count : Z)
    : View * Z :=
  match entries with
  | [] => (v, change_count)
  | (key, (is_modified, blob)) :: rest =>
      if is_modified then
        let change_count := u16 (change_count + 1) in
        let '(_, v) := setHookState hookResult v key blob in
        commit_state_changes hookResult rest v change_count
      else commit_state_changes hookResult rest v change_count
  end.

(** The loop over the emitted-transaction queue; it answers what is left
    of the queue (the loop is left by [break] when the directory is
    full). *)
Fixpoint commit_emitted (queue : list STTx) (v : View) (emission_count : Z)
    : list STTx * View * Z :=
  match queue with
  | [] => ([], v, emission_count)
  | tpTrans :: rest =>
      let id := TransactionID tpTrans in
      match emitted v !! id with
      | Some _ => commit_emitted rest v emission_count
      | None =>
          let emission_count := u16 (emission_count + 1) in
          match dirAppend v id with
          | Some page =>
              let sleEmitted :=
                {| sfEmittedTxn := tpTrans; emitted_sfOwnerNode := page |} in
              commit_emitted rest (with_emitted (<[id := sleEmitted]> (emitted v)) v)
                emission_count
          | None => (queue, v, emission_count)
          end
      end
  end.

(* remove this (activating) transaction from the emitted directory *)
Definition commit_remove (applyCtx : ApplyContext) (v : View) : View :=
  match sfEmitDetails (tx applyCtx) with
  | None => v
  | Some _ =>
      let key := TransactionID (tx applyCtx) in
      match emitted v !! key with
      | None => v
      | Some sle =>
          if negb (dirRemove v [] (emitted_sfOwnerNode sle) key) then v
          else with_emitted (delete key (emitted v)) v
      end
  end.

(* void hook::commitChangesToLedger(hookResult, applyCtx, uint8_t cclMode) *)
Definition commitChangesToLedger (hookResult : hook.HookResult)
    (applyCtx : ApplyContext) (cclMode : Z) : hook.HookResult * ApplyContext :=
  if cclMode =? 0 then (hookResult, applyCtx)
  else
    let v := view applyCtx in
    (* write hook state changes, if we are allowed to *)
    let '(v, change_count) :=
      if negb (Z.land cclMode hook.cclAPPLY =? 0) then
        commit_state_changes hookResult
          (merge_sort entry_le (map_to_list (hook.changedState hookResult))) v 0
      else (v, 0) in
    (* open views do not modify add/remove ledger entries *)
    if open v then (hookResult, with_view v applyCtx)
    else
      let '(exec_index, v) := nextHookExecutionIndex v in
      let exec_index := u16 exec_index in
      let '(queue, v, emission_count) :=
        if negb (Z.land cclMode hook.cclAPPLY =? 0) then
          commit_emitted (hook.emittedTxn hookResult) v 0
        else (hook.emittedTxn hookResult, v, 0) in
      let hookResult := hook.with_emittedTxn queue hookResult in
      let v :=
        if negb (Z.land cclMode hook.cclREMOVE =? 0) then commit_remove applyCtx v
        else v in
      (* add a metadata entry for this hook execution result *)
      let unsigned_exit_code :=
        if hook.exitCode hookResult >=? 0 then u64 (hook.exitCode hookResult)
        else u64 (9223372036854775808 + u64 (i64 (-1 * hook.exitCode hookResult))) in
      let meta :=
        {| sfHookResult := hook.exitType hookResult;
           sfHookHash := hook.hookSetTxnID hookResult;
           sfHookAccount := hook.account hookResult;
           sfHookReturnCode := unsigned_exit_code;
           sfHookReturnString := hook.exitReason hookResult;
           sfHookInstructionCount := hook.instructionCount hookResult;
           sfHookEmitCount := emission_count;
           sfHookExecutionIndex := exec_index;
           sfHookStateChangeCount := change_count |} in
      (hookResult, with_view (addHookMetaData meta v) applyCtx).

(** sto_subfield: the offset and length of the payload of the first field
    with the code [field_id] (of the whole field, for an array), joined as
    [(offset << 32) + length]. *)
Definition sto_subfield (memory : list Z) (read_ptr read_len field_id : Z) : Z :=
  if NOT_IN_BOUNDS read_ptr read_len (memory_length memory) then OUT_OF_BOUNDS
  else if read_len <? 1 then TOO_SMALL
  else
    let visit (_ : unit) (upto : Z) (o : sto_object) : unit + Z :=
      if Z.shiftl (so_type o) 16 + so_field o =? field_id then
        if so_type o =? 15 then
          (* we return arrays fully formed *)
          inr (i64 (i64 (Z.shiftl upto 32) + u32 (so_length o)))
        else
          (* return pointers to all other objects as payloads *)
          inr (i64 (i64 (Z.shiftl (upto + so_payload_start o) 32)
                    + u32 (so_payload_length o)))
      else inl tt in
    match sto_fields_loop (read_bytes memory read_ptr read_len) PARSE_ERROR visit tt with
    | inl _ => DOESNT_EXIST
    | inr r => r
    end.

(** *** Emit details *)

(** Modelled from the spec: [hook_api::etxn_details_size] is declared in
    applyHook.h, which is not among the sources; the spec gives the size of
    the EmitDetails wrapper as 105 bytes, the number etxn_details returns. *)
Definition etxn_details_size : Z := 105.

Definition etxn_details (hookCtx : hook.HookContext) (memory : list Z)
    (write_ptr write_len : Z) : Z * hook.HookContext * list Z :=
  if NOT_IN_BOUNDS write_ptr write_len (memory_length memory)
  then (OUT_OF_BOUNDS, hookCtx, memory)
  else if write_len <? etxn_details_size then (TOO_SMALL, hookCtx, memory)
  else if hook.expected_etxn_count hookCtx <=? -1
  then (PREREQUISITE_NOT_MET, hookCtx, memory)
  else
    let '(g, hookCtx) := etxn_generation hookCtx in
    let generation := u32 g in
    let '(burden, hookCtx) := etxn_burden hookCtx in
    if burden <? 1 then (FEE_TOO_LARGE, hookCtx, memory)
    else
      let out := write_ptr in
      let memory :=
        setBytes memory
          [ 236;                                  (* begin sfEmitDetails *)
            32; 43;                               (* sfEmitGeneration preamble *)
            Z.land (Z.shiftr generation 24) 255;
            Z.land (Z.shiftr generation 16) 255;
            Z.land (Z.shiftr generation 8) 255;
            Z.land (Z.shiftr generation 0) 255;
            60;                                   (* sfEmitBurden preamble *)
            Z.land (Z.shiftr burden 56) 255;
            Z.land (Z.shiftr burden 48) 255;
            Z.land (Z.shiftr burden 40) 255;
            Z.land (Z.shiftr burden 32) 255;
            Z.land (Z.shiftr burden 24) 255;
            Z.land (Z.shiftr burden 16) 255;
            Z.land (Z.shiftr burden 8) 255;
            Z.land (Z.shiftr burden 0) 255;
            90 ]                                  (* sfEmitParentTxnID preamble *)
          out 17 in
      let out := out + 17 in
      let '(n, memory) := otxn_id hookCtx memory (u32 out) 32 in
      if negb (n =? 32) then (INTERNAL_ERROR, hookCtx, memory)
      else
        let out := out + 32 in
        let memory := setBytes memory [91] out 1 in     (* sfEmitNonce *)
        let out := out + 1 in
        let '(n, hookCtx, memory) := nonce hookCtx memory (u32 out) 32 in
        if negb (n =? 32) then (INTERNAL_ERROR, hookCtx, memory)
        else
          let out := out + 32 in
          let memory := setBytes memory [137; 20] out 2 in (* sfEmitCallback preamble *)
          let out := out + 2 in
          let '(n, memory) := hook_account hookCtx memory (u32 out) 20 in
          if negb (n =? 20) then (INTERNAL_ERROR, hookCtx, memory)
          else
            let out := out + 20 in
            let memory := setBytes memory [225] out 1 in (* end object *)
            (105, hookCtx, memory).

(** *** Exit *)

(* inline bool is_UTF16LE(const uint8_t* buffer, size_t len): the loop over
   the pairs of bytes of the first [len] bytes *)
Fixpoint is_UTF16LE_loop (buffer : list Z) : bool :=
  match buffer with
  | b0 :: b1 :: rest =>
      if (b0 =? 0) || negb (b1 =? 0) then false else is_UTF16LE_loop rest
  | _ => true
  end.

Definition is_UTF16LE (buffer : list Z) (len : Z) : bool :=
  if negb (len mod 2 =? 0) || (len =? 0) then false
  else is_UTF16LE_loop (take (Z.to_nat len) buffer).

(* #define HOOK_EXIT(read_ptr, read_len, error_code, exit_type) *)
Definition HOOK_EXIT (hookCtx : hook.HookContext) (memory : list Z)
    (read_ptr read_len error_code : Z) (exit_type : ExitType)
    : Z * hook.HookContext :=
  let read_len := if read_len >? 64 then 64 else read_len in
  let reason : Z + option (list Z) :=
    if negb (read_ptr =? 0) then
      if NOT_IN_BOUNDS read_ptr read_len (memory_length memory) then inl OUT_OF_BOUNDS
      else
        (* assembly script and some other languages use utf16 for strings *)
        if is_UTF16LE (drop (Z.to_nat read_ptr) memory) read_len then
          let len := read_len / 2 in
          inr (Some (map (fun i => byte_at memory (read_ptr + Z.of_nat i * 2))
                       (seq 0 (Z.to_nat len))))
        else inr (Some (read_bytes memory read_ptr read_len))
    else inr None in
  match reason with
  | inl code => (code, hookCtx)
  | inr reason =>
      let result := hook.result hookCtx in
      let result :=
        match reason with
        | Some s => hook.with_exitReason s result
        | None => result
        end in
      let result := hook.with_exit exit_type error_code result in
      (match exit_type with ACCEPT => RC_ACCEPT | _ => RC_ROLLBACK end,
       hook.with_result result hookCtx)
  end.

Definition accept (hookCtx : hook.HookContext) (memory : list Z)
    (read_ptr read_len error_code : Z) : Z * hook.HookContext :=
  HOOK_EXIT hookCtx memory read_ptr read_len error_code ACCEPT.

Definition rollback (hookCtx : hook.HookContext) (memory : list Z)
    (read_ptr read_len error_code : Z) : Z * hook.HookContext :=
  HOOK_EXIT hookCtx memory read_ptr read_len error_code ROLLBACK.

(** *** Keylets and the HookOn field *)

Record Keylet := { kl_type : Z; kl_key : list Z }.

(* int64_t serialize_keylet(ripple::Keylet& kl, uint8_t* memory,
   uint32_t write_ptr, uint32_t write_len); the key is a uint256 *)
Definition serialize_keylet (kl : Keylet) (memory : list Z)
    (write_ptr write_len : Z) : Z * list Z :=
  if write_len <? 34 then (TOO_SMALL, memory)
  else
    let memory :=
      setBytes memory
        [ Z.land (Z.shiftr (kl_type kl) 8) 255;
          Z.land (Z.shiftr (kl_type kl) 0) 255 ] write_ptr 2 in
    let memory := setBytes memory (kl_key kl) (write_ptr + 2) 32 in
    (34, memory).

(* std::optional<ripple::Keylet> unserialize_keylet(uint8_t* ptr, uint32_t len) *)
Definition unserialize_keylet (ptr : list Z) (len : Z) : option Keylet :=
  if negb (len =? 34) then None
  else
    let ktype := u16 (Z.shiftl (byte_at ptr 0) 8 + byte_at ptr 1) in
    Some {| kl_type := ktype; kl_key := take 32 (drop 2 ptr) |}.

(* bool hook::canHook(ripple::TxType txType, uint64_t hookOn); the
   transaction type ttHOOK_SET is declared in TxFormats.h, which is not among
   the sources, and is an argument here *)
Definition canHook (ttHOOK_SET : Z) (txType hookOn : Z) : bool :=
  (* invert ttHOOK_SET bit *)
  let hookOn := Z.lxor hookOn (u64 (Z.shiftl 1 ttHOOK_SET)) in
  (* invert entire field *)
  let hookOn := Z.lxor hookOn 18446744073709551615 in
  negb (Z.land (Z.shiftr hookOn txType) 1 =? 0).

(** *** Arrays *)

(** sto_subarray: the offset and length of the element [index_id] of an
    array, joined as [(offset << 32) + length]. *)
Definition sto_subarray (memory : list Z) (read_ptr read_len index_id : Z) : Z :=
  if NOT_IN_BOUNDS read_ptr read_len (memory_length memory) then OUT_OF_BOUNDS
  else if read_len <? 1 then TOO_SMALL
  else
    let buf := read_bytes memory read_ptr read_len in
    let upto := if Z.land (byte_at buf 0) 240 =? 240 then 1 else 0 in
    let visit (i : Z) (upto : Z) (o : sto_object) : Z + Z :=
      if i =? index_id then
        inr (i64 (i64 (Z.shiftl upto 32) + u32 (so_length o)))
      else inl (i + 1) in
    match iter_nat sto_loop_bound (sto_fields_step buf PARSE_ERROR visit) (0, upto) with
    | inl _ => DOESNT_EXIST
    | inr (inl _) => DOESNT_EXIST
    | inr (inr r) => r
    end.

End HostCalls.

(** ** Vocabulary of the properties *)

(** A code is the sum of its three fields: mantissa in bits 0..53, biased
    exponent in bits 54..61, sign in bit 62. *)
Definition pack (s e m : Z) : Z := m + e * 2^54 + s * 2^62.

(** Mantissa and exponent in the canonical ranges. *)
Definition normalized (f : Z) : Prop :=
  hook_float.minMantissa <= hook_float.get_mantissa f <= hook_float.maxMantissa /\
  hook_float.minExponent <= hook_float.get_exponent f <= hook_float.maxExponent.

(** What a float operation may answer: an error code, the zero, or a
    normalised float. *)
Definition float_ok (r : Z) : Prop := r < 0 \/ r = 0 \/ (0 < r /\ normalized r).

(** What the two normalisation loops establish, and the measures by which
    they end. *)
Definition up_post (r : Z + Z * Z) : Prop :=
  match r with
  | inl code => code = INVALID_FLOAT
  | inr (m, _) => hook_float.minMantissa <= m
  end.

Definition down_post (r : Z + Z * Z) : Prop :=
  match r with
  | inl code => code = INVALID_FLOAT
  | inr (m, _) => hook_float.minMantissa <= m <= hook_float.maxMantissa
  end.

Definition up_measure (st : Z * Z) : Z :=
  let e := snd st in
  if (e <? - 2^31) || (2^31 <=? e) then 2^31 + 200
  else if hook_float.minExponent <=? e then e + 98
  else if e =? - 2^31 then 2^31 + 199
  else 1.

Definition down_measure (st : Z * Z) : Z :=
  let e := snd st in
  if (e <? - 2^31) || (2^31 <=? e) then 2^31 + 200
  else if e <=? hook_float.maxExponent then 82 - e
  else if e =? 2^31 - 1 then 2^31 + 199
  else 1.

(** The values produced by float_set (the host call and the one of the
    namespace), float_sto_set, float_negate, float_sign_set,
    float_exponent_set and float_one. *)
Inductive float_result : Z -> Prop :=
  | by_float_set exp mantissa r :
      float_set exp mantissa = Some r -> float_result r
  | by_hook_float_set exp mantissa r :
      hook_float.float_set exp mantissa = Some r -> float_result r
  | by_float_sto_set memory read_ptr read_len r :
      float_sto_set memory read_ptr read_len = Some r -> float_result r
  | by_float_negate float1 :
      is_i64 float1 -> float_result (float_negate float1)
  | by_float_sign_set float1 negative :
      is_i64 float1 -> float_result (float_sign_set float1 negative)
  | by_float_exponent_set float1 exponent :
      is_i64 float1 -> float_result (float_exponent_set float1 exponent)
  | by_float_one : float_result float_one.

(** [k] calls of [_g id maxitr] one after the other: the values returned and
    the context left. *)
Fixpoint guard_calls `{Externals} (k : nat) (hookCtx : hook.HookContext)
    (id maxitr : Z) : list Z * hook.HookContext :=
  match k with
  | O => ([], hookCtx)
  | S k' =>
      let '(r, hookCtx) := _g hookCtx id maxitr in
      let '(rs, hookCtx) := guard_calls k' hookCtx id maxitr in
      (r :: rs, hookCtx)
  end.

(** Host calls other than emit and etxn_reserve leave the queue of emitted
    transactions and the expected emission count alone. *)
Definition same_emission (c c' : hook.HookContext) : Prop :=
  hook.emittedTxn (hook.result c') = hook.emittedTxn (hook.result c) /\
  hook.expected_etxn_count c' = hook.expected_etxn_count c.

(** A run of the guest as far as emission goes: calls of emit, on whatever
    memory the guest has at that point, with other host calls in between;
    the list holds the values returned by the emit calls, in order. *)
Inductive emit_run `{Externals} : hook.HookContext -> list Z -> hook.HookContext -> Prop :=
  | emit_run_done c : emit_run c [] c
  | emit_run_emit c memory read_ptr read_len r c' rs c'' :
      is_u32 read_ptr -> is_u32 read_len ->
      emit c memory read_ptr read_len = (r, c') ->
      emit_run c' rs c'' ->
      emit_run c (r :: rs) c''
  | emit_run_other c c' rs c'' :
      same_emission c c' -> emit_run c' rs c'' -> emit_run c rs c''.

(** The emit calls of a run that succeeded: those that returned the length
    accepted rather than a (negative) error code. *)
Definition successes (rs : list Z) : Z := Z.of_nat (length (filter (fun r => 0 <= r) rs)).

(** The number of modified entries of the state cache. *)
Definition modified_count (changedState : gmap (list Z) (bool * list Z)) : Z :=
  Z.of_nat (length (filter (fun e : list Z * (bool * list Z) => fst (snd e) = true)
                      (map_to_list changedState))).

(** The 64-bit code of the metadata for a signed exit code: the magnitude,
    with bit 63 set for a negative one. *)
Definition return_code_encoding (exitCode : Z) : Z :=
  if 0 <=? exitCode then exitCode else 2^63 + (- exitCode).

(** The iteration count of guard [id], 0 when the guard has not been met. *)
Definition guard_count (hookCtx : hook.HookContext) (id : Z) : Z :=
  default 0 (hook.guard_map hookCtx !! id).

(** What the helpers of emit leave alone: everything but the three caches
    (generation, burden, fee base). *)
Definition caches_only (c c' : hook.HookContext) : Prop :=
  hook.applyCtx c' = hook.applyCtx c /\ hook.result c' = hook.result c /\
  hook.expected_etxn_count c' = hook.expected_etxn_count c /\
  hook.nonce_counter c' = hook.nonce_counter c /\
  hook.nonce_used c' = hook.nonce_used c /\
  hook.guard_map c' = hook.guard_map c.

(** The fee the spec asks of a candidate of [read_len] bytes:
    base_fee * burden * drops_per_byte * byte_count. *)
Definition emit_min_fee `{Externals} (c : hook.HookContext) (read_len : Z) : Z :=
  fee_base c * fst (etxn_burden c) * drops_per_byte * read_len.

(** The 64-bit products of rule 7 do not wrap.  [hookCtx.fee_base] is 0
    until it is cached: etxn_fee_base caches base_fee * burden, and emit
    caches the value etxn_fee_base returns (an error code, negative, or the
    fee of the candidate it was computed for). *)
Definition fee_products_fit `{Externals} (c : hook.HookContext) (read_len : Z) : Prop :=
  if hook.fee_base c =? 0
  then emit_min_fee c read_len * drops_per_byte * read_len < 2^63
  else hook.fee_base c < 0 \/
       (fee_base c * fst (etxn_burden c) <= hook.fee_base c /\
        hook.fee_base c * drops_per_byte * read_len < 2^63).

(** What the ledger writes of commit leave alone in the view: whether it is
    open, the execution counter and the metadata collected so far. *)
Definition same_metadata (v v' : View) : Prop :=
  open v' = open v /\ hookExecutionIndex v' = hookExecutionIndex v /\
  hookMetaData v' = hookMetaData v.

(** Two buffers that agree on their first [L] bytes, the second at least as
    long as the first. *)
Definition agree_upto (L : Z) (buf buf' : list Z) : Prop :=
  (forall i, 0 <= i < L -> byte_at buf' i = byte_at buf i) /\
  Z.of_nat (length buf) <= Z.of_nat (length buf').

(** The field code of a parsed field, as the host calls compare it. *)
Definition sto_code (o : sto_object) : Z := Z.shiftl (so_type o) 16 + so_field o.

(** [sto_fields buf os]: the walk of the host calls over [buf] meets the
    fields [os], each parsed with the bytes up to the end of the buffer and
    lying inside it, and ends at the end of the buffer. *)
Inductive sto_fields : list Z -> list sto_object -> Prop :=
  | sto_fields_nil : sto_fields [] []
  | sto_fields_cons buf o os :
      get_stobject_length sto_max_depth buf = inr o ->
      so_length o <= Z.of_nat (length buf) ->
      sto_fields (drop (Z.to_nat (so_length o)) buf) os ->
      sto_fields buf (o :: os).

(** The bytes spanned by a list of fields. *)
Definition sto_span (os : list sto_object) : Z :=
  fold_right (fun o acc => so_length o + acc) 0 os.

(** The visits of the loop over a list of fields, in turn: what the loop
    answers when it meets exactly these fields from offset [upto] on. *)
Fixpoint visit_all {A R : Type} (visit : A -> Z -> sto_object -> A + R)
    (a : A) (upto : Z) (os : list sto_object) : (A * Z) + R :=
  match os with
  | [] => inl (a, upto)
  | o :: os' =>
      match visit a upto o with
      | inl a' => visit_all visit a' (upto + so_length o) os'
      | inr r => inr r
      end
  end.

(** The number that a string of bytes spells, most significant byte
    first. *)
Definition big_endian (bytes : list Z) : Z :=
  fold_left (fun acc b => acc * 256 + b) bytes 0.

(** The big-endian bytes of a 32-bit and of a 64-bit number. *)
Definition be32 (x : Z) : list Z :=
  [x / 2^24 mod 256; x / 2^16 mod 256; x / 2^8 mod 256; x mod 256].

Definition be64 (x : Z) : list Z :=
  [x / 2^56 mod 256; x / 2^48 mod 256; x / 2^40 mod 256; x / 2^32 mod 256;
   x / 2^24 mod 256; x / 2^16 mod 256; x / 2^8 mod 256; x mod 256].

(** A string of narrow characters as UTF-16LE: every byte is followed by a
    zero byte. *)
Definition utf16le (s : list Z) : list Z := flat_map (fun b => [b; 0]) s.

(** The shape that emit demands of a transaction, whatever the context: a
    Sequence of 0, a signing key that is empty or 33 zero bytes, no
    signature, EmitDetails with its five fields, and a ledger window. *)
Definition emitted_shape (stpTrans : STTx) : Prop :=
  sfSequence stpTrans = Some 0 /\
  (exists pk, sfSigningPubKey stpTrans = Some pk /\
              (length pk = 33%nat \/ length pk = 0%nat) /\
              Forall (fun b => b = 0) pk) /\
  sfSignature stpTrans = None /\
  (exists ed, sfEmitDetails stpTrans = Some ed /\
              is_Some (sfEmitGeneration ed) /\ is_Some (sfEmitBurden ed) /\
              is_Some (sfEmitParentTxnID ed) /\ is_Some (sfEmitNonce ed) /\
              is_Some (sfEmitCallback ed)) /\
  (exists lls fls, sfLastLedgerSequence stpTrans = Some lls /\
                   sfFirstLedgerSequence stpTrans = Some fls /\ fls <= lls).

(** A run of the guest as far as nonces go: calls of nonce and of
    etxn_details, on whatever memory the guest has at that point, with other
    host calls, which leave the nonce counter alone, in between; the list
    holds the values returned by the two kinds of call, in order. *)
Inductive nonce_run `{Externals} : hook.HookContext -> list Z -> hook.HookContext -> Prop :=
  | nonce_run_done c : nonce_run c [] c
  | nonce_run_nonce c memory write_ptr write_len r c' memory' rs c'' :
      nonce c memory write_ptr write_len = (r, c', memory') ->
      nonce_run c' rs c'' ->
      nonce_run c (r :: rs) c''
  | nonce_run_details c memory write_ptr write_len r c' memory' rs c'' :
      etxn_details c memory write_ptr write_len = (r, c', memory') ->
      nonce_run c' rs c'' ->
      nonce_run c (r :: rs) c''
  | nonce_run_other c c' rs c'' :
      hook.nonce_counter c' = hook.nonce_counter c ->
      nonce_run c' rs c'' -> nonce_run c rs c''.

(** The number of distinct transaction ids among [txns] that the emitted
    directory of [v] does not hold. *)
Definition new_ids (txns : list STTx) (v : View) : Z :=
  Z.of_nat (size (list_to_set (TransactionID <$> txns) ∖ dom (emitted v)
                  : gset (list Z))).

(** A wasm32 memory has at most 2^32 bytes. *)
Definition wf_memory (memory : list Z) : Prop := memory_length memory <= 2^32.

(** ** A concrete setting, for examples

    A codec whose transactions carry the first byte of their serialization
    (shifted by 32 bits) as Fee and are otherwise what [emit] asks of a
    child of [example_otxn] emitted by the hook of [example_account]. *)
Definition example_account : list Z := replicate 20 1.

Definition example_otxn : STTx :=
  {| TransactionID := replicate 32 7; sfSequence := Some 5;
     sfSigningPubKey := Some (replicate 33 2); sfEmitDetails := None;
     sfSignature := Some [9]; sfLastLedgerSequence := None;
     sfFirstLedgerSequence := None; sfFee := Some 12 |}.

Definition example_child (fee : Z) : STTx :=
  {| TransactionID := replicate 32 8; sfSequence := Some 0;
     sfSigningPubKey := Some [];
     sfEmitDetails :=
       Some {| sfEmitGeneration := Some 2; sfEmitBurden := Some 1;
               sfEmitParentTxnID := Some (replicate 32 7);
               sfEmitNonce := Some (replicate 32 0);
               sfEmitCallback := Some example_account |};
     sfSignature := None; sfLastLedgerSequence := Some 110;
     sfFirstLedgerSequence := Some 102; sfFee := Some fee |}.

Definition example_externals : Externals :=
  {| parse_STTx := fun bytes =>
       match bytes with
       | [] => None
       | b :: _ => Some (example_child (b * 2^32))
       end;
     status_is_NEW := fun _ => true;
     sha512Half_nonce := fun _ counter _ => replicate 32 counter;
     scaled_fee_base := fun drops => drops * 11 / 10;
     dirRemove := fun _ _ _ _ => true;
     dirAdd := fun _ _ _ => Some 0;
     dirAppend := fun _ _ => Some 0;
     drops_per_byte := 31250;
     max_emit := 255;
     max_nonce := 255;
     guard_counter_bits := 32 |}.

Definition example_view : View :=
  {| open := false;
     account_roots := {[ example_account := {| sfOwnerCount := 0; sfBalance := 1000000000 |} ]};
     hooks := {[ example_account := {| sfHookStateDataMaxSize := 128; sfHookStateCount := 0 |} ]};
     hook_states := ∅; emitted := ∅;
     fees_base := 10; fees_reserve := 20000000; fees_increment := 5000000;
     hookExecutionIndex := 0; hookMetaData := [] |}.

(** The context as [hook::apply] builds it. *)
Definition example_hookCtx : hook.HookContext :=
  {| hook.applyCtx := {| tx := example_otxn; view := example_view; validLedgerIndex := 100 |};
     hook.result :=
       {| hook.hookSetTxnID := replicate 32 3; hook.hookHash := replicate 32 4;
          hook.account := example_account; hook.otxnAccount := replicate 20 5;
          hook.changedState := ∅; hook.emittedTxn := [];
          hook.exitType := ROLLBACK; hook.exitReason := []; hook.exitCode := -1;
          hook.instructionCount := 0 |};
     hook.expected_etxn_count := -1; hook.nonce_counter := 0; hook.nonce_used := ∅;
     hook.generation := 0; hook.burden := 0; hook.fee_base := 0;
     hook.guard_map := ∅ |}.

Definition example_memory : list Z := replicate 64 0.

(** A memory whose first bytes are a candidate transaction (its Fee is
    255 * 2^32 drops in the example codec), and the context after
    etxn_reserve(1) and one call of nonce. *)
Definition example_memory_tx : list Z := 255 :: replicate 63 0.

Definition example_reserved : hook.HookContext :=
  snd (@etxn_reserve example_externals example_hookCtx 1).

Definition example_ready : hook.HookContext :=
  snd (fst (@nonce example_externals example_reserved example_memory_tx 32 32)).

(** The same ledger seen through an open view. *)
Definition example_open_view : View :=
  {| open := true;
     account_roots := account_roots example_view; hooks := hooks example_view;
     hook_states := hook_states example_view; emitted := emitted example_view;
     fees_base := fees_base example_view; fees_reserve := fees_reserve example_view;
     fees_increment := fees_increment example_view;
     hookExecutionIndex := 0; hookMetaData := [] |}.

(** The result of a hook that staged one state entry and accepted with
    exit code -7. *)
Definition example_result : hook.HookResult :=
  hook.with_exit ACCEPT (-7)
    (hook.with_changedState {[ replicate 32 0 := (true, [1; 2; 3]) ]}
       (hook.result example_hookCtx)).

(** A memory that holds, from offset 0, an object of two fields (a 16-bit
    field 1 and a 32-bit field 2) and, from offset 8, a 32-bit field 1 on
    its own; and the three fields as the parser reports them. *)
Definition example_sto_memory : list Z :=
  [17; 0; 1; 34; 0; 0; 0; 2] ++ [33; 0; 0; 0; 3] ++ replicate 51 0.

Definition example_fields : list sto_object :=
  [ {| so_length := 3; so_type := 1; so_field := 1;
       so_payload_start := 1; so_payload_length := 2 |};
    {| so_length := 5; so_type := 2; so_field := 2;
       so_payload_start := 1; so_payload_length := 4 |} ].

Definition example_field : sto_object :=
  {| so_length := 5; so_type := 2; so_field := 1;
     so_payload_start := 1; so_payload_length := 4 |}.

(** An empty blob (type 7, field 3), as the parser reports it when a byte
    follows. *)
Definition example_empty_blob : sto_object :=
  {| so_length := 2; so_type := 7; so_field := 3;
     so_payload_start := 2; so_payload_length := 0 |}.

(** A context whose cache holds one modified entry, under the key that the
    four zero bytes at offset 0 of [example_memory] spell. *)
Definition example_staged : hook.HookContext :=
  snd (state_set example_hookCtx example_memory_tx 0 3 4 4).

(** A memory with room for the 105 bytes of an EmitDetails object. *)
Definition example_memory_large : list Z := replicate 128 0.

(** A memory that holds the text OK as UTF-16LE at offset 8; a keylet; and
    a memory that holds, from offset 0, an array of the two fields of
    [example_fields] between its header byte and its end marker. *)
Definition example_memory_text : list Z := replicate 8 0 ++ [79; 0; 75; 0] ++ replicate 52 0.

Definition example_keylet : Keylet := {| kl_type := 97; kl_key := replicate 32 5 |}.

Definition example_array_memory : list Z :=
  [244] ++ [17; 0; 1; 34; 0; 0; 0; 2] ++ [241] ++ replicate 54 0.

(** The context of the invocation that follows the commit of
    [example_staged]: the view left by the commit and an empty cache. *)
Definition example_next : hook.HookContext :=
  {| hook.applyCtx :=
       snd (@commitChangesToLedger example_externals (hook.result example_staged)
              (hook.applyCtx example_staged) 3);
     hook.result := hook.result example_hookCtx;
     hook.expected_etxn_count := -1; hook.nonce_counter := 0; hook.nonce_used := ∅;
     hook.generation := 0; hook.burden := 0; hook.fee_base := 0;
     hook.guard_map := ∅ |}.






(** The result of [example_result] with one emitted transaction in its
    queue. *)
Definition example_result_emitting : hook.HookResult :=
  hook.with_emittedTxn [example_child 5] example_result.


(* ===================================================================== *)
(** * Properties *)
(* ===================================================================== *)

(** ** Loops: invariants and termination *)
Section LoopFacts.
Context {St R : Type} (body : St -> St + R).

Lemma iter_nat_add (n m : nat) (s : St) :
  iter_nat (n + m) body s =
  match iter_nat n body s with
  | inl s' => iter_nat m body s'
  | inr r => inr r
  end.
Proof.
  revert s; induction n as [|n IH]; intros s; simpl; [reflexivity|].
  destruct (body s); [apply IH | reflexivity].
Qed.

Lemma iter_nat_double (n : nat) (s : St) :
  iter_nat (2 * n) body s =
  match iter_nat n body s with
  | inl s' => iter_nat n body s'
  | inr r => inr r
  end.
Proof.
  replace (2 * n)%nat with (n + n)%nat by lia. apply iter_nat_add.
Qed.

Lemma iter_pos_nat (p : positive) (s : St) :
  iter_pos p body s = iter_nat (Pos.to_nat p) body s.
Proof.
  revert s; induction p as [p IH|p IH|]; intros s.
  - rewrite Pos2Nat.inj_xI. cbn [iter_pos iter_nat].
    destruct (body s) as [s0|r]; [|reflexivity].
    rewrite iter_nat_double, <- IH.
    destruct (iter_pos p body s0); [apply IH | reflexivity].
  - rewrite Pos2Nat.inj_xO. cbn [iter_pos].
    rewrite iter_nat_double, <- IH.
    destruct (iter_pos p body s); [apply IH | reflexivity].
  - change (Pos.to_nat 1) with 1%nat. cbn [iter_pos iter_nat].
    destruct (body s); reflexivity.
Qed.

Lemma iter_nat_inv (I : St -> Prop) (Q : R -> Prop) :
  (forall s, I s -> match body s with inl s' => I s' | inr r => Q r end) ->
  forall n s, I s ->
    match iter_nat n body s with inl s' => I s' | inr r => Q r end.
Proof.
  intros Hstep n; induction n as [|n IH]; intros s Hs; simpl; [exact Hs|].
  specialize (Hstep s Hs). destruct (body s); [apply IH; exact Hstep | exact Hstep].
Qed.

Lemma loop_inv (I : St -> Prop) (Q : R -> Prop) :
  (forall s, I s -> match body s with inl s' => I s' | inr r => Q r end) ->
  forall bound s r, I s -> loop bound body s = Some r -> Q r.
Proof.
  intros Hstep bound s r Hs. unfold loop. rewrite iter_pos_nat.
  pose proof (iter_nat_inv I Q Hstep (Pos.to_nat bound) s Hs) as H.
  destruct (iter_nat (Pos.to_nat bound) body s); [discriminate|].
  intros [= <-]. exact H.
Qed.

Lemma iter_nat_terminates (mu : St -> nat) :
  (forall s s', body s = inl s' -> (mu s' < mu s)%nat) ->
  forall n s, (mu s < n)%nat -> exists r, iter_nat n body s = inr r.
Proof.
  intros Hdec n; induction n as [|n IH]; intros s Hn; [lia|].
  simpl. destruct (body s) as [s'|r] eqn:E; [|eauto].
  apply IH. specialize (Hdec s s' E). lia.
Qed.

Lemma loop_total (mu : St -> Z) (bound : positive) :
  (forall s s', body s = inl s' -> 0 <= mu s' < mu s) ->
  forall s, mu s < Z.pos bound -> exists r, loop bound body s = Some r.
Proof.
  intros Hdec s Hs. unfold loop. rewrite iter_pos_nat.
  destruct (iter_nat_terminates (fun s => Z.to_nat (mu s))) with
    (n := Pos.to_nat bound) (s := s) as [r Hr].
  - intros s0 s' E. specialize (Hdec s0 s' E). lia.
  - lia.
  - rewrite Hr. eauto.
Qed.
End LoopFacts.

(** ** Decimal floats *)
Section FloatFacts.
Local Abbreviation host_float_set := float_set.
Import hook_float.

Lemma u64_small x : 0 <= x < 2^64 -> u64 x = x.
Proof. intros H. unfold u64. apply Z.mod_small. exact H. Qed.

Lemma i64_small x : - 2^63 <= x < 2^63 -> i64 x = x.
Proof. intros H. unfold i64. rewrite Z.mod_small; lia. Qed.

Lemma i32_small x : - 2^31 <= x < 2^31 -> i32 x = x.
Proof. intros H. unfold i32. rewrite Z.mod_small; lia. Qed.

Lemma i32_range x : - 2^31 <= i32 x < 2^31.
Proof. unfold i32. pose proof (Z.mod_pos_bound (x + 2^31) (2^32)). lia. Qed.

Lemma i64_range x : - 2^63 <= i64 x < 2^63.
Proof. unfold i64. pose proof (Z.mod_pos_bound (x + 2^63) (2^64)). lia. Qed.

Lemma u64_range x : 0 <= u64 x < 2^64.
Proof. unfold u64. apply Z.mod_pos_bound. lia. Qed.

(** The three fields of a non-negative 64-bit code, read arithmetically. *)
Lemma get_mantissa_pos f :
  0 < f < 2^63 -> get_mantissa f = f mod 2^54.
Proof.
  intros H. unfold get_mantissa.
  destruct (Z.ltb_spec f 0); [lia|]. destruct (Z.eqb_spec f 0); [lia|].
  rewrite (u64_small f) by lia.
  rewrite Z.shiftr_div_pow2, Z.shiftl_mul_pow2 by lia.
  pose proof (Z.div_mod f (2^54)). pose proof (Z.mod_pos_bound f (2^54)).
  rewrite u64_small; lia.
Qed.

Lemma get_exponent_pos f :
  0 < f < 2^63 -> get_exponent f = (f / 2^54) mod 2^8 - 97.
Proof.
  intros H. unfold get_exponent.
  destruct (Z.ltb_spec f 0); [lia|]. destruct (Z.eqb_spec f 0); [lia|].
  rewrite (u64_small f) by lia.
  rewrite Z.shiftr_div_pow2 by lia.
  change 255 with (Z.ones 8). rewrite Z.land_ones by lia.
  pose proof (Z.mod_pos_bound (f / 2^54) (2^8)).
  rewrite i32_small; lia.
Qed.

Lemma is_negative_pos f :
  0 <= f < 2^63 -> is_negative f = (f / 2^62 =? 0).
Proof.
  intros H. unfold is_negative.
  rewrite Z.shiftr_div_pow2 by lia.
  change 1 with (Z.ones 1). rewrite Z.land_ones by lia.
  assert (0 <= f / 2^62 < 2) by (split; [apply Z.div_pos; lia | apply Z.div_lt_upper_bound; lia]).
  change (2^1) with 2.
  rewrite Z.mod_small by lia. reflexivity.
Qed.

Lemma pack_range s e m :
  0 <= s < 2 -> 0 <= e < 2^8 -> 0 <= m < 2^54 -> 0 <= pack s e m < 2^63.
Proof. unfold pack. lia. Qed.

Lemma pack_mod s e m : 0 <= m < 2^54 -> pack s e m mod 2^54 = m.
Proof.
  intros H. unfold pack.
  replace (m + e * 2^54 + s * 2^62) with (m + (e + s * 2^8) * 2^54) by lia.
  rewrite Z.mod_add by lia. apply Z.mod_small; lia.
Qed.

Lemma pack_exp s e m :
  0 <= e < 2^8 -> 0 <= m < 2^54 -> (pack s e m / 2^54) mod 2^8 = e.
Proof.
  intros He Hm. unfold pack.
  replace (m + e * 2^54 + s * 2^62) with (m + (e + s * 2^8) * 2^54) by lia.
  rewrite Z.div_add by lia. rewrite Z.div_small by lia.
  rewrite Z.add_0_l, Z.mod_add by lia. apply Z.mod_small; lia.
Qed.

Lemma pack_sign s e m :
  0 <= e < 2^8 -> 0 <= m < 2^54 -> pack s e m / 2^62 = s.
Proof.
  intros He Hm. unfold pack.
  rewrite Z.div_add by lia. rewrite Z.div_small; lia.
Qed.

Lemma unpack f : f = pack (f / 2^62) ((f / 2^54) mod 2^8) (f mod 2^54).
Proof.
  unfold pack.
  pose proof (Z.div_mod f (2^54)). pose proof (Z.div_mod (f / 2^54) (2^8)).
  rewrite Z.div_div in * by lia. change (2^54 * 2^8) with (2^62) in *. lia.
Qed.

(** Bit-level facts behind [set_exponent] and [invert_sign]. *)
Lemma testbit_small b n i : 0 <= b < 2^n -> n <= i -> Z.testbit b i = false.
Proof.
  intros Hb Hi. destruct (Z.eq_dec b 0) as [->|Hne]; [apply Z.bits_0|].
  apply Z.bits_above_log2; [lia|].
  assert (0 <= n) by (destruct (Z.le_gt_cases 0 n); [lia|]; rewrite Z.pow_neg_r in Hb; lia).
  assert (Z.log2 b < n) by (apply Z.log2_lt_pow2; lia). lia.
Qed.

Lemma land_shiftl_small a b n :
  0 <= n -> 0 <= b < 2^n -> Z.land (Z.shiftl a n) b = 0.
Proof.
  intros Hn Hb. apply Z.bits_inj'. intros i Hi.
  rewrite Z.land_spec, Z.bits_0, Z.shiftl_spec by lia.
  destruct (Z.lt_ge_cases i n).
  - rewrite Z.testbit_neg_r by lia. reflexivity.
  - rewrite (testbit_small b n i) by lia. apply andb_false_r.
Qed.

Lemma lor_shiftl_small a b n :
  0 <= n -> 0 <= b < 2^n -> Z.lor (Z.shiftl a n) b = a * 2^n + b.
Proof.
  intros Hn Hb. rewrite <- Z.lxor_lor, <- Z.add_nocarry_lxor
    by (apply land_shiftl_small; assumption).
  rewrite Z.shiftl_mul_pow2 by lia. reflexivity.
Qed.

Lemma land_lnot_exponent_mask x :
  Z.land x (Z.lnot (Z.shiftl 255 54)) = (x / 2^62) * 2^62 + x mod 2^54.
Proof.
  assert (Z.land x (Z.lnot (Z.shiftl 255 54)) =
          Z.lor (Z.ldiff x (Z.ones 62)) (Z.land x (Z.ones 54))) as ->.
  { apply Z.bits_inj'. intros i Hi.
    rewrite Z.lor_spec, Z.ldiff_spec, !Z.land_spec, Z.lnot_spec by lia.
    rewrite Z.shiftl_spec by lia.
    rewrite !Z.testbit_ones_nonneg by lia.
    change 255 with (Z.ones 8).
    destruct (Z.lt_ge_cases i 54).
    - rewrite (Z.testbit_neg_r _ (i - 54)) by lia.
      destruct (Z.ltb_spec i 62); [|lia]. destruct (Z.ltb_spec i 54); [|lia].
      destruct (Z.testbit x i); reflexivity.
    - rewrite Z.testbit_ones_nonneg by lia.
      destruct (Z.ltb_spec i 54); [lia|].
      destruct (Z.ltb_spec (i - 54) 8), (Z.ltb_spec i 62); try lia;
        destruct (Z.testbit x i); reflexivity. }
  rewrite Z.ldiff_ones_r, Z.land_ones, Z.shiftr_div_pow2 by lia.
  pose proof (Z.mod_pos_bound x (2^54)).
  apply lor_shiftl_small; lia.
Qed.

Lemma lxor_sign_bit f :
  0 <= f < 2^63 ->
  Z.lxor f (Z.shiftl 1 62) = if f / 2^62 =? 0 then f + 2^62 else f - 2^62.
Proof.
  intros Hf. change (Z.shiftl 1 62) with (Z.shiftl 1 62).
  assert (Hlow : forall l, 0 <= l < 2^62 -> Z.lxor l (Z.shiftl 1 62) = l + 2^62).
  { intros l Hl. rewrite Z.lxor_comm, <- Z.add_nocarry_lxor
      by (apply land_shiftl_small; lia).
    rewrite Z.shiftl_mul_pow2 by lia. lia. }
  assert (0 <= f / 2^62 < 2)
    by (split; [apply Z.div_pos; lia | apply Z.div_lt_upper_bound; lia]).
  pose proof (Z.div_mod f (2^62)). pose proof (Z.mod_pos_bound f (2^62)).
  destruct (Z.eqb_spec (f / 2^62) 0) as [E|E].
  - apply Hlow. lia.
  - replace f with ((f - 2^62) + 2^62) at 1 by lia.
    rewrite <- (Hlow (f - 2^62)) by lia.
    rewrite Z.lxor_assoc, Z.lxor_nilpotent, Z.lxor_0_r. reflexivity.
Qed.

Lemma pack_fields s e m :
  0 <= s < 2 -> minMantissa <= m <= maxMantissa -> minExponent <= e <= maxExponent ->
  0 < pack s (e + 97) m < 2^63 /\
  get_mantissa (pack s (e + 97) m) = m /\
  get_exponent (pack s (e + 97) m) = e /\
  is_negative (pack s (e + 97) m) = (s =? 0).
Proof.
  unfold minMantissa, maxMantissa, minExponent, maxExponent. intros Hs Hm He.
  assert (Hr : 0 < pack s (e + 97) m < 2^63) by (unfold pack; lia).
  split; [exact Hr|].
  rewrite get_mantissa_pos, get_exponent_pos, is_negative_pos by lia.
  rewrite pack_mod, pack_exp, pack_sign by lia. repeat split; lia.
Qed.

Lemma pack_normalized s e m :
  0 <= s < 2 -> minMantissa <= m <= maxMantissa -> minExponent <= e <= maxExponent ->
  normalized (pack s (e + 97) m).
Proof.
  intros Hs Hm He. unfold normalized.
  destruct (pack_fields s e m Hs Hm He) as (_ & -> & -> & _).
  split; assumption.
Qed.

Lemma set_exponent_pack s e0 m e :
  0 <= s < 2 -> 0 <= e0 < 2^8 -> 0 <= m < 2^54 ->
  minExponent <= e <= maxExponent ->
  set_exponent (pack s e0 m) e = pack s (e + 97) m.
Proof.
  unfold minExponent, maxExponent. intros Hs He0 Hm He. unfold set_exponent.
  unfold minExponent, maxExponent.
  destruct (Z.gtb_spec e 80); [lia|]. destruct (Z.ltb_spec e (-96)); [lia|].
  rewrite land_lnot_exponent_mask, pack_sign, pack_mod by lia.
  rewrite (u64_small (e + 97)) by lia.
  rewrite Z.shiftl_mul_pow2 by lia.
  rewrite u64_small by lia. rewrite (i64_small ((e + 97) * 2^54)) by lia.
  unfold pack. rewrite i64_small; lia.
Qed.

Lemma set_sign_pack s e m b :
  0 <= s < 2 -> 0 <= e < 2^8 -> 0 <= m < 2^54 ->
  set_sign (pack s e m) b = pack (if b then 0 else 1) e m.
Proof.
  intros Hs He Hm. unfold set_sign, invert_sign.
  pose proof (pack_range s e m Hs He Hm) as Hr.
  rewrite is_negative_pos, pack_sign by lia.
  rewrite u64_small by lia.
  rewrite lxor_sign_bit, pack_sign by lia.
  destruct (Z.eqb_spec s 0) as [->|Hne]; destruct b; simpl; unfold pack in *;
    try reflexivity; try (rewrite i64_small; lia).
  all: replace s with 1 by lia; reflexivity.
Qed.

Lemma set_mantissa_pack s e m0 m :
  0 <= s < 2 -> 0 <= e < 2^8 -> 0 <= m0 < 2^54 -> 0 <= m <= maxMantissa ->
  s + e + m0 <> 0 ->
  set_mantissa (pack s e m0) m = pack s e m.
Proof.
  unfold maxMantissa. intros Hs He Hm0 Hm Hnz. unfold set_mantissa.
  unfold maxMantissa. rewrite (u64_small 9999999999999999) by lia.
  destruct (Z.gtb_spec m 9999999999999999); [lia|].
  pose proof (pack_range s e m0 Hs He Hm0).
  rewrite get_mantissa_pos, pack_mod by (unfold pack in *; lia).
  unfold pack. rewrite i64_small; lia.
Qed.

Lemma make_float_pack m e :
  minMantissa <= Z.abs m <= maxMantissa ->
  minExponent <= e <= maxExponent ->
  make_float m e = pack (if m <? 0 then 0 else 1) (e + 97) (Z.abs m).
Proof.
  unfold minMantissa, maxMantissa, minExponent, maxExponent. intros Hm He.
  unfold make_float. unfold minMantissa, maxMantissa, minExponent, maxExponent.
  destruct (Z.eqb_spec m 0); [lia|]. destruct (Z.gtb_spec m 9999999999999999); [lia|].
  destruct (Z.gtb_spec e 80); [lia|]. destruct (Z.ltb_spec e (-96)); [lia|].
  assert (Habs : u64 (if m <? 0 then i64 (m * -1) else m) = Z.abs m).
  { destruct (Z.ltb_spec m 0); [rewrite i64_small by lia|]; rewrite u64_small; lia. }
  rewrite Habs.
  assert (Hm0 : set_mantissa 0 (Z.abs m) = pack 0 0 (Z.abs m)).
  { unfold set_mantissa, maxMantissa.
    change (get_mantissa 0) with 0.
    rewrite (u64_small 9999999999999999) by lia.
    destruct (Z.gtb_spec (Z.abs m) 9999999999999999); [lia|].
    unfold pack. rewrite i64_small; lia. }
  rewrite Hm0.
  rewrite set_exponent_pack by (unfold minExponent, maxExponent; lia).
  rewrite set_sign_pack by lia.
  reflexivity.
Qed.

(** Whatever the exponent, [make_float] on a mantissa in range answers an
    error code or a normalised float. *)
Lemma make_float_ok m e :
  minMantissa <= Z.abs m <= maxMantissa ->
  make_float m e < 0 \/
  (0 < make_float m e /\ normalized (make_float m e)).
Proof.
  intros Hm.
  destruct (Z.lt_ge_cases maxExponent e) as [Hhi|Hhi];
    [|destruct (Z.lt_ge_cases e minExponent) as [Hlo|Hlo]].
  - left. unfold make_float. unfold minMantissa, maxMantissa, minExponent, maxExponent in *.
    destruct (Z.eqb_spec m 0); [lia|].
    destruct (Z.gtb_spec m 9999999999999999); [reflexivity|].
    destruct (Z.gtb_spec e 80); [reflexivity | lia].
  - left. unfold make_float. unfold minMantissa, maxMantissa, minExponent, maxExponent in *.
    destruct (Z.eqb_spec m 0); [lia|].
    destruct (Z.gtb_spec m 9999999999999999); [reflexivity|].
    destruct (Z.gtb_spec e 80); [reflexivity |].
    destruct (Z.ltb_spec e (-96)); [reflexivity | lia].
  - right. rewrite make_float_pack by lia.
    assert (Hs : 0 <= (if m <? 0 then 0 else 1) < 2) by (destruct (m <? 0); lia).
    split; [apply (pack_fields _ e (Z.abs m) Hs Hm); lia |].
    apply pack_normalized; [exact Hs | exact Hm | lia].
Qed.

Lemma normalize_up_post st r :
  loop loop_bound normalize_up st = Some r -> up_post r.
Proof.
  apply (loop_inv normalize_up (fun _ => True) up_post); [|exact I].
  intros [m e] _. unfold normalize_up.
  destruct (Z.ltb_spec m minMantissa); [|exact H].
  destruct (i32 (e - 1) <? minExponent); [reflexivity | exact I].
Qed.

Lemma normalize_down_post st r :
  minMantissa <= fst st ->
  loop loop_bound normalize_down st = Some r -> down_post r.
Proof.
  apply (loop_inv normalize_down (fun st => minMantissa <= fst st) down_post).
  intros [m e] Hm. simpl in Hm. unfold normalize_down.
  destruct (Z.gtb_spec m maxMantissa); [|simpl; lia].
  destruct (i32 (e + 1) >? maxExponent); [reflexivity|]. simpl.
  unfold minMantissa, maxMantissa in *.
  rewrite Z.quot_div_nonneg by lia. apply Z.div_le_lower_bound; lia.
Qed.

Lemma up_measure_bound st : 0 < up_measure st < Z.pos loop_bound.
Proof.
  destruct st as [m e]. unfold up_measure, loop_bound, minExponent. simpl snd.
  destruct (Z.ltb_spec e (- 2^31)); [simpl; lia|].
  destruct (Z.leb_spec (2^31) e); [simpl; lia|]. simpl orb.
  destruct (Z.leb_spec (-96) e); [lia|]. destruct (e =? - 2^31); lia.
Qed.

Lemma down_measure_bound st : 0 < down_measure st < Z.pos loop_bound.
Proof.
  destruct st as [m e]. unfold down_measure, loop_bound, maxExponent. simpl snd.
  destruct (Z.ltb_spec e (- 2^31)); [simpl; lia|].
  destruct (Z.leb_spec (2^31) e); [simpl; lia|]. simpl orb.
  destruct (Z.leb_spec e 80); [lia|]. destruct (e =? 2^31 - 1); lia.
Qed.

Lemma normalize_up_total st : exists r, loop loop_bound normalize_up st = Some r.
Proof.
  apply (loop_total normalize_up up_measure); [|apply up_measure_bound].
  intros [m e] [m' e']. unfold normalize_up.
  destruct (m <? minMantissa); [|discriminate].
  destruct (Z.ltb_spec (i32 (e - 1)) minExponent) as [Hlt|Hge]; [discriminate|].
  intros [= <- <-].
  split; [pose proof (up_measure_bound (i64 (m * 10), i32 (e - 1))); lia|].
  unfold up_measure, minExponent in *. simpl snd.
  pose proof (i32_range (e - 1)) as Hr.
  destruct (Z.ltb_spec (i32 (e - 1)) (- 2^31)); [lia|].
  destruct (Z.leb_spec (2^31) (i32 (e - 1))); [lia|]. simpl orb.
  destruct (Z.leb_spec (-96) (i32 (e - 1))); [|lia].
  destruct (Z.ltb_spec e (- 2^31)); [simpl; lia|].
  destruct (Z.leb_spec (2^31) e); [simpl; lia|]. simpl orb.
  destruct (Z.eq_dec e (- 2^31)) as [->|Hne]; [vm_compute; reflexivity|].
  rewrite i32_small in * by lia.
  destruct (Z.leb_spec (-96) e); lia.
Qed.

Lemma normalize_down_total st : exists r, loop loop_bound normalize_down st = Some r.
Proof.
  apply (loop_total normalize_down down_measure); [|apply down_measure_bound].
  intros [m e] [m' e']. unfold normalize_down.
  destruct (m >? maxMantissa); [|discriminate].
  destruct (Z.gtb_spec (i32 (e + 1)) maxExponent) as [Hlt|Hge]; [discriminate|].
  intros [= <- <-].
  split; [pose proof (down_measure_bound (Z.quot m 10, i32 (e + 1))); lia|].
  unfold down_measure, maxExponent in *. simpl snd.
  pose proof (i32_range (e + 1)) as Hr.
  destruct (Z.ltb_spec (i32 (e + 1)) (- 2^31)); [lia|].
  destruct (Z.leb_spec (2^31) (i32 (e + 1))); [lia|]. simpl orb.
  destruct (Z.leb_spec (i32 (e + 1)) 80); [|lia].
  destruct (Z.ltb_spec e (- 2^31)); [simpl; lia|].
  destruct (Z.leb_spec (2^31) e); [simpl; lia|]. simpl orb.
  destruct (Z.eq_dec e (2^31 - 1)) as [->|Hne]; [vm_compute; reflexivity|].
  rewrite i32_small in * by lia.
  destruct (Z.leb_spec e 80); lia.
Qed.

Lemma normalize_total m e : exists r, normalize m e = Some r.
Proof.
  unfold normalize.
  destruct (normalize_up_total (m, e)) as [[c|st] ->]; [eauto|].
  destruct (normalize_down_total st) as [r ->]. eauto.
Qed.

Lemma normalize_post m e r :
  normalize m e = Some r -> down_post r.
Proof.
  unfold normalize.
  destruct (loop loop_bound normalize_up (m, e)) as [[c|st]|] eqn:E; [| |discriminate].
  - intros [= <-]. apply (normalize_up_post _ _ E).
  - intros H. apply (normalize_down_post st r); [|exact H].
    pose proof (normalize_up_post _ _ E) as Hp. destruct st; exact Hp.
Qed.

Lemma host_float_set_total exp m : exists r, host_float_set exp m = Some r.
Proof.
  unfold host_float_set. destruct (m =? 0); [eauto|].
  destruct (normalize_total m exp) as [[c|[m' e']] ->]; eauto.
Qed.

Lemma host_float_set_ok exp m r : host_float_set exp m = Some r -> float_ok r.
Proof.
  unfold host_float_set, float_ok. destruct (m =? 0); [intros [= <-]; auto|].
  destruct (normalize m exp) as [[c|[m' e']]|] eqn:E; [| |discriminate].
  - apply normalize_post in E. simpl in E. subst c. intros [= <-]. left. reflexivity.
  - apply normalize_post in E. simpl in E. intros [= <-].
    destruct (make_float_ok m' e') as [H|H]; [unfold minMantissa in *; lia | auto | auto].
Qed.

Lemma float_set_total exp m : exists r, hook_float.float_set exp m = Some r.
Proof.
  unfold hook_float.float_set. destruct (m =? 0); [eauto|].
  destruct (normalize_total (if m <? 0 then i64 (m * -1) else m) exp)
    as [[c|[m' e']] ->]; eauto.
Qed.

Lemma float_set_ok exp m r : hook_float.float_set exp m = Some r -> float_ok r.
Proof.
  unfold hook_float.float_set, float_ok. destruct (m =? 0); [intros [= <-]; auto|].
  destruct (normalize _ exp) as [[c|[m' e']]|] eqn:E; [| |discriminate].
  - apply normalize_post in E. simpl in E. subst c. intros [= <-]. left. reflexivity.
  - apply normalize_post in E. simpl in E. intros [= <-].
    unfold minMantissa, maxMantissa in E.
    destruct (make_float_ok (i64 ((if m <? 0 then -1 else 1) * m')) e') as [H|H]; auto.
    destruct (m <? 0); rewrite i64_small by lia; unfold minMantissa, maxMantissa; lia.
Qed.
End FloatFacts.

Section FloatOps.
Import hook_float.

Lemma valid_float_unpack f :
  is_i64 f -> invalid_float f = false -> f <> 0 ->
  exists s e m,
    0 <= s < 2 /\ minExponent <= e <= maxExponent /\
    minMantissa <= m <= maxMantissa /\ f = pack s (e + 97) m.
Proof.
  unfold is_i64, invalid_float. intros Hf Hv Hnz.
  destruct (Z.ltb_spec f 0); [discriminate|].
  destruct (Z.eqb_spec f 0); [contradiction|]. simpl negb in Hv. cbv iota in Hv.
  rewrite get_mantissa_pos, get_exponent_pos in Hv by lia.
  pose proof (Z.mod_pos_bound f (2^54)) as Hm.
  rewrite i64_small in Hv by lia.
  apply orb_false_elim in Hv as [Hv He2]. apply orb_false_elim in Hv as [Hv He1].
  apply orb_false_elim in Hv as [Hm1 Hm2].
  apply Z.ltb_ge in Hm1, He2. rewrite Z.gtb_ltb in Hm2, He1.
  apply Z.ltb_ge in Hm2, He1.
  exists (f / 2^62), ((f / 2^54) mod 2^8 - 97), (f mod 2^54).
  repeat split; try lia.
  - apply Z.div_pos; lia.
  - apply Z.div_lt_upper_bound; lia.
  - replace ((f / 2^54) mod 2^8 - 97 + 97) with ((f / 2^54) mod 2^8) by lia.
    apply unpack.
Qed.

Lemma pack_ok s e m :
  0 <= s < 2 -> minExponent <= e <= maxExponent ->
  minMantissa <= m <= maxMantissa -> float_ok (pack s (e + 97) m).
Proof.
  intros Hs He Hm. right. right.
  split; [apply (pack_fields s e m); assumption | apply pack_normalized; assumption].
Qed.

Lemma float_negate_ok f : is_i64 f -> float_ok (float_negate f).
Proof.
  intros Hf. unfold float_negate.
  destruct (Z.eqb_spec f 0); [right; left; reflexivity|].
  destruct (invalid_float f) eqn:Hv; [left; reflexivity|].
  destruct (valid_float_unpack f Hf Hv n) as (s & e & m & Hs & He & Hm & ->).
  unfold minExponent, maxExponent, minMantissa, maxMantissa in *.
  assert (Hinv : invert_sign (pack s (e + 97) m) = pack (1 - s) (e + 97) m).
  { unfold invert_sign.
    pose proof (pack_range s (e + 97) m) as Hr.
    rewrite u64_small by lia. rewrite lxor_sign_bit, pack_sign by lia.
    destruct (Z.eqb_spec s 0); unfold pack in *; rewrite i64_small; lia. }
  rewrite Hinv. apply pack_ok; unfold minExponent, maxExponent, minMantissa, maxMantissa; lia.
Qed.

Lemma float_sign_set_ok f negative : is_i64 f -> float_ok (float_sign_set f negative).
Proof.
  intros Hf. unfold float_sign_set.
  destruct (invalid_float f) eqn:Hv; [left; reflexivity|].
  destruct (Z.eqb_spec f 0); [right; left; reflexivity|].
  destruct (valid_float_unpack f Hf Hv n) as (s & e & m & Hs & He & Hm & ->).
  unfold minExponent, maxExponent, minMantissa, maxMantissa in *.
  rewrite set_sign_pack by lia.
  apply pack_ok; unfold minExponent, maxExponent, minMantissa, maxMantissa;
    try lia. destruct (negb (negative =? 0)); lia.
Qed.

Lemma float_exponent_set_ok f exponent :
  is_i64 f -> float_ok (float_exponent_set f exponent).
Proof.
  intros Hf. unfold float_exponent_set.
  destruct (invalid_float f) eqn:Hv; [left; reflexivity|].
  destruct (Z.eqb_spec f 0); [right; left; reflexivity|].
  destruct (valid_float_unpack f Hf Hv n) as (s & e & m & Hs & He & Hm & ->).
  destruct (Z.lt_ge_cases maxExponent exponent) as [Hhi|Hhi];
    [|destruct (Z.lt_ge_cases exponent minExponent) as [Hlo|Hlo]].
  - left. unfold set_exponent. destruct (Z.gtb_spec exponent maxExponent); [reflexivity|lia].
  - left. unfold set_exponent. destruct (Z.gtb_spec exponent maxExponent); [reflexivity|].
    destruct (Z.ltb_spec exponent minExponent); [reflexivity|lia].
  - unfold minExponent, maxExponent, minMantissa, maxMantissa in *.
    rewrite set_exponent_pack by (unfold minExponent, maxExponent; lia).
    apply pack_ok; unfold minExponent, maxExponent, minMantissa, maxMantissa; lia.
Qed.

Lemma float_one_ok : float_ok float_one.
Proof.
  unfold float_one, float_one_internal.
  rewrite make_float_pack by (unfold minExponent, maxExponent, minMantissa, maxMantissa; lia).
  apply pack_ok; unfold minExponent, maxExponent, minMantissa, maxMantissa; simpl; lia.
Qed.

Lemma float_sto_set_ok memory read_ptr read_len r :
  float_sto_set memory read_ptr read_len = Some r -> float_ok r.
Proof.
  unfold float_sto_set.
  destruct (read_len <? 8); [intros [= <-]; left; reflexivity|].
  match goal with |- match ?sk with _ => _ end = _ -> _ => destruct sk as [[c|n]|] eqn:Hsk end;
    [| |discriminate].
  - intros [= <-]. left.
    destruct (read_len >? 8); [|discriminate].
    destruct (memory !! Z.to_nat read_ptr); [|discriminate].
    repeat match type of Hsk with context [if ?c then _ else _] => destruct c end;
      inversion Hsk; reflexivity.
  - destruct (read_ptr + n + 8 >? memory_length memory); [discriminate|].
    unfold float_sto_set_amount.
    destruct (read_bytes memory (read_ptr + n) 8) as [|b0 [|b1 [|b2 [|b3 [|b4 [|b5 [|b6 [|b7 [|? ?]]]]]]]]];
      try discriminate.
    match goal with |- (if ?c then _ else _) = _ -> _ => destruct c end.
    + intros [= <-]. right; left; reflexivity.
    + apply float_set_ok.
Qed.

(** C5 (as amended): every value produced by float_set, float_sto_set,
    float_negate, float_sign_set, float_exponent_set or float_one that is
    neither an error code (negative) nor the zero has its mantissa in
    [10^15, 10^16 - 1] and its exponent in [-96, 80]. *)
Theorem float_results_normalized f :
  float_result f -> ~ f < 0 -> f <> 0 ->
  minMantissa <= get_mantissa f <= maxMantissa /\
  minExponent <= get_exponent f <= maxExponent.
Proof.
  intros Hres Hne Hnz.
  assert (Hok : float_ok f).
  { destruct Hres.
    - eapply host_float_set_ok; eassumption.
    - eapply float_set_ok; eassumption.
    - eapply float_sto_set_ok; eassumption.
    - apply float_negate_ok; assumption.
    - apply float_sign_set_ok; assumption.
    - apply float_exponent_set_ok; assumption.
    - apply float_one_ok. }
  destruct Hok as [H|[H|[_ H]]]; [contradiction | contradiction | exact H].
Qed.
End FloatOps.

(** The host call float_set always returns, and so does the float_set of
    the namespace. *)
Lemma float_set_returns exp mantissa :
  (exists r, float_set exp mantissa = Some r) /\
  (exists r, hook_float.float_set exp mantissa = Some r).
Proof. split; [apply host_float_set_total | apply float_set_total]. Qed.

Lemma float_results_normalized_witness :
  float_result 6089866696204910592 /\
  (hook_float.minMantissa <= hook_float.get_mantissa 6089866696204910592
     <= hook_float.maxMantissa /\
   hook_float.minExponent <= hook_float.get_exponent 6089866696204910592
     <= hook_float.maxExponent).
Proof.
  split.
  - apply (by_float_set 0 1). vm_compute. reflexivity.
  - apply float_results_normalized.
    + apply (by_float_set 0 1). vm_compute. reflexivity.
    + lia.
    + lia.
Defined.

(** C5, as stated, fails on float_mantissa_set: only the upper bound of the
    new mantissa is checked, so the float one with mantissa 5 is returned as
    a positive code whose mantissa is 5. *)
Lemma float_mantissa_set_not_normalized :
  float_mantissa_set float_one 5 = 6088866696204910597 /\
  ~ 6088866696204910597 < 0 /\ 6088866696204910597 <> 0 /\
  ~ (hook_float.minMantissa <= hook_float.get_mantissa 6088866696204910597
       <= hook_float.maxMantissa).
Proof.
  split; [vm_compute; reflexivity|].
  split; [lia|]. split; [lia|].
  change (hook_float.get_mantissa 6088866696204910597) with 5.
  unfold hook_float.minMantissa. lia.
Qed.

(** ** Guest memory *)

Lemma memory_length_nonneg memory : 0 <= memory_length memory.
Proof. unfold memory_length. lia. Qed.

Lemma NOT_IN_BOUNDS_spec ptr len ml :
  is_u32 ptr -> is_u32 len -> 0 <= ml <= 2^32 ->
  NOT_IN_BOUNDS ptr len ml = (ptr + len >? ml).
Proof.
  unfold is_u32, NOT_IN_BOUNDS. intros Hp Hl Hm.
  rewrite (u64_small ptr), (u64_small len), (u64_small ml) by lia.
  rewrite u64_small by lia.
  destruct (Z.gtb_spec ptr ml), (Z.gtb_spec (ptr + len) ml); simpl; lia.
Qed.


Lemma NOT_IN_BOUNDS_false ptr len memory :
  is_u32 ptr -> is_u32 len -> wf_memory memory ->
  NOT_IN_BOUNDS ptr len (memory_length memory) = false ->
  ptr + len <= memory_length memory.
Proof.
  intros Hp Hl Hm. pose proof (memory_length_nonneg memory).
  rewrite NOT_IN_BOUNDS_spec by (unfold wf_memory in *; auto with lia).
  destruct (Z.gtb_spec (ptr + len) (memory_length memory)); [discriminate | lia].
Qed.

Lemma length_read_bytes memory ptr len :
  0 <= ptr -> 0 <= len -> ptr + len <= memory_length memory ->
  length (read_bytes memory ptr len) = Z.to_nat len.
Proof.
  unfold read_bytes, memory_length. intros Hp Hl Hb.
  rewrite length_take, length_drop. lia.
Qed.

Lemma length_setBytes memory span dst n :
  0 <= dst -> 0 <= n -> n <= Z.of_nat (length span) ->
  dst + n <= memory_length memory ->
  length (setBytes memory span dst n) = length memory.
Proof.
  unfold setBytes, memory_length. intros Hd Hn Hs Hb.
  rewrite !length_app, !length_take, length_drop. lia.
Qed.

(** Reading back what was written, and reading beside it. *)
Lemma read_bytes_setBytes memory span dst n :
  0 <= dst -> 0 <= n -> n <= Z.of_nat (length span) ->
  dst + n <= memory_length memory ->
  read_bytes (setBytes memory span dst n) dst n = take (Z.to_nat n) span.
Proof.
  unfold setBytes, read_bytes, memory_length. intros Hd Hn Hs Hb.
  rewrite drop_app_length' by (rewrite length_take; lia).
  rewrite take_app_length' by (rewrite length_take; lia). reflexivity.
Qed.

Lemma setBytes_app memory a x y :
  0 <= a ->
  a + Z.of_nat (length x) + Z.of_nat (length y) <= memory_length memory ->
  setBytes (take (Z.to_nat a) memory ++ x ++
            drop (Z.to_nat (a + Z.of_nat (length x))) memory)
    y (a + Z.of_nat (length x)) (Z.of_nat (length y)) =
  take (Z.to_nat a) memory ++ (x ++ y) ++
  drop (Z.to_nat (a + Z.of_nat (length (x ++ y)))) memory.
Proof.
  unfold setBytes, memory_length. intros Ha Hb.
  rewrite Nat2Z.id, firstn_all.
  set (pre := take (Z.to_nat a) memory).
  assert (Hpre : length pre = Z.to_nat a) by (unfold pre; rewrite length_take; lia).
  assert (Htake : take (Z.to_nat (a + Z.of_nat (length x)))
                    (pre ++ x ++ drop (Z.to_nat (a + Z.of_nat (length x))) memory)
                  = pre ++ x).
  { rewrite app_assoc. apply take_app_length'. rewrite length_app. lia. }
  assert (Hdrop : drop (Z.to_nat (a + Z.of_nat (length x) + Z.of_nat (length y)))
                    (pre ++ x ++ drop (Z.to_nat (a + Z.of_nat (length x))) memory)
                  = drop (Z.to_nat (a + Z.of_nat (length (x ++ y)))) memory).
  { rewrite app_assoc.
    rewrite drop_app_ge by (rewrite length_app; lia).
    rewrite drop_drop, !length_app. f_equal. lia. }
  rewrite Htake, Hdrop. rewrite <- !app_assoc. reflexivity.
Qed.

Lemma setBytes_as_splice memory span dst :
  0 <= dst ->
  setBytes memory span dst (Z.of_nat (length span)) =
  take (Z.to_nat dst) memory ++ span ++
  drop (Z.to_nat (dst + Z.of_nat (length span))) memory.
Proof. intros Hd. unfold setBytes. rewrite Nat2Z.id, firstn_all. reflexivity. Qed.

Lemma WRITE_WASM_MEMORY_ok memory bytes_written dst dst_len src src_len :
  0 <= dst -> 0 <= src_len <= dst_len -> dst_len < 2^63 -> dst + src_len <= memory_length memory ->
  memory_length memory < 2^64 ->
  WRITE_WASM_MEMORY memory bytes_written dst dst_len src src_len =
  inr (setBytes memory src dst src_len, i64 (bytes_written + src_len)).
Proof.
  intros Hd Hs Hl Hb Hm. unfold WRITE_WASM_MEMORY.
  rewrite (i64_small src_len), (i64_small dst_len) by lia.
  rewrite Z.min_l by lia.
  rewrite u64_small by lia.
  destruct (Z.gtb_spec (dst + src_len) (memory_length memory)); [lia | reflexivity].
Qed.

(** C10: hook_account never looks at its length argument; whenever
    [write_ptr + 20] is within the guest memory it writes the 20 bytes of the
    installed account id at [write_ptr] and returns 20, whatever [ptr_len]
    is (also below 20). *)
Theorem hook_account_ignores_length hookCtx memory write_ptr ptr_len :
  is_u32 write_ptr -> wf_memory memory ->
  length (hook.account (hook.result hookCtx)) = 20%nat ->
  write_ptr + 20 <= memory_length memory ->
  hook_account hookCtx memory write_ptr ptr_len =
    (20, take (Z.to_nat write_ptr) memory ++ hook.account (hook.result hookCtx) ++
         drop (Z.to_nat (write_ptr + 20)) memory).
Proof.
  intros Hp Hm Hacc Hb. unfold hook_account.
  pose proof (memory_length_nonneg memory) as Hnn. unfold wf_memory, is_u32 in *.
  rewrite NOT_IN_BOUNDS_spec by (unfold is_u32; lia).
  destruct (Z.gtb_spec (write_ptr + 20) (memory_length memory)); [lia|].
  unfold WRITE_WASM_MEMORY_AND_RETURN.
  rewrite WRITE_WASM_MEMORY_ok by lia.
  f_equal.
  assert (H20 : 20 = Z.of_nat (length (hook.account (hook.result hookCtx))))
    by (rewrite Hacc; reflexivity).
  rewrite H20 at 1. rewrite setBytes_as_splice by lia. rewrite <- H20. reflexivity.
Qed.

Section BoundsChecked.
Context `{Externals}.

End BoundsChecked.

Lemma hook_account_ignores_length_witness :
  is_u32 4 /\ wf_memory example_memory /\
  length (hook.account (hook.result example_hookCtx)) = 20%nat /\
  4 + 20 <= memory_length example_memory /\
  hook_account example_hookCtx example_memory 4 3 =
    (20, take (Z.to_nat 4) example_memory ++
         hook.account (hook.result example_hookCtx) ++
         drop (Z.to_nat (4 + 20)) example_memory).
Proof.
  assert (H1 : is_u32 4) by (unfold is_u32; lia).
  assert (H2 : wf_memory example_memory) by (vm_compute; discriminate).
  assert (H3 : length (hook.account (hook.result example_hookCtx)) = 20%nat)
    by reflexivity.
  assert (H4 : 4 + 20 <= memory_length example_memory) by (vm_compute; discriminate).
  refine (conj H1 (conj H2 (conj H3 (conj H4 _)))).
  apply (hook_account_ignores_length example_hookCtx example_memory 4 3 H1 H2 H3 H4).
Defined.



(** ** Guard metering *)
Section Guard.
Context `{Externals}.

Lemma g_step hookCtx id maxitr :
  0 <= guard_count hookCtx id -> guard_count hookCtx id + 1 < 2 ^ guard_counter_bits ->
  exists hookCtx',
    guard_count hookCtx' id = guard_count hookCtx id + 1 /\
    hook.result hookCtx' = hook.result hookCtx /\
    _g hookCtx id maxitr =
      if guard_count hookCtx id + 1 >? maxitr
      then (RC_ROLLBACK,
            hook.with_result
              (hook.with_exit ROLLBACK GUARD_VIOLATION (hook.result hookCtx)) hookCtx')
      else (1, hookCtx').
Proof.
  unfold guard_count, _g. intros H0 H1.
  destruct (hook.guard_map hookCtx !! id) as [count|] eqn:E; simpl in *.
  - rewrite Z.mod_small by lia.
    exists (hook.with_guard_map (<[id := count + 1]> (hook.guard_map hookCtx)) hookCtx).
    simpl. rewrite !lookup_insert_eq. simpl. split; [reflexivity|]. split; reflexivity.
  - exists (hook.with_guard_map (<[id := 1]> (hook.guard_map hookCtx)) hookCtx).
    simpl. rewrite !lookup_insert_eq. simpl. split; [reflexivity|]. split; reflexivity.
Qed.

Lemma guard_calls_below k : forall hookCtx id maxitr,
  0 <= guard_count hookCtx id ->
  guard_count hookCtx id + Z.of_nat k <= maxitr ->
  maxitr < 2 ^ guard_counter_bits ->
  exists hookCtx',
    guard_calls k hookCtx id maxitr = (replicate k 1, hookCtx') /\
    guard_count hookCtx' id = guard_count hookCtx id + Z.of_nat k /\
    hook.result hookCtx' = hook.result hookCtx.
Proof.
  induction k as [|k IH]; intros hookCtx id maxitr H0 Hle Hbits.
  - exists hookCtx. simpl. repeat split; lia.
  - destruct (g_step hookCtx id maxitr H0) as (c1 & Hc & Hr & Hg); [lia|].
    destruct (Z.gtb_spec (guard_count hookCtx id + 1) maxitr); [lia|].
    destruct (IH c1 id maxitr) as (c2 & Hcalls & Hc2 & Hr2); [lia | lia | lia |].
    exists c2. simpl. rewrite Hg, Hcalls. repeat split; [lia | congruence].
Qed.

(** C4 (as amended): for a guard id not met before and a bound [n] whose
    successor the iteration counter can hold, [n] calls of [_g id n] in
    sequence return 1 each and leave the exit state alone; the call after
    them returns RC_ROLLBACK and sets the exit type to ROLLBACK with exit
    code GUARD_VIOLATION. *)
Theorem guard_violation_after_bound hookCtx id n :
  is_u32 n ->
  hook.guard_map hookCtx !! id = None ->
  n + 1 < 2 ^ guard_counter_bits ->
  exists hookCtx_n hookCtx',
    guard_calls (Z.to_nat n) hookCtx id n = (replicate (Z.to_nat n) 1, hookCtx_n) /\
    hook.result hookCtx_n = hook.result hookCtx /\
    _g hookCtx_n id n = (RC_ROLLBACK, hookCtx') /\
    hook.exitType (hook.result hookCtx') = ROLLBACK /\
    hook.exitCode (hook.result hookCtx') = GUARD_VIOLATION.
Proof.
  intros Hn Hfresh Hbits. unfold is_u32 in Hn.
  assert (H0 : guard_count hookCtx id = 0) by (unfold guard_count; rewrite Hfresh; reflexivity).
  destruct (guard_calls_below (Z.to_nat n) hookCtx id n) as (c1 & Hcalls & Hc & Hr);
    [lia | lia | lia |].
  destruct (g_step c1 id n) as (c2 & Hc2 & Hr2 & Hg); [lia | lia |].
  destruct (Z.gtb_spec (guard_count c1 id + 1) n); [|lia].
  eexists c1, _. split; [exact Hcalls|]. split; [exact Hr|].
  split; [exact Hg|]. split; reflexivity.
Qed.
End Guard.

Lemma guard_violation_after_bound_witness :
  is_u32 3 /\ hook.guard_map example_hookCtx !! 42 = None /\
  3 + 1 < 2 ^ (@guard_counter_bits example_externals) /\
  exists hookCtx_n hookCtx',
    @guard_calls example_externals (Z.to_nat 3) example_hookCtx 42 3
      = (replicate (Z.to_nat 3) 1, hookCtx_n) /\
    hook.result hookCtx_n = hook.result example_hookCtx /\
    @_g example_externals hookCtx_n 42 3 = (RC_ROLLBACK, hookCtx') /\
    hook.exitType (hook.result hookCtx') = ROLLBACK /\
    hook.exitCode (hook.result hookCtx') = GUARD_VIOLATION.
Proof.
  assert (H1 : is_u32 3) by (unfold is_u32; lia).
  assert (H2 : hook.guard_map example_hookCtx !! 42 = None) by reflexivity.
  assert (H3 : 3 + 1 < 2 ^ (@guard_counter_bits example_externals)) by (simpl; lia).
  refine (conj H1 (conj H2 (conj H3 _))).
  apply (@guard_violation_after_bound example_externals example_hookCtx 42 3 H1 H2 H3).
Defined.

(** ** The guard counter at the largest bound *)
Section GuardWrap.
Context `{Externals}.

(** With the bound at the largest value of the iteration counter the guard
    never trips: the calls up to the bound return 1, and on the next one
    the counter wraps to 0, which is not above the bound. *)
Lemma guard_counter_wraps hookCtx id n :
  hook.guard_map hookCtx !! id = None ->
  0 < guard_counter_bits -> n = 2 ^ guard_counter_bits - 1 ->
  exists hookCtx_n hookCtx',
    guard_calls (Z.to_nat n) hookCtx id n = (replicate (Z.to_nat n) 1, hookCtx_n) /\
    _g hookCtx_n id n = (1, hookCtx') /\
    hook.result hookCtx' = hook.result hookCtx.
Proof.
  intros Hfresh Hbits Hn.
  assert (Hpow : 2 <= 2 ^ guard_counter_bits).
  { change 2 with (2 ^ 1) at 1. apply Z.pow_le_mono_r; lia. }
  assert (H0 : guard_count hookCtx id = 0)
    by (unfold guard_count; rewrite Hfresh; reflexivity).
  destruct (guard_calls_below (Z.to_nat n) hookCtx id n) as (c1 & Hcalls & Hc & Hr);
    [lia | lia | lia |].
  rewrite H0, Z2Nat.id in Hc by lia.
  exists c1. unfold _g. unfold guard_count in Hc.
  destruct (hook.guard_map c1 !! id) as [count|] eqn:E;
    cbn [default from_option] in Hc; unfold Datatypes.id in Hc.
  - subst count.
    replace (0 + n + 1) with (2 ^ guard_counter_bits) by lia.
    rewrite Z.mod_same by lia.
    rewrite lookup_insert_eq. cbn [default from_option].
    destruct (Z.gtb_spec (Datatypes.id 0) n) as [Hgt|_]; [unfold Datatypes.id in Hgt; lia|].
    eexists. split; [exact Hcalls|]. split; [reflexivity|exact Hr].
  - lia.
Qed.
End GuardWrap.

(** C4, as stated, fails at the largest bound a 32-bit iteration counter
    can reach: 4294967295 calls of _g(42, 4294967295) return 1 each, and so
    does the call after them, which wraps the counter to 0 and leaves the
    exit state as it was (exit code -1, not GUARD_VIOLATION). *)
Lemma guard_largest_bound_never_trips :
  exists hookCtx_n hookCtx',
    @guard_calls example_externals (Z.to_nat 4294967295) example_hookCtx 42 4294967295
      = (replicate (Z.to_nat 4294967295) 1, hookCtx_n) /\
    @_g example_externals hookCtx_n 42 4294967295 = (1, hookCtx') /\
    1 <> RC_ROLLBACK /\
    hook.result hookCtx' = hook.result example_hookCtx /\
    hook.exitCode (hook.result hookCtx') <> GUARD_VIOLATION.
Proof.
  destruct (@guard_counter_wraps example_externals example_hookCtx 42 4294967295)
    as (c1 & c2 & H1 & H2 & H3).
  - reflexivity.
  - cbn. lia.
  - cbn. reflexivity.
  - exists c1, c2. split; [exact H1|]. split; [exact H2|].
    split; [discriminate|]. split; [exact H3|].
    rewrite H3. discriminate.
Qed.

(** ** State *)
Section State.
Context `{Externals}.

Lemma make_state_key_Some source :
  1 <= Z.of_nat (length source) <= 32 ->
  make_state_key source =
    Some (replicate (Z.to_nat (32 - Z.of_nat (length source))) 0 ++ source).
Proof.
  intros Hl. unfold make_state_key.
  destruct (Z.gtb_spec (Z.of_nat (length source)) 32); [lia|].
  destruct (Z.ltb_spec (Z.of_nat (length source)) 1); [lia|]. reflexivity.
Qed.

Lemma setBytes_nothing memory span dst :
  0 <= dst -> setBytes memory span dst 0 = memory.
Proof.
  intros Hd. unfold setBytes. rewrite Z.add_0_r. simpl. apply take_drop.
Qed.

(** What the code does after a delete: the cache entry staged by the
    zero-length state_set answers the read, with length 0. *)
Lemma state_after_delete hookCtx memory write_ptr write_len kread_ptr kread_len sle :
  wf_memory memory ->
  is_u32 write_ptr -> is_u32 write_len -> is_u32 kread_ptr -> is_u32 kread_len ->
  1 <= kread_len <= 32 ->
  kread_ptr + 32 <= memory_length memory ->
  write_ptr + write_len <= memory_length memory ->
  hooks (view (hook.applyCtx hookCtx)) !! hook.account (hook.result hookCtx) = Some sle ->
  0 <= sfHookStateDataMaxSize sle ->
  exists hookCtx1,
    state_set hookCtx memory 0 0 kread_ptr kread_len = (0, hookCtx1) /\
    state hookCtx1 memory write_ptr write_len kread_ptr kread_len = (0, hookCtx1, memory).
Proof.
  intros Hm Hwp Hwl Hkp Hkl Hk Hkb Hwb Hsle Hmax.
  pose proof (memory_length_nonneg memory) as Hnn. unfold wf_memory, is_u32 in *.
  assert (Hkey : make_state_key (read_bytes memory kread_ptr kread_len) =
                 Some (replicate (Z.to_nat (32 - kread_len)) 0 ++
                       read_bytes memory kread_ptr kread_len)).
  { rewrite make_state_key_Some; rewrite length_read_bytes by lia; [|lia].
    rewrite Z2Nat.id by lia. reflexivity. }
  set (key := replicate (Z.to_nat (32 - kread_len)) 0 ++
              read_bytes memory kread_ptr kread_len) in *.
  eexists. split.
  - unfold state_set.
    rewrite !NOT_IN_BOUNDS_spec by (unfold is_u32; lia).
    destruct (Z.gtb_spec (kread_ptr + 32) (memory_length memory)); [lia|].
    simpl.
    destruct (Z.gtb_spec kread_len 32); [lia|]. destruct (Z.ltb_spec kread_len 1); [lia|].
    rewrite Hsle. destruct (Z.gtb_spec 0 (sfHookStateDataMaxSize sle)); [lia|].
    rewrite Hkey. reflexivity.
  - unfold state, state_foreign. simpl.
    rewrite !NOT_IN_BOUNDS_spec by (unfold is_u32; lia).
    destruct (Z.gtb_spec (kread_ptr + kread_len) (memory_length memory)); [lia|].
    destruct (Z.gtb_spec (0 + 0) (memory_length memory)); [lia|].
    destruct (Z.gtb_spec (write_ptr + write_len) (memory_length memory)); [lia|].
    simpl. destruct (Z.gtb_spec kread_len 32); [lia|].
    rewrite Hkey. rewrite lookup_insert_eq.
    change (read_bytes memory 0 0) with (@nil Z). cbn [snd length].
    change (Z.of_nat 0) with 0.
    destruct (Z.eqb_spec write_ptr 0); [reflexivity|].
    destruct (Z.gtb_spec 0 write_len); [lia|].
    unfold WRITE_WASM_MEMORY_AND_RETURN.
    rewrite WRITE_WASM_MEMORY_ok by lia.
    rewrite setBytes_nothing by lia. reflexivity.
Qed.
End State.

(** C2 (the claim is what the source means by a delete; the code answers
    otherwise): after state_set with a zero-length value for a key, the
    read of that key in the same invocation hits the cache entry staged by
    the delete and returns 0, the length of the empty value, and not
    DOESNT_EXIST. *)
Theorem state_after_empty_state_set :
  exists hookCtx1,
    state_set example_hookCtx example_memory 0 0 0 4 = (0, hookCtx1) /\
    state hookCtx1 example_memory 32 32 0 4 = (0, hookCtx1, example_memory) /\
    0 <> DOESNT_EXIST.
Proof.
  destruct (state_after_delete example_hookCtx example_memory
              32 32 0 4 {| sfHookStateDataMaxSize := 128; sfHookStateCount := 0 |})
    as (c1 & H1 & H2).
  - vm_compute. discriminate.
  - unfold is_u32. lia.
  - unfold is_u32. lia.
  - unfold is_u32. lia.
  - unfold is_u32. lia.
  - lia.
  - vm_compute. discriminate.
  - vm_compute. discriminate.
  - vm_compute. reflexivity.
  - simpl. lia.
  - exists c1. split; [exact H1|]. split; [exact H2 | discriminate].
Qed.

(** ** Emission *)

Section Emission.
Context `{Externals}.

Lemma caches_only_refl c : caches_only c c.
Proof. repeat split. Qed.

Lemma caches_only_trans c1 c2 c3 :
  caches_only c1 c2 -> caches_only c2 c3 -> caches_only c1 c3.
Proof.
  unfold caches_only. intros (?&?&?&?&?&?) (?&?&?&?&?&?).
  repeat split; congruence.
Qed.

Lemma otxn_burden_caches c : caches_only c (snd (otxn_burden c)).
Proof.
  unfold otxn_burden.
  destruct (negb (hook.burden c =? 0)); [apply caches_only_refl|].
  destruct (sfEmitDetails (tx (hook.applyCtx c))) as [pd|]; [|apply caches_only_refl].
  destruct (sfEmitBurden pd); [|apply caches_only_refl].
  repeat split.
Qed.

Lemma otxn_generation_caches c : caches_only c (snd (otxn_generation c)).
Proof.
  unfold otxn_generation.
  destruct (negb (hook.generation c =? 0)); [apply caches_only_refl|].
  destruct (sfEmitDetails (tx (hook.applyCtx c))) as [pd|]; [|apply caches_only_refl].
  destruct (sfEmitGeneration pd); [|apply caches_only_refl].
  repeat split.
Qed.

Lemma etxn_generation_caches c : caches_only c (snd (etxn_generation c)).
Proof.
  unfold etxn_generation. pose proof (otxn_generation_caches c) as Hc.
  destruct (otxn_generation c). exact Hc.
Qed.

Lemma etxn_burden_caches c : caches_only c (snd (etxn_burden c)).
Proof.
  unfold etxn_burden.
  destruct (hook.expected_etxn_count c <=? -1); [apply caches_only_refl|].
  pose proof (otxn_burden_caches c) as Hc. destruct (otxn_burden c) as [b c1].
  simpl in Hc. destruct (_ <? _); exact Hc.
Qed.

Lemma with_fee_base_caches v c : caches_only c (hook.with_fee_base v c).
Proof. repeat split. Qed.

Lemma etxn_fee_base_caches c n : caches_only c (snd (etxn_fee_base c n)).
Proof.
  unfold etxn_fee_base.
  destruct (hook.expected_etxn_count c <=? -1); [apply caches_only_refl|].
  pose proof (etxn_burden_caches c) as Hc. destruct (etxn_burden c) as [b c1].
  simpl in Hc. destruct (b <? 1); [exact Hc|].
  destruct (_ || _); [exact Hc|].
  simpl. eapply caches_only_trans; [exact Hc | apply with_fee_base_caches].
Qed.

Lemma emit_rules_caches c stp len :
  caches_only c (match emit_rules c stp len with inl c' => c' | inr c' => c' end).
Proof.
  unfold emit_rules.
  destruct (negb _); [apply caches_only_refl|].
  destruct (sfSigningPubKey stp) as [pk|]; [|apply caches_only_refl].
  destruct (_ && _); [apply caches_only_refl|].
  destruct (negb _); [apply caches_only_refl|].
  destruct (sfEmitDetails stp) as [ed|]; [|apply caches_only_refl].
  destruct (sfEmitGeneration ed); [|apply caches_only_refl].
  destruct (sfEmitBurden ed); [|apply caches_only_refl].
  destruct (sfEmitParentTxnID ed); [|apply caches_only_refl].
  destruct (sfEmitNonce ed); [|apply caches_only_refl].
  destruct (sfEmitCallback ed); [|apply caches_only_refl].
  pose proof (etxn_generation_caches c) as Hg.
  destruct (etxn_generation c) as [g c1]. simpl in Hg.
  destruct (negb _); [exact Hg|].
  pose proof (etxn_burden_caches c1) as Hb.
  destruct (etxn_burden c1) as [b c2]. simpl in Hb.
  assert (Hc2 : caches_only c c2) by (eapply caches_only_trans; eassumption).
  repeat (match goal with
          | |- caches_only _ (match (if ?x then _ else _) with _ => _ end) =>
              destruct x; [exact Hc2|]
          end).
  destruct (sfFirstLedgerSequence stp); [|exact Hc2].
  destruct (_ >? _); [exact Hc2|].
  match goal with
  | |- context [if hook.fee_base c2 =? 0 then ?a else ?b] =>
      assert (Hc3 : caches_only c (if hook.fee_base c2 =? 0 then a else b))
  end.
  { destruct (hook.fee_base c2 =? 0); [|exact Hc2].
    pose proof (etxn_fee_base_caches c2 len) as Hf.
    destruct (etxn_fee_base c2 len) as [f c3]. simpl in Hf.
    eapply caches_only_trans; [exact Hc2|].
    eapply caches_only_trans; [exact Hf | apply with_fee_base_caches]. }
  match goal with
  | |- context [if hook.fee_base c2 =? 0 then ?a else ?b] =>
      set (c3 := if hook.fee_base c2 =? 0 then a else b) in *
  end.
  destruct (_ || _); [exact Hc3|].
  destruct (sfFee stp); [|exact Hc3].
  destruct (_ <? _); [exact Hc3|].
  destruct (negb _); exact Hc3.
Qed.

(** One call of emit: the expected count stays, a success appends exactly
    one transaction and needs room below the expected count, a failure
    leaves the queue as it was. *)
Lemma emit_step c memory read_ptr read_len r c' :
  is_u32 read_len ->
  emit c memory read_ptr read_len = (r, c') ->
  hook.expected_etxn_count c' = hook.expected_etxn_count c /\
  (0 <= r ->
   (exists stpTrans,
      hook.emittedTxn (hook.result c') = hook.emittedTxn (hook.result c) ++ [stpTrans]) /\
   Z.of_nat (length (hook.emittedTxn (hook.result c))) < hook.expected_etxn_count c) /\
  (r < 0 -> hook.emittedTxn (hook.result c') = hook.emittedTxn (hook.result c)).
Proof.
  intros Hl. unfold is_u32 in Hl. unfold emit.
  assert (Hfail : forall code, code < 0 ->
            (code, c) = (r, c') ->
            hook.expected_etxn_count c' = hook.expected_etxn_count c /\
            (0 <= r -> (exists stpTrans,
               hook.emittedTxn (hook.result c') =
               hook.emittedTxn (hook.result c) ++ [stpTrans]) /\
               Z.of_nat (length (hook.emittedTxn (hook.result c)))
                 < hook.expected_etxn_count c) /\
            (r < 0 -> hook.emittedTxn (hook.result c') = hook.emittedTxn (hook.result c))).
  { intros code Hc [= <- <-]. split; [reflexivity|]. split; [lia | reflexivity]. }
  destruct (NOT_IN_BOUNDS _ _ _); [apply Hfail; reflexivity|].
  destruct (Z.ltb_spec (hook.expected_etxn_count c) 0) as [Hneg|Hres];
    [apply Hfail; reflexivity|].
  destruct (Z.geb_spec (Z.of_nat (length (hook.emittedTxn (hook.result c))))
              (u64 (hook.expected_etxn_count c))) as [Hfull|Hroom];
    [apply Hfail; reflexivity|].
  destruct (parse_STTx _) as [stp|]; [|apply Hfail; reflexivity].
  pose proof (emit_rules_caches c stp read_len) as Hc.
  destruct (emit_rules c stp read_len) as [c1|c1];
    destruct Hc as (Ha & Hr & He & _).
  - intros [= <- <-]. split; [exact He|]. split; [unfold EMISSION_FAILURE; lia|].
    intros _. rewrite Hr. reflexivity.
  - intros [= <- <-]. simpl. split; [exact He|]. split.
    + intros _. split; [exists stp; rewrite Hr; reflexivity|].
      unfold u64 in Hroom.
      pose proof (Z.mod_le (hook.expected_etxn_count c) (2^64)). lia.
    + lia.
Qed.

Lemma successes_cons r rs :
  successes (r :: rs) = (if 0 <=? r then 1 else 0) + successes rs.
Proof.
  unfold successes. rewrite filter_cons.
  destruct (decide (0 <= r)) as [Hr|Hr]; destruct (Z.leb_spec 0 r); try lia;
    simpl length; lia.
Qed.

Lemma emit_run_counts c rs c' :
  emit_run c rs c' ->
  hook.expected_etxn_count c' = hook.expected_etxn_count c /\
  Z.of_nat (length (hook.emittedTxn (hook.result c'))) =
    Z.of_nat (length (hook.emittedTxn (hook.result c))) + successes rs /\
  (Z.of_nat (length (hook.emittedTxn (hook.result c))) <= hook.expected_etxn_count c ->
   Z.of_nat (length (hook.emittedTxn (hook.result c'))) <= hook.expected_etxn_count c).
Proof.
  induction 1 as [c | c memory read_ptr read_len r c1 rs c2 Hp Hl Hemit Hrun IH
                 | c c1 rs c2 [Hq He] Hrun IH].
  - unfold successes. simpl. repeat split; lia.
  - destruct (emit_step c memory read_ptr read_len r c1 Hl Hemit) as (He & Hok & Hfail).
    destruct IH as (IHe & IHn & IHle). rewrite successes_cons.
    destruct (Z.leb_spec 0 r) as [Hr|Hr].
    + destruct (Hok Hr) as ([stp Hq] & Hroom).
      rewrite Hq, length_app in *. simpl length in *.
      repeat split; [congruence | lia | intros _; rewrite <- He; apply IHle; lia].
    + rewrite (Hfail Hr) in *.
      repeat split; [congruence | lia | intros Hle; rewrite <- He; apply IHle; lia].
  - destruct IH as (IHe & IHn & IHle). rewrite Hq, He in *.
    repeat split; assumption.
Qed.

(** C3: after etxn_reserve(count) has succeeded (on an empty queue), in
    every run of the guest each successful emit appends exactly one
    transaction to the queue, at most [count] emit calls succeed, and once
    [count] have succeeded a further emit call (on an in-bounds buffer, see
    C1) returns TOO_MANY_EMITTED_TXN and changes nothing. *)
Theorem emit_respects_reserve c0 count c1 rs c2 :
  is_u32 count ->
  hook.emittedTxn (hook.result c0) = [] ->
  etxn_reserve c0 count = (count, c1) ->
  emit_run c1 rs c2 ->
  (* every successful emit appends exactly one transaction *)
  (forall c memory read_ptr read_len r c',
     is_u32 read_len -> emit c memory read_ptr read_len = (r, c') -> 0 <= r ->
     exists stpTrans,
       hook.emittedTxn (hook.result c') = hook.emittedTxn (hook.result c) ++ [stpTrans]) /\
  Z.of_nat (length (hook.emittedTxn (hook.result c2))) = successes rs /\
  (* no more than count succeed *)
  successes rs <= count /\
  (* once count have succeeded, the next one is refused *)
  (successes rs = count ->
   forall memory read_ptr read_len,
     wf_memory memory -> is_u32 read_ptr -> is_u32 read_len ->
     read_ptr + read_len <= memory_length memory ->
     emit c2 memory read_ptr read_len = (TOO_MANY_EMITTED_TXN, c2)).
Proof.
  intros Hcount Hempty Hreserve Hrun. unfold is_u32 in Hcount.
  assert (Hc1 : hook.expected_etxn_count c1 = count /\
                hook.emittedTxn (hook.result c1) = []).
  { unfold etxn_reserve in Hreserve.
    destruct (hook.expected_etxn_count c0 >? -1);
      [injection Hreserve as Hc _; unfold ALREADY_SET in Hc; lia|].
    destruct (count >? max_emit);
      [injection Hreserve as Hc _; unfold TOO_BIG in Hc; lia|].
    injection Hreserve as <-. simpl. split; [reflexivity | exact Hempty]. }
  destruct Hc1 as [He1 Hq1].
  destruct (emit_run_counts c1 rs c2 Hrun) as (He & Hn & Hle).
  rewrite Hq1, He1 in *. simpl length in *.
  split.
  { intros c memory read_ptr read_len r c' Hl Hemit Hr.
    destruct (emit_step c memory read_ptr read_len r c' Hl Hemit) as (_ & Hok & _).
    apply Hok. exact Hr. }
  split; [lia|]. split; [lia|].
  intros Hall memory read_ptr read_len Hm Hp Hl Hb. unfold emit.
  pose proof (memory_length_nonneg memory). unfold wf_memory, is_u32 in *.
  rewrite NOT_IN_BOUNDS_spec by (unfold is_u32; lia).
  destruct (Z.gtb_spec (read_ptr + read_len) (memory_length memory)); [lia|].
  rewrite He. destruct (Z.ltb_spec count 0); [lia|].
  rewrite u64_small by lia.
  destruct (Z.geb_spec (Z.of_nat (length (hook.emittedTxn (hook.result c2)))) count);
    [reflexivity | lia].
Qed.
End Emission.

Section Fee.
Context `{Externals}.

(** The burden depends on the expected count, the cached burden and the
    originating transaction only, and asking twice gives the same. *)
Lemma otxn_burden_ext c c' :
  hook.burden c' = hook.burden c -> hook.applyCtx c' = hook.applyCtx c ->
  fst (otxn_burden c') = fst (otxn_burden c).
Proof.
  intros Hb Ha. unfold otxn_burden. rewrite Hb, Ha.
  destruct (negb (hook.burden c =? 0)); [reflexivity|].
  destruct (sfEmitDetails _) as [pd|]; [|reflexivity].
  destruct (sfEmitBurden pd); reflexivity.
Qed.

Lemma otxn_burden_idem c :
  fst (otxn_burden (snd (otxn_burden c))) = fst (otxn_burden c).
Proof.
  destruct (Z.eqb_spec (hook.burden c) 0) as [E|E].
  - destruct (sfEmitDetails (tx (hook.applyCtx c))) as [pd|] eqn:Ed.
    + destruct (sfEmitBurden pd) as [b|] eqn:Eb.
      * assert (Hc : otxn_burden c =
                     (i64 (Z.land b (Z.shiftl 1 63 - 1)),
                      hook.with_burden (i64 (Z.land b (Z.shiftl 1 63 - 1))) c)).
        { unfold otxn_burden. rewrite E, Ed, Eb. reflexivity. }
        rewrite Hc. cbn [fst snd]. unfold otxn_burden. cbn [hook.burden hook.with_burden
          hook.applyCtx]. rewrite Ed, Eb.
        destruct (negb (i64 (Z.land b (Z.shiftl 1 63 - 1)) =? 0)); reflexivity.
      * assert (Hc : otxn_burden c = (1, c))
          by (unfold otxn_burden; rewrite E, Ed, Eb; reflexivity).
        rewrite Hc. cbn [fst snd]. rewrite Hc. reflexivity.
    + assert (Hc : otxn_burden c = (1, c))
        by (unfold otxn_burden; rewrite E, Ed; reflexivity).
      rewrite Hc. cbn [fst snd]. rewrite Hc. reflexivity.
  - assert (Hc : otxn_burden c = (hook.burden c, c)).
    { unfold otxn_burden. destruct (Z.eqb_spec (hook.burden c) 0); [contradiction|].
      reflexivity. }
    rewrite Hc. cbn [fst snd]. rewrite Hc. reflexivity.
Qed.

Lemma etxn_burden_ext c c' :
  hook.expected_etxn_count c' = hook.expected_etxn_count c ->
  hook.burden c' = hook.burden c -> hook.applyCtx c' = hook.applyCtx c ->
  fst (etxn_burden c') = fst (etxn_burden c).
Proof.
  intros He Hb Ha. unfold etxn_burden. rewrite He.
  destruct (hook.expected_etxn_count c <=? -1); [reflexivity|].
  pose proof (otxn_burden_ext c c' Hb Ha) as Ho.
  pose proof (otxn_burden_caches c) as (_ & _ & Hec & _).
  pose proof (otxn_burden_caches c') as (_ & _ & Hec' & _).
  destruct (otxn_burden c) as [b c1], (otxn_burden c') as [b' c1'].
  simpl in *. subst b'. rewrite Hec, Hec', He.
  destruct (_ <? _); reflexivity.
Qed.

Lemma otxn_burden_frame c :
  hook.fee_base (snd (otxn_burden c)) = hook.fee_base c /\
  hook.generation (snd (otxn_burden c)) = hook.generation c.
Proof.
  unfold otxn_burden.
  destruct (negb _); [split; reflexivity|].
  destruct (sfEmitDetails _) as [pd|]; [|split; reflexivity].
  destruct (sfEmitBurden pd); split; reflexivity.
Qed.

Lemma etxn_burden_frame c :
  hook.fee_base (snd (etxn_burden c)) = hook.fee_base c.
Proof.
  unfold etxn_burden.
  destruct (_ <=? _); [reflexivity|].
  pose proof (otxn_burden_frame c) as [Hf _].
  destruct (otxn_burden c) as [b c1]. simpl in *.
  destruct (_ <? _); exact Hf.
Qed.

Lemma etxn_burden_idem c :
  fst (etxn_burden (snd (etxn_burden c))) = fst (etxn_burden c).
Proof.
  pose proof (etxn_burden_caches c) as (Ha & _ & He & _).
  destruct (Z.leb_spec (hook.expected_etxn_count c) (-1)) as [E|E].
  - assert (Hc : etxn_burden c = (PREREQUISITE_NOT_MET, c)).
    { unfold etxn_burden. destruct (Z.leb_spec (hook.expected_etxn_count c) (-1)); [reflexivity|lia]. }
    rewrite Hc. cbn [fst snd]. rewrite Hc. reflexivity.
  - pose proof (otxn_burden_idem c) as Hi.
    pose proof (otxn_burden_caches c) as (_ & _ & Heo & _).
    pose proof (otxn_burden_caches (snd (otxn_burden c))) as (_ & _ & Heo' & _).
    unfold etxn_burden in *.
    destruct (Z.leb_spec (hook.expected_etxn_count c) (-1)); [lia|].
    destruct (otxn_burden c) as [b c1]. cbn [fst snd] in *.
    assert (Hsnd : hook.expected_etxn_count
              (snd (if u64 (u64 b * u64 (hook.expected_etxn_count c1)) <? u64 b
                    then (FEE_TOO_LARGE, c1)
                    else (i64 (u64 (u64 b * u64 (hook.expected_etxn_count c1))), c1)))
              = hook.expected_etxn_count c) by exact He.
    assert (Hc1 : snd (if u64 (u64 b * u64 (hook.expected_etxn_count c1)) <? u64 b
                    then (FEE_TOO_LARGE, c1)
                    else (i64 (u64 (u64 b * u64 (hook.expected_etxn_count c1))), c1)) = c1)
      by (destruct (_ <? _); reflexivity).
    rewrite Hc1.
    destruct (Z.leb_spec (hook.expected_etxn_count c1) (-1)); [lia|].
    destruct (otxn_burden c1) as [b' c2]. cbn [fst snd] in *. subst b'.
    rewrite Heo', Heo.
    destruct (u64 (u64 b * u64 (hook.expected_etxn_count c)) <? u64 b); reflexivity.
Qed.

Lemma etxn_generation_frame c :
  hook.fee_base (snd (etxn_generation c)) = hook.fee_base c /\
  hook.burden (snd (etxn_generation c)) = hook.burden c.
Proof.
  unfold etxn_generation, otxn_generation.
  destruct (negb _); [split; reflexivity|].
  destruct (sfEmitDetails _) as [pd|]; [|split; reflexivity].
  destruct (sfEmitGeneration pd); split; reflexivity.
Qed.

Lemma fee_base_caches c c' : caches_only c c' -> fee_base c' = fee_base c.
Proof. intros (Ha & _). unfold fee_base. rewrite Ha. reflexivity. Qed.

Lemma etxn_fee_base_result c n f c' :
  etxn_fee_base c n = (f, c') ->
  f = PREREQUISITE_NOT_MET \/ f = FEE_TOO_LARGE \/
  (1 <= fst (etxn_burden c) /\
   f = i64 (u64 (u64 (fee_base c) * u64 (fst (etxn_burden c))) * drops_per_byte * n)).
Proof.
  unfold etxn_fee_base.
  destruct (_ <=? _); [intros [= <- _]; auto|].
  destruct (etxn_burden c) as [b c1]. simpl.
  destruct (Z.ltb_spec b 1); [intros [= <- _]; auto|].
  destruct (_ || _); [intros [= <- _]; auto|].
  intros [= <- _]. right. right. split; [assumption | reflexivity].
Qed.

Lemma etxn_burden_range c : fst (etxn_burden c) < 2^63.
Proof.
  unfold etxn_burden.
  destruct (_ <=? _); [simpl; unfold PREREQUISITE_NOT_MET; lia|].
  destruct (otxn_burden c) as [b c1].
  destruct (_ <? _); simpl; [unfold FEE_TOO_LARGE; lia|].
  apply i64_range.
Qed.

(** Rule 7, once all rules have passed: the candidate carries a Fee, and it
    is at least the fee of the spec. *)
Lemma emit_rules_fee c stpTrans read_len c_f :
  is_u32 read_len -> 0 < drops_per_byte -> 0 <= fee_base c ->
  fee_products_fit c read_len ->
  emit_rules c stpTrans read_len = inr c_f ->
  exists fee, sfFee stpTrans = Some fee /\ emit_min_fee c read_len <= fee.
Proof.
  intros Hl Hd HB Hfit. unfold is_u32 in Hl. unfold emit_rules.
  destruct (negb _); [discriminate|].
  destruct (sfSigningPubKey stpTrans) as [pk|]; [|discriminate].
  destruct (_ && _); [discriminate|].
  destruct (negb _); [discriminate|].
  destruct (sfEmitDetails stpTrans) as [ed|]; [|discriminate].
  destruct (sfEmitGeneration ed); [|discriminate].
  destruct (sfEmitBurden ed); [|discriminate].
  destruct (sfEmitParentTxnID ed); [|discriminate].
  destruct (sfEmitNonce ed); [|discriminate].
  destruct (sfEmitCallback ed); [|discriminate].
  pose proof (etxn_generation_caches c) as Hgc.
  pose proof (etxn_generation_frame c) as [Hgf Hgb].
  destruct (etxn_generation c) as [g c1]. cbn [snd] in *.
  destruct (negb _); [discriminate|].
  pose proof (etxn_burden_caches c1) as Hbc.
  pose proof (etxn_burden_frame c1) as Hbf.
  pose proof (etxn_burden_idem c1) as Hbi.
  destruct (etxn_burden c1) as [b c2] eqn:Eb. cbn [fst snd] in *.
  assert (Hc2 : caches_only c c2) by (eapply caches_only_trans; eassumption).
  assert (HF : hook.fee_base c2 = hook.fee_base c) by congruence.
  assert (Hbur : fst (etxn_burden c2) = fst (etxn_burden c)).
  { rewrite Hbi. replace b with (fst (etxn_burden c1)) by (rewrite Eb; reflexivity).
    destruct Hgc as (Ha & _ & He & _). apply etxn_burden_ext; assumption. }
  assert (HB2 : fee_base c2 = fee_base c) by (apply fee_base_caches; exact Hc2).
  repeat (match goal with
        | |- (if ?x then _ else _) = _ -> _ => destruct x; [discriminate|]
        end).
  destruct (sfFirstLedgerSequence stpTrans); [|discriminate].
  destruct (_ >? _); [discriminate|].
  unfold fee_products_fit, emit_min_fee in *.
  pose proof (etxn_burden_range c) as Hbr.
  set (B := fee_base c) in *. set (bur := fst (etxn_burden c)) in *.
  set (dpb := drops_per_byte) in *.
  rewrite HF.
  destruct (Z.eqb_spec (hook.fee_base c) 0) as [E0|E0].
  - (* the fee base is computed by this call *)
    pose proof (etxn_fee_base_result c2 read_len) as Hres.
    destruct (etxn_fee_base c2 read_len) as [f c3].
    specialize (Hres f c3 eq_refl). rewrite Hbur, HB2 in Hres. fold B bur dpb in Hres.
    cbn [hook.fee_base hook.with_fee_base].
    destruct (Z.ltb_spec (i64 (f * dpb * read_len)) 0) as [?|Hmin]; [discriminate|].
    destruct (Z.ltb_spec f 0) as [?|Hf]; [discriminate|]. cbn [orb].
    destruct (sfFee stpTrans) as [fee|]; [|discriminate].
    destruct (Z.ltb_spec fee (i64 (f * dpb * read_len))) as [?|Hfee]; [discriminate|].
    intros _. exists fee. split; [reflexivity|].
    destruct Hres as [->|[->|[Hb1 Hfv]]];
      [unfold PREREQUISITE_NOT_MET in Hf; lia | unfold FEE_TOO_LARGE in Hf; lia |].
    destruct (Z.eq_dec read_len 0) as [->|Hnz].
    + rewrite !Z.mul_0_r in *. change (i64 0) with 0 in *. lia.
    + assert (Hdl : 1 <= dpb * read_len) by nia.
      assert (HP : 0 <= B * bur) by nia.
      assert (HT : B * bur * dpb * read_len < 2^63) by nia.
      assert (HP2 : B * bur < 2^63) by nia.
      assert (HBr : B < 2^63) by nia.
      rewrite (u64_small B), (u64_small bur), (u64_small (B * bur)) in Hfv by lia.
      rewrite i64_small in Hfv by nia. subst f.
      rewrite i64_small in Hfee by nia. nia.
  - (* the fee base has been cached before *)
    rewrite !HF.
    destruct (Z.ltb_spec (i64 (hook.fee_base c * dpb * read_len)) 0) as [?|Hmin];
      [discriminate|].
    destruct (Z.ltb_spec (hook.fee_base c) 0) as [?|Hf]; [discriminate|]. cbn [orb].
    destruct (sfFee stpTrans) as [fee|]; [|discriminate].
    destruct (Z.ltb_spec fee (i64 (hook.fee_base c * dpb * read_len))) as [?|Hfee];
      [discriminate|].
    intros _. exists fee. split; [reflexivity|].
    destruct Hfit as [Hneg|[Hle Hlt]]; [lia|].
    rewrite i64_small in Hfee by nia. nia.
Qed.

(** Rule 7 where it works as meant: when the 64-bit products of the fee
    computation do not wrap, emit accepts a candidate only if it carries a
    Fee of at least base_fee * burden * drops_per_byte * byte_count drops,
    base_fee being what fee_base() answers (the ledger's fee base scaled by
    the fee-base multiplier); a candidate that reaches the rules without
    such a Fee makes emit return EMISSION_FAILURE. *)
Theorem emit_fee_rule c memory read_ptr read_len r c' :
  is_u32 read_len -> 0 < drops_per_byte -> 0 <= fee_base c ->
  fee_products_fit c read_len ->
  emit c memory read_ptr read_len = (r, c') ->
  (* accepted only with a Fee of at least the minimum *)
  (0 <= r ->
   exists stpTrans fee,
     parse_STTx (read_bytes memory read_ptr read_len) = Some stpTrans /\
     sfFee stpTrans = Some fee /\ emit_min_fee c read_len <= fee) /\
  (* a candidate that reaches the rules without such a Fee is refused with
     EMISSION_FAILURE *)
  (forall stpTrans,
     NOT_IN_BOUNDS read_ptr read_len (memory_length memory) = false ->
     0 <= hook.expected_etxn_count c < 2^63 ->
     Z.of_nat (length (hook.emittedTxn (hook.result c))) < hook.expected_etxn_count c ->
     parse_STTx (read_bytes memory read_ptr read_len) = Some stpTrans ->
     (forall fee, sfFee stpTrans = Some fee -> fee < emit_min_fee c read_len) ->
     r = EMISSION_FAILURE).
Proof.
  intros Hl Hd HB Hfit Hemit. split.
  - intros Hr. unfold emit in Hemit.
    destruct (NOT_IN_BOUNDS _ _ _);
      [injection Hemit as <- _; unfold OUT_OF_BOUNDS in Hr; lia|].
    destruct (_ <? _);
      [injection Hemit as <- _; unfold PREREQUISITE_NOT_MET in Hr; lia|].
    destruct (_ >=? _);
      [injection Hemit as <- _; unfold TOO_MANY_EMITTED_TXN in Hr; lia|].
    destruct (parse_STTx _) as [stp|];
      [|injection Hemit as <- _; unfold EMISSION_FAILURE in Hr; lia].
    destruct (emit_rules c stp read_len) as [c1|c1] eqn:Er;
      [injection Hemit as <- _; unfold EMISSION_FAILURE in Hr; lia|].
    destruct (emit_rules_fee c stp read_len c1 Hl Hd HB Hfit Er) as (fee & Hfee & Hmin).
    exists stp, fee. auto.
  - intros stp Hnb He Hroom Hparse Hviol. unfold emit in Hemit.
    rewrite Hnb, Hparse in Hemit.
    destruct (Z.ltb_spec (hook.expected_etxn_count c) 0); [lia|].
    rewrite u64_small in Hemit by lia.
    destruct (Z.geb_spec (Z.of_nat (length (hook.emittedTxn (hook.result c))))
                (hook.expected_etxn_count c)); [lia|].
    destruct (emit_rules c stp read_len) as [c1|c1] eqn:Er;
      [injection Hemit as <- _; reflexivity|].
    destruct (emit_rules_fee c stp read_len c1 Hl Hd HB Hfit Er) as (fee & Hfee & Hmin).
    specialize (Hviol fee Hfee). lia.
Qed.
End Fee.

Lemma emit_respects_reserve_witness :
  is_u32 1 /\
  hook.emittedTxn (hook.result example_hookCtx) = [] /\
  @etxn_reserve example_externals example_hookCtx 1 = (1, example_reserved) /\
  @emit_run example_externals example_reserved [8]
    (snd (@emit example_externals example_ready example_memory_tx 0 8)) /\
  successes [8] = 1 /\
  @emit example_externals
    (snd (@emit example_externals example_ready example_memory_tx 0 8))
    example_memory_tx 0 8
  = (TOO_MANY_EMITTED_TXN,
     snd (@emit example_externals example_ready example_memory_tx 0 8)).
Proof.
  assert (H1 : is_u32 1) by (unfold is_u32; lia).
  assert (H2 : hook.emittedTxn (hook.result example_hookCtx) = []) by reflexivity.
  assert (H3 : @etxn_reserve example_externals example_hookCtx 1 = (1, example_reserved))
    by (vm_compute; reflexivity).
  assert (H4 : @emit_run example_externals example_reserved [8]
                 (snd (@emit example_externals example_ready example_memory_tx 0 8))).
  { apply (@emit_run_other example_externals example_reserved example_ready).
    - split; vm_compute; reflexivity.
    - apply (@emit_run_emit example_externals example_ready example_memory_tx 0 8 8
               (snd (@emit example_externals example_ready example_memory_tx 0 8))).
      + unfold is_u32; lia.
      + unfold is_u32; lia.
      + vm_compute. reflexivity.
      + apply emit_run_done. }
  assert (H5 : successes [8] = 1) by reflexivity.
  refine (conj H1 (conj H2 (conj H3 (conj H4 (conj H5 _))))).
  destruct (@emit_respects_reserve example_externals example_hookCtx 1 example_reserved
              [8] _ H1 H2 H3 H4) as (_ & _ & _ & Hfull).
  apply (Hfull H5 example_memory_tx 0 8).
  - vm_compute. discriminate.
  - unfold is_u32; lia.
  - unfold is_u32; lia.
  - vm_compute. discriminate.
Defined.

Lemma emit_fee_rule_witness :
  is_u32 8 /\ 0 < @drops_per_byte example_externals /\
  0 <= @fee_base example_externals example_ready /\
  @fee_products_fit example_externals example_ready 8 /\
  @emit_min_fee example_externals example_ready 8 = 2750000 /\
  exists stpTrans fee,
    @parse_STTx example_externals (read_bytes example_memory_tx 0 8) = Some stpTrans /\
    sfFee stpTrans = Some fee /\
    @emit_min_fee example_externals example_ready 8 <= fee.
Proof.
  assert (H1 : is_u32 8) by (unfold is_u32; lia).
  assert (H2 : 0 < @drops_per_byte example_externals) by (simpl; lia).
  assert (H3 : 0 <= @fee_base example_externals example_ready) by (vm_compute; discriminate).
  assert (H4 : @fee_products_fit example_externals example_ready 8)
    by (vm_compute; reflexivity).
  assert (H5 : @emit_min_fee example_externals example_ready 8 = 2750000)
    by (vm_compute; reflexivity).
  refine (conj H1 (conj H2 (conj H3 (conj H4 (conj H5 _))))).
  destruct (@emit_fee_rule example_externals example_ready example_memory_tx 0 8 8
              (snd (@emit example_externals example_ready example_memory_tx 0 8))
              H1 H2 H3 H4) as [Hacc _].
  - vm_compute. reflexivity.
  - apply Hacc. lia.
Defined.


(** ** Commit *)

(** Counting the ids that are new to the emitted directory. *)
Lemma new_ids_nil v : new_ids [] v = 0.
Proof.
  unfold new_ids. cbn [fmap list_fmap list_to_set].
  replace (∅ ∖ dom (emitted v) : gset (list Z)) with (∅ : gset (list Z)).
  - rewrite size_empty. reflexivity.
  - apply set_eq. intros x. rewrite elem_of_difference, elem_of_empty. tauto.
Qed.

Lemma new_ids_known t txns v :
  is_Some (emitted v !! TransactionID t) -> new_ids (t :: txns) v = new_ids txns v.
Proof.
  intros Hin. unfold new_ids. do 2 f_equal.
  apply elem_of_dom in Hin. rewrite fmap_cons. cbn [list_to_set].
  apply set_eq. intros x.
  rewrite !elem_of_difference, elem_of_union, elem_of_singleton.
  split.
  - intros [[->|Hx] Hn]; [contradiction | auto].
  - intros [Hx Hn]. auto.
Qed.

Lemma new_ids_new t txns v sle :
  emitted v !! TransactionID t = None ->
  new_ids (t :: txns) v
  = 1 + new_ids txns (with_emitted (<[TransactionID t := sle]> (emitted v)) v).
Proof.
  intros Hnew. unfold new_ids. cbn [emitted with_emitted].
  apply not_elem_of_dom in Hnew.
  rewrite dom_insert_L, fmap_cons. cbn [list_to_set].
  set (S := list_to_set (TransactionID <$> txns) : gset (list Z)).
  set (D := dom (emitted v)) in *.
  replace (({[TransactionID t]} ∪ S) ∖ D)
    with ({[TransactionID t]} ∪ S ∖ ({[TransactionID t]} ∪ D)).
  - rewrite size_union.
    + rewrite size_singleton. lia.
    + apply elem_of_disjoint. intros x Hx1 Hx2.
      apply elem_of_difference in Hx2 as [_ Hn]. apply Hn.
      apply elem_of_union. left. exact Hx1.
  - apply set_eq. intros x.
    rewrite !elem_of_union, !elem_of_difference, !elem_of_union, !elem_of_singleton.
    destruct (decide (x = TransactionID t)) as [->|Hne]; tauto.
Qed.

Lemma new_ids_single t v :
  emitted v !! TransactionID t = None -> new_ids [t] v = 1.
Proof.
  intros Hnew.
  rewrite (new_ids_new t [] v {| sfEmittedTxn := t; emitted_sfOwnerNode := 0 |} Hnew).
  rewrite new_ids_nil. reflexivity.
Qed.

Section Commit.
Context `{Externals}.

Lemma same_metadata_refl v : same_metadata v v.
Proof. repeat split. Qed.

Lemma same_metadata_trans v1 v2 v3 :
  same_metadata v1 v2 -> same_metadata v2 v3 -> same_metadata v1 v3.
Proof.
  intros (A1 & A2 & A3) (B1 & B2 & B3).
  repeat split; congruence.
Qed.

Lemma adjustOwnerCount_metadata v acc amount :
  same_metadata v (adjustOwnerCount v acc amount).
Proof.
  unfold adjustOwnerCount.
  destruct (account_roots v !! acc); repeat split.
Qed.

Lemma setHookState_metadata hookResult v key data :
  same_metadata v (snd (setHookState hookResult v key data)).
Proof.
  unfold setHookState.
  destruct (account_roots v !! hook.account hookResult) as [sle|];
    [|apply same_metadata_refl].
  destruct (hooks v !! hook.account hookResult) as [hook_sle|];
    [|apply same_metadata_refl].
  destruct (Z.of_nat (length data) >? sfHookStateDataMaxSize hook_sle);
    [apply same_metadata_refl|].
  destruct (Z.of_nat (length data) =? 0).
  - destruct (hook_states v !! (hook.account hookResult, key)) as [old|];
      [|apply same_metadata_refl].
    destruct (negb _); [apply same_metadata_refl|].
    cbn [snd].
    destruct (_ <? _).
    + pose proof (adjustOwnerCount_metadata
                    (with_hook_states
                       (delete (hook.account hookResult, key) (hook_states v)) v)
                    (hook.account hookResult) (-1)) as (A1 & A2 & A3).
      repeat split; cbn; assumption.
    + repeat split.
  - destruct (hook_states v !! (hook.account hookResult, key)) as [old|].
    + repeat split.
    + destruct (_ >? _).
      * destruct (sfBalance sle <? _); [apply same_metadata_refl|].
        pose proof (adjustOwnerCount_metadata v (hook.account hookResult) 1)
          as (A1 & A2 & A3).
        destruct (dirAdd _ _ _); repeat split; cbn; assumption.
      * destruct (dirAdd _ _ _); repeat split.
Qed.

(** The modified entries of a list of cache entries. *)
Lemma commit_state_changes_metadata hookResult entries : forall v change_count,
  same_metadata v (fst (commit_state_changes hookResult entries v change_count)).
Proof.
  induction entries as [|[key [is_modified blob]] rest IH]; intros v c.
  - apply same_metadata_refl.
  - cbn [commit_state_changes]. destruct is_modified; [|apply IH].
    pose proof (setHookState_metadata hookResult v key blob) as Hs.
    destruct (setHookState hookResult v key blob) as [t v1]. cbn [snd] in Hs.
    eapply same_metadata_trans; [exact Hs|apply IH].
Qed.

Lemma commit_state_changes_count hookResult entries : forall v change_count,
  0 <= change_count < 2^16 ->
  snd (commit_state_changes hookResult entries v change_count)
  = u16 (change_count
         + Z.of_nat (length (filter (fun e : list Z * (bool * list Z) =>
                                       fst (snd e) = true) entries))).
Proof.
  induction entries as [|[key [is_modified blob]] rest IH]; intros v c Hc.
  - cbn. rewrite Z.add_0_r. unfold u16. symmetry. apply Z.mod_small. exact Hc.
  - cbn [commit_state_changes]. destruct is_modified.
    + rewrite filter_cons_True by reflexivity.
      destruct (setHookState hookResult v key blob) as [t v1].
      rewrite IH by (unfold u16; apply Z.mod_pos_bound; lia).
      unfold u16. rewrite Zplus_mod_idemp_l. f_equal.
      cbn [length]. lia.
    + rewrite filter_cons_False by (cbn; discriminate).
      apply IH. exact Hc.
Qed.

Lemma modified_count_sorted (changedState : gmap (list Z) (bool * list Z)) :
  Z.of_nat (length (filter (fun e : list Z * (bool * list Z) => fst (snd e) = true)
                      (merge_sort entry_le (map_to_list changedState))))
  = modified_count changedState.
Proof.
  unfold modified_count. f_equal.
  apply Permutation_length.
  apply filter_Permutation. apply merge_sort_Permutation.
Qed.

Lemma commit_emitted_metadata queue : forall v emission_count,
  same_metadata v (snd (fst (commit_emitted queue v emission_count))).
Proof.
  induction queue as [|tpTrans rest IH]; intros v c.
  - apply same_metadata_refl.
  - cbn [commit_emitted].
    destruct (emitted v !! TransactionID tpTrans); [apply IH|].
    destruct (dirAppend v (TransactionID tpTrans)) as [page|];
      [|apply same_metadata_refl].
    eapply same_metadata_trans; [|apply IH]. repeat split.
Qed.

Lemma commit_emitted_count queue : forall v emission_count,
  0 <= emission_count ->
  0 <= snd (commit_emitted queue v emission_count)
    <= emission_count + Z.of_nat (length queue).
Proof.
  induction queue as [|tpTrans rest IH]; intros v c Hc.
  - cbn. lia.
  - cbn [commit_emitted].
    assert (Hu : 0 <= u16 (c + 1) <= c + 1).
    { unfold u16. split; [apply Z.mod_pos_bound; lia|].
      apply Z.mod_le; lia. }
    destruct (emitted v !! TransactionID tpTrans).
    + specialize (IH v c Hc). cbn [length]. lia.
    + destruct (dirAppend v (TransactionID tpTrans)) as [page|].
      * match goal with
        | |- context [commit_emitted rest ?v' _] =>
            specialize (IH v' (u16 (c + 1)) (proj1 Hu))
        end.
        cbn [length]. lia.
      * cbn [snd length]. lia.
Qed.

Lemma commit_remove_metadata applyCtx v :
  same_metadata v (commit_remove applyCtx v).
Proof.
  unfold commit_remove.
  destruct (sfEmitDetails (tx applyCtx)); [|apply same_metadata_refl].
  destruct (emitted v !! TransactionID (tx applyCtx)); [|apply same_metadata_refl].
  destruct (negb _); repeat split.
Qed.

Lemma return_code_encoding_ok exitCode :
  - 2^63 < exitCode < 2^63 ->
  (if exitCode >=? 0 then u64 exitCode
   else u64 (9223372036854775808 + u64 (i64 (-1 * exitCode))))
  = return_code_encoding exitCode.
Proof.
  intros Hr. unfold return_code_encoding.
  rewrite Z.geb_leb.
  destruct (Z.leb_spec 0 exitCode).
  - apply u64_small. lia.
  - rewrite i64_small by lia. rewrite (u64_small (-1 * exitCode)) by lia.
    rewrite u64_small by lia. lia.
Qed.

Lemma adjustOwnerCount_emitted v acc amount :
  emitted (adjustOwnerCount v acc amount) = emitted v.
Proof. unfold adjustOwnerCount. destruct (account_roots v !! acc); reflexivity. Qed.

Lemma setHookState_emitted hookResult v key data :
  emitted (snd (setHookState hookResult v key data)) = emitted v.
Proof.
  unfold setHookState.
  destruct (account_roots v !! hook.account hookResult) as [sle|]; [|reflexivity].
  destruct (hooks v !! hook.account hookResult) as [hook_sle|]; [|reflexivity].
  destruct (Z.of_nat (length data) >? sfHookStateDataMaxSize hook_sle); [reflexivity|].
  destruct (Z.of_nat (length data) =? 0).
  - destruct (hook_states v !! (hook.account hookResult, key)) as [old|]; [|reflexivity].
    destruct (negb _); [reflexivity|].
    cbn [snd].
    destruct (_ <? _); [|reflexivity].
    cbn [emitted with_hooks]. rewrite adjustOwnerCount_emitted. reflexivity.
  - destruct (hook_states v !! (hook.account hookResult, key)) as [old|].
    + reflexivity.
    + destruct (_ >? _).
      * destruct (sfBalance sle <? _); [reflexivity|].
        destruct (dirAdd _ _ _); cbn [snd emitted with_hooks with_hook_states];
          rewrite adjustOwnerCount_emitted; reflexivity.
      * destruct (dirAdd _ _ _); reflexivity.
Qed.

Lemma commit_state_changes_emitted hookResult entries : forall v change_count,
  emitted (fst (commit_state_changes hookResult entries v change_count)) = emitted v.
Proof.
  induction entries as [|[key [is_modified blob]] rest IH]; intros v c; [reflexivity|].
  cbn [commit_state_changes]. destruct is_modified; [|apply IH].
  pose proof (setHookState_emitted hookResult v key blob) as Hs.
  destruct (setHookState hookResult v key blob) as [t v1]. cbn [snd] in Hs.
  rewrite IH. exact Hs.
Qed.

(** The emission loop pops a prefix of the queue, and counts the distinct
    new ids among the transactions it popped and the one, if any, on which
    it stopped. *)
Lemma commit_emitted_exact queue : forall v emission_count left v' count,
  commit_emitted queue v emission_count = (left, v', count) ->
  exists popped,
    queue = popped ++ left /\
    u16 count = u16 (emission_count + new_ids (popped ++ take 1 left) v).
Proof.
  induction queue as [|t rest IH]; intros v c left v' c' Hrun.
  - injection Hrun as <- _ <-. exists []. split; [reflexivity|].
    cbn [app take]. rewrite new_ids_nil, Z.add_0_r. reflexivity.
  - cbn [commit_emitted] in Hrun.
    destruct (emitted v !! TransactionID t) as [sle|] eqn:E.
    + destruct (IH v c left v' c' Hrun) as (popped & -> & Hc).
      exists (t :: popped). split; [reflexivity|].
      rewrite <- app_comm_cons, new_ids_known by (rewrite E; eauto). exact Hc.
    + destruct (dirAppend v (TransactionID t)) as [page|].
      * destruct (IH _ _ left v' c' Hrun) as (popped & -> & Hc).
        exists (t :: popped). split; [reflexivity|].
        rewrite <- app_comm_cons.
        rewrite (new_ids_new t _ v {| sfEmittedTxn := t; emitted_sfOwnerNode := page |} E).
        rewrite Hc. unfold u16. rewrite Zplus_mod_idemp_l. f_equal. lia.
      * injection Hrun as <- _ <-. exists []. split; [reflexivity|].
        cbn [app take]. rewrite new_ids_single by exact E.
        unfold u16. rewrite Z.mod_mod by lia. reflexivity.
Qed.

Lemma commit_emitted_u16 queue : forall v emission_count,
  0 <= emission_count < 2^16 ->
  0 <= snd (commit_emitted queue v emission_count) < 2^16.
Proof.
  induction queue as [|t rest IH]; intros v c Hc; [exact Hc|].
  cbn [commit_emitted].
  assert (Hu : 0 <= u16 (c + 1) < 2^16) by (unfold u16; apply Z.mod_pos_bound; lia).
  destruct (emitted v !! TransactionID t); [apply IH; exact Hc|].
  destruct (dirAppend v (TransactionID t)); [apply IH; exact Hu | exact Hu].
Qed.

(** C9 (as amended): commitChangesToLedger, invoked with a valid mode, writes
    no metadata on an open view, and on a closed view appends exactly one
    execution-metadata record to the metadata of the view; the record holds
    the exit result, the account, the return code re-encoded from signed to
    unsigned 64 bits with the high bit as negative flag (INT64_MIN, whose
    magnitude does not fit, comes out as 0), the return string, the
    instruction count, the emit count, the execution index handed out by
    the view, and the number of modified entries of the state cache (0 when
    the mode does not apply).  The emit count is 0 when the mode does not
    apply; otherwise the commit pops a prefix of the queue of emitted
    transactions, and the count is the number of distinct ids, new to the
    emitted directory, among the transactions popped and the one, if any,
    on which the loop stopped, as a 16-bit number. *)
Theorem commit_appends_metadata hookResult applyCtx cclMode hookResult' applyCtx' :
  cclMode <> 0 ->
  is_i64 (hook.exitCode hookResult) ->
  commitChangesToLedger hookResult applyCtx cclMode = (hookResult', applyCtx') ->
  (open (view applyCtx) = true ->
   hookMetaData (view applyCtx') = hookMetaData (view applyCtx)) /\
  (open (view applyCtx) = false ->
   exists meta,
    hookMetaData (view applyCtx') = hookMetaData (view applyCtx) ++ [meta] /\
    sfHookResult meta = hook.exitType hookResult /\
    sfHookAccount meta = hook.account hookResult /\
    sfHookReturnCode meta
    = (if hook.exitCode hookResult =? - 2^63 then 0
       else return_code_encoding (hook.exitCode hookResult)) /\
    sfHookReturnString meta = hook.exitReason hookResult /\
    sfHookInstructionCount meta = hook.instructionCount hookResult /\
    (exists popped,
       hook.emittedTxn hookResult = popped ++ hook.emittedTxn hookResult' /\
       sfHookEmitCount meta
       = (if Z.land cclMode hook.cclAPPLY =? 0 then 0
          else u16 (new_ids (popped ++ take 1 (hook.emittedTxn hookResult'))
                      (view applyCtx)))) /\
    sfHookExecutionIndex meta = u16 (hookExecutionIndex (view applyCtx)) /\
    sfHookStateChangeCount meta
    = (if Z.land cclMode hook.cclAPPLY =? 0 then 0
       else u16 (modified_count (hook.changedState hookResult)))).
Proof.
  intros Hmode Hcode Hrun.
  unfold commitChangesToLedger in Hrun.
  destruct (Z.eqb_spec cclMode 0) as [|_]; [contradiction|].
  set (apply_bit := Z.land cclMode hook.cclAPPLY =? 0) in *.
  (* the state changes *)
  assert (Hst : exists v1 change_count,
             (if negb apply_bit
              then commit_state_changes hookResult
                     (merge_sort entry_le (map_to_list (hook.changedState hookResult)))
                     (view applyCtx) 0
              else (view applyCtx, 0)) = (v1, change_count) /\
             same_metadata (view applyCtx) v1 /\
             emitted v1 = emitted (view applyCtx) /\
             change_count
             = (if apply_bit then 0
                else u16 (modified_count (hook.changedState hookResult)))).
  { destruct apply_bit; cbn [negb].
    - exists (view applyCtx), 0. repeat split.
    - destruct (commit_state_changes hookResult
                  (merge_sort entry_le (map_to_list (hook.changedState hookResult)))
                  (view applyCtx) 0) as [v1 n] eqn:E.
      exists v1, n. split; [reflexivity|]. split; [|split].
      + pose proof (commit_state_changes_metadata hookResult
                      (merge_sort entry_le (map_to_list (hook.changedState hookResult)))
                      (view applyCtx) 0) as Hm.
        rewrite E in Hm. exact Hm.
      + pose proof (commit_state_changes_emitted hookResult
                      (merge_sort entry_le (map_to_list (hook.changedState hookResult)))
                      (view applyCtx) 0) as Hm.
        rewrite E in Hm. exact Hm.
      + pose proof (commit_state_changes_count hookResult
                      (merge_sort entry_le (map_to_list (hook.changedState hookResult)))
                      (view applyCtx) 0 ltac:(lia)) as Hn.
        rewrite E in Hn. cbn [snd] in Hn. rewrite Hn.
        rewrite Z.add_0_l, modified_count_sorted. reflexivity. }
  destruct Hst as (v1 & change_count & E1 & (O1 & I1 & M1) & Hemitted & Hcount).
  rewrite E1 in Hrun.
  rewrite O1 in Hrun.
  split; intros Hopen; rewrite Hopen in Hrun.
  { injection Hrun as _ <-. cbn [view with_view]. exact M1. }
  unfold nextHookExecutionIndex in Hrun.
  match type of Hrun with
  | context [if negb apply_bit then commit_emitted ?q ?v 0 else _] =>
      set (v2 := v) in *;
      assert (Hem : exists queue v3 emission_count,
                 (if negb apply_bit then commit_emitted q v2 0
                  else (q, v2, 0)) = (queue, v3, emission_count) /\
                 same_metadata v2 v3 /\
                 exists popped,
                   q = popped ++ queue /\
                   emission_count
                   = (if apply_bit then 0
                      else u16 (new_ids (popped ++ take 1 queue) (view applyCtx))))
  end.
  { destruct apply_bit; cbn [negb].
    - eexists _, _, _. split; [reflexivity|].
      split; [apply same_metadata_refl|]. exists []. split; reflexivity.
    - destruct (commit_emitted (hook.emittedTxn hookResult) v2 0)
        as [[queue v3] n] eqn:E.
      exists queue, v3, n. split; [reflexivity|].
      pose proof (commit_emitted_metadata (hook.emittedTxn hookResult) v2 0) as Hm.
      pose proof (commit_emitted_u16 (hook.emittedTxn hookResult) v2 0 ltac:(lia))
        as Hn.
      rewrite E in Hm, Hn. cbn [fst snd] in Hm, Hn.
      split; [exact Hm|].
      destruct (commit_emitted_exact _ _ _ _ _ _ E) as (popped & Hq & Hc).
      exists popped. split; [exact Hq|].
      rewrite Z.add_0_l in Hc.
      assert (Hv2 : new_ids (popped ++ take 1 queue) v2
                    = new_ids (popped ++ take 1 queue) (view applyCtx)).
      { unfold new_ids. subst v2. cbn [emitted]. rewrite Hemitted. reflexivity. }
      rewrite Hv2 in Hc. rewrite <- Hc. unfold u16. symmetry. apply Z.mod_small. exact Hn. }
  destruct Hem as (queue & v3 & emission_count & E2 & (O2 & I2 & M2) & popped & Hq & Hec).
  rewrite E2 in Hrun.
  match type of Hrun with
  | context [addHookMetaData ?m ?v] =>
      set (meta := m) in *; set (v4 := v) in *
  end.
  assert (H4 : same_metadata v3 v4).
  { subst v4. destruct (negb _);
      [apply commit_remove_metadata|apply same_metadata_refl]. }
  destruct H4 as (O4 & I4 & M4).
  injection Hrun as <- <-.
  exists meta. cbn [view with_view addHookMetaData hookMetaData].
  split.
  { rewrite M4, M2. subst v2. cbn [hookMetaData]. rewrite M1. reflexivity. }
  subst meta.
  cbn [sfHookResult sfHookAccount sfHookReturnCode sfHookReturnString
       sfHookInstructionCount sfHookEmitCount sfHookExecutionIndex
       sfHookStateChangeCount hook.with_emittedTxn hook.exitType hook.account
       hook.exitCode hook.exitReason hook.instructionCount hook.emittedTxn].
  refine (conj eq_refl (conj eq_refl (conj _ (conj eq_refl (conj eq_refl
            (conj _ (conj _ Hcount))))))).
  - unfold is_i64 in Hcode.
    destruct (Z.eqb_spec (hook.exitCode hookResult) (- 2^63)) as [->|Hne].
    + reflexivity.
    + apply return_code_encoding_ok. lia.
  - exists popped. split; [exact Hq | exact Hec].
  - rewrite I1. reflexivity.
Qed.

End Commit.

Lemma commit_appends_metadata_witness :
  3 <> 0 /\
  open (view (hook.applyCtx example_hookCtx)) = false /\
  is_i64 (hook.exitCode example_result_emitting) /\
  exists meta,
    hookMetaData
      (view (snd (@commitChangesToLedger example_externals example_result_emitting
                    (hook.applyCtx example_hookCtx) 3))) = [meta] /\
    sfHookResult meta = ACCEPT /\
    sfHookReturnCode meta = 2^63 + 7 /\
    sfHookEmitCount meta = 1 /\
    sfHookStateChangeCount meta = 1.
Proof.
  assert (H1 : 3 <> 0) by lia.
  assert (H2 : open (view (hook.applyCtx example_hookCtx)) = false) by reflexivity.
  assert (H3 : is_i64 (hook.exitCode example_result_emitting))
    by (unfold is_i64; cbn; lia).
  refine (conj H1 (conj H2 (conj H3 _))).
  destruct (@commit_appends_metadata example_externals example_result_emitting
              (hook.applyCtx example_hookCtx) 3
              (fst (@commitChangesToLedger example_externals example_result_emitting
                      (hook.applyCtx example_hookCtx) 3))
              (snd (@commitChangesToLedger example_externals example_result_emitting
                      (hook.applyCtx example_hookCtx) 3))
              H1 H3)
    as [_ Hclosed].
  { apply surjective_pairing. }
  destruct (Hclosed H2)
    as (meta & Hm & Hr & _ & Hc & _ & _ & (popped & Hq & He) & _ & Hs).
  - exists meta. split; [exact Hm|]. split; [exact Hr|]. split; [exact Hc|].
    split; [|rewrite Hs; vm_compute; reflexivity].
    assert (Hleft : hook.emittedTxn
                      (fst (@commitChangesToLedger example_externals
                              example_result_emitting
                              (hook.applyCtx example_hookCtx) 3)) = [])
      by (vm_compute; reflexivity).
    rewrite Hleft in Hq, He. rewrite app_nil_r in Hq. subst popped.
    rewrite He. vm_compute. reflexivity.
Defined.

(** On an open view commit returns before the metadata are written. *)
Lemma commit_open_view_no_metadata :
  3 <> 0 /\
  hookMetaData
    (view (snd (@commitChangesToLedger example_externals example_result
                  {| tx := example_otxn; view := example_open_view;
                     validLedgerIndex := 100 |} 3)))
  = hookMetaData example_open_view.
Proof.
  split; [lia|]. vm_compute. reflexivity.
Qed.

(** ** Floats in serialized form *)

Section FloatSto.
Import hook_float.

Lemma iter_pos_exit {St R : Type} (body : St -> St + R) (p : positive) :
  forall s r, body s = inr r -> iter_pos p body s = inr r.
Proof.
  induction p as [p IH|p IH|]; intros s r Hb; cbn [iter_pos].
  - rewrite Hb. reflexivity.
  - rewrite (IH s r Hb). reflexivity.
  - exact Hb.
Qed.

Lemma loop_exit {St R : Type} (body : St -> St + R) bound s r :
  body s = inr r -> loop bound body s = Some r.
Proof. intros Hb. unfold loop. rewrite (iter_pos_exit body bound s r Hb). reflexivity. Qed.

(** float_set on a mantissa and an exponent already in the canonical ranges
    packs them as they are. *)
Lemma float_set_normalized s e m :
  0 <= s < 2 -> minExponent <= e <= maxExponent -> minMantissa <= m <= maxMantissa ->
  hook_float.float_set e (if s =? 0 then - m else m) = Some (pack s (e + 97) m).
Proof.
  intros Hs He Hm. unfold minMantissa, maxMantissa in Hm.
  unfold hook_float.float_set.
  set (x := if s =? 0 then - m else m).
  assert (Hx : x <> 0 /\ (x <? 0) = (s =? 0) /\ Z.abs x = m).
  { subst x. destruct (Z.eqb_spec s 0).
    - split; [lia|]. split; [apply Z.ltb_lt; lia | lia].
    - split; [lia|]. split; [apply Z.ltb_ge; lia | lia]. }
  destruct Hx as (Hx0 & Hneg & Habs).
  destruct (Z.eqb_spec x 0); [contradiction|].
  assert (Hm' : (if x <? 0 then i64 (x * -1) else x) = m).
  { destruct (Z.ltb_spec x 0); [rewrite i64_small by lia|]; lia. }
  rewrite Hm'. unfold normalize.
  rewrite (loop_exit normalize_up loop_bound (m, e) (inr (m, e))).
  2:{ unfold normalize_up, minMantissa.
      destruct (Z.ltb_spec m 1000000000000000); [lia | reflexivity]. }
  rewrite (loop_exit normalize_down loop_bound (m, e) (inr (m, e))).
  2:{ unfold normalize_down, maxMantissa.
      destruct (Z.gtb_spec m 9999999999999999); [lia | reflexivity]. }
  f_equal.
  assert (Hback : i64 ((if x <? 0 then -1 else 1) * m) = x).
  { rewrite i64_small by (destruct (x <? 0); lia).
    destruct (Z.ltb_spec x 0); lia. }
  rewrite Hback.
  rewrite make_float_pack by (unfold minMantissa, maxMantissa; lia).
  rewrite Hneg, Habs. destruct (Z.eqb_spec s 0); [subst s; reflexivity|].
  replace s with 1 by lia. reflexivity.
Qed.

Lemma land_pow2 a n :
  0 <= n -> Z.land a (2^n) = if Z.testbit a n then 2^n else 0.
Proof.
  intros Hn. apply Z.bits_inj'. intros i Hi.
  rewrite Z.land_spec, Z.pow2_bits_eqb by lia.
  destruct (Z.eqb_spec n i) as [->|Hne].
  - destruct (Z.testbit a i) eqn:E.
    + rewrite Z.pow2_bits_eqb by lia. rewrite Z.eqb_refl. reflexivity.
    + rewrite Z.bits_0. reflexivity.
  - rewrite andb_false_r. destruct (Z.testbit a n).
    + rewrite Z.pow2_bits_eqb by lia. destruct (Z.eqb_spec n i); congruence.
    + rewrite Z.bits_0. reflexivity.
Qed.

Lemma land_64 b k :
  0 <= k < 64 -> (b = 0 \/ b = 1) -> Z.land (128 + b * 64 + k) 64 = b * 64.
Proof.
  intros Hk Hb. change 64 with (2^6) at 2. rewrite land_pow2 by lia.
  assert (Hd : (128 + b * 64 + k) / 2^6 = 2 + b).
  { replace (128 + b * 64 + k) with (k + (2 + b) * 2^6) by lia.
    rewrite Z.div_add by lia. rewrite Z.div_small by lia. lia. }
  destruct (Z.testbit (128 + b * 64 + k) 6) eqn:E.
  - apply Z.testbit_true in E; [|lia]. rewrite Hd in E.
    destruct Hb; subst b; [discriminate E | reflexivity].
  - apply Z.testbit_false in E; [|lia]. rewrite Hd in E.
    destruct Hb; subst b; [reflexivity | discriminate E].
Qed.

(** The amount bytes that float_sto writes for a normalised float in the
    non-native form are decoded by float_sto_set to that float. *)
Lemma iou_amount_roundtrip s e m out :
  0 <= s < 2 -> minExponent <= e <= maxExponent -> minMantissa <= m <= maxMantissa ->
  float_sto_amount false m e (s =? 0) = Some out ->
  float_sto_set_amount out = Some (pack s (e + 97) m).
Proof.
  intros Hs He Hm. unfold minMantissa, maxMantissa, minExponent, maxExponent in *.
  unfold float_sto_amount.
  destruct (Z.eqb_spec m 0); [lia|].
  rewrite i32_small by lia.
  intros [= <-]. unfold float_sto_set_amount.
  set (E := e + 97) in *.
  assert (HE : 1 <= E <= 177) by (subst E; lia).
  (* the bytes *)
  assert (Hq : 0 <= E / 4 < 64 /\ 0 <= E mod 4 < 4 /\ E = 4 * (E / 4) + E mod 4).
  { pose proof (Z.div_mod E 4). pose proof (Z.mod_pos_bound E 4). lia. }
  destruct Hq as (Hq1 & Hq2 & Hq3).
  assert (H48 : 0 <= m / 2^48 < 64).
  { split; [apply Z.div_pos; lia | apply Z.div_lt_upper_bound; lia]. }
  assert (Hb0 : u8 ((if s =? 0 then 128 else 192) + u8 (Z.shiftr E 2))
                = 128 + (if s =? 0 then 0 else 1) * 64 + E / 4).
  { rewrite Z.shiftr_div_pow2 by lia. change (2^2) with 4.
    unfold u8. rewrite (Z.mod_small (E / 4)) by lia.
    destruct (s =? 0); rewrite Z.mod_small; lia. }
  assert (Hb1 : u8 (u8 (Z.shiftl (u8 (Z.land E 3)) 6)
                    + Z.land (u8 (Z.shiftr m 48)) 63)
                = (E mod 4) * 64 + m / 2^48).
  { change 3 with (Z.ones 2). change 63 with (Z.ones 6).
    rewrite !Z.land_ones by lia. rewrite Z.shiftr_div_pow2 by lia.
    change (2^2) with 4. unfold u8.
    rewrite (Z.mod_small (E mod 4)) by lia.
    rewrite Z.shiftl_mul_pow2 by lia.
    rewrite (Z.mod_small (m / 2^48)) by lia.
    rewrite (Z.mod_small (m / 2^48)) by lia.
    rewrite (Z.mod_small (E mod 4 * 2^6)) by lia.
    rewrite Z.mod_small; lia. }
  rewrite Hb0, Hb1.
  assert (Hbyte : forall k, 0 <= k ->
            u8 (Z.land (Z.shiftr m k) 255) = (m / 2^k) mod 256).
  { intros k Hk. change 255 with (Z.ones 8). rewrite Z.land_ones by lia.
    rewrite Z.shiftr_div_pow2 by lia. unfold u8.
    change (2^8) with 256. apply Z.mod_small. apply Z.mod_pos_bound. lia. }
  rewrite !Hbyte by lia.
  (* the sign *)
  rewrite land_64 by (try lia; destruct (s =? 0); auto).
  (* the exponent *)
  assert (Hexp : Z.shiftl (Z.land (128 + (if s =? 0 then 0 else 1) * 64 + E / 4) 63) 2
                 + Z.shiftr (E mod 4 * 64 + m / 2^48) 6 - 97 = e).
  { change 63 with (Z.ones 6). rewrite Z.land_ones by lia.
    rewrite Z.shiftl_mul_pow2, Z.shiftr_div_pow2 by lia.
    replace ((128 + (if s =? 0 then 0 else 1) * 64 + E / 4) mod 2^6) with (E / 4).
    2:{ symmetry.
        replace (128 + (if s =? 0 then 0 else 1) * 64 + E / 4)
          with (E / 4 + (2 + (if s =? 0 then 0 else 1)) * 2^6) by lia.
        rewrite Z.mod_add by lia. apply Z.mod_small. lia. }
    replace ((E mod 4 * 64 + m / 2^48) / 2^6) with (E mod 4).
    2:{ symmetry.
        replace (E mod 4 * 64 + m / 2^48) with (m / 2^48 + E mod 4 * 2^6) by lia.
        rewrite Z.div_add by lia. rewrite Z.div_small by lia. lia. }
    subst E. lia. }
  rewrite Hexp.
  (* the mantissa *)
  assert (Hman :
    u64 (u64 (u64 (u64 (u64 (u64
      (u64 (Z.shiftl (Z.land (E mod 4 * 64 + m / 2^48) 63) 48)
       + u64 (Z.shiftl ((m / 2^40) mod 256) 40))
       + u64 (Z.shiftl ((m / 2^32) mod 256) 32))
       + u64 (Z.shiftl ((m / 2^24) mod 256) 24))
       + u64 (Z.shiftl ((m / 2^16) mod 256) 16))
       + u64 (Z.shiftl ((m / 2^8) mod 256) 8))
       + (m / 2^0) mod 256) = m).
  { change 63 with (Z.ones 6). rewrite Z.land_ones by lia.
    replace ((E mod 4 * 64 + m / 2^48) mod 2^6) with (m / 2^48).
    2:{ symmetry.
        replace (E mod 4 * 64 + m / 2^48) with (m / 2^48 + E mod 4 * 2^6) by lia.
        rewrite Z.mod_add by lia. apply Z.mod_small. lia. }
    rewrite !Z.shiftl_mul_pow2 by lia.
    change (2^0) with 1. rewrite Z.div_1_r.
    pose proof (Z.mod_pos_bound (m / 2^40) 256 ltac:(lia)) as R5.
    pose proof (Z.mod_pos_bound (m / 2^32) 256 ltac:(lia)) as R4.
    pose proof (Z.mod_pos_bound (m / 2^24) 256 ltac:(lia)) as R3.
    pose proof (Z.mod_pos_bound (m / 2^16) 256 ltac:(lia)) as R2.
    pose proof (Z.mod_pos_bound (m / 2^8) 256 ltac:(lia)) as R1.
    pose proof (Z.mod_pos_bound m 256 ltac:(lia)) as R0.
    assert (D0 : m = 256 * (m / 2^8) + m mod 256) by (apply (Z.div_mod m 256); lia).
    assert (D1 : m / 2^8 = 256 * (m / 2^16) + (m / 2^8) mod 256).
    { replace (m / 2^16) with (m / 2^8 / 256)
        by (rewrite Z.div_div by lia; reflexivity).
      apply Z.div_mod. lia. }
    assert (D2 : m / 2^16 = 256 * (m / 2^24) + (m / 2^16) mod 256).
    { replace (m / 2^24) with (m / 2^16 / 256)
        by (rewrite Z.div_div by lia; reflexivity).
      apply Z.div_mod. lia. }
    assert (D3 : m / 2^24 = 256 * (m / 2^32) + (m / 2^24) mod 256).
    { replace (m / 2^32) with (m / 2^24 / 256)
        by (rewrite Z.div_div by lia; reflexivity).
      apply Z.div_mod. lia. }
    assert (D4 : m / 2^32 = 256 * (m / 2^40) + (m / 2^32) mod 256).
    { replace (m / 2^40) with (m / 2^32 / 256)
        by (rewrite Z.div_div by lia; reflexivity).
      apply Z.div_mod. lia. }
    assert (D5 : m / 2^40 = 256 * (m / 2^48) + (m / 2^40) mod 256).
    { replace (m / 2^48) with (m / 2^40 / 256)
        by (rewrite Z.div_div by lia; reflexivity).
      apply Z.div_mod. lia. }
    repeat match goal with
           | |- context [u64 ?x] => rewrite (u64_small x) by lia
           end.
    lia. }
  rewrite Hman.
  destruct (Z.eqb_spec m 0); [lia|].
  rewrite (i64_small m) by lia.
  replace (i64 ((if (if s =? 0 then 0 else 1) * 64 =? 0 then -1 else 1) * m))
    with (if s =? 0 then - m else m).
  2:{ destruct (s =? 0);
        [change (0 * 64 =? 0) with true | change (1 * 64 =? 0) with false];
        cbv iota; rewrite i64_small; lia. }
  apply float_set_normalized; unfold minMantissa, maxMantissa, minExponent, maxExponent; lia.
Qed.

(** Reading beside a write, inside a read, and byte by byte. *)
Lemma read_bytes_setBytes_before memory span dst n p len :
  0 <= p -> 0 <= len -> p + len <= dst -> dst <= memory_length memory ->
  read_bytes (setBytes memory span dst n) p len = read_bytes memory p len.
Proof.
  unfold read_bytes, setBytes, memory_length. intros Hp Hl Hd Hm.
  rewrite !take_drop_commute. f_equal.
  rewrite take_app_le by (rewrite length_take; lia).
  rewrite take_take. f_equal. lia.
Qed.

Lemma read_bytes_sub memory p a b :
  0 <= p -> 0 <= a -> 0 <= b ->
  read_bytes memory (p + a) b = take (Z.to_nat b) (drop (Z.to_nat a) (read_bytes memory p (a + b))).
Proof.
  unfold read_bytes. intros Hp Ha Hb.
  replace (Z.to_nat (a + b)) with (Z.to_nat a + Z.to_nat b)%nat by lia.
  rewrite <- take_drop_commute. rewrite take_idemp. rewrite drop_drop.
  f_equal. f_equal. lia.
Qed.

Lemma lookup_read_bytes memory p len :
  0 <= p -> 0 < len ->
  memory !! Z.to_nat p = read_bytes memory p len !! 0%nat.
Proof.
  unfold read_bytes. intros Hp Hl.
  rewrite lookup_take_lt by lia. rewrite lookup_drop. f_equal. lia.
Qed.

Lemma WRITE_WASM_MEMORY_splice memory bytes_written dst dst_len src :
  0 <= dst -> Z.of_nat (length src) <= dst_len -> dst_len < 2^63 ->
  dst + Z.of_nat (length src) <= memory_length memory ->
  memory_length memory < 2^64 ->
  - 2^62 <= bytes_written < 2^62 -> Z.of_nat (length src) < 2^62 ->
  WRITE_WASM_MEMORY memory bytes_written dst dst_len src (Z.of_nat (length src)) =
  inr (setBytes memory src dst (Z.of_nat (length src)),
       bytes_written + Z.of_nat (length src)).
Proof.
  intros Hd Hs Hl Hb Hm Hw Hn.
  rewrite WRITE_WASM_MEMORY_ok by lia.
  rewrite i64_small by lia. reflexivity.
Qed.

Lemma memory_length_setBytes memory span dst n :
  0 <= dst -> 0 <= n -> n <= Z.of_nat (length span) ->
  dst + n <= memory_length memory ->
  memory_length (setBytes memory span dst n) = memory_length memory.
Proof.
  intros. unfold memory_length at 1 2. f_equal. apply length_setBytes; assumption.
Qed.

Lemma field_code_parts field_code :
  is_u32 field_code ->
  0 <= Z.land field_code 65535 < 65536 /\
  0 <= u16 (Z.shiftr field_code 16) < 65536 /\
  Z.shiftr field_code 16 = u16 (Z.shiftr field_code 16) /\
  field_code = Z.land field_code 65535 + 65536 * u16 (Z.shiftr field_code 16).
Proof.
  unfold is_u32, u16. intros H.
  change 65535 with (Z.ones 16). rewrite Z.land_ones by lia.
  rewrite Z.shiftr_div_pow2 by lia. change (2^16) with 65536.
  assert (0 <= field_code / 65536 < 65536)
    by (split; [apply Z.div_pos; lia | apply Z.div_lt_upper_bound; lia]).
  rewrite (Z.mod_small (field_code / 65536)) by lia.
  pose proof (Z.div_mod field_code 65536).
  pose proof (Z.mod_pos_bound field_code 65536). lia.
Qed.

Lemma float_sto_amount_length is_xrp man exp neg out :
  float_sto_amount is_xrp man exp neg = Some out -> length out = 8%nat.
Proof.
  unfold float_sto_amount. destruct is_xrp.
  - destruct (xrp_normalize man exp) as [[m e]|]; [|discriminate].
    intros [= <-]. reflexivity.
  - destruct (man =? 0); intros [= <-]; reflexivity.
Qed.

(** The header that float_sto writes has as many bytes as float_sto counts
    for it. *)
Lemma bytes_needed_header field type is_short :
  0 <= field < 65536 -> 0 <= type < 65536 ->
  ~ (field = 0 /\ type = 0) ->
  is_short = (field =? 65535) && (type =? 65535) ->
  (if (field =? 0) && (type =? 0) then 0 else
   if (field =? 65535) && (type =? 65535) then 0 else
   if (field <? 16) && (type <? 16) then 1 else
   if (field >=? 16) && (type <? 16) then 2 else
   if (field <? 16) && (type >=? 16) then 2 else 3)
  = Z.of_nat (length (float_sto_header false is_short type field)).
Proof.
  intros Hf Ht Hnz ->. unfold float_sto_header. rewrite !Z.geb_leb.
  destruct (Z.eqb_spec field 0), (Z.eqb_spec type 0),
    (Z.eqb_spec field 65535), (Z.eqb_spec type 65535),
    (Z.ltb_spec field 16), (Z.ltb_spec type 16),
    (Z.leb_spec 16 field), (Z.leb_spec 16 type);
    cbn [andb orb negb]; try reflexivity; lia.
Qed.

Lemma nibbles a b :
  0 <= a < 16 -> 0 <= b < 16 ->
  Z.shiftr (a * 16 + b) 4 = a /\ Z.land (a * 16 + b) 15 = b.
Proof.
  intros Ha Hb. rewrite Z.shiftr_div_pow2 by lia.
  change 15 with (Z.ones 4). rewrite Z.land_ones by lia. change (2^4) with 16.
  replace (a * 16 + b) with (b + a * 16) by lia.
  rewrite Z.div_add, Z.mod_add by lia.
  rewrite Z.div_small, Z.mod_small by lia. lia.
Qed.

Ltac eval_tests :=
  repeat match goal with
         | |- context [?a <? ?b] =>
             let v := eval vm_compute in (a <? b) in
             match v with true => idtac | false => idtac end;
             progress change (a <? b) with v
         | |- context [?a >? ?b] =>
             let v := eval vm_compute in (a >? b) in
             match v with true => idtac | false => idtac end;
             progress change (a >? b) with v
         | |- context [?a =? ?b] =>
             let v := eval vm_compute in (a =? b) in
             match v with true => idtac | false => idtac end;
             progress change (a =? b) with v
         end;
  cbv iota.

(** float_sto_set steps over the header that float_sto wrote, as long as
    neither the type nor the field of the field code is 0. *)
Lemma float_sto_set_header memory read_ptr n is_short type field out :
  0 <= read_ptr -> 0 < field < 65536 -> 0 < type < 65536 ->
  length out = 8%nat ->
  read_bytes memory read_ptr
    (Z.of_nat (length (float_sto_header false is_short type field)) + 8)
  = float_sto_header false is_short type field ++ out ->
  read_ptr + Z.of_nat (length (float_sto_header false is_short type field)) + 8
  <= memory_length memory ->
  n = Z.of_nat (length (float_sto_header false is_short type field)) + 8
      + (if is_short then 0 else 40) ->
  float_sto_set memory read_ptr n = float_sto_set_amount out.
Proof.
  intros Hp Hf Ht Hlen Hread Hb ->.
  pose proof (lookup_read_bytes memory read_ptr
                (Z.of_nat (length (float_sto_header false is_short type field)) + 8)
                Hp ltac:(lia)) as Hfirst.
  pose proof (read_bytes_sub memory read_ptr
                (Z.of_nat (length (float_sto_header false is_short type field))) 8
                Hp ltac:(lia) ltac:(lia)) as Hamount.
  rewrite Hread in Hfirst, Hamount.
  rewrite Nat2Z.id, drop_app_length in Hamount.
  rewrite take_ge in Hamount by lia.
  revert Hfirst Hamount Hb.
  unfold float_sto_set, float_sto_header. rewrite !Z.geb_leb.
  destruct is_short; cbn [orb].
  - cbn [length app]. change (Z.of_nat 0) with 0. intros _ Hamount Hb.
    eval_tests. destruct (Z.gtb_spec (read_ptr + 0 + 8) (memory_length memory)); [lia|].
    rewrite Hamount. reflexivity.
  - destruct (Z.ltb_spec field 16), (Z.ltb_spec type 16),
      (Z.leb_spec 16 field), (Z.leb_spec 16 type); try lia;
      cbn [andb length app];
      change (Z.of_nat 1) with 1; change (Z.of_nat 2) with 2;
      change (Z.of_nat 3) with 3;
      intros Hfirst Hamount Hb; rewrite Hfirst; cbn [lookup list_lookup].
    + (* one byte *)
      assert (Hh : u8 (Z.shiftl (u8 type) 4 + u8 field) = type * 16 + field).
      { unfold u8. rewrite (Z.mod_small type), (Z.mod_small field) by lia.
        rewrite Z.shiftl_mul_pow2 by lia. apply Z.mod_small. lia. }
      rewrite Hh. destruct (nibbles type field) as [-> ->]; [lia | lia |].
      destruct (Z.eqb_spec type 0); [lia|]. destruct (Z.eqb_spec field 0); [lia|].
      cbn [andb orb]. eval_tests.
      destruct (Z.gtb_spec (read_ptr + 1 + 8) (memory_length memory)); [lia|].
      rewrite Hamount. reflexivity.
    + (* type first *)
      assert (Hh : u8 (Z.shiftl (u8 field) 4) = field * 16 + 0).
      { unfold u8. rewrite (Z.mod_small field) by lia.
        rewrite Z.shiftl_mul_pow2 by lia. rewrite Z.mod_small; lia. }
      rewrite Hh. destruct (nibbles field 0) as [-> ->]; [lia | lia |].
      destruct (Z.eqb_spec field 0); [lia|].
      cbn [andb orb]. eval_tests.
      destruct (Z.gtb_spec (read_ptr + 2 + 8) (memory_length memory)); [lia|].
      rewrite Hamount. reflexivity.
    + assert (Hh : u8 (Z.shiftl (u8 type) 4) = type * 16 + 0).
      { unfold u8. rewrite (Z.mod_small type) by lia.
        rewrite Z.shiftl_mul_pow2 by lia. rewrite Z.mod_small; lia. }
      rewrite Hh. destruct (nibbles type 0) as [-> ->]; [lia | lia |].
      destruct (Z.eqb_spec type 0); [lia|].
      cbn [andb orb]. eval_tests.
      destruct (Z.gtb_spec (read_ptr + 2 + 8) (memory_length memory)); [lia|].
      rewrite Hamount. reflexivity.
    + eval_tests. cbn [andb orb]. eval_tests.
      destruct (Z.gtb_spec (read_ptr + 3 + 8) (memory_length memory)); [lia|].
      rewrite Hamount. reflexivity.
Qed.

(** The amount bytes of a valid float in the non-native form decode to
    it. *)
Lemma valid_amount_roundtrip float1 out :
  is_i64 float1 -> invalid_float float1 = false ->
  float_sto_amount false (get_mantissa float1) (get_exponent float1)
    (is_negative float1) = Some out ->
  float_sto_set_amount out = Some float1.
Proof.
  intros Hf Hv.
  destruct (Z.eq_dec float1 0) as [->|Hnz].
  - intros [= <-]. reflexivity.
  - destruct (valid_float_unpack float1 Hf Hv Hnz) as (s & e & m & Hs & He & Hm & ->).
    destruct (pack_fields s e m Hs Hm He) as (_ & -> & -> & ->).
    apply iou_amount_roundtrip; assumption.
Qed.

Lemma if_returns {A : Type} (b : bool) (x y : option A) :
  (exists r, x = Some r) -> (exists r, y = Some r) ->
  exists r, (if b then x else y) = Some r.
Proof. destruct b; auto. Qed.

(** C6 (as amended): for a field code other than 0 (the XRP-native form)
    that is either the short form or has a non-zero type and a non-zero
    field, float_sto returns, and whenever it succeeds float_sto_set applied
    to the bytes it wrote returns the float it was given. *)
Theorem float_sto_roundtrip memory write_ptr write_len cread_ptr cread_len
    iread_ptr iread_len float1 field_code :
  wf_memory memory ->
  is_u32 write_ptr -> is_u32 write_len ->
  is_u32 cread_ptr -> is_u32 cread_len -> is_u32 iread_ptr -> is_u32 iread_len ->
  is_i64 float1 -> is_u32 field_code ->
  field_code <> 0 ->
  (field_code = 4294967295 \/
   (Z.land field_code 65535 <> 0 /\ Z.shiftr field_code 16 <> 0)) ->
  (exists r,
     float_sto memory write_ptr write_len cread_ptr cread_len iread_ptr iread_len
       float1 field_code = Some r) /\
  (forall n memory',
     float_sto memory write_ptr write_len cread_ptr cread_len iread_ptr iread_len
       float1 field_code = Some (n, memory') ->
     0 <= n ->
     float_sto_set memory' write_ptr n = Some float1).
Proof.
  intros Hwf Hwp Hwl Hcp Hcl Hip Hil Hf Hfc Hnz Hcode.
  pose proof (memory_length_nonneg memory) as Hml.
  split.
  - unfold float_sto.
    destruct (Z.eqb_spec field_code 0); [contradiction|].
    repeat (apply if_returns; [eauto|]).
    unfold float_sto_amount.
    destruct (get_mantissa float1 =? 0).
    + destruct (WRITE_WASM_MEMORY _ _ _ _ _ _) as [c|[m1 b1]]; [eauto|].
      apply if_returns; [|eauto].
      destruct (WRITE_WASM_MEMORY _ _ _ _ _ _) as [c|[m2 b2]]; [eauto|].
      destruct (WRITE_WASM_MEMORY _ _ _ _ _ _) as [c|[m3 b3]]; eauto.
    + destruct (WRITE_WASM_MEMORY _ _ _ _ _ _) as [c|[m1 b1]]; [eauto|].
      apply if_returns; [|eauto].
      destruct (WRITE_WASM_MEMORY _ _ _ _ _ _) as [c|[m2 b2]]; [eauto|].
      destruct (WRITE_WASM_MEMORY _ _ _ _ _ _) as [c|[m3 b3]]; eauto.
  - intros n memory' Hrun Hn.
    unfold float_sto in Hrun.
    destruct (invalid_float float1) eqn:Hinv.
    { injection Hrun as <- _. unfold INVALID_FLOAT in Hn. lia. }
    destruct (field_code_parts field_code Hfc) as (Hfield & Htype & Hsh & Hdecomp).
    rewrite Hsh in Hcode.
    remember (Z.land field_code 65535) as field eqn:Efield.
    remember (u16 (Z.shiftr field_code 16)) as type eqn:Etype.
    destruct (Z.eqb_spec field_code 0) as [|_]; [contradiction|].
    remember (field_code =? 4294967295) as is_short eqn:Eshort.
    assert (Hshort : is_short = (field =? 65535) && (type =? 65535)).
    { subst is_short.
      destruct (Z.eqb_spec field_code 4294967295), (Z.eqb_spec field 65535),
        (Z.eqb_spec type 65535); cbn [andb]; try reflexivity; lia. }
    assert (Hpos : 0 < field < 65536 /\ 0 < type < 65536).
    { destruct Hcode as [->|[? ?]]; [|lia]. 
      rewrite Z.eqb_refl in Eshort. subst is_short. symmetry in Hshort.
      apply andb_true_iff in Hshort as [H1 H2].
      apply Z.eqb_eq in H1, H2. lia. }
    destruct Hpos as [Hfpos Htpos].
    rewrite (bytes_needed_header field type is_short) in Hrun
      by (try assumption; lia).
    cbn [negb andb orb] in Hrun.
    remember (float_sto_header false is_short type field) as header eqn:Eheader.
    assert (Hhl : 0 <= Z.of_nat (length header) <= 3).
    { subst header. unfold float_sto_header.
      repeat match goal with |- context [if ?c then _ else _] => destruct c end;
        cbn [length]; lia. }
    destruct (NOT_IN_BOUNDS write_ptr write_len (memory_length memory)) eqn:Hwb.
    { injection Hrun as <- _. unfold OUT_OF_BOUNDS in Hn. lia. }
    apply NOT_IN_BOUNDS_false in Hwb; [|assumption..].
    unfold is_u32, wf_memory in *.
    destruct (float_sto_amount false (get_mantissa float1) (get_exponent float1)
                (is_negative float1)) as [out|] eqn:Hout.
    2:{ repeat match type of Hrun with
               | (if ?c then _ else _) = _ => destruct c
               end; try discriminate;
        injection Hrun as <- _;
        unfold INVALID_ARGUMENT, OUT_OF_BOUNDS, TOO_SMALL in Hn; lia. }
    pose proof (float_sto_amount_length _ _ _ _ _ Hout) as Hlen.
    pose proof (valid_amount_roundtrip float1 out Hf Hinv Hout) as Hdecode.
    set (memory1 := setBytes memory header write_ptr (Z.of_nat (length header))) in *.
    destruct is_short; cbn [negb andb] in Hrun.
    + (* the short form: the amount only *)
      destruct (Z.gtb_spec (8 + Z.of_nat (length header)) write_len).
      { injection Hrun as <- _. unfold TOO_SMALL in Hn. lia. }
      assert (Hl1 : memory_length memory1 = memory_length memory).
      { apply memory_length_setBytes; lia. }
      rewrite WRITE_WASM_MEMORY_ok in Hrun by lia.
      rewrite i64_small in Hrun by lia.
      injection Hrun as <- <-.
      rewrite <- Hdecode.
      apply (float_sto_set_header _ write_ptr _ true type field out);
        try lia; rewrite <- Eheader.
      * subst memory1.
        rewrite setBytes_as_splice by lia.
        replace 8 with (Z.of_nat (length out)) at 1 by lia.
        rewrite setBytes_app by lia.
        rewrite <- setBytes_as_splice by lia.
        replace (Z.of_nat (length header) + 8)
          with (Z.of_nat (length (header ++ out))) by (rewrite length_app; lia).
        rewrite read_bytes_setBytes by (rewrite ?length_app; lia).
        rewrite Nat2Z.id. apply firstn_all.
      * rewrite memory_length_setBytes; lia.
      * lia.
    + (* with header, currency and issuer *)
      destruct ((cread_ptr =? 0) && (cread_len =? 0)
                && (iread_ptr =? 0) && (iread_len =? 0)).
      { injection Hrun as <- _. unfold INVALID_ARGUMENT in Hn. lia. }
      destruct (NOT_IN_BOUNDS cread_ptr cread_len (memory_length memory)) eqn:Hcb.
      { injection Hrun as <- _. unfold OUT_OF_BOUNDS in Hn. lia. }
      destruct (NOT_IN_BOUNDS iread_ptr iread_len (memory_length memory)) eqn:Hib.
      { injection Hrun as <- _. unfold OUT_OF_BOUNDS in Hn. lia. }
      apply NOT_IN_BOUNDS_false in Hcb, Hib; try assumption.
      cbn [orb] in Hrun.
      destruct (Z.eqb_spec cread_len 20) as [->|];
        [|injection Hrun as <- _; unfold INVALID_ARGUMENT in Hn; lia].
      destruct (Z.eqb_spec iread_len 20) as [->|];
        [|injection Hrun as <- _; unfold INVALID_ARGUMENT in Hn; lia].
      cbn [negb orb] in Hrun.
      destruct (Z.gtb_spec (8 + Z.of_nat (length header) + 40) write_len).
      { injection Hrun as <- _. unfold TOO_SMALL in Hn. lia. }
      assert (Hl1 : memory_length memory1 = memory_length memory).
      { apply memory_length_setBytes; lia. }
      rewrite WRITE_WASM_MEMORY_ok in Hrun by lia.
      rewrite i64_small in Hrun by lia.
      set (memory2 := setBytes memory1 out (write_ptr + Z.of_nat (length header)) 8) in *.
      assert (Hl2 : memory_length memory2 = memory_length memory).
      { subst memory2. rewrite memory_length_setBytes; lia. }
      set (cur := read_bytes memory2 cread_ptr 20) in *.
      assert (Hcur : length cur = 20%nat).
      { subst cur. rewrite length_read_bytes; lia. }
      rewrite WRITE_WASM_MEMORY_ok in Hrun by lia.
      rewrite i64_small in Hrun by lia.
      set (memory3 := setBytes memory2 cur
                        (write_ptr + (Z.of_nat (length header) + 8)) 20) in *.
      assert (Hl3 : memory_length memory3 = memory_length memory).
      { subst memory3. rewrite memory_length_setBytes; lia. }
      set (iss := read_bytes memory3 iread_ptr 20) in *.
      assert (Hiss : length iss = 20%nat).
      { subst iss. rewrite length_read_bytes; lia. }
      rewrite WRITE_WASM_MEMORY_ok in Hrun by lia.
      rewrite i64_small in Hrun by lia.
      injection Hrun as <- <-.
      rewrite <- Hdecode.
      apply (float_sto_set_header _ write_ptr _ false type field out);
        try lia; rewrite <- Eheader.
      * rewrite read_bytes_setBytes_before by lia.
        subst memory3. rewrite read_bytes_setBytes_before by lia.
        subst memory2 memory1.
        rewrite setBytes_as_splice by lia.
        replace 8 with (Z.of_nat (length out)) at 1 by lia.
        rewrite setBytes_app by lia.
        rewrite <- setBytes_as_splice by lia.
        replace (Z.of_nat (length header) + 8)
          with (Z.of_nat (length (header ++ out))) by (rewrite length_app; lia).
        rewrite read_bytes_setBytes by (rewrite ?length_app; lia).
        rewrite Nat2Z.id. apply firstn_all.
      * rewrite memory_length_setBytes; lia.
      * lia.
Qed.

End FloatSto.

Lemma float_sto_roundtrip_witness :
  wf_memory example_memory /\
  is_u32 0 /\ is_u32 64 /\ is_u32 44 /\ is_u32 20 /\
  is_i64 float_one /\ is_u32 393217 /\ 393217 <> 0 /\
  (393217 = 4294967295 \/
   (Z.land 393217 65535 <> 0 /\ Z.shiftr 393217 16 <> 0)) /\
  exists memory',
    float_sto example_memory 0 64 44 20 44 20 float_one 393217 = Some (49, memory') /\
    float_sto_set memory' 0 49 = Some float_one.
Proof.
  assert (H1 : wf_memory example_memory) by (vm_compute; discriminate).
  assert (H2 : is_u32 0) by (unfold is_u32; lia).
  assert (H3 : is_u32 64) by (unfold is_u32; lia).
  assert (H4 : is_u32 44) by (unfold is_u32; lia).
  assert (H5 : is_u32 20) by (unfold is_u32; lia).
  assert (H6 : is_i64 float_one)
    by (unfold is_i64; vm_compute; split; [discriminate | reflexivity]).
  assert (H7 : is_u32 393217) by (unfold is_u32; lia).
  assert (H8 : 393217 <> 0) by lia.
  assert (H9 : 393217 = 4294967295 \/
               (Z.land 393217 65535 <> 0 /\ Z.shiftr 393217 16 <> 0))
    by (right; split; intros H; vm_compute in H; discriminate H).
  refine (conj H1 (conj H2 (conj H3 (conj H4 (conj H5 (conj H6 (conj H7
            (conj H8 (conj H9 _))))))))).
  destruct (float_sto_roundtrip example_memory 0 64 44 20 44 20 float_one 393217
              H1 H2 H3 H4 H5 H4 H5 H6 H7 H8 H9) as [_ Hround].
  eexists. split.
  - vm_compute. reflexivity.
  - apply (Hround 49).
    + vm_compute. reflexivity.
    + lia.
Defined.

(** C6, as stated, fails on the XRP-native form: one drop (10^15 * 10^-21)
    is written as the eight bytes 40 00 00 00 00 00 00 01, which
    float_sto_set reads as a non-native amount of mantissa 1 and exponent
    -97 and rejects. *)
Lemma float_sto_set_rejects_xrp_form :
  invalid_float (hook_float.make_float 1000000000000000 (-21)) = false /\
  float_sto example_memory 0 8 0 0 0 0
    (hook_float.make_float 1000000000000000 (-21)) 0
  = Some (8, [64; 0; 0; 0; 0; 0; 0; 1] ++ replicate 56 0) /\
  float_sto_set ([64; 0; 0; 0; 0; 0; 0; 1] ++ replicate 56 0) 0 8
  = Some INVALID_FLOAT /\
  INVALID_FLOAT <> hook_float.make_float 1000000000000000 (-21).
Proof.
  split; [vm_compute; reflexivity|].
  split; [vm_compute; reflexivity|].
  split; [vm_compute; reflexivity|].
  intros H. vm_compute in H. discriminate H.
Qed.

(** ** Serialized objects *)

Section StoParser.

Lemma byte_at_drop buf u i :
  0 <= u -> 0 <= i -> byte_at (drop (Z.to_nat u) buf) i = byte_at buf (u + i).
Proof.
  intros Hu Hi. unfold byte_at.
  replace (Z.to_nat (u + i)) with (Z.to_nat u + Z.to_nat i)%nat by lia.
  generalize (Z.to_nat u) as n. intros n. revert buf.
  induction n as [|n IH]; intros buf; [reflexivity|].
  destruct buf as [|b buf]; [destruct (Z.to_nat i); reflexivity|].
  cbn [drop Nat.add nth]. apply IH.
Qed.

Lemma agree_upto_drop L buf buf' u :
  agree_upto L buf buf' -> 0 <= u ->
  agree_upto (L - u) (drop (Z.to_nat u) buf) (drop (Z.to_nat u) buf').
Proof.
  intros [Hb Hl] Hu. split.
  - intros i Hi. rewrite !byte_at_drop by lia. apply Hb. lia.
  - rewrite !length_drop. lia.
Qed.

Lemma agree_upto_le L L' buf buf' :
  agree_upto L buf buf' -> L' <= L -> agree_upto L' buf buf'.
Proof. intros [Hb Hl] Hle. split; [|exact Hl]. intros i Hi. apply Hb. lia. Qed.

Lemma sto_header_range buf t f u :
  sto_header buf = inr (t, f, u) -> 1 <= u <= 3.
Proof.
  unfold sto_header.
  repeat match goal with
         | |- context [if ?c then _ else _] => destruct c
         end; intros [= <- <- <-] || discriminate; lia.
Qed.

Lemma sto_header_stable buf buf' t f u :
  sto_header buf = inr (t, f, u) -> agree_upto u buf buf' ->
  sto_header buf' = inr (t, f, u).
Proof.
  intros H [Hb Hl]. pose proof (sto_header_range _ _ _ _ H) as Hu.
  revert H. unfold sto_header.
  change (0 + 1) with 1. change (1 + 1) with 2. change (2 + 1) with 3.
  rewrite (Hb 0) by lia.
  destruct (Z.geb_spec 1 (Z.of_nat (length buf))); [discriminate|].
  destruct (Z.geb_spec 1 (Z.of_nat (length buf'))); [lia|].
  destruct ((Z.shiftr (byte_at buf 0) 4 >? 0) && (Z.land (byte_at buf 0) 15 >? 0));
    [auto|].
  destruct (Z.shiftr (byte_at buf 0) 4 >? 0).
  { intros [= <- <- <-]. rewrite (Hb 1) by lia. reflexivity. }
  destruct (Z.land (byte_at buf 0) 15 >? 0).
  { intros [= <- <- <-]. rewrite (Hb 1) by lia. reflexivity. }
  destruct (Z.geb_spec 2 (Z.of_nat (length buf))); [discriminate|].
  destruct (Z.geb_spec 2 (Z.of_nat (length buf'))); [lia|].
  intros [= <- <- <-]. rewrite (Hb 1), (Hb 2) by lia. reflexivity.
Qed.

Lemma sto_leaf_length_range buf t u len u' :
  sto_leaf_length buf t u = inr (len, u') -> u <= u' <= u + 3.
Proof.
  unfold sto_leaf_length.
  repeat match goal with
         | |- context [if ?c then _ else _] => destruct c
         end; intros [= <- <-] || discriminate; lia.
Qed.

Lemma sto_leaf_length_stable buf buf' t u len u' :
  0 <= u -> sto_leaf_length buf t u = inr (len, u') ->
  agree_upto (Z.max u' (u + 1)) buf buf' ->
  sto_leaf_length buf' t u = inr (len, u').
Proof.
  intros Hu H [Hb Hl]. pose proof (sto_leaf_length_range _ _ _ _ _ H) as Hr.
  revert H. unfold sto_leaf_length.
  rewrite (Hb u) by lia.
  destruct ((t =? 8) || (t =? 7) || (t =? 18) || (t =? 19)).
  - destruct (Z.geb_spec (u + 1) (Z.of_nat (length buf))); [discriminate|].
    destruct (Z.geb_spec (u + 1) (Z.of_nat (length buf'))); [lia|].
    destruct (byte_at buf u <? 193); [auto|].
    destruct ((byte_at buf u >? 192) && (byte_at buf u <? 241)).
    + destruct (Z.gtb_spec (u + 1 + 1) (Z.of_nat (length buf))); [discriminate|].
      destruct (Z.gtb_spec (u + 1 + 1) (Z.of_nat (length buf'))); [lia|].
      intros [= <- <-]. rewrite (Hb (u + 1)) by lia. reflexivity.
    + destruct (Z.geb_spec (u + 1 + 1) (Z.of_nat (length buf))); [discriminate|].
      destruct (Z.geb_spec (u + 1 + 1) (Z.of_nat (length buf'))); [lia|].
      destruct (Z.geb_spec (u + 1 + 1 + 1) (Z.of_nat (length buf))); [discriminate|].
      destruct (Z.geb_spec (u + 1 + 1 + 1) (Z.of_nat (length buf'))); [lia|].
      intros [= <- <-]. rewrite (Hb (u + 1)), (Hb (u + 1 + 1)) by lia. reflexivity.
  - destruct (((t >=? 1) && (t <=? 5)) || (t =? 16) || (t =? 17)); [auto|].
    destruct (t =? 6); [|auto].
    destruct (Z.geb_spec u (Z.of_nat (length buf))); [discriminate|].
    destruct (Z.geb_spec u (Z.of_nat (length buf'))); [lia|]. auto.
Qed.

Lemma sto_leaf_length_span buf t u len u' :
  sto_leaf_length buf t u = inr (len, u') -> len > -1 ->
  Z.max u' (u + 1) <= len + u'.
Proof.
  unfold sto_leaf_length.
  repeat match goal with
         | |- context [if ?c then _ else _] => destruct c
         end; intros [= <- <-] || discriminate; lia.
Qed.

End StoParser.

(** The loop over the nested fields, for any parser of the nested fields
    that answers positive lengths and looks at the bytes of the field
    only. *)
Section Nested.
Variable sub : list Z -> Z + sto_object.
Hypothesis sub_pos : forall buf o, sub buf = inr o -> 1 <= so_length o.

Lemma nested_loop_pos buf t f ps o : forall n upto,
  0 <= upto ->
  iter_nat n (sto_nested_step sub buf t f ps) upto = inr (inr o) ->
  upto + 1 < so_length o.
Proof.
  induction n as [|n IH]; intros upto Hu H; cbn [iter_nat] in H; [discriminate|].
  unfold sto_nested_step at 1 in H.
  destruct (sub (drop (Z.to_nat upto) buf)) as [c|so] eqn:Hs; [discriminate|].
  pose proof (sub_pos _ _ Hs) as Hp.
  destruct (upto + so_length so >=? Z.of_nat (length buf)); [discriminate|].
  destruct (_ || _).
  - injection H as <-. cbn [so_length]. lia.
  - specialize (IH (upto + so_length so) ltac:(lia) H). lia.
Qed.

Hypothesis sub_stable : forall buf buf' o,
  sub buf = inr o -> agree_upto (so_length o) buf buf' -> sub buf' = inr o.

Lemma nested_loop_stable buf buf' t f ps o : forall n upto,
  0 <= upto ->
  iter_nat n (sto_nested_step sub buf t f ps) upto = inr (inr o) ->
  agree_upto (so_length o) buf buf' ->
  iter_nat n (sto_nested_step sub buf' t f ps) upto = inr (inr o).
Proof.
  induction n as [|n IH]; intros upto Hu H Hag; cbn [iter_nat] in *; [discriminate|].
  pose proof (nested_loop_pos buf t f ps o (S n) upto Hu H) as Hlt.
  unfold sto_nested_step at 1 in H. unfold sto_nested_step at 1.
  destruct (sub (drop (Z.to_nat upto) buf)) as [c|so] eqn:Hs; [discriminate|].
  pose proof (sub_pos _ _ Hs) as Hp.
  destruct (Z.geb_spec (upto + so_length so) (Z.of_nat (length buf))); [discriminate|].
  assert (Hend : upto + so_length so < so_length o).
  { destruct (_ || _).
    - injection H as <-. cbn [so_length]. lia.
    - pose proof (nested_loop_pos buf t f ps o n (upto + so_length so)
                    ltac:(lia) H). lia. }
  rewrite (sub_stable _ (drop (Z.to_nat upto) buf') _ Hs).
  2:{ apply (agree_upto_le (so_length o - upto)); [|lia].
      apply agree_upto_drop; [exact Hag | exact Hu]. }
  destruct Hag as [Hb Hl].
  destruct (Z.geb_spec (upto + so_length so) (Z.of_nat (length buf'))); [lia|].
  rewrite (Hb (upto + so_length so)) by lia.
  destruct (_ || _); [exact H|].
  apply IH; [lia | exact H | split; assumption].
Qed.
End Nested.

Lemma get_stobject_length_pos d : forall buf o,
  get_stobject_length d buf = inr o -> 1 <= so_length o.
Proof.
  induction d as [|d IH]; intros buf o; [discriminate|].
  cbn [get_stobject_length].
  destruct (sto_header buf) as [c|[[t f] u]] eqn:Hh; [discriminate|].
  pose proof (sto_header_range _ _ _ _ Hh) as Hu.
  destruct (u >=? Z.of_nat (length buf)); [discriminate|].
  destruct (_ || _); [discriminate|].
  destruct (sto_leaf_length buf t u) as [c|[len u']] eqn:Hl; [discriminate|].
  pose proof (sto_leaf_length_range _ _ _ _ _ Hl) as Hr.
  destruct (Z.gtb_spec len (-1)).
  - intros [= <-]. cbn [so_length]. lia.
  - destruct (_ || _); [|discriminate].
    destruct (iter_nat _ _ _) as [st|[c|r]] eqn:Hit; try discriminate.
    intros [= ->].
    pose proof (nested_loop_pos _ IH buf t f u' o sto_loop_bound u'
                  ltac:(lia) Hit). lia.
Qed.

(** The parser looks at the bytes of the field it parses only: a buffer
    that holds the same field, followed by at least as many bytes, parses to
    the same. *)
Lemma get_stobject_length_stable d : forall buf buf' o,
  get_stobject_length d buf = inr o -> agree_upto (so_length o) buf buf' ->
  get_stobject_length d buf' = inr o.
Proof.
  induction d as [|d IH]; intros buf buf' o; [discriminate|].
  cbn [get_stobject_length]. intros Hrun Hag. revert Hrun.
  destruct (sto_header buf) as [c|[[t f] u]] eqn:Hh; [discriminate|].
  pose proof (sto_header_range _ _ _ _ Hh) as Hu.
  destruct (Z.geb_spec u (Z.of_nat (length buf))); [discriminate|].
  destruct ((t <? 1) || (t >? 19) || ((t >=? 9) && (t <=? 13))) eqn:Ht;
    [discriminate|].
  destruct (sto_leaf_length buf t u) as [c|[len u']] eqn:Hl; [discriminate|].
  pose proof (sto_leaf_length_range _ _ _ _ _ Hl) as Hr.
  intros Hrun.
  assert (Hspan : Z.max u' (u + 1) <= so_length o).
  { revert Hrun. destruct (Z.gtb_spec len (-1)).
    - intros [= <-]. cbn [so_length]. apply (sto_leaf_length_span _ _ _ _ _ Hl). lia.
    - destruct ((t =? 15) || (t =? 14)); [|discriminate].
      destruct (iter_nat _ _ _) as [st|[c|r]] eqn:Hit; try discriminate.
      intros [= ->].
      pose proof (nested_loop_pos _ (get_stobject_length_pos d) buf t f u' o
                    sto_loop_bound u' ltac:(lia) Hit). lia. }
  rewrite (sto_header_stable buf buf' t f u Hh)
    by (apply (agree_upto_le (so_length o)); [exact Hag | lia]).
  destruct (Z.geb_spec u (Z.of_nat (length buf'))); [destruct Hag; lia|].
  rewrite Ht.
  rewrite (sto_leaf_length_stable buf buf' t u len u' ltac:(lia) Hl)
    by (apply (agree_upto_le (so_length o)); [exact Hag | lia]).
  revert Hrun. destruct (len >? -1); [auto|].
  destruct ((t =? 15) || (t =? 14)); [|discriminate].
  destruct (iter_nat _ _ _) as [st|[c|r]] eqn:Hit; try discriminate.
  intros [= ->].
  rewrite (nested_loop_stable _ (get_stobject_length_pos d) IH buf buf' t f u' o
             sto_loop_bound u' ltac:(lia) Hit Hag).
  reflexivity.
Qed.

Lemma byte_at_app_l l r i :
  0 <= i < Z.of_nat (length l) -> byte_at (l ++ r) i = byte_at l i.
Proof. intros Hi. unfold byte_at. apply app_nth1. lia. Qed.

Lemma byte_at_take l n i :
  0 <= i < Z.of_nat n -> byte_at (take n l) i = byte_at l i.
Proof.
  intros Hi. unfold byte_at.
  assert (Hn : (Z.to_nat i < n)%nat) by lia. clear Hi. revert Hn.
  generalize (Z.to_nat i) as k. revert l.
  induction n as [|n IH]; intros l k Hk; [lia|].
  destruct l as [|x l]; [reflexivity|].
  destruct k as [|k]; [reflexivity|]. cbn [take nth]. apply IH. lia.
Qed.

Section StoWalk.

Lemma sto_fields_span buf os : sto_fields buf os -> sto_span os = Z.of_nat (length buf).
Proof.
  induction 1 as [|buf o os Hp Hlen Hrest IH]; [reflexivity|].
  cbn [sto_span fold_right]. fold (sto_span os). rewrite IH, length_drop.
  pose proof (get_stobject_length_pos _ _ _ Hp). lia.
Qed.

Lemma sto_span_app os1 os2 : sto_span (os1 ++ os2) = sto_span os1 + sto_span os2.
Proof.
  induction os1 as [|o os1 IH]; [reflexivity|].
  cbn [app sto_span fold_right]. fold (sto_span (os1 ++ os2)). fold (sto_span os1).
  rewrite IH. lia.
Qed.

Lemma sto_span_nonneg buf os : sto_fields buf os -> 0 <= sto_span os.
Proof. intros H. rewrite (sto_fields_span _ _ H). lia. Qed.

Lemma sto_fields_app_inv os1 : forall buf os2,
  sto_fields buf (os1 ++ os2) ->
  0 <= sto_span os1 <= Z.of_nat (length buf) /\
  sto_fields (drop (Z.to_nat (sto_span os1)) buf) os2.
Proof.
  induction os1 as [|o os1 IH]; intros buf os2 H.
  - cbn. split; [lia | exact H].
  - inversion H as [|? ? ? Hp Hlen Hrest]; subst.
    destruct (IH _ _ Hrest) as [Hr Hf].
    pose proof (get_stobject_length_pos _ _ _ Hp).
    cbn [sto_span fold_right]. fold (sto_span os1).
    rewrite length_drop in Hr. split; [lia|].
    rewrite drop_drop in Hf.
    replace (Z.to_nat (so_length o + sto_span os1))
      with (Z.to_nat (so_length o) + Z.to_nat (sto_span os1))%nat by lia.
    exact Hf.
Qed.

(** The loop of the host calls over a buffer that holds the fields [os]
    visits the first [n] of them. *)
Lemma fields_loop_visits {A R : Type} buf (on_error : R)
    (visit : A -> Z -> sto_object -> A + R) os : forall n a upto,
  0 <= upto <= Z.of_nat (length buf) ->
  sto_fields (drop (Z.to_nat upto) buf) os ->
  match iter_nat n (sto_fields_step buf on_error visit) (a, upto) with
  | inl st => inl st
  | inr (inl st) => inl st
  | inr (inr r) => inr r
  end = visit_all visit a upto (take n os).
Proof.
  induction os as [|o os IH]; intros n a upto Hu Hf.
  - rewrite take_nil. cbn [visit_all].
    destruct n as [|n]; [reflexivity|]. cbn [iter_nat].
    unfold sto_fields_step at 1.
    inversion Hf as [Hnil|]. apply (f_equal (@length Z)) in Hnil.
    rewrite length_drop in Hnil. cbn [length] in Hnil.
    destruct (Z.ltb_spec upto (Z.of_nat (length buf))); [lia | reflexivity].
  - destruct n as [|n]; [reflexivity|]. cbn [iter_nat take visit_all].
    unfold sto_fields_step at 1.
    inversion Hf as [|? ? ? Hp Hlen Hrest]; subst.
    pose proof (get_stobject_length_pos _ _ _ Hp) as Hpos.
    rewrite length_drop in Hlen.
    destruct (Z.ltb_spec upto (Z.of_nat (length buf))); [|lia].
    rewrite Hp.
    destruct (visit a upto o) as [a'|r]; [|reflexivity].
    apply IH; [lia|].
    rewrite drop_drop in Hrest.
    replace (Z.to_nat (upto + so_length o))
      with (Z.to_nat upto + Z.to_nat (so_length o))%nat by lia.
    exact Hrest.
Qed.

(** A field that parses on its own parses the same in front of any
    bytes. *)
Lemma get_stobject_length_app d F rest o :
  get_stobject_length d F = inr o -> so_length o <= Z.of_nat (length F) ->
  get_stobject_length d (F ++ rest) = inr o.
Proof.
  intros Hp Hlen. apply (get_stobject_length_stable d F); [exact Hp|].
  split.
  - intros i Hi. apply byte_at_app_l. lia.
  - rewrite length_app. lia.
Qed.

(** Putting a field between two fields of a buffer gives a buffer that
    holds the fields before it, the field, and the fields after it. *)
Lemma sto_fields_insert F oF os1 : forall src os2,
  get_stobject_length sto_max_depth F = inr oF ->
  so_length oF = Z.of_nat (length F) ->
  sto_fields src (os1 ++ os2) ->
  sto_fields (take (Z.to_nat (sto_span os1)) src ++ F ++
              drop (Z.to_nat (sto_span os1)) src)
    (os1 ++ oF :: os2).
Proof.
  induction os1 as [|o os1 IH]; intros src os2 HF HlenF Hsrc.
  - cbn [app sto_span fold_right]. change (Z.to_nat 0) with 0%nat.
    rewrite take_0, drop_0. cbn [app].
    apply sto_fields_cons.
    + apply get_stobject_length_app; [exact HF | lia].
    + rewrite length_app. lia.
    + rewrite HlenF, Nat2Z.id, drop_app_length. exact Hsrc.
  - cbn [app] in *.
    inversion Hsrc as [|? ? ? Hp Hlen Hrest]; subst.
    pose proof (get_stobject_length_pos _ _ _ Hp) as Hpos.
    destruct (sto_fields_app_inv _ _ _ Hrest) as [Hr _].
    rewrite length_drop in Hr.
    cbn [sto_span fold_right]. fold (sto_span os1).
    set (p := so_length o + sto_span os1).
    assert (Hp_le : p <= Z.of_nat (length src)) by (subst p; lia).
    apply sto_fields_cons.
    + apply (get_stobject_length_stable _ src); [exact Hp|].
      split.
      * intros i Hi. rewrite byte_at_app_l by (rewrite length_take; lia).
        apply byte_at_take. lia.
      * rewrite !length_app, length_take, length_drop. lia.
    + rewrite !length_app, length_take, length_drop. lia.
    + rewrite drop_app_le by (rewrite length_take; lia).
      replace (drop (Z.to_nat (so_length o)) (take (Z.to_nat p) src))
        with (take (Z.to_nat (sto_span os1)) (drop (Z.to_nat (so_length o)) src)).
      2:{ rewrite take_drop_commute. f_equal. f_equal. subst p. lia. }
      replace (drop (Z.to_nat p) src)
        with (drop (Z.to_nat (sto_span os1)) (drop (Z.to_nat (so_length o)) src)).
      2:{ rewrite drop_drop. f_equal. subst p. lia. }
      apply IH; assumption.
Qed.

(** Where sto_emplace injects a field whose code the buffer does not hold:
    between two of its fields. *)
Lemma sto_emplace_find_split src field_id os :
  sto_fields src os ->
  Forall (fun o => sto_code o <> field_id) os ->
  exists os1 os2,
    os = os1 ++ os2 /\
    sto_emplace_find src field_id = inr (sto_span os1, sto_span os1).
Proof.
  intros Hf Hne. unfold sto_emplace_find, sto_fields_loop.
  rewrite (fields_loop_visits src _ _ os) by (rewrite ?drop_0; try assumption; lia).
  pose proof (sto_fields_span _ _ Hf) as Hspan.
  match goal with |- context [visit_all ?v _ _ _] => set (visit := v) end.
  assert (Hgen : forall l upto,
    Forall (fun o => sto_code o <> field_id) l ->
    (exists l1 l2, l = l1 ++ l2 /\
       visit_all visit () upto l
       = inr (inr (upto + sto_span l1, upto + sto_span l1))) \/
    visit_all visit () upto l = inl ((), upto + sto_span l)).
  { induction l as [|o l IHl]; intros upto Hl.
    - right. cbn. f_equal. f_equal. lia.
    - inversion Hl as [|? ? Ho Hl']; subst. cbn [visit_all].
      unfold sto_code in Ho.
      assert (Hvis : visit () upto o
                     = if Z.shiftl (so_type o) 16 + so_field o >? field_id
                       then inr (inr (upto, upto)) else inl ()).
      { unfold visit.
        destruct (Z.eqb_spec (Z.shiftl (so_type o) 16 + so_field o) field_id);
          [contradiction | reflexivity]. }
      rewrite Hvis.
      destruct (Z.shiftl (so_type o) 16 + so_field o >? field_id).
      + left. exists [], (o :: l). split; [reflexivity|]. cbn. do 3 f_equal; lia.
      + destruct (IHl (upto + so_length o) Hl') as [(l1 & l2 & -> & Hv)|Hv].
        * left. exists (o :: l1), l2. split; [reflexivity|]. rewrite Hv.
          cbn [sto_span fold_right]. fold (sto_span l1). do 3 f_equal; lia.
        * right. rewrite Hv. cbn [sto_span fold_right]. fold (sto_span l).
          do 2 f_equal. lia. }
  destruct (Hgen (take sto_loop_bound os) 0) as [(l1 & l2 & Hl & Hv)|Hv].
  - apply Forall_take. exact Hne.
  - exists l1, (l2 ++ drop sto_loop_bound os). split.
    + rewrite app_assoc, <- Hl. symmetry. apply take_drop.
    + rewrite Hv. reflexivity.
  - exists os, []. split; [rewrite app_nil_r; reflexivity|].
    rewrite Hv, Hspan. reflexivity.
Qed.

Lemma visit_all_app {A R : Type} (visit : A -> Z -> sto_object -> A + R) l1 :
  forall a upto l2,
  visit_all visit a upto (l1 ++ l2)
  = match visit_all visit a upto l1 with
    | inl (a', upto') => visit_all visit a' upto' l2
    | inr r => inr r
    end.
Proof.
  induction l1 as [|o l1 IH]; intros a upto l2; [reflexivity|].
  cbn [app visit_all]. destruct (visit a upto o); [apply IH | reflexivity].
Qed.

(** What sto_erase finds: nothing in a buffer that does not hold the code,
    and the field itself when it is the only one with the code and among
    the first 1024 fields. *)
Lemma sto_erase_visits_none field_id l : forall upto found,
  Forall (fun o => sto_code o <> field_id) l ->
  visit_all
    (fun (found : option (Z * Z)) (upto : Z) (o : sto_object) =>
       if Z.shiftl (so_type o) 16 + so_field o =? field_id
       then inl (Some (upto, upto + so_length o))
       else @inl _ (Z + option (Z * Z)) found)
    found upto l = inl (found, upto + sto_span l).
Proof.
  induction l as [|o l IH]; intros upto found Hl.
  - cbn. do 2 f_equal. lia.
  - inversion Hl as [|? ? Ho Hl']; subst. cbn [visit_all].
    unfold sto_code in Ho.
    destruct (Z.eqb_spec (Z.shiftl (so_type o) 16 + so_field o) field_id);
      [contradiction|].
    rewrite IH by assumption. cbn [sto_span fold_right]. fold (sto_span l).
    do 2 f_equal. lia.
Qed.

Lemma sto_erase_find_none buf field_id os :
  sto_fields buf os ->
  Forall (fun o => sto_code o <> field_id) os ->
  sto_erase_find buf field_id = inr None.
Proof.
  intros Hf Hne. unfold sto_erase_find, sto_fields_loop.
  rewrite (fields_loop_visits buf _ _ os) by (rewrite ?drop_0; try assumption; lia).
  rewrite sto_erase_visits_none by (apply Forall_take; exact Hne).
  reflexivity.
Qed.

Lemma sto_erase_find_unique buf field_id os1 oF os2 :
  sto_fields buf (os1 ++ oF :: os2) ->
  sto_code oF = field_id ->
  Forall (fun o => sto_code o <> field_id) os1 ->
  Forall (fun o => sto_code o <> field_id) os2 ->
  (length os1 < sto_loop_bound)%nat ->
  sto_erase_find buf field_id
  = inr (Some (sto_span os1, sto_span os1 + so_length oF)).
Proof.
  intros Hf Hc H1 H2 Hn. unfold sto_erase_find, sto_fields_loop.
  rewrite (fields_loop_visits buf _ _ (os1 ++ oF :: os2))
    by (rewrite ?drop_0; try assumption; lia).
  rewrite take_app_ge by lia.
  destruct (sto_loop_bound - length os1)%nat as [|k] eqn:Hk; [lia|].
  cbn [take]. rewrite visit_all_app.
  rewrite sto_erase_visits_none by assumption.
  cbn [visit_all]. unfold sto_code in Hc. rewrite Hc, Z.eqb_refl.
  rewrite sto_erase_visits_none by (apply Forall_take; exact H2).
  rewrite Z.add_0_l. reflexivity.
Qed.

End StoWalk.

(** ** sto_emplace and sto_erase on the guest memory *)

Lemma read_bytes_setBytes_disjoint memory span dst n p len :
  0 <= p -> 0 <= len -> 0 <= dst -> 0 <= n <= Z.of_nat (length span) ->
  dst + n <= memory_length memory ->
  p + len <= dst \/ dst + n <= p ->
  read_bytes (setBytes memory span dst n) p len = read_bytes memory p len.
Proof.
  intros Hp Hl Hd Hn Hm [Hb|Ha].
  - apply read_bytes_setBytes_before; lia.
  - unfold read_bytes, setBytes, memory_length in *. f_equal.
    rewrite app_assoc.
    rewrite drop_app_ge by (rewrite length_app, !length_take; lia).
    rewrite length_app, !length_take, drop_drop. f_equal. lia.
Qed.

Lemma read_bytes_take memory ptr len k :
  0 <= k <= len ->
  read_bytes memory ptr k = take (Z.to_nat k) (read_bytes memory ptr len).
Proof.
  intros Hk. unfold read_bytes. rewrite take_take. f_equal. lia.
Qed.

Lemma read_bytes_drop memory ptr len k :
  0 <= ptr -> 0 <= k <= len ->
  read_bytes memory (ptr + k) (len - k) = drop (Z.to_nat k) (read_bytes memory ptr len).
Proof.
  intros Hp Hk. unfold read_bytes.
  replace (Z.to_nat len) with (Z.to_nat k + Z.to_nat (len - k))%nat by lia.
  rewrite <- take_drop_commute, drop_drop.
  f_equal. f_equal. lia.
Qed.

Lemma setBytes_two memory a x y :
  0 <= a ->
  a + Z.of_nat (length x) + Z.of_nat (length y) <= memory_length memory ->
  setBytes (setBytes memory x a (Z.of_nat (length x))) y
    (a + Z.of_nat (length x)) (Z.of_nat (length y))
  = setBytes memory (x ++ y) a (Z.of_nat (length (x ++ y))).
Proof.
  intros Ha Hb.
  rewrite (setBytes_as_splice memory x) by lia.
  rewrite setBytes_app by lia.
  rewrite <- setBytes_as_splice by lia. reflexivity.
Qed.

Lemma read_bytes_written memory a x :
  0 <= a -> a + Z.of_nat (length x) <= memory_length memory ->
  read_bytes (setBytes memory x a (Z.of_nat (length x))) a (Z.of_nat (length x)) = x.
Proof.
  intros Ha Hb. rewrite read_bytes_setBytes by lia.
  rewrite Nat2Z.id. apply firstn_all.
Qed.

(** What sto_emplace writes when the walk over the source finds the
    injection point [p] without a field to replace. *)
Lemma sto_emplace_writes memory write_ptr write_len sread_ptr sread_len
    fread_ptr fread_len field_id p :
  wf_memory memory ->
  is_u32 write_ptr -> is_u32 write_len -> is_u32 sread_ptr -> is_u32 sread_len ->
  is_u32 fread_ptr -> is_u32 fread_len ->
  write_ptr + write_len <= memory_length memory ->
  sread_ptr + sread_len <= memory_length memory ->
  fread_ptr + fread_len <= memory_length memory ->
  sread_len + fread_len <= write_len ->
  sread_len <= 1024 * 16 -> fread_len <= 4096 ->
  write_ptr + (sread_len + fread_len) <= sread_ptr \/ sread_ptr + sread_len <= write_ptr ->
  write_ptr + (sread_len + fread_len) <= fread_ptr \/ fread_ptr + fread_len <= write_ptr ->
  sto_emplace_find (read_bytes memory sread_ptr sread_len) field_id = inr (p, p) ->
  0 <= p <= sread_len ->
  exists memory1,
    sto_emplace memory write_ptr write_len sread_ptr sread_len fread_ptr fread_len
      field_id = (sread_len + fread_len, memory1) /\
    read_bytes memory1 write_ptr (sread_len + fread_len)
    = take (Z.to_nat p) (read_bytes memory sread_ptr sread_len) ++
      read_bytes memory fread_ptr fread_len ++
      drop (Z.to_nat p) (read_bytes memory sread_ptr sread_len) /\
    memory_length memory1 = memory_length memory.
Proof.
  intros Hwf Hwp Hwl Hsp Hsl Hfp Hfl Hwb Hsb Hfb Hroom Hsmax Hfmax Hds Hdf Hfind Hp.
  pose proof (memory_length_nonneg memory) as Hml.
  unfold sto_emplace.
  rewrite !NOT_IN_BOUNDS_spec by (unfold wf_memory in *; auto with lia).
  unfold is_u32, wf_memory in *.
  destruct (Z.gtb_spec (write_ptr + write_len) (memory_length memory)); [lia|].
  destruct (Z.gtb_spec (sread_ptr + sread_len) (memory_length memory)); [lia|].
  destruct (Z.gtb_spec (fread_ptr + fread_len) (memory_length memory)); [lia|].
  unfold u32. rewrite (Z.mod_small (sread_len + fread_len)) by lia.
  destruct (Z.ltb_spec write_len (sread_len + fread_len)); [lia|].
  destruct (Z.gtb_spec sread_len (1024 * 16)); [lia|].
  destruct (Z.gtb_spec fread_len 4096); [lia|].
  rewrite Hfind.
  set (src := read_bytes memory sread_ptr sread_len).
  set (A := take (Z.to_nat p) src).
  set (F := read_bytes memory fread_ptr fread_len).
  set (C := drop (Z.to_nat p) src).
  assert (Hsrc : length src = Z.to_nat sread_len)
    by (apply length_read_bytes; lia).
  assert (HA : Z.of_nat (length A) = p) by (subst A; rewrite length_take; lia).
  assert (HF : Z.of_nat (length F) = fread_len)
    by (subst F; rewrite length_read_bytes; lia).
  assert (HC : Z.of_nat (length C) = sread_len - p)
    by (subst C; rewrite length_drop; lia).
  (* part 1 *)
  set (memory1 := setBytes memory A write_ptr (Z.of_nat (length A))).
  assert (Hl1 : memory_length memory1 = memory_length memory)
    by (apply memory_length_setBytes; lia).
  assert (Hpart1 : (if p >? 0
                then WRITE_WASM_MEMORY memory 0 write_ptr write_len
                       (read_bytes memory sread_ptr p) p
                else inr (memory, 0)) = inr (memory1, p)).
  { subst memory1. rewrite HA.
    rewrite (read_bytes_take memory sread_ptr sread_len p) by lia. fold src. fold A.
    destruct (Z.gtb_spec p 0).
    - rewrite WRITE_WASM_MEMORY_ok by lia. rewrite i64_small by lia. reflexivity.
    - replace p with 0 by lia. rewrite setBytes_nothing by lia. reflexivity. }
  rewrite Hpart1.
  (* the field *)
  assert (HF1 : read_bytes memory1 fread_ptr fread_len = F).
  { subst memory1 F. apply read_bytes_setBytes_disjoint; lia. }
  rewrite HF1.
  rewrite WRITE_WASM_MEMORY_ok by lia. rewrite i64_small by lia.
  set (memory2 := setBytes memory1 F (write_ptr + p) fread_len).
  assert (Hl2 : memory_length memory2 = memory_length memory).
  { subst memory2. rewrite memory_length_setBytes; lia. }
  (* part 2 *)
  assert (HC2 : read_bytes memory2 (sread_ptr + p) (sread_len - p) = C).
  { subst memory2 memory1 C src.
    rewrite !read_bytes_setBytes_disjoint by lia.
    apply read_bytes_drop; lia. }
  rewrite HC2.
  set (memory3 := setBytes memory2 C (write_ptr + (p + fread_len)) (sread_len - p)).
  assert (Hl3 : memory_length memory3 = memory_length memory).
  { subst memory3. rewrite memory_length_setBytes; lia. }
  assert (Hpart2 : (if sread_len - p >? 0
                then match WRITE_WASM_MEMORY memory2 (p + fread_len)
                             (write_ptr + (p + fread_len))
                             (write_len - (p + fread_len)) C (sread_len - p) with
                     | inl code => (code, memory2)
                     | inr (memory3, bytes_written) => (bytes_written, memory3)
                     end
                else (p + fread_len, memory2))
               = (sread_len + fread_len, memory3)).
  { subst memory3. destruct (Z.gtb_spec (sread_len - p) 0).
    - rewrite WRITE_WASM_MEMORY_ok by lia. rewrite i64_small by lia.
      f_equal. lia.
    - replace (sread_len - p) with 0 by lia. rewrite setBytes_nothing by lia.
      f_equal. lia. }
  rewrite Hpart2.
  exists memory3. split; [reflexivity|]. split; [|exact Hl3].
  subst memory3 memory2 memory1.
  rewrite <- HF at 1. rewrite <- HC at 1.
  replace (write_ptr + p) with (write_ptr + Z.of_nat (length A)) by lia.
  rewrite setBytes_two by lia.
  replace (write_ptr + (p + fread_len))
    with (write_ptr + Z.of_nat (length (A ++ F))) by (rewrite length_app; lia).
  rewrite setBytes_two by (rewrite ?length_app; lia).
  replace (sread_len + fread_len) with (Z.of_nat (length ((A ++ F) ++ C)))
    by (rewrite !length_app; lia).
  rewrite read_bytes_written by (rewrite ?length_app; lia).
  rewrite <- app_assoc. reflexivity.
Qed.

(** What sto_erase writes when the walk finds the field at [s .. e). *)
Lemma sto_erase_writes memory write_ptr write_len read_ptr read_len field_id s e :
  wf_memory memory ->
  is_u32 write_ptr -> is_u32 write_len -> is_u32 read_ptr -> is_u32 read_len ->
  write_ptr + write_len <= memory_length memory ->
  read_ptr + read_len <= memory_length memory ->
  read_len <= 16 * 1024 -> read_len <= write_len ->
  write_ptr + read_len <= read_ptr \/ read_ptr + read_len <= write_ptr ->
  sto_erase_find (read_bytes memory read_ptr read_len) field_id = inr (Some (s, e)) ->
  0 <= s <= e -> e <= read_len ->
  exists memory',
    sto_erase memory write_ptr write_len read_ptr read_len field_id
    = (read_len - (e - s), memory') /\
    read_bytes memory' write_ptr (read_len - (e - s))
    = take (Z.to_nat s) (read_bytes memory read_ptr read_len) ++
      drop (Z.to_nat e) (read_bytes memory read_ptr read_len) /\
    memory_length memory' = memory_length memory.
Proof.
  intros Hwf Hwp Hwl Hrp Hrl Hwb Hrb Hmax Hroom Hdis Hfind Hs He.
  pose proof (memory_length_nonneg memory) as Hml.
  unfold sto_erase.
  rewrite !NOT_IN_BOUNDS_spec by (unfold wf_memory in *; auto with lia).
  unfold is_u32, wf_memory in *.
  destruct (Z.gtb_spec (write_ptr + write_len) (memory_length memory)); [lia|].
  destruct (Z.gtb_spec (read_ptr + read_len) (memory_length memory)); [lia|].
  destruct (Z.gtb_spec read_len (16 * 1024)); [lia|].
  destruct (Z.ltb_spec write_len read_len); [lia|].
  rewrite Hfind.
  destruct (Z.geb_spec s 0); [|lia]. destruct (Z.geb_spec e 0); [|lia].
  destruct (Z.leb_spec s read_len); [|lia]. destruct (Z.leb_spec e read_len); [|lia].
  cbn [andb].
  set (buf := read_bytes memory read_ptr read_len).
  set (A := take (Z.to_nat s) buf).
  set (C := drop (Z.to_nat e) buf).
  assert (Hbuf : length buf = Z.to_nat read_len)
    by (apply length_read_bytes; lia).
  assert (HA : Z.of_nat (length A) = s) by (subst A; rewrite length_take; lia).
  assert (HC : Z.of_nat (length C) = read_len - e)
    by (subst C; rewrite length_drop; lia).
  set (memory1 := setBytes memory A write_ptr (Z.of_nat (length A))).
  assert (Hl1 : memory_length memory1 = memory_length memory)
    by (apply memory_length_setBytes; lia).
  assert (Hpart1 : (if s >? 0
                    then WRITE_WASM_MEMORY memory 0 write_ptr write_len
                           (read_bytes memory read_ptr s) s
                    else inr (memory, 0)) = inr (memory1, s)).
  { subst memory1. rewrite HA.
    rewrite (read_bytes_take memory read_ptr read_len s) by lia. fold buf. fold A.
    destruct (Z.gtb_spec s 0).
    - rewrite WRITE_WASM_MEMORY_ok by lia. rewrite i64_small by lia. reflexivity.
    - replace s with 0 by lia. rewrite setBytes_nothing by lia. reflexivity. }
  rewrite Hpart1.
  assert (HC1 : read_bytes memory1 (read_ptr + e) (read_len - e) = C).
  { subst memory1 C buf.
    rewrite read_bytes_setBytes_disjoint by lia.
    apply read_bytes_drop; lia. }
  rewrite HC1.
  set (memory2 := setBytes memory1 C (write_ptr + s) (read_len - e)).
  assert (Hl2 : memory_length memory2 = memory_length memory).
  { subst memory2. rewrite memory_length_setBytes; lia. }
  assert (Hpart2 : (if read_len - e >? 0
                    then match WRITE_WASM_MEMORY memory1 s (write_ptr + s)
                                 (write_len - s) C (read_len - e) with
                         | inl code => (code, memory1)
                         | inr (memory2, bytes_written) => (bytes_written, memory2)
                         end
                    else (s, memory1))
                   = (read_len - (e - s), memory2)).
  { subst memory2. destruct (Z.gtb_spec (read_len - e) 0).
    - rewrite WRITE_WASM_MEMORY_ok by lia. rewrite i64_small by lia.
      f_equal. lia.
    - replace (read_len - e) with 0 by lia. rewrite setBytes_nothing by lia.
      f_equal. lia. }
  rewrite Hpart2.
  exists memory2. split; [reflexivity|]. split; [|exact Hl2].
  subst memory2 memory1.
  rewrite <- HC at 1.
  replace (write_ptr + s) with (write_ptr + Z.of_nat (length A)) by lia.
  rewrite setBytes_two by lia.
  replace (read_len - (e - s)) with (Z.of_nat (length (A ++ C)))
    by (rewrite !length_app; lia).
  apply read_bytes_written; rewrite ?length_app; lia.
Qed.

Lemma visit_all_continue {A R : Type} (visit : A -> Z -> sto_object -> A + R) a0 l :
  (forall a upto o, visit a upto o = inl a0) ->
  forall a upto, exists st, visit_all visit a upto l = inl st.
Proof.
  intros Hv. induction l as [|o l IH]; intros a upto; cbn [visit_all]; [eauto|].
  rewrite Hv. apply IH.
Qed.

(** sto_validate accepts every buffer that splits into fields. *)
Lemma sto_validate_fields memory read_ptr read_len os :
  wf_memory memory -> is_u32 read_ptr -> is_u32 read_len ->
  read_ptr + read_len <= memory_length memory -> 1 <= read_len ->
  sto_fields (read_bytes memory read_ptr read_len) os ->
  sto_validate memory read_ptr read_len = 1.
Proof.
  intros Hwf Hp Hl Hb Hlen Hf. pose proof (memory_length_nonneg memory).
  unfold sto_validate.
  rewrite NOT_IN_BOUNDS_spec by (unfold wf_memory in *; auto with lia).
  destruct (Z.gtb_spec (read_ptr + read_len) (memory_length memory)); [lia|].
  destruct (Z.ltb_spec read_len 1); [lia|].
  unfold sto_fields_loop.
  rewrite (fields_loop_visits _ _ _ os) by (rewrite ?drop_0; try assumption; lia).
  destruct (visit_all_continue (R := Z) (fun _ _ _ => inl ()) () (take sto_loop_bound os)
              ltac:(reflexivity) () 0) as [st ->].
  reflexivity.
Qed.

(** X1: sto_emplace followed by sto_erase: for a source that splits into fewer
    than 1024 fields, none with the code [field_id], and a field that
    parses on its own as one field with that code, sto_emplace succeeds,
    its output passes sto_validate, and sto_erase of the code from the output
    gives back the bytes of the source. *)
Theorem sto_erase_emplace memory write_ptr write_len sread_ptr sread_len
    fread_ptr fread_len field_id os oF write_ptr2 write_len2 :
  wf_memory memory ->
  is_u32 write_ptr -> is_u32 write_len -> is_u32 sread_ptr -> is_u32 sread_len ->
  is_u32 fread_ptr -> is_u32 fread_len -> is_u32 write_ptr2 -> is_u32 write_len2 ->
  write_ptr + write_len <= memory_length memory ->
  sread_ptr + sread_len <= memory_length memory ->
  fread_ptr + fread_len <= memory_length memory ->
  write_ptr2 + write_len2 <= memory_length memory ->
  sread_len + fread_len <= write_len -> sread_len + fread_len <= write_len2 ->
  sread_len + fread_len <= 16 * 1024 -> fread_len <= 4096 ->
  write_ptr + (sread_len + fread_len) <= sread_ptr \/ sread_ptr + sread_len <= write_ptr ->
  write_ptr + (sread_len + fread_len) <= fread_ptr \/ fread_ptr + fread_len <= write_ptr ->
  write_ptr2 + (sread_len + fread_len) <= write_ptr \/
    write_ptr + (sread_len + fread_len) <= write_ptr2 ->
  sto_fields (read_bytes memory sread_ptr sread_len) os ->
  (length os < sto_loop_bound)%nat ->
  Forall (fun o => sto_code o <> field_id) os ->
  get_stobject_length sto_max_depth (read_bytes memory fread_ptr fread_len) = inr oF ->
  so_length oF = fread_len -> sto_code oF = field_id ->
  exists memory1 memory2,
    sto_emplace memory write_ptr write_len sread_ptr sread_len fread_ptr fread_len
      field_id = (sread_len + fread_len, memory1) /\
    sto_validate memory1 write_ptr (sread_len + fread_len) = 1 /\
    sto_erase memory1 write_ptr2 write_len2 write_ptr (sread_len + fread_len) field_id
    = (sread_len, memory2) /\
    read_bytes memory2 write_ptr2 sread_len = read_bytes memory sread_ptr sread_len.
Proof.
  intros Hwf Hwp Hwl Hsp Hsl Hfp Hfl Hwp2 Hwl2 Hwb Hsb Hfb Hwb2 Hroom Hroom2
    Hmax Hfmax Hds Hdf Hdw Hsrc Hcount Hne HF HlenF HcodeF.
  pose proof (memory_length_nonneg memory) as Hml.
  destruct (sto_emplace_find_split _ field_id os Hsrc Hne) as (os1 & os2 & -> & Hfind).
  destruct (sto_fields_app_inv _ _ _ Hsrc) as [Hp _].
  pose proof (get_stobject_length_pos _ _ _ HF) as HposF.
  assert (Hsl' : length (read_bytes memory sread_ptr sread_len) = Z.to_nat sread_len)
    by (apply length_read_bytes; unfold is_u32 in *; lia).
  assert (Hfl' : length (read_bytes memory fread_ptr fread_len) = Z.to_nat fread_len)
    by (apply length_read_bytes; unfold is_u32 in *; lia).
  rewrite Hsl' in Hp.
  destruct (sto_emplace_writes memory write_ptr write_len sread_ptr sread_len
              fread_ptr fread_len field_id (sto_span os1))
    as (memory1 & Hemplace & Hout & Hl1); try assumption; try lia.
  { unfold is_u32 in *. lia. }
  pose proof (sto_fields_insert _ oF os1 _ os2 HF
                ltac:(rewrite Hfl'; unfold is_u32 in *; lia) Hsrc) as Hfields.
  rewrite <- Hout in Hfields.
  assert (Hwf1 : wf_memory memory1) by (unfold wf_memory in *; lia).
  assert (Hu : is_u32 (sread_len + fread_len)) by (unfold is_u32 in *; lia).
  apply Forall_app in Hne as [Hne1 Hne2].
  rewrite length_app in Hcount.
  destruct (sto_erase_writes memory1 write_ptr2 write_len2 write_ptr
              (sread_len + fread_len) field_id (sto_span os1)
              (sto_span os1 + so_length oF))
    as (memory2 & Herase & Hback & _); try assumption; try lia.
  { apply (sto_erase_find_unique _ _ os1 oF os2); try assumption. lia. }
  { unfold is_u32 in *. lia. }
  exists memory1, memory2. split; [exact Hemplace|]. split.
  { apply (sto_validate_fields _ _ _ (os1 ++ oF :: os2)); try assumption;
      unfold is_u32 in *; lia. }
  split.
  { rewrite Herase. f_equal. lia. }
  replace (sread_len + fread_len - (sto_span os1 + so_length oF - sto_span os1))
    with sread_len in Hback by lia.
  rewrite Hback, Hout.
  set (src := read_bytes memory sread_ptr sread_len) in *.
  set (F := read_bytes memory fread_ptr fread_len) in *.
  assert (HA : length (take (Z.to_nat (sto_span os1)) src) = Z.to_nat (sto_span os1))
    by (rewrite length_take; lia).
  rewrite take_app_length' by (symmetry; exact HA).
  rewrite app_assoc.
  rewrite drop_app_length' by (rewrite length_app, HA, Hfl'; unfold is_u32 in *; lia).
  apply take_drop.
Qed.

(** ** Properties of the parser and of the calls built on it *)

(** X2: A successful parse does not depend on the bytes that follow the field,
    as long as at least as many bytes follow. *)
Theorem parse_ignores_following_bytes d F rest rest' o :
  get_stobject_length d (F ++ rest) = inr o ->
  so_length o <= Z.of_nat (length F) ->
  (length rest <= length rest')%nat ->
  get_stobject_length d (F ++ rest') = inr o.
Proof.
  intros Hp Hlen Hrest. apply (get_stobject_length_stable d (F ++ rest)); [exact Hp|].
  split.
  - intros i Hi. rewrite !byte_at_app_l by lia. reflexivity.
  - rewrite !length_app. lia.
Qed.

Lemma nested_loop_shape sub buf t f ps o : forall n upto,
  iter_nat n (sto_nested_step sub buf t f ps) upto = inr (inr o) ->
  so_type o = t /\ so_field o = f /\ so_payload_start o = ps /\
  so_payload_length o = so_length o - 1 - ps /\
  so_length o <= Z.of_nat (length buf).
Proof.
  induction n as [|n IH]; intros upto H; cbn [iter_nat] in H; [discriminate|].
  unfold sto_nested_step at 1 in H.
  destruct (sub (drop (Z.to_nat upto) buf)) as [c|so]; [discriminate|].
  destruct (Z.geb_spec (upto + so_length so) (Z.of_nat (length buf))); [discriminate|].
  destruct (_ || _).
  - injection H as <-. cbn. repeat split; lia.
  - apply (IH _ H).
Qed.

(** The bounds of a parsed field and of its payload. *)
Lemma parsed_shape d buf o :
  get_stobject_length d buf = inr o ->
  2 <= so_length o /\
  1 <= so_payload_start o /\ 0 <= so_payload_length o /\
  so_payload_start o + so_payload_length o <= so_length o /\
  so_payload_start o <= Z.of_nat (length buf).
Proof.
  destruct d as [|d]; [discriminate|]. cbn [get_stobject_length].
  destruct (sto_header buf) as [c|[[t f] u]] eqn:Hh; [discriminate|].
  pose proof (sto_header_range _ _ _ _ Hh) as Hu.
  destruct (Z.geb_spec u (Z.of_nat (length buf))); [discriminate|].
  destruct (_ || _); [discriminate|].
  destruct (sto_leaf_length buf t u) as [c|[len u']] eqn:Hl; [discriminate|].
  pose proof (sto_leaf_length_range _ _ _ _ _ Hl) as Hr.
  assert (Hin : u' <= Z.of_nat (length buf)).
  { revert Hl. unfold sto_leaf_length.
    repeat match goal with
           | |- context [if ?a >=? ?b then _ else _] => destruct (Z.geb_spec a b)
           | |- context [if ?a >? Z.of_nat ?b then _ else _] =>
               destruct (Z.gtb_spec a (Z.of_nat b))
           | |- context [if ?c then _ else _] => destruct c
           end; intros [= <- <-] || discriminate; lia. }
  destruct (Z.gtb_spec len (-1)).
  - intros [= <-]. cbn [so_length so_payload_start so_payload_length].
    pose proof (sto_leaf_length_span _ _ _ _ _ Hl ltac:(lia)). lia.
  - destruct (_ || _); [|discriminate].
    destruct (iter_nat _ _ _) as [st|[c|r]] eqn:Hit; try discriminate.
    intros [= ->].
    pose proof (nested_loop_pos _ (get_stobject_length_pos d) buf t f u' o
                  sto_loop_bound u' ltac:(lia) Hit).
    destruct (nested_loop_shape _ _ _ _ _ _ _ _ Hit) as (_ & _ & -> & -> & _).
    lia.
Qed.

(** X3: The shape of a parsed field: it spans at least two bytes, and its
    payload lies behind the tag and inside the field; an object or array
    ends inside the buffer. *)
Theorem parsed_field_shape d buf o :
  get_stobject_length d buf = inr o ->
  2 <= so_length o /\
  1 <= so_payload_start o /\ 0 <= so_payload_length o /\
  so_payload_start o + so_payload_length o <= so_length o /\
  so_payload_start o <= Z.of_nat (length buf).
Proof.
  intros Hparse.
  destruct (parsed_shape d buf o Hparse) as (Hlen & Hstart & Hpl & Hin & Hbuf).
  repeat split; assumption.
Qed.

(** X4: A variable-length field whose one-byte length prefix is the last byte
    of the buffer is not accepted, whatever the prefix says: an empty blob
    cannot be the last field of a buffer. *)
Theorem trailing_length_prefix_rejected d buf t f u :
  sto_header buf = inr (t, f, u) ->
  t = 7 \/ t = 8 \/ t = 18 \/ t = 19 ->
  Z.of_nat (length buf) = u + 1 ->
  get_stobject_length (S d) buf = inl (-1).
Proof.
  intros Hh Ht Hlen. cbn [get_stobject_length]. rewrite Hh.
  destruct (Z.geb_spec u (Z.of_nat (length buf))); [reflexivity|].
  assert (Hty : (t <? 1) || (t >? 19) || ((t >=? 9) && (t <=? 13)) = false)
    by (destruct Ht as [->|[->|[->| ->]]]; reflexivity).
  rewrite Hty. unfold sto_leaf_length.
  assert (Hvl : (t =? 8) || (t =? 7) || (t =? 18) || (t =? 19) = true)
    by (destruct Ht as [->|[->|[->| ->]]]; reflexivity).
  rewrite Hvl.
  destruct (Z.geb_spec (u + 1) (Z.of_nat (length buf))); [reflexivity | lia].
Qed.

(** X5: sto_erase answers DOESNT_EXIST and leaves the memory alone when none of
    the first 1024 fields of the buffer has the code, also when a later
    field has it. *)
Theorem sto_erase_not_among_first_1024 memory write_ptr write_len read_ptr read_len
    field_id os :
  wf_memory memory ->
  is_u32 write_ptr -> is_u32 write_len -> is_u32 read_ptr -> is_u32 read_len ->
  write_ptr + write_len <= memory_length memory ->
  read_ptr + read_len <= memory_length memory ->
  read_len <= 16 * 1024 -> read_len <= write_len ->
  sto_fields (read_bytes memory read_ptr read_len) os ->
  Forall (fun o => sto_code o <> field_id) (take sto_loop_bound os) ->
  sto_erase memory write_ptr write_len read_ptr read_len field_id
  = (DOESNT_EXIST, memory).
Proof.
  intros Hwf Hwp Hwl Hrp Hrl Hwb Hrb Hmax Hroom Hf Hne.
  pose proof (memory_length_nonneg memory) as Hml.
  unfold sto_erase.
  rewrite !NOT_IN_BOUNDS_spec by (unfold wf_memory in *; auto with lia).
  destruct (Z.gtb_spec (write_ptr + write_len) (memory_length memory)); [lia|].
  destruct (Z.gtb_spec (read_ptr + read_len) (memory_length memory)); [lia|].
  destruct (Z.gtb_spec read_len (16 * 1024)); [lia|].
  destruct (Z.ltb_spec write_len read_len); [lia|].
  unfold sto_erase_find, sto_fields_loop.
  rewrite (fields_loop_visits _ _ _ os) by (rewrite ?drop_0; try assumption; lia).
  rewrite sto_erase_visits_none by exact Hne.
  reflexivity.
Qed.

(** X6: sto_subfield answers the place of the payload of the first field with
    the code, when that field is among the first 1024 and is not an
    array (for a buffer of less than 2^31 bytes, so that the offset fits the
    upper half of the signed result). *)
Theorem sto_subfield_finds_first memory read_ptr read_len field_id os1 o os2 :
  wf_memory memory -> is_u32 read_ptr -> is_u32 read_len ->
  read_ptr + read_len <= memory_length memory -> read_len < 2^31 ->
  sto_fields (read_bytes memory read_ptr read_len) (os1 ++ o :: os2) ->
  Forall (fun o' => sto_code o' <> field_id) os1 ->
  sto_code o = field_id -> so_type o <> 15 ->
  (length os1 < sto_loop_bound)%nat ->
  sto_subfield memory read_ptr read_len field_id
  = (sto_span os1 + so_payload_start o) * 2^32 + so_payload_length o.
Proof.
  intros Hwf Hrp Hrl Hrb Hsmall Hf Hne Hc Hty Hn.
  pose proof (memory_length_nonneg memory) as Hml.
  destruct (sto_fields_app_inv _ _ _ Hf) as [Hspan Hrest].
  inversion Hrest as [|? ? ? Hp Hlen _]; subst.
  destruct (parsed_shape _ _ _ Hp) as (H2 & Hps & Hpl & Hin & _).
  rewrite length_drop, length_read_bytes in Hlen by (unfold is_u32 in *; lia).
  rewrite length_read_bytes in Hspan by (unfold is_u32 in *; lia).
  unfold sto_subfield.
  rewrite NOT_IN_BOUNDS_spec by (unfold wf_memory in *; auto with lia).
  unfold is_u32, wf_memory in *.
  destruct (Z.gtb_spec (read_ptr + read_len) (memory_length memory)); [lia|].
  destruct (Z.ltb_spec read_len 1); [lia|].
  unfold sto_fields_loop.
  rewrite (fields_loop_visits _ _ _ (os1 ++ o :: os2))
    by (rewrite ?drop_0; try assumption; lia).
  rewrite take_app_ge by lia.
  destruct (sto_loop_bound - length os1)%nat as [|k] eqn:Hk; [lia|].
  cbn [take]. rewrite visit_all_app.
  match goal with |- context [visit_all ?v _ _ os1] => set (visit := v) end.
  assert (Hskip : forall l upto,
            Forall (fun o' => sto_code o' <> sto_code o) l ->
            visit_all visit () upto l = inl ((), upto + sto_span l)).
  { induction l as [|x l IH]; intros upto Hl.
    - cbn. do 2 f_equal. lia.
    - inversion Hl as [|? ? Hx Hl']; subst. cbn [visit_all]. unfold visit at 1.
      unfold sto_code in Hx.
      destruct (Z.eqb_spec (Z.shiftl (so_type x) 16 + so_field x) (sto_code o));
        [contradiction|].
      rewrite IH by assumption. cbn [sto_span fold_right]. fold (sto_span l).
      do 2 f_equal. lia. }
  rewrite Hskip by exact Hne. cbn [visit_all]. unfold visit at 1.
  unfold sto_code. rewrite Z.eqb_refl.
  destruct (Z.eqb_spec (so_type o) 15); [contradiction|].
  rewrite Z.add_0_l, Z.shiftl_mul_pow2 by lia.
  unfold u32. rewrite (Z.mod_small (so_payload_length o)) by lia.
  rewrite (i64_small ((sto_span os1 + so_payload_start o) * 2^32)) by lia.
  apply i64_small. lia.
Qed.

Lemma example_fields_walk :
  sto_fields (read_bytes example_sto_memory 0 8) example_fields.
Proof.
  change (sto_fields [17; 0; 1; 34; 0; 0; 0; 2] example_fields).
  unfold example_fields.
  apply sto_fields_cons; [vm_compute; reflexivity | vm_compute; discriminate |].
  change (sto_fields [34; 0; 0; 0; 2]
            [ {| so_length := 5; so_type := 2; so_field := 2;
                 so_payload_start := 1; so_payload_length := 4 |} ]).
  apply sto_fields_cons; [vm_compute; reflexivity | vm_compute; discriminate |].
  apply sto_fields_nil.
Qed.

Lemma parse_ignores_following_bytes_witness :
  get_stobject_length sto_max_depth ([115; 0] ++ [1]) = inr example_empty_blob /\
  so_length example_empty_blob <= Z.of_nat (length [115; 0]) /\
  (length [1] <= length [9; 9])%nat /\
  get_stobject_length sto_max_depth ([115; 0] ++ [9; 9]) = inr example_empty_blob.
Proof.
  assert (H1 : get_stobject_length sto_max_depth ([115; 0] ++ [1])
               = inr example_empty_blob) by (vm_compute; reflexivity).
  assert (H2 : so_length example_empty_blob <= Z.of_nat (length [115; 0]))
    by (vm_compute; discriminate).
  assert (H3 : (length [1] <= length [9; 9])%nat) by (simpl; lia).
  refine (conj H1 (conj H2 (conj H3 _))).
  apply (parse_ignores_following_bytes sto_max_depth [115; 0] [1] [9; 9]
           example_empty_blob H1 H2 H3).
Defined.

Lemma parsed_field_shape_witness :
  get_stobject_length sto_max_depth [33; 0; 0; 0; 3] = inr example_field /\
  2 <= so_length example_field /\
  1 <= so_payload_start example_field /\ 0 <= so_payload_length example_field /\
  so_payload_start example_field + so_payload_length example_field
    <= so_length example_field /\
  so_payload_start example_field <= Z.of_nat (length [33; 0; 0; 0; 3]).
Proof.
  assert (H1 : get_stobject_length sto_max_depth [33; 0; 0; 0; 3] = inr example_field)
    by (vm_compute; reflexivity).
  refine (conj H1 _).
  apply (parsed_field_shape sto_max_depth [33; 0; 0; 0; 3] example_field H1).
Defined.

Lemma trailing_length_prefix_rejected_witness :
  sto_header [115; 0] = inr (7, 3, 1) /\
  (7 = 7 \/ 7 = 8 \/ 7 = 18 \/ 7 = 19) /\
  Z.of_nat (length [115; 0]) = 1 + 1 /\
  get_stobject_length sto_max_depth [115; 0] = inl (-1).
Proof.
  assert (H1 : sto_header [115; 0] = inr (7, 3, 1)) by (vm_compute; reflexivity).
  assert (H2 : 7 = 7 \/ 7 = 8 \/ 7 = 18 \/ 7 = 19) by (left; reflexivity).
  assert (H3 : Z.of_nat (length [115; 0]) = 1 + 1) by reflexivity.
  refine (conj H1 (conj H2 (conj H3 _))).
  apply (trailing_length_prefix_rejected 10 [115; 0] 7 3 1 H1 H2 H3).
Defined.

Lemma sto_erase_not_among_first_1024_witness :
  wf_memory example_sto_memory /\
  is_u32 16 /\ is_u32 0 /\ is_u32 8 /\
  16 + 16 <= memory_length example_sto_memory /\
  0 + 8 <= memory_length example_sto_memory /\
  8 <= 16 * 1024 /\ 8 <= 16 /\
  sto_fields (read_bytes example_sto_memory 0 8) example_fields /\
  Forall (fun o => sto_code o <> 131073) (take sto_loop_bound example_fields) /\
  sto_erase example_sto_memory 16 16 0 8 131073 = (DOESNT_EXIST, example_sto_memory).
Proof.
  assert (H1 : wf_memory example_sto_memory) by (vm_compute; discriminate).
  assert (H2 : is_u32 16) by (unfold is_u32; lia).
  assert (H3 : is_u32 0) by (unfold is_u32; lia).
  assert (H4 : is_u32 8) by (unfold is_u32; lia).
  assert (H5 : 16 + 16 <= memory_length example_sto_memory) by (vm_compute; discriminate).
  assert (H6 : 0 + 8 <= memory_length example_sto_memory) by (vm_compute; discriminate).
  assert (H7 : 8 <= 16 * 1024) by lia.
  assert (H8 : 8 <= 16) by lia.
  assert (H9 : Forall (fun o => sto_code o <> 131073)
                 (take sto_loop_bound example_fields)).
  { repeat constructor; intros H; vm_compute in H; discriminate H. }
  refine (conj H1 (conj H2 (conj H3 (conj H4 (conj H5 (conj H6 (conj H7 (conj H8
            (conj example_fields_walk (conj H9 _)))))))))).
  apply (sto_erase_not_among_first_1024 example_sto_memory 16 16 0 8 131073
           example_fields H1 H2 H2 H3 H4 H5 H6 H7 H8 example_fields_walk H9).
Defined.

Lemma sto_subfield_finds_first_witness :
  wf_memory example_sto_memory /\ is_u32 0 /\ is_u32 8 /\
  0 + 8 <= memory_length example_sto_memory /\ 8 < 2^31 /\
  sto_fields (read_bytes example_sto_memory 0 8) example_fields /\
  sto_subfield example_sto_memory 0 8 131074 = (3 + 1) * 2^32 + 4.
Proof.
  assert (H1 : wf_memory example_sto_memory) by (vm_compute; discriminate).
  assert (H3 : is_u32 0) by (unfold is_u32; lia).
  assert (H4 : is_u32 8) by (unfold is_u32; lia).
  assert (H6 : 0 + 8 <= memory_length example_sto_memory) by (vm_compute; discriminate).
  assert (H7 : 8 < 2^31) by lia.
  refine (conj H1 (conj H3 (conj H4 (conj H6 (conj H7 (conj example_fields_walk _)))))).
  apply (sto_subfield_finds_first example_sto_memory 0 8 131074
           [ {| so_length := 3; so_type := 1; so_field := 1;
                so_payload_start := 1; so_payload_length := 2 |} ]
           {| so_length := 5; so_type := 2; so_field := 2;
              so_payload_start := 1; so_payload_length := 4 |} []
           H1 H3 H4 H6 H7 example_fields_walk).
  - repeat constructor; intros H; vm_compute in H; discriminate H.
  - vm_compute. reflexivity.
  - cbn. lia.
  - unfold sto_loop_bound. cbn. lia.
Defined.

Lemma sto_erase_emplace_witness :
  wf_memory example_sto_memory /\
  sto_fields (read_bytes example_sto_memory 0 8) example_fields /\
  (length example_fields < sto_loop_bound)%nat /\
  Forall (fun o => sto_code o <> 131073) example_fields /\
  get_stobject_length sto_max_depth (read_bytes example_sto_memory 8 5)
    = inr example_field /\
  so_length example_field = 5 /\ sto_code example_field = 131073 /\
  exists memory1 memory2,
    sto_emplace example_sto_memory 16 16 0 8 8 5 131073 = (8 + 5, memory1) /\
    sto_validate memory1 16 (8 + 5) = 1 /\
    sto_erase memory1 32 16 16 (8 + 5) 131073 = (8, memory2) /\
    read_bytes memory2 32 8 = read_bytes example_sto_memory 0 8.
Proof.
  assert (H1 : wf_memory example_sto_memory) by (vm_compute; discriminate).
  assert (Hn : (length example_fields < sto_loop_bound)%nat)
    by (unfold sto_loop_bound; cbn; lia).
  assert (Hne : Forall (fun o => sto_code o <> 131073) example_fields).
  { repeat constructor; intros H; vm_compute in H; discriminate H. }
  assert (HF : get_stobject_length sto_max_depth (read_bytes example_sto_memory 8 5)
               = inr example_field) by (vm_compute; reflexivity).
  assert (Hl : so_length example_field = 5) by reflexivity.
  assert (Hc : sto_code example_field = 131073) by (vm_compute; reflexivity).
  refine (conj H1 (conj example_fields_walk (conj Hn (conj Hne (conj HF
            (conj Hl (conj Hc _))))))).
  apply (sto_erase_emplace example_sto_memory 16 16 0 8 8 5 131073
           example_fields example_field 32 16);
    try assumption; try exact example_fields_walk;
    try (unfold is_u32; lia); try (vm_compute; discriminate);
    try (right; lia).
Defined.

(** ** The state cache *)

Section StateCache.

(** X7: What state_set stages can be read back in the same invocation: after a
    successful state_set, state on the same key answers the length of the
    value and writes the value. *)
Theorem state_set_then_state hookCtx memory read_ptr read_len kread_ptr kread_len
    write_ptr write_len n hookCtx1 :
  wf_memory memory ->
  is_u32 read_ptr -> is_u32 read_len -> is_u32 kread_ptr -> is_u32 kread_len ->
  is_u32 write_ptr -> is_u32 write_len ->
  state_set hookCtx memory read_ptr read_len kread_ptr kread_len = (n, hookCtx1) ->
  0 <= n ->
  write_ptr <> 0 -> write_ptr + write_len <= memory_length memory ->
  read_len <= write_len ->
  n = read_len /\
  state hookCtx1 memory write_ptr write_len kread_ptr kread_len
  = (read_len, hookCtx1,
     setBytes memory (read_bytes memory read_ptr read_len) write_ptr read_len).
Proof.
  intros Hwf Hrp Hrl Hkp Hkl Hwp Hwl Hset Hn Hwnz Hwb Hroom.
  pose proof (memory_length_nonneg memory) as Hml.
  unfold state_set in Hset.
  rewrite !NOT_IN_BOUNDS_spec in Hset by (unfold is_u32, wf_memory in *; lia).
  unfold is_u32, wf_memory in *.
  destruct (Z.gtb_spec (kread_ptr + 32) (memory_length memory));
    [injection Hset as <- _; unfold OUT_OF_BOUNDS in Hn; lia|].
  destruct (negb ((read_ptr =? 0) && (read_len =? 0))
            && (read_ptr + read_len >? memory_length memory)) eqn:Hrb;
    [injection Hset as <- _; unfold OUT_OF_BOUNDS in Hn; lia|].
  assert (Hrin : read_ptr + read_len <= memory_length memory).
  { destruct (Z.eqb_spec read_ptr 0), (Z.eqb_spec read_len 0),
      (Z.gtb_spec (read_ptr + read_len) (memory_length memory));
      cbn in Hrb; try discriminate; lia. }
  destruct (Z.gtb_spec kread_len 32);
    [injection Hset as <- _; unfold TOO_BIG in Hn; lia|].
  destruct (Z.ltb_spec kread_len 1);
    [injection Hset as <- _; unfold TOO_SMALL in Hn; lia|].
  destruct (hooks (view (hook.applyCtx hookCtx)) !! hook.account (hook.result hookCtx))
    as [sle|] eqn:Hsle;
    [|injection Hset as <- _; unfold INTERNAL_ERROR in Hn; lia].
  destruct (Z.gtb_spec read_len (sfHookStateDataMaxSize sle));
    [injection Hset as <- _; unfold TOO_BIG in Hn; lia|].
  destruct (make_state_key (read_bytes memory kread_ptr kread_len)) as [key|] eqn:Hkey;
    [|injection Hset as <- _; unfold INTERNAL_ERROR in Hn; lia].
  injection Hset as <- <-. split; [reflexivity|].
  unfold state, state_foreign.
  rewrite !NOT_IN_BOUNDS_spec by (unfold is_u32; lia).
  destruct (Z.gtb_spec (kread_ptr + kread_len) (memory_length memory)); [lia|].
  destruct (Z.gtb_spec (0 + 0) (memory_length memory)); [lia|].
  destruct (Z.gtb_spec (write_ptr + write_len) (memory_length memory)); [lia|].
  cbn [orb negb andb Z.eqb].
  destruct (Z.gtb_spec kread_len 32); [lia|].
  rewrite Hkey. cbn [hook.result hook.with_result hook.changedState hook.with_changedState].
  rewrite lookup_insert_eq. cbn [snd].
  rewrite length_read_bytes by lia. rewrite Z2Nat.id by lia.
  destruct (Z.eqb_spec write_ptr 0); [contradiction|].
  destruct (Z.gtb_spec read_len write_len); [lia|].
  unfold WRITE_WASM_MEMORY_AND_RETURN.
  rewrite WRITE_WASM_MEMORY_ok by lia.
  rewrite i64_small by lia. reflexivity.
Qed.

(** X8: A read never marks a cache entry as modified and never touches the
    ledger view: whatever state_foreign (and so state) answers, the entries
    marked modified afterwards were marked modified, with the same value,
    before. *)
Theorem state_read_marks_nothing hookCtx memory write_ptr write_len kread_ptr kread_len
    aread_ptr aread_len r hookCtx' memory' :
  state_foreign hookCtx memory write_ptr write_len kread_ptr kread_len
    aread_ptr aread_len = (r, hookCtx', memory') ->
  hook.applyCtx hookCtx' = hook.applyCtx hookCtx /\
  forall key blob,
    hook.changedState (hook.result hookCtx') !! key = Some (true, blob) ->
    hook.changedState (hook.result hookCtx) !! key = Some (true, blob).
Proof.
  unfold state_foreign.
  destruct (_ || _); [intros [= _ <- _]; auto|].
  destruct (kread_len >? 32); [intros [= _ <- _]; auto|].
  destruct (_ && _); [intros [= _ <- _]; auto|].
  destruct (make_state_key _) as [key|]; [|intros [= _ <- _]; auto].
  destruct (if negb (aread_ptr =? 0) then None
            else hook.changedState (hook.result hookCtx) !! key) as [entry|] eqn:Hc.
  - destruct (write_ptr =? 0); [intros [= _ <- _]; auto|].
    destruct (_ >? _); [intros [= _ <- _]; auto|].
    destruct (WRITE_WASM_MEMORY_AND_RETURN _ _ _ _ _) as [code m].
    intros [= _ <- _]; auto.
  - destruct (hooks _ !! _) as [sle|]; [|intros [= _ <- _]; auto].
    destruct (hook_states _ !! _) as [hs|]; [|intros [= _ <- _]; auto].
    assert (Hgoal : forall c,
              c = (if negb (aread_ptr =? 0) then hookCtx
                   else hook.with_result
                          (hook.with_changedState
                             (<[key := (false, sfHookStateData hs)]>
                                (hook.changedState (hook.result hookCtx)))
                             (hook.result hookCtx)) hookCtx) ->
              hook.applyCtx c = hook.applyCtx hookCtx /\
              forall k blob,
                hook.changedState (hook.result c) !! k = Some (true, blob) ->
                hook.changedState (hook.result hookCtx) !! k = Some (true, blob)).
    { intros c ->. destruct (negb (aread_ptr =? 0)); [auto|].
      split; [reflexivity|]. intros k blob. cbn.
      destruct (decide (k = key)) as [->|Hne].
      - rewrite lookup_insert_eq. discriminate.
      - rewrite lookup_insert_ne by congruence. auto. }
    destruct (write_ptr =? 0); [intros [= _ <- _]; apply Hgoal; reflexivity|].
    destruct (_ >? _); [intros [= _ <- _]; apply Hgoal; reflexivity|].
    destruct (WRITE_WASM_MEMORY_AND_RETURN _ _ _ _ _) as [code m].
    intros [= _ <- _]; apply Hgoal; reflexivity.
Qed.

(** X9: Keys are padded with zero bytes on the left, so a key and the same key
    behind further zero bytes name the same state entry. *)
Theorem make_state_key_leading_zeros source (zeros : nat) :
  1 <= Z.of_nat (length source) ->
  Z.of_nat zeros + Z.of_nat (length source) <= 32 ->
  make_state_key (replicate zeros 0 ++ source) = make_state_key source.
Proof.
  intros H1 H32.
  rewrite !make_state_key_Some by (rewrite ?length_app, ?length_replicate; lia).
  f_equal. rewrite length_app, length_replicate, app_assoc, <- replicate_add.
  f_equal. f_equal. lia.
Qed.

Lemma big_endian_acc l : forall a,
  fold_left (fun acc b => acc * 256 + b) l a
  = a * 256 ^ Z.of_nat (length l) + big_endian l.
Proof.
  unfold big_endian. induction l as [|b l IH]; intros a.
  - cbn. lia.
  - cbn [fold_left length]. rewrite (IH (a * 256 + b)), (IH (0 * 256 + b)).
    rewrite Nat2Z.inj_succ, Z.pow_succ_r by lia. lia.
Qed.

Lemma big_endian_cons b l :
  big_endian (b :: l) = b * 256 ^ Z.of_nat (length l) + big_endian l.
Proof. unfold big_endian at 1. cbn [fold_left]. rewrite big_endian_acc. lia. Qed.

Lemma big_endian_range l :
  Forall (fun b => 0 <= b < 256) l ->
  0 <= big_endian l < 256 ^ Z.of_nat (length l).
Proof.
  induction 1 as [|b l Hb Hl IH]; [cbn; lia|].
  rewrite big_endian_cons. cbn [length]. rewrite Nat2Z.inj_succ, Z.pow_succ_r by lia.
  assert (0 < 256 ^ Z.of_nat (length l)) by (apply Z.pow_pos_nonneg; lia). nia.
Qed.

Lemma data_as_int64_loop_value ptr : forall output,
  Forall (fun b => 0 <= b < 256) ptr -> (length ptr <= 8)%nat ->
  0 <= output -> output + big_endian ptr < 2^64 ->
  data_as_int64_loop ptr ((Z.of_nat (length ptr) - 1) * 8) output
  = output + big_endian ptr.
Proof.
  induction ptr as [|b rest IH]; intros output Hb Hlen Hout Hsum.
  - cbn. unfold big_endian. cbn. lia.
  - inversion Hb as [|? ? Hb0 Hrest]; subst.
    cbn [data_as_int64_loop length].
    pose proof (big_endian_range rest Hrest) as Hr.
    rewrite big_endian_cons in Hsum |- *.
    assert (Hshift : Z.shiftl b ((Z.of_nat (S (length rest)) - 1) * 8)
                     = b * 256 ^ Z.of_nat (length rest)).
    { rewrite Z.shiftl_mul_pow2 by lia. f_equal.
      replace ((Z.of_nat (S (length rest)) - 1) * 8) with (8 * Z.of_nat (length rest))
        by lia.
      rewrite Z.pow_mul_r by lia. reflexivity. }
    rewrite Hshift.
    set (X := b * 256 ^ Z.of_nat (length rest)) in *.
    assert (HX : 0 <= X).
    { subst X. apply Z.mul_nonneg_nonneg; [lia|]. apply Z.pow_nonneg. lia. }
    rewrite (u64_small X) by lia. rewrite u64_small by lia.
    replace ((Z.of_nat (S (length rest)) - 1) * 8 - 8)
      with ((Z.of_nat (length rest) - 1) * 8) by lia.
    cbn [length] in Hlen.
    rewrite IH by (try assumption; lia). lia.
Qed.

(** X10: data_as_int64, the form in which state answers a value when no buffer
    is given: up to eight bytes are read as one number, most significant
    byte first, and a number that does not fit 63 bits is answered with
    TOO_BIG. *)
Theorem data_as_int64_big_endian bytes :
  Forall (fun b => 0 <= b < 256) bytes -> (length bytes <= 8)%nat ->
  data_as_int64 bytes (Z.of_nat (length bytes))
  = if big_endian bytes <? 2^63 then big_endian bytes else TOO_BIG.
Proof.
  intros Hb Hlen. unfold data_as_int64.
  destruct (Z.gtb_spec (Z.of_nat (length bytes)) 8); [lia|].
  rewrite Nat2Z.id, firstn_all.
  pose proof (big_endian_range bytes Hb) as Hr.
  assert (H64 : 256 ^ Z.of_nat (length bytes) <= 2^64).
  { change (2^64) with (256^8). apply Z.pow_le_mono_r; lia. }
  rewrite data_as_int64_loop_value by (try assumption; lia).
  rewrite Z.add_0_l. change (Z.shiftl 1 63) with (2^63).
  rewrite Z.land_comm, land_pow2 by lia.
  destruct (Z.ltb_spec (big_endian bytes) (2^63)).
  - destruct (Z.testbit (big_endian bytes) 63) eqn:E.
    + apply Z.testbit_true in E; [|lia].
      rewrite Z.div_small in E by lia. discriminate E.
    + cbn [Z.eqb negb]. apply i64_small. lia.
  - destruct (Z.testbit (big_endian bytes) 63) eqn:E; [reflexivity|].
    apply Z.testbit_false in E; [|lia].
    assert (Hd : big_endian bytes / 2^63 = 1).
    { symmetry. apply (Z.div_unique _ _ 1 (big_endian bytes - 2^63)); lia. }
    rewrite Hd in E. discriminate E.
Qed.

(** X11: A key that is neither in the cache nor in the ledger: state answers
    DOESNT_EXIST and changes neither the context nor the memory. *)
Theorem state_missing_key hookCtx memory write_ptr write_len kread_ptr kread_len sle :
  wf_memory memory ->
  is_u32 write_ptr -> is_u32 write_len -> is_u32 kread_ptr -> is_u32 kread_len ->
  write_ptr + write_len <= memory_length memory ->
  kread_ptr + kread_len <= memory_length memory ->
  1 <= kread_len <= 32 ->
  hooks (view (hook.applyCtx hookCtx)) !! hook.account (hook.result hookCtx) = Some sle ->
  (forall key,
     make_state_key (read_bytes memory kread_ptr kread_len) = Some key ->
     hook.changedState (hook.result hookCtx) !! key = None /\
     hook_states (view (hook.applyCtx hookCtx))
       !! (hook.account (hook.result hookCtx), key) = None) ->
  state hookCtx memory write_ptr write_len kread_ptr kread_len
  = (DOESNT_EXIST, hookCtx, memory).
Proof.
  intros Hwf Hwp Hwl Hkp Hkl Hwb Hkb Hk Hsle Hmiss.
  pose proof (memory_length_nonneg memory) as Hml.
  unfold state, state_foreign.
  rewrite !NOT_IN_BOUNDS_spec by (unfold is_u32, wf_memory in *; lia).
  unfold is_u32, wf_memory in *.
  destruct (Z.gtb_spec (kread_ptr + kread_len) (memory_length memory)); [lia|].
  destruct (Z.gtb_spec (0 + 0) (memory_length memory)); [lia|].
  destruct (Z.gtb_spec (write_ptr + write_len) (memory_length memory)); [lia|].
  cbn [orb negb andb Z.eqb].
  destruct (Z.gtb_spec kread_len 32); [lia|].
  rewrite make_state_key_Some in Hmiss |- *
    by (rewrite length_read_bytes by lia; lia).
  destruct (Hmiss _ eq_refl) as [-> Hl]. rewrite Hsle, Hl. reflexivity.
Qed.

End StateCache.

Lemma state_set_then_state_witness :
  wf_memory example_memory_tx /\
  state_set example_hookCtx example_memory_tx 0 3 4 4 = (3, example_staged) /\
  state example_staged example_memory_tx 40 8 4 4
  = (3, example_staged, setBytes example_memory_tx [255; 0; 0] 40 3).
Proof.
  assert (H1 : wf_memory example_memory_tx) by (vm_compute; discriminate).
  assert (H2 : state_set example_hookCtx example_memory_tx 0 3 4 4
               = (3, example_staged)) by (vm_compute; reflexivity).
  refine (conj H1 (conj H2 _)).
  destruct (state_set_then_state example_hookCtx example_memory_tx 0 3 4 4 40 8 3
              example_staged) as [_ Hread];
    try assumption; try (unfold is_u32; lia); try (vm_compute; discriminate).
Defined.

Lemma state_read_marks_nothing_witness :
  state_foreign example_staged example_memory_tx 40 8 4 4 0 0
  = (3, example_staged, setBytes example_memory_tx [255; 0; 0] 40 3) /\
  hook.applyCtx example_staged = hook.applyCtx example_staged /\
  forall key blob,
    hook.changedState (hook.result example_staged) !! key = Some (true, blob) ->
    hook.changedState (hook.result example_staged) !! key = Some (true, blob).
Proof.
  assert (H1 : state_foreign example_staged example_memory_tx 40 8 4 4 0 0
               = (3, example_staged, setBytes example_memory_tx [255; 0; 0] 40 3))
    by (vm_compute; reflexivity).
  refine (conj H1 _).
  apply (state_read_marks_nothing example_staged example_memory_tx 40 8 4 4 0 0
           3 example_staged _ H1).
Defined.

Lemma make_state_key_leading_zeros_witness :
  1 <= Z.of_nat (length [7; 9]) /\
  Z.of_nat 3 + Z.of_nat (length [7; 9]) <= 32 /\
  make_state_key (replicate 3 0 ++ [7; 9]) = make_state_key [7; 9].
Proof.
  assert (H1 : 1 <= Z.of_nat (length [7; 9])) by (simpl; lia).
  assert (H2 : Z.of_nat 3 + Z.of_nat (length [7; 9]) <= 32) by (simpl; lia).
  refine (conj H1 (conj H2 _)).
  apply (make_state_key_leading_zeros [7; 9] 3 H1 H2).
Defined.

Lemma data_as_int64_big_endian_witness :
  Forall (fun b => 0 <= b < 256) [1; 2; 3] /\ (length [1; 2; 3] <= 8)%nat /\
  data_as_int64 [1; 2; 3] (Z.of_nat (length [1; 2; 3])) = 66051.
Proof.
  assert (H1 : Forall (fun b => 0 <= b < 256) [1; 2; 3]) by (repeat constructor; lia).
  assert (H2 : (length [1; 2; 3] <= 8)%nat) by (simpl; lia).
  refine (conj H1 (conj H2 _)).
  rewrite (data_as_int64_big_endian [1; 2; 3] H1 H2). reflexivity.
Defined.

Lemma state_missing_key_witness :
  wf_memory example_memory /\
  40 + 8 <= memory_length example_memory /\ 4 + 4 <= memory_length example_memory /\
  1 <= 4 <= 32 /\
  state example_hookCtx example_memory 40 8 4 4
  = (DOESNT_EXIST, example_hookCtx, example_memory).
Proof.
  assert (H1 : wf_memory example_memory) by (vm_compute; discriminate).
  assert (H2 : 40 + 8 <= memory_length example_memory) by (vm_compute; discriminate).
  assert (H3 : 4 + 4 <= memory_length example_memory) by (vm_compute; discriminate).
  assert (H4 : 1 <= 4 <= 32) by lia.
  refine (conj H1 (conj H2 (conj H3 (conj H4 _)))).
  apply (state_missing_key example_hookCtx example_memory 40 8 4 4
           {| sfHookStateDataMaxSize := 128; sfHookStateCount := 0 |});
    try assumption; try (unfold is_u32; lia).
  - vm_compute. reflexivity.
  - intros key Hkey. vm_compute in Hkey. injection Hkey as <-.
    split; vm_compute; reflexivity.
Defined.

(** ** Writing the state to the ledger *)

Section LedgerState.
Context `{Externals}.

Lemma adjustOwnerCount_hook_states v acc amount :
  hook_states (adjustOwnerCount v acc amount) = hook_states v /\
  hooks (adjustOwnerCount v acc amount) = hooks v /\
  emitted (adjustOwnerCount v acc amount) = emitted v.
Proof. unfold adjustOwnerCount. destruct (account_roots v !! acc); auto. Qed.

(** setHookState touches no state entry but the one it is given. *)
Lemma setHookState_frame hookResult v key data k' :
  k' <> (hook.account hookResult, key) ->
  hook_states (snd (setHookState hookResult v key data)) !! k' = hook_states v !! k'.
Proof.
  intros Hne. unfold setHookState.
  destruct (account_roots v !! hook.account hookResult) as [sle|]; [|reflexivity].
  destruct (hooks v !! hook.account hookResult) as [hook_sle|]; [|reflexivity].
  destruct (Z.of_nat (length data) >? sfHookStateDataMaxSize hook_sle); [reflexivity|].
  destruct (Z.of_nat (length data) =? 0).
  - destruct (hook_states v !! (hook.account hookResult, key)) as [old|]; [|reflexivity].
    destruct (negb _); [reflexivity|]. cbn [snd].
    destruct (_ <? _); cbn [hook_states with_hooks with_hook_states].
    + destruct (adjustOwnerCount_hook_states
                  (with_hook_states
                     (delete (hook.account hookResult, key) (hook_states v)) v)
                  (hook.account hookResult) (-1)) as (-> & _ & _).
      cbn. apply lookup_delete_ne. congruence.
    + apply lookup_delete_ne. congruence.
  - destruct (hook_states v !! (hook.account hookResult, key)) as [old|].
    + cbn. rewrite lookup_insert_ne by congruence. apply lookup_delete_ne. congruence.
    + destruct (_ >? _).
      * destruct (sfBalance sle <? _); [reflexivity|].
        destruct (adjustOwnerCount_hook_states v (hook.account hookResult) 1)
          as (Ha & _ & _).
        destruct (dirAdd _ _ _); cbn; rewrite ?Ha;
          rewrite ?lookup_insert_ne by congruence; reflexivity.
      * destruct (dirAdd _ _ _); cbn;
          rewrite ?lookup_insert_ne by congruence; reflexivity.
Qed.

(** X12: setHookState, when it answers tesSUCCESS: a non-empty value is in the
    ledger under the key, with the key and the account of the hook; an
    empty value leaves no entry under the key; and no other state entry has
    changed. *)
Theorem setHookState_success hookResult v key data v' :
  setHookState hookResult v key data = (tesSUCCESS, v') ->
  (data <> [] ->
   exists entry,
     hook_states v' !! (hook.account hookResult, key) = Some entry /\
     sfHookStateData entry = data /\ sfHookStateKey entry = key /\
     sfAccount entry = hook.account hookResult) /\
  (data = [] -> hook_states v' !! (hook.account hookResult, key) = None) /\
  (forall k', k' <> (hook.account hookResult, key) ->
     hook_states v' !! k' = hook_states v !! k').
Proof.
  intros Hrun.
  assert (Hframe : forall k', k' <> (hook.account hookResult, key) ->
                     hook_states v' !! k' = hook_states v !! k').
  { intros k' Hne.
    pose proof (setHookState_frame hookResult v key data k' Hne) as Hf.
    rewrite Hrun in Hf. exact Hf. }
  refine (conj _ (conj _ Hframe)); revert Hrun; unfold setHookState;
    (destruct (account_roots v !! hook.account hookResult) as [sle|];
       [|discriminate]);
    (destruct (hooks v !! hook.account hookResult) as [hook_sle|]; [|discriminate]);
    (destruct (Z.of_nat (length data) >? sfHookStateDataMaxSize hook_sle);
       [discriminate|]);
    destruct (Z.eqb_spec (Z.of_nat (length data)) 0) as [Hz|Hz].
  - intros _ Hne. destruct data; [contradiction | discriminate Hz].
  - destruct (hook_states v !! (hook.account hookResult, key)) as [old|].
    + intros [= <-] _. eexists. cbn. rewrite lookup_insert_eq. auto.
    + destruct (_ >? _).
      * destruct (sfBalance sle <? _); [discriminate|].
        destruct (dirAdd _ _ _); [|discriminate].
        intros [= <-] _. eexists. cbn. rewrite lookup_insert_eq. auto.
      * destruct (dirAdd _ _ _); [|discriminate].
        intros [= <-] _. eexists. cbn. rewrite lookup_insert_eq. auto.
  - destruct (hook_states v !! (hook.account hookResult, key)) as [old|] eqn:Hold.
    + destruct (negb _); [discriminate|].
      intros [= <-] _. cbn [hook_states with_hooks].
      destruct (_ <? _).
      * destruct (adjustOwnerCount_hook_states
                    (with_hook_states
                       (delete (hook.account hookResult, key) (hook_states v)) v)
                    (hook.account hookResult) (-1)) as (-> & _ & _).
        cbn. apply lookup_delete_eq.
      * cbn. apply lookup_delete_eq.
    + intros [= <-] _. exact Hold.
  - intros _ ->. cbn in Hz. contradiction.
Qed.

Lemma commit_state_changes_frame hookResult entries k' : forall v change_count,
  (forall key blob, (key, (true, blob)) ∈ entries ->
     k' <> (hook.account hookResult, key)) ->
  hook_states (fst (commit_state_changes hookResult entries v change_count)) !! k'
  = hook_states v !! k'.
Proof.
  induction entries as [|[key [is_modified blob]] rest IH]; intros v c Hne;
    [reflexivity|].
  cbn [commit_state_changes]. destruct is_modified.
  - pose proof (setHookState_frame hookResult v key blob k'
                  (Hne key blob ltac:(left))) as Hf.
    destruct (setHookState hookResult v key blob) as [t v1]. cbn [snd] in Hf.
    rewrite IH; [exact Hf|]. intros key' blob' Hin. apply (Hne key' blob').
    right. exact Hin.
  - apply IH. intros key' blob' Hin. apply (Hne key' blob'). right. exact Hin.
Qed.

Lemma commit_emitted_hook_states queue : forall v emission_count,
  hook_states (snd (fst (commit_emitted queue v emission_count))) = hook_states v /\
  hooks (snd (fst (commit_emitted queue v emission_count))) = hooks v /\
  account_roots (snd (fst (commit_emitted queue v emission_count))) = account_roots v.
Proof.
  induction queue as [|tpTrans rest IH]; intros v c; [auto|].
  cbn [commit_emitted].
  destruct (emitted v !! TransactionID tpTrans); [apply IH|].
  destruct (dirAppend v (TransactionID tpTrans)) as [page|]; [|auto].
  match goal with |- context [commit_emitted rest ?v' ?c'] =>
    destruct (IH v' c') as (-> & -> & ->) end.
  auto.
Qed.

Lemma commit_remove_hook_states applyCtx v :
  hook_states (commit_remove applyCtx v) = hook_states v /\
  hooks (commit_remove applyCtx v) = hooks v /\
  account_roots (commit_remove applyCtx v) = account_roots v.
Proof.
  unfold commit_remove.
  destruct (sfEmitDetails (tx applyCtx)); [|auto].
  destruct (emitted v !! TransactionID (tx applyCtx)); [|auto].
  destruct (negb _); auto.
Qed.

(** X13: commitChangesToLedger writes no state entry but those staged as
    modified in the cache of the hook: an entry of another account, or under
    a key that the cache does not hold as modified, is after the commit what
    it was before, whatever the mode and the view. *)
Theorem commit_writes_only_modified_keys hookResult applyCtx cclMode acc key :
  acc <> hook.account hookResult \/
    (forall blob, hook.changedState hookResult !! key <> Some (true, blob)) ->
  hook_states (view (snd (commitChangesToLedger hookResult applyCtx cclMode)))
    !! (acc, key)
  = hook_states (view applyCtx) !! (acc, key).
Proof.
  intros Hk. unfold commitChangesToLedger.
  destruct (cclMode =? 0); [reflexivity|].
  assert (Hst : hook_states
                  (fst (if negb (Z.land cclMode hook.cclAPPLY =? 0)
                        then commit_state_changes hookResult
                               (merge_sort entry_le
                                  (map_to_list (hook.changedState hookResult)))
                               (view applyCtx) 0
                        else (view applyCtx, 0))) !! (acc, key)
                = hook_states (view applyCtx) !! (acc, key)).
  { destruct (negb _); [|reflexivity].
    apply commit_state_changes_frame. intros key' blob Hin Heq.
    injection Heq as -> ->.
    destruct Hk as [Hacc|Hkey]; [contradiction|].
    apply (Hkey blob).
    apply elem_of_map_to_list.
    rewrite <- (merge_sort_Permutation entry_le). exact Hin. }
  destruct (if negb (Z.land cclMode hook.cclAPPLY =? 0)
            then commit_state_changes hookResult _ (view applyCtx) 0
            else (view applyCtx, 0)) as [v1 change_count].
  cbn [fst] in Hst.
  destruct (open v1); [exact Hst|].
  unfold nextHookExecutionIndex.
  match goal with
  | |- context [if negb _ then commit_emitted ?q ?v 0 else _] =>
      pose proof (commit_emitted_hook_states q v 0) as (He & _ & _);
      destruct (if negb (Z.land cclMode hook.cclAPPLY =? 0)
                then commit_emitted q v 0 else (q, v, 0)) as [[queue v3] n] eqn:E
  end.
  assert (H3 : hook_states v3 = hook_states v1).
  { destruct (negb (Z.land cclMode hook.cclAPPLY =? 0)).
    - rewrite E in He. exact He.
    - injection E as _ <- _. reflexivity. }
  cbn [snd view with_view addHookMetaData hook_states].
  destruct (negb (Z.land cclMode hook.cclREMOVE =? 0)).
  - destruct (commit_remove_hook_states applyCtx v3) as (-> & _ & _).
    rewrite H3. exact Hst.
  - rewrite H3. exact Hst.
Qed.

Lemma with_emittedTxn_same hookResult :
  hook.with_emittedTxn (hook.emittedTxn hookResult) hookResult = hookResult.
Proof. destruct hookResult; reflexivity. Qed.

Lemma commit_remove_emitted applyCtx v id e :
  emitted (commit_remove applyCtx v) !! id = Some e -> emitted v !! id = Some e.
Proof.
  unfold commit_remove.
  destruct (sfEmitDetails (tx applyCtx)); [|auto].
  destruct (emitted v !! TransactionID (tx applyCtx)); [|auto].
  destruct (negb _); [auto|]. cbn.
  intros Hl. apply lookup_delete_Some in Hl. tauto.
Qed.

(** X14: A commit whose mode lacks the apply bit (as after a rollback) writes no
    state, changes no account root and no hook entry, keeps the queue of
    emitted transactions, and adds nothing to the emitted directory. *)
Theorem commit_without_apply hookResult applyCtx cclMode hookResult' applyCtx' :
  Z.land cclMode hook.cclAPPLY = 0 ->
  commitChangesToLedger hookResult applyCtx cclMode = (hookResult', applyCtx') ->
  hookResult' = hookResult /\
  hook_states (view applyCtx') = hook_states (view applyCtx) /\
  hooks (view applyCtx') = hooks (view applyCtx) /\
  account_roots (view applyCtx') = account_roots (view applyCtx) /\
  (forall id e, emitted (view applyCtx') !! id = Some e ->
                emitted (view applyCtx) !! id = Some e).
Proof.
  intros Hmode. unfold commitChangesToLedger. rewrite Hmode. cbn [Z.eqb negb].
  destruct (cclMode =? 0); [intros [= <- <-]; auto 6|].
  destruct applyCtx as [t v l]. cbn [view].
  destruct (open v); [intros [= <- <-]; auto 6|].
  unfold nextHookExecutionIndex. rewrite with_emittedTxn_same.
  destruct (negb (Z.land cclMode hook.cclREMOVE =? 0)).
  - intros [= <- <-]. cbn [view with_view addHookMetaData hook_states hooks
                           account_roots emitted].
    match goal with |- context [commit_remove ?a ?v0] =>
      destruct (commit_remove_hook_states a v0) as (-> & -> & ->);
      pose proof (commit_remove_emitted a v0) as He
    end.
    cbn. repeat split; try reflexivity. intros id e Hl. apply (He id e Hl).
  - intros [= <- <-]. cbn. auto 6.
Qed.

Lemma commit_emitted_publishes queue : forall v emission_count,
  (forall v0 id, is_Some (dirAppend v0 id)) ->
  fst (fst (commit_emitted queue v emission_count)) = [] /\
  (forall id,
     is_Some (emitted v !! id) \/ (exists t, t ∈ queue /\ id = TransactionID t) ->
     is_Some (emitted (snd (fst (commit_emitted queue v emission_count))) !! id)).
Proof.
  intros v c Hdir. revert v c.
  induction queue as [|tpTrans rest IH]; intros v c.
  - cbn. split; [reflexivity|]. intros id [Hin|(t & Hin & _)]; [exact Hin|].
    apply elem_of_nil in Hin. contradiction.
  - cbn [commit_emitted].
    destruct (emitted v !! TransactionID tpTrans) as [old|] eqn:Hold.
    + destruct (IH v c) as [Hq Hall]. split; [exact Hq|].
      intros id [Hin|(t & Hin & ->)]; [apply Hall; left; exact Hin|].
      apply elem_of_cons in Hin as [->|Hin].
      * apply Hall. left. rewrite Hold. eauto.
      * apply Hall. right. eauto.
    + destruct (Hdir v (TransactionID tpTrans)) as [page ->].
      match goal with |- context [commit_emitted rest ?v' ?c'] =>
        destruct (IH v' c') as [Hq Hall] end.
      split; [exact Hq|].
      intros id [Hin|(t & Hin & ->)].
      * apply Hall. left. cbn.
        destruct (decide (id = TransactionID tpTrans)) as [->|Hne].
        -- rewrite lookup_insert_eq. eauto.
        -- rewrite lookup_insert_ne by congruence. exact Hin.
      * apply elem_of_cons in Hin as [->|Hin].
        -- apply Hall. left. cbn. rewrite lookup_insert_eq. eauto.
        -- apply Hall. right. eauto.
Qed.

(** X15: A commit with the apply bit on a closed view, when the emitted
    directory never refuses an entry: the queue of emitted transactions is
    emptied, and every transaction that was in it is in the emitted
    directory afterwards, unless it is the originating transaction itself
    (whose entry the remove bit erases). *)
Theorem commit_publishes_emitted hookResult applyCtx cclMode hookResult' applyCtx' :
  (forall v id, is_Some (dirAppend v id)) ->
  Z.land cclMode hook.cclAPPLY <> 0 ->
  open (view applyCtx) = false ->
  commitChangesToLedger hookResult applyCtx cclMode = (hookResult', applyCtx') ->
  hook.emittedTxn hookResult' = [] /\
  (forall stpTrans,
     stpTrans ∈ hook.emittedTxn hookResult ->
     TransactionID stpTrans <> TransactionID (tx applyCtx) ->
     is_Some (emitted (view applyCtx') !! TransactionID stpTrans)).
Proof.
  intros Hdir Hmode Hopen. unfold commitChangesToLedger.
  destruct (Z.eqb_spec cclMode 0) as [->|_]; [contradiction Hmode; reflexivity|].
  destruct (Z.eqb_spec (Z.land cclMode hook.cclAPPLY) 0) as [|_]; [contradiction|].
  cbn [negb].
  pose proof (commit_state_changes_metadata hookResult
                (merge_sort entry_le (map_to_list (hook.changedState hookResult)))
                (view applyCtx) 0) as (Ho & _ & _).
  destruct (commit_state_changes hookResult _ (view applyCtx) 0) as [v1 n1].
  cbn [fst] in Ho. rewrite Ho, Hopen.
  unfold nextHookExecutionIndex.
  match goal with |- context [commit_emitted ?q ?v 0] =>
    destruct (commit_emitted_publishes q v 0 Hdir) as [Hq Hall];
    destruct (commit_emitted q v 0) as [[queue v3] n3] end.
  cbn [fst snd] in Hq, Hall. subst queue.
  intros [= <- <-]. split; [reflexivity|].
  intros stpTrans Hin Hne.
  cbn [view with_view addHookMetaData emitted].
  assert (H3 : is_Some (emitted v3 !! TransactionID stpTrans)).
  { apply Hall. right. eauto. }
  destruct (negb (Z.land cclMode hook.cclREMOVE =? 0)); [|exact H3].
  unfold commit_remove.
  destruct (sfEmitDetails (tx applyCtx)); [|exact H3].
  destruct (emitted v3 !! TransactionID (tx applyCtx)); [|exact H3].
  destruct (negb _); [exact H3|]. cbn.
  rewrite lookup_delete_ne by congruence. exact H3.
Qed.

End LedgerState.

Lemma setHookState_success_witness :
  @setHookState example_externals example_result example_view (replicate 32 0) [1; 2; 3]
  = (tesSUCCESS,
     snd (@setHookState example_externals example_result example_view
            (replicate 32 0) [1; 2; 3])) /\
  [1; 2; 3] <> ([] : list Z) /\
  exists entry,
    hook_states
      (snd (@setHookState example_externals example_result example_view
              (replicate 32 0) [1; 2; 3])) !! (example_account, replicate 32 0)
    = Some entry /\
    sfHookStateData entry = [1; 2; 3].
Proof.
  assert (H1 : @setHookState example_externals example_result example_view
                 (replicate 32 0) [1; 2; 3]
               = (tesSUCCESS,
                  snd (@setHookState example_externals example_result example_view
                         (replicate 32 0) [1; 2; 3])))
    by (vm_compute; reflexivity).
  assert (H2 : [1; 2; 3] <> ([] : list Z)) by discriminate.
  refine (conj H1 (conj H2 _)).
  destruct (@setHookState_success example_externals example_result example_view
              (replicate 32 0) [1; 2; 3] _ H1) as (Hd & _ & _).
  destruct (Hd H2) as (entry & He & Hdata & _).
  exists entry. split; [exact He | exact Hdata].
Defined.

Lemma commit_writes_only_modified_keys_witness :
  (example_account <> hook.account example_result \/
   (forall blob,
      hook.changedState example_result !! replicate 32 1 <> Some (true, blob))) /\
  hook_states
    (view (snd (@commitChangesToLedger example_externals example_result
                  (hook.applyCtx example_hookCtx) 3)))
    !! (example_account, replicate 32 1)
  = hook_states (view (hook.applyCtx example_hookCtx))
      !! (example_account, replicate 32 1).
Proof.
  assert (H1 : example_account <> hook.account example_result \/
               (forall blob,
                  hook.changedState example_result !! replicate 32 1
                  <> Some (true, blob))).
  { right. intros blob Hl. vm_compute in Hl. discriminate Hl. }
  split; [exact H1|].
  apply (@commit_writes_only_modified_keys example_externals example_result
           (hook.applyCtx example_hookCtx) 3 example_account (replicate 32 1) H1).
Defined.

Lemma commit_without_apply_witness :
  Z.land 2 hook.cclAPPLY = 0 /\
  hook_states
    (view (snd (@commitChangesToLedger example_externals example_result
                  (hook.applyCtx example_hookCtx) 2)))
  = hook_states (view (hook.applyCtx example_hookCtx)).
Proof.
  assert (H1 : Z.land 2 hook.cclAPPLY = 0) by reflexivity.
  split; [exact H1|].
  destruct (@commit_without_apply example_externals example_result
              (hook.applyCtx example_hookCtx) 2
              (fst (@commitChangesToLedger example_externals example_result
                      (hook.applyCtx example_hookCtx) 2))
              (snd (@commitChangesToLedger example_externals example_result
                      (hook.applyCtx example_hookCtx) 2))
              H1 (surjective_pairing _)) as (_ & Hs & _).
  exact Hs.
Defined.

Lemma commit_publishes_emitted_witness :
  (forall v id, is_Some (@dirAppend example_externals v id)) /\
  Z.land 3 hook.cclAPPLY <> 0 /\
  open (view (hook.applyCtx example_hookCtx)) = false /\
  example_child (255 * 2^32) ∈
    hook.emittedTxn
      (hook.result (snd (@emit example_externals example_ready example_memory_tx 0 8))) /\
  TransactionID (example_child (255 * 2^32))
    <> TransactionID (tx (hook.applyCtx example_hookCtx)) /\
  is_Some
    (emitted
       (view (snd (@commitChangesToLedger example_externals
                     (hook.result
                        (snd (@emit example_externals example_ready
                                example_memory_tx 0 8)))
                     (hook.applyCtx example_hookCtx) 3)))
       !! TransactionID (example_child (255 * 2^32))).
Proof.
  assert (H1 : forall v id, is_Some (@dirAppend example_externals v id))
    by (intros v id; cbn; eauto).
  assert (H2 : Z.land 3 hook.cclAPPLY <> 0) by (intros Hz; vm_compute in Hz; discriminate Hz).
  assert (H3 : open (view (hook.applyCtx example_hookCtx)) = false) by reflexivity.
  assert (H4 : example_child (255 * 2^32) ∈
                 hook.emittedTxn
                   (hook.result
                      (snd (@emit example_externals example_ready example_memory_tx 0 8)))).
  { vm_compute. left. }
  assert (H5 : TransactionID (example_child (255 * 2^32))
               <> TransactionID (tx (hook.applyCtx example_hookCtx)))
    by (intros Hz; vm_compute in Hz; discriminate Hz).
  refine (conj H1 (conj H2 (conj H3 (conj H4 (conj H5 _))))).
  destruct (@commit_publishes_emitted example_externals
              (hook.result
                 (snd (@emit example_externals example_ready example_memory_tx 0 8)))
              (hook.applyCtx example_hookCtx) 3
              (fst (@commitChangesToLedger example_externals
                      (hook.result
                         (snd (@emit example_externals example_ready
                                 example_memory_tx 0 8)))
                      (hook.applyCtx example_hookCtx) 3))
              (snd (@commitChangesToLedger example_externals
                      (hook.result
                         (snd (@emit example_externals example_ready
                                 example_memory_tx 0 8)))
                      (hook.applyCtx example_hookCtx) 3))
              H1 H2 H3 (surjective_pairing _)) as (_ & Hall).
  exact (Hall (example_child (255 * 2^32)) H4 H5).
Defined.

(** ** Fields of a float *)

Section FloatFields.
Import hook_float.

Lemma invalid_float_pack s e m :
  0 <= s < 2 -> minExponent <= e <= maxExponent -> minMantissa <= m <= maxMantissa ->
  invalid_float (pack s (e + 97) m) = false.
Proof.
  intros Hs He Hm. destruct (pack_fields s e m Hs Hm He) as (Hr & Hgm & Hge & _).
  unfold invalid_float.
  destruct (Z.ltb_spec (pack s (e + 97) m) 0); [lia|].
  destruct (Z.eqb_spec (pack s (e + 97) m) 0); [lia|]. cbn [negb].
  rewrite Hgm, Hge.
  unfold minExponent, maxExponent, minMantissa, maxMantissa in *.
  rewrite i64_small by lia.
  destruct (Z.ltb_spec m 1000000000000000); [lia|].
  destruct (Z.gtb_spec m 9999999999999999); [lia|].
  destruct (Z.gtb_spec e 80); [lia|].
  destruct (Z.ltb_spec e (-96)); [lia|]. reflexivity.
Qed.

Lemma float_getters_pack s e m :
  0 <= s < 2 -> minExponent <= e <= maxExponent -> minMantissa <= m <= maxMantissa ->
  float_sign (pack s (e + 97) m) = 1 - s /\
  float_exponent (pack s (e + 97) m) = e /\
  float_mantissa (pack s (e + 97) m) = m.
Proof.
  intros Hs He Hm. destruct (pack_fields s e m Hs Hm He) as (Hr & Hgm & Hge & Hneg).
  unfold float_sign, float_exponent, float_mantissa.
  rewrite invalid_float_pack by assumption.
  destruct (Z.eqb_spec (pack s (e + 97) m) 0); [lia|].
  rewrite Hgm, Hge, Hneg.
  unfold minMantissa, maxMantissa in *.
  rewrite i64_small by lia.
  repeat split. destruct (Z.eqb_spec s 0); lia.
Qed.

Lemma invert_sign_pack s e m :
  0 <= s < 2 -> 0 <= e < 2^8 -> 0 <= m < 2^54 ->
  invert_sign (pack s e m) = pack (1 - s) e m.
Proof.
  intros Hs He Hm. unfold invert_sign.
  pose proof (pack_range s e m Hs He Hm) as Hr.
  rewrite u64_small by lia. rewrite lxor_sign_bit, pack_sign by lia.
  destruct (Z.eqb_spec s 0); unfold pack in *; rewrite i64_small; lia.
Qed.

(** X16: float_negate flips the sign and nothing else, and negating twice gives
    the float back. *)
Theorem float_negate_involution f :
  is_i64 f -> invalid_float f = false -> f <> 0 ->
  float_sign (float_negate f) = 1 - float_sign f /\
  float_exponent (float_negate f) = float_exponent f /\
  float_mantissa (float_negate f) = float_mantissa f /\
  float_negate (float_negate f) = f.
Proof.
  intros Hf Hv Hnz.
  destruct (valid_float_unpack f Hf Hv Hnz) as (s & e & m & Hs & He & Hm & ->).
  assert (Hneg : forall s', 0 <= s' < 2 ->
            float_negate (pack s' (e + 97) m) = pack (1 - s') (e + 97) m).
  { intros s' Hs'. unfold float_negate.
    destruct (pack_fields s' e m Hs' Hm He) as (Hr & _).
    destruct (Z.eqb_spec (pack s' (e + 97) m) 0); [lia|].
    rewrite invalid_float_pack by assumption.
    apply invert_sign_pack;
      unfold minExponent, maxExponent, minMantissa, maxMantissa in *; lia. }
  rewrite (Hneg s Hs).
  destruct (float_getters_pack s e m Hs He Hm) as (-> & -> & ->).
  destruct (float_getters_pack (1 - s) e m ltac:(lia) He Hm) as (-> & -> & ->).
  rewrite (Hneg (1 - s)) by lia.
  repeat split; try lia. f_equal. lia.
Qed.

(** X17: Each setter changes its own field and no other: on a valid float that
    is not zero, float_exponent_set, float_mantissa_set and float_sign_set
    with an exponent and a mantissa in the canonical ranges give a valid
    float whose three fields are the new one and the two old ones. *)
Theorem float_setters_change_one_field f e m negative :
  is_i64 f -> invalid_float f = false -> f <> 0 ->
  minExponent <= e <= maxExponent -> minMantissa <= m <= maxMantissa ->
  (float_exponent (float_exponent_set f e) = e /\
   float_mantissa (float_exponent_set f e) = float_mantissa f /\
   float_sign (float_exponent_set f e) = float_sign f) /\
  (float_mantissa (float_mantissa_set f m) = m /\
   float_exponent (float_mantissa_set f m) = float_exponent f /\
   float_sign (float_mantissa_set f m) = float_sign f) /\
  (float_sign (float_sign_set f negative) = (if negative =? 0 then 0 else 1) /\
   float_exponent (float_sign_set f negative) = float_exponent f /\
   float_mantissa (float_sign_set f negative) = float_mantissa f).
Proof.
  intros Hf Hv Hnz He Hm.
  destruct (valid_float_unpack f Hf Hv Hnz) as (s & e0 & m0 & Hs & He0 & Hm0 & ->).
  destruct (pack_fields s e0 m0 Hs Hm0 He0) as (Hr & _).
  destruct (float_getters_pack s e0 m0 Hs He0 Hm0) as (-> & -> & ->).
  unfold float_exponent_set, float_mantissa_set, float_sign_set.
  rewrite Hv.
  destruct (Z.eqb_spec (pack s (e0 + 97) m0) 0); [lia|].
  destruct (Z.eqb_spec m 0);
    [unfold minMantissa in *; lia|].
  rewrite set_exponent_pack
    by (unfold minExponent, maxExponent, minMantissa, maxMantissa in *; lia).
  rewrite (u64_small m) by (unfold minMantissa, maxMantissa in *; lia).
  rewrite set_mantissa_pack
    by (unfold minExponent, maxExponent, minMantissa, maxMantissa in *; lia).
  rewrite set_sign_pack
    by (unfold minExponent, maxExponent, minMantissa, maxMantissa in *; lia).
  destruct (float_getters_pack s e m0 Hs He Hm0) as (-> & -> & ->).
  destruct (float_getters_pack s e0 m Hs He0 Hm) as (-> & -> & ->).
  destruct (float_getters_pack (if negb (negative =? 0) then 0 else 1) e0 m0)
    as (-> & -> & ->); try assumption.
  { destruct (negb (negative =? 0)); lia. }
  repeat split. destruct (negative =? 0); reflexivity.
Qed.

End FloatFields.

(** ** Normalisation keeps the value *)

Section FloatValue.
Import hook_float.

Lemma normalize_up_value m0 e0 r :
  0 < m0 -> - 2^31 < e0 < 2^31 ->
  loop loop_bound normalize_up (m0, e0) = Some r ->
  match r with
  | inl code => code = INVALID_FLOAT
  | inr (mant, exp) =>
      minMantissa <= mant /\ exp <= e0 /\ mant = m0 * 10 ^ (e0 - exp) /\
      (exp = e0 \/ mant <= maxMantissa) /\ (minExponent <= exp \/ exp = e0)
  end.
Proof.
  intros Hm0 He0 Hloop.
  refine (loop_inv normalize_up
            (fun st => 0 < fst st /\ snd st <= e0 /\
                       fst st = m0 * 10 ^ (e0 - snd st) /\
                       (minExponent <= snd st \/ snd st = e0) /\
                       (snd st = e0 \/ fst st <= maxMantissa))
            (fun r => match r with
                      | inl code => code = INVALID_FLOAT
                      | inr (mant, exp) =>
                          minMantissa <= mant /\ exp <= e0 /\
                          mant = m0 * 10 ^ (e0 - exp) /\
                          (exp = e0 \/ mant <= maxMantissa) /\
                          (minExponent <= exp \/ exp = e0)
                      end) _ loop_bound (m0, e0) r _ Hloop).
  - intros [mant exp] (Hpos & Hle & Hval & Hexp & Hmax). cbn [fst snd] in *.
    unfold normalize_up, minMantissa, maxMantissa, minExponent in *.
    destruct (Z.ltb_spec mant 1000000000000000) as [Hlt|Hge].
    + rewrite (i32_small (exp - 1)) by lia.
      destruct (Z.ltb_spec (exp - 1) (-96)); [reflexivity|].
      cbn [fst snd]. rewrite i64_small by lia.
      repeat split; try lia.
      rewrite Hval. replace (e0 - (exp - 1)) with (Z.succ (e0 - exp)) by lia.
      rewrite Z.pow_succ_r by lia. lia.
    + repeat split; try lia.
  - cbn [fst snd]. rewrite Z.sub_diag, Z.pow_0_r. lia.
Qed.

Lemma normalize_down_value m1 e1 r :
  minMantissa <= m1 -> - 2^31 <= e1 < 2^31 - 1 ->
  loop loop_bound normalize_down (m1, e1) = Some r ->
  match r with
  | inl code => code = INVALID_FLOAT
  | inr (mant, exp) =>
      minMantissa <= mant <= maxMantissa /\ e1 <= exp /\
      mant = m1 / 10 ^ (exp - e1) /\ (exp = e1 \/ maxMantissa < m1)
  end.
Proof.
  intros Hm1 He1 Hloop.
  refine (loop_inv normalize_down
            (fun st => minMantissa <= fst st /\ e1 <= snd st /\
                       fst st = m1 / 10 ^ (snd st - e1) /\
                       (snd st <= maxExponent \/ snd st = e1) /\
                       (snd st = e1 \/ maxMantissa < m1))
            (fun r => match r with
                      | inl code => code = INVALID_FLOAT
                      | inr (mant, exp) =>
                          minMantissa <= mant <= maxMantissa /\ e1 <= exp /\
                          mant = m1 / 10 ^ (exp - e1) /\
                          (exp = e1 \/ maxMantissa < m1)
                      end) _ loop_bound (m1, e1) r _ Hloop).
  - intros [mant exp] (Hmin & Hle & Hval & Hexp & Hit). cbn [fst snd] in *.
    unfold normalize_down, minMantissa, maxMantissa, maxExponent in *.
    destruct (Z.gtb_spec mant 9999999999999999) as [Hgt|Hle'].
    + rewrite (i32_small (exp + 1)) by lia.
      destruct (Z.gtb_spec (exp + 1) 80); [reflexivity|].
      cbn [fst snd]. rewrite Z.quot_div_nonneg by lia.
      assert (Hq : mant / 10 = m1 / 10 ^ (exp + 1 - e1)).
      { rewrite Hval. replace (exp + 1 - e1) with (Z.succ (exp - e1)) by lia.
        rewrite Z.pow_succ_r by lia.
        rewrite Z.div_div by (try apply Z.pow_pos_nonneg; lia).
        f_equal. lia. }
      repeat split; try lia.
      * apply Z.div_le_lower_bound; lia.
      * right. destruct Hit as [->|Hit]; [|exact Hit].
        rewrite Z.sub_diag, Z.pow_0_r, Z.div_1_r in Hval. lia.
    + repeat split; try lia.
  - cbn [fst snd]. rewrite Z.sub_diag, Z.pow_0_r, Z.div_1_r. lia.
Qed.

End FloatValue.

(** X18: float_set keeps the value: it always returns, and when it returns a
    float for a positive mantissa, the exponent was lowered and the mantissa
    multiplied by the power of ten that makes up for it (so the value is
    exactly the one given), or the exponent was raised and the mantissa
    divided, rounding down. *)
Theorem float_set_keeps_value e m :
  0 < m < 2^63 -> - 2^31 < e < 2^31 - 1 ->
  exists r,
    float_set e m = Some r /\
    (0 < r ->
     hook_float.minMantissa <= hook_float.get_mantissa r <= hook_float.maxMantissa /\
     hook_float.minExponent <= hook_float.get_exponent r <= hook_float.maxExponent /\
     hook_float.is_negative r = false /\
     ((hook_float.get_exponent r <= e /\
       hook_float.get_mantissa r = m * 10 ^ (e - hook_float.get_exponent r)) \/
      (e <= hook_float.get_exponent r /\
       hook_float.get_mantissa r = m / 10 ^ (hook_float.get_exponent r - e)))).
Proof.
  intros Hm He.
  destruct (host_float_set_total e m) as [r Hr]. exists r. split; [exact Hr|].
  revert Hr. unfold float_set.
  destruct (Z.eqb_spec m 0); [lia|].
  unfold hook_float.normalize.
  destruct (loop hook_float.loop_bound hook_float.normalize_up (m, e)) as [[c|[m1 e1]]|] eqn:Eup;
    [| |discriminate].
  - apply normalize_up_value in Eup; [|lia|lia]. subst c.
    intros [= <-]. unfold INVALID_FLOAT. lia.
  - apply normalize_up_value in Eup; [|lia|lia].
    destruct Eup as (Hmin1 & Hle1 & Hval1 & Hcase1 & Hlow1).
    unfold hook_float.minExponent in Hlow1.
    destruct (loop hook_float.loop_bound hook_float.normalize_down (m1, e1))
      as [[c|[m2 e2]]|] eqn:Edown;
      [| |discriminate].
    + apply normalize_down_value in Edown; [|lia|lia]. subst c.
      intros [= <-]. unfold INVALID_FLOAT. lia.
    + apply normalize_down_value in Edown; [|lia|lia].
      destruct Edown as (Hm2 & Hle2 & Hval2 & Hcase2).
      intros [= <-] Hpos.
      assert (Hexp : hook_float.minExponent <= e2 <= hook_float.maxExponent).
      { revert Hpos. unfold hook_float.make_float.
        unfold hook_float.minMantissa, hook_float.maxMantissa in Hm2.
        destruct (Z.eqb_spec m2 0); [lia|].
        destruct (Z.gtb_spec m2 hook_float.maxMantissa); [unfold hook_float.maxMantissa in *; lia|].
        destruct (Z.gtb_spec e2 hook_float.maxExponent);
          [unfold EXPONENT_OVERSIZED; lia|].
        destruct (Z.ltb_spec e2 hook_float.minExponent);
          [unfold EXPONENT_UNDERSIZED; lia|]. lia. }
      rewrite make_float_pack by (try assumption; unfold hook_float.minMantissa, hook_float.maxMantissa in *; lia).
      destruct (Z.ltb_spec m2 0); [unfold hook_float.minMantissa in *; lia|].
      rewrite Z.abs_eq by (unfold hook_float.minMantissa in *; lia).
      destruct (pack_fields 1 e2 m2 ltac:(lia) Hm2 Hexp) as (_ & -> & -> & ->).
      split; [exact Hm2|]. split; [exact Hexp|]. split; [reflexivity|].
      destruct Hcase2 as [->|Hbig].
      * left. rewrite Z.sub_diag, Z.pow_0_r, Z.div_1_r in Hval2. subst m2.
        split; [exact Hle1 | exact Hval1].
      * right. destruct Hcase1 as [->|Hsmall]; [|lia].
        rewrite Z.sub_diag, Z.pow_0_r, Z.mul_1_r in Hval1. subst m1.
        split; [exact Hle2 | exact Hval2].
Qed.



(** ** Wide multiplication *)

(** X19: umul64wide gives the full product: for two 64-bit numbers, hi and lo
    are 64-bit numbers with hi * 2^64 + lo = a * b. *)
Theorem umul64wide_product a b :
  0 <= a < 2^64 -> 0 <= b < 2^64 ->
  0 <= fst (umul64wide a b) < 2^64 /\ 0 <= snd (umul64wide a b) < 2^64 /\
  fst (umul64wide a b) * 2^64 + snd (umul64wide a b) = a * b.
Proof.
  intros Ha Hb. unfold umul64wide. cbn [fst snd].
  rewrite !Z.shiftr_div_pow2, !Z.shiftl_mul_pow2 by lia.
  unfold u32.
  pose proof (Z.div_mod a (2^32) ltac:(lia)) as Hda.
  pose proof (Z.div_mod b (2^32) ltac:(lia)) as Hdb.
  pose proof (Z.mod_pos_bound a (2^32) ltac:(lia)) as Hal.
  pose proof (Z.mod_pos_bound b (2^32) ltac:(lia)) as Hbl.
  assert (Hah : 0 <= a / 2^32 < 2^32)
    by (split; [apply Z.div_pos; lia | apply Z.div_lt_upper_bound; lia]).
  assert (Hbh : 0 <= b / 2^32 < 2^32)
    by (split; [apply Z.div_pos; lia | apply Z.div_lt_upper_bound; lia]).
  set (al := a mod 2^32) in *. set (ah := a / 2^32) in *.
  set (bl := b mod 2^32) in *. set (bh := b / 2^32) in *.
  assert (Hab : a * b = ah * bh * 2^64 + (al * bh + ah * bl) * 2^32 + al * bl)
    by (rewrite Hda, Hdb; ring).
  assert (H0 : 0 <= al * bl <= (2^32 - 1) * (2^32 - 1)) by nia.
  assert (H1 : 0 <= al * bh <= (2^32 - 1) * (2^32 - 1)) by nia.
  assert (H2 : 0 <= ah * bl <= (2^32 - 1) * (2^32 - 1)) by nia.
  assert (H3 : 0 <= ah * bh <= (2^32 - 1) * (2^32 - 1)) by nia.
  rewrite (u64_small (al * bl)), (u64_small (al * bh)), (u64_small (ah * bl)),
    (u64_small (ah * bh)) by lia.
  set (p0 := al * bl) in *. set (p1 := al * bh) in *.
  set (p2 := ah * bl) in *. set (p3 := ah * bh) in *.
  clearbody p0 p1 p2 p3 al ah bl bh.
  unfold u64.
  rewrite Hab. clear Hab Hda Hdb.
  Z.div_mod_to_equations. lia.
Qed.

(** ** float_int *)

Lemma i32_le x : - 2^31 <= x -> i32 x <= x.
Proof.
  intros Hx. unfold i32.
  pose proof (Z.mod_le (x + 2^31) (2^32) ltac:(lia) ltac:(lia)). lia.
Qed.

Lemma i32_ge x : x < 2^31 -> x <= i32 x.
Proof.
  intros Hx. destruct (Z.le_gt_cases (- 2^31) x) as [Hlo|Hlo].
  - rewrite i32_small; lia.
  - pose proof (i32_range x). lia.
Qed.

Lemma i64_u64 x : i64 (u64 x) = i64 x.
Proof. unfold i64, u64. rewrite Z.add_mod_idemp_l by lia. reflexivity. Qed.

Lemma u64_i64 x : u64 (i64 x) = u64 x.
Proof.
  unfold i64, u64.
  rewrite <- Zminus_mod_idemp_l, Z.mod_mod by lia.
  rewrite Zminus_mod_idemp_l. f_equal. lia.
Qed.

Lemma float_int_up_value m e :
  0 <= m < 2^64 -> - 2^31 <= e <= 2^31 - 1 ->
  exists man1 exp1,
    loop hook_float.loop_bound float_int_up (m, e) = Some (man1, exp1) /\
    exp1 = Z.min e (-6) /\ man1 = u64 (m * 10 ^ (e - exp1)).
Proof.
  intros Hm He.
  destruct (loop_total float_int_up (fun st => Z.max 0 (snd st + 7))
              hook_float.loop_bound) with (s := (m, e)) as [[man1 exp1] Hloop].
  - intros [man exp] s'. unfold float_int_up. cbn [snd].
    destruct (Z.gtb_spec exp (-6)); [|discriminate].
    intros [= <-]. cbn [snd].
    pose proof (i32_le (exp - 1) ltac:(lia)). pose proof (i32_range (exp - 1)). lia.
  - cbn [snd]. unfold hook_float.loop_bound. lia.
  - exists man1, exp1. split; [exact Hloop|].
    refine (loop_inv float_int_up
              (fun st => snd st <= e /\ (-6 <= snd st \/ snd st = e) /\
                         fst st = u64 (m * 10 ^ (e - snd st)))
              (fun st => snd st = Z.min e (-6) /\
                         fst st = u64 (m * 10 ^ (e - snd st)))
              _ hook_float.loop_bound (m, e) (man1, exp1) _ Hloop).
    + intros [man exp] (Hle & Hlow & Hval). cbn [fst snd] in *.
      unfold float_int_up.
      destruct (Z.gtb_spec exp (-6)).
      * cbn [fst snd]. rewrite i32_small by lia.
        repeat split; try lia.
        rewrite Hval. unfold u64. rewrite Z.mul_mod_idemp_l by lia.
        f_equal. replace (e - (exp - 1)) with (Z.succ (e - exp)) by lia.
        rewrite Z.pow_succ_r by lia. lia.
      * cbn [fst snd]. split; [lia | exact Hval].
    + cbn [fst snd]. rewrite Z.sub_diag, Z.pow_0_r, Z.mul_1_r.
      rewrite u64_small by lia. lia.
Qed.

Lemma float_int_down_value m e :
  - 2^31 <= e <= -6 ->
  exists man1,
    loop hook_float.loop_bound float_int_down (m, e) = Some (man1, -6) /\
    man1 = m / 10 ^ (-6 - e).
Proof.
  intros He.
  destruct (loop_total float_int_down (fun st => Z.max 0 (-5 - snd st))
              hook_float.loop_bound) with (s := (m, e)) as [[man1 exp1] Hloop].
  - intros [man exp] s'. unfold float_int_down. cbn [snd].
    destruct (Z.ltb_spec exp (-6)); [|discriminate].
    intros [= <-]. cbn [snd].
    pose proof (i32_ge (exp + 1) ltac:(lia)). lia.
  - cbn [snd]. unfold hook_float.loop_bound. lia.
  - assert (Hpost : exp1 = -6 /\ man1 = m / 10 ^ (-6 - e)).
    { refine (loop_inv float_int_down
                (fun st => e <= snd st <= -6 /\ fst st = m / 10 ^ (snd st - e))
                (fun st => snd st = -6 /\ fst st = m / 10 ^ (-6 - e))
                _ hook_float.loop_bound (m, e) (man1, exp1) _ Hloop).
      - intros [man exp] (Hle & Hval). cbn [fst snd] in *.
        unfold float_int_down.
        destruct (Z.ltb_spec exp (-6)).
        + cbn [fst snd]. rewrite i32_small by lia.
          split; [lia|].
          rewrite Hval. replace (exp + 1 - e) with (Z.succ (exp - e)) by lia.
          rewrite Z.pow_succ_r by lia.
          rewrite Z.div_div by (try apply Z.pow_pos_nonneg; lia).
          f_equal. lia.
        + cbn [fst snd]. assert (exp = -6) as -> by lia. auto.
      - cbn [fst snd]. rewrite Z.sub_diag, Z.pow_0_r, Z.div_1_r. lia. }
    destruct Hpost as [-> ->]. exists (m / 10 ^ (-6 - e)). auto.
Qed.

(** X20: float_int looks at neither decimal_places nor the range of its result:
    for a valid float that is not zero, and is positive or asked for with
    absolute set, it returns the value in millionths: the mantissa divided
    by 10^(-6 - exponent), rounded down, when the exponent is below -6, and
    the mantissa times 10^(exponent + 6), wrapped to 64 bits, otherwise. *)
Theorem float_int_millionths f decimal_places absolute :
  is_i64 f -> invalid_float f = false -> f <> 0 ->
  float_sign f = 0 \/ absolute <> 0 ->
  float_int f decimal_places absolute
  = Some (if float_exponent f <? -6
          then float_mantissa f / 10 ^ (-6 - float_exponent f)
          else i64 (float_mantissa f * 10 ^ (float_exponent f + 6))).
Proof.
  intros Hf Hv Hnz Hsign.
  destruct (valid_float_unpack f Hf Hv Hnz) as (s & e & m & Hs & He & Hm & ->).
  destruct (pack_fields s e m Hs Hm He) as (Hr & Hgm & Hge & Hneg).
  destruct (float_getters_pack s e m Hs He Hm) as (Hfs & -> & ->).
  rewrite Hfs in Hsign.
  unfold float_int. rewrite Hv.
  destruct (Z.eqb_spec (pack s (e + 97) m) 0); [lia|].
  rewrite Hgm, Hge, Hneg.
  assert (Hgo : (s =? 0) && (absolute =? 0) = false).
  { destruct (Z.eqb_spec s 0); [|reflexivity].
    destruct (Z.eqb_spec absolute 0); [lia | reflexivity]. }
  rewrite Hgo.
  unfold hook_float.minExponent, hook_float.maxExponent,
    hook_float.minMantissa, hook_float.maxMantissa in *.
  destruct (float_int_up_value m e ltac:(lia) ltac:(lia))
    as (man1 & exp1 & -> & Hexp1 & Hman1).
  destruct (Z.ltb_spec e (-6)) as [Hlow|Hhigh].
  - assert (Hx : exp1 = e) by lia. clear Hexp1. subst exp1.
    rewrite Z.sub_diag, Z.pow_0_r, Z.mul_1_r, u64_small in Hman1 by lia. subst man1.
    destruct (float_int_down_value m e ltac:(lia)) as (man2 & -> & ->).
    assert (Hq : 0 <= m / 10 ^ (-6 - e) <= m).
    { split; [apply Z.div_pos; [lia | apply Z.pow_pos_nonneg; lia]|].
      apply Z.div_le_upper_bound; [apply Z.pow_pos_nonneg; lia|].
      pose proof (Z.pow_pos_nonneg 10 (-6 - e) ltac:(lia) ltac:(lia)). nia. }
    rewrite u64_i64, u64_small by lia. rewrite Z.ltb_irrefl.
    rewrite i64_small by lia. reflexivity.
  - assert (Hx : exp1 = -6) by lia. clear Hexp1. subst exp1.
    destruct (float_int_down_value man1 (-6) ltac:(lia)) as (man2 & -> & ->).
    change (-6 - -6) with 0. rewrite Z.pow_0_r, Z.div_1_r.
    pose proof (u64_range (m * 10 ^ (e - -6))) as Hu.
    rewrite u64_i64, (u64_small man1) by (subst man1; exact Hu).
    rewrite Z.ltb_irrefl. subst man1. rewrite i64_u64.
    do 3 f_equal; lia.
Qed.

Lemma float_negate_involution_witness :
  is_i64 float_one /\ invalid_float float_one = false /\ float_one <> 0 /\
  float_sign (float_negate float_one) = 1 - float_sign float_one /\
  float_negate (float_negate float_one) = float_one.
Proof.
  assert (H1 : is_i64 float_one)
    by (unfold is_i64; vm_compute; split; [discriminate | reflexivity]).
  assert (H2 : invalid_float float_one = false) by (vm_compute; reflexivity).
  assert (H3 : float_one <> 0) by (intros Hz; vm_compute in Hz; discriminate Hz).
  refine (conj H1 (conj H2 (conj H3 _))).
  destruct (float_negate_involution float_one H1 H2 H3) as (Hs & _ & _ & Hi).
  split; [exact Hs | exact Hi].
Defined.

Lemma float_setters_change_one_field_witness :
  is_i64 float_one /\ invalid_float float_one = false /\ float_one <> 0 /\
  hook_float.minExponent <= 3 <= hook_float.maxExponent /\
  hook_float.minMantissa <= 2000000000000000 <= hook_float.maxMantissa /\
  float_exponent (float_exponent_set float_one 3) = 3 /\
  float_mantissa (float_mantissa_set float_one 2000000000000000) = 2000000000000000 /\
  float_sign (float_sign_set float_one 1) = 1.
Proof.
  assert (H1 : is_i64 float_one)
    by (unfold is_i64; vm_compute; split; [discriminate | reflexivity]).
  assert (H2 : invalid_float float_one = false) by (vm_compute; reflexivity).
  assert (H3 : float_one <> 0) by (intros Hz; vm_compute in Hz; discriminate Hz).
  assert (H4 : hook_float.minExponent <= 3 <= hook_float.maxExponent)
    by (unfold hook_float.minExponent, hook_float.maxExponent; lia).
  assert (H5 : hook_float.minMantissa <= 2000000000000000 <= hook_float.maxMantissa)
    by (unfold hook_float.minMantissa, hook_float.maxMantissa; lia).
  refine (conj H1 (conj H2 (conj H3 (conj H4 (conj H5 _))))).
  destruct (float_setters_change_one_field float_one 3 2000000000000000 1
              H1 H2 H3 H4 H5) as ((He & _) & (Hm & _) & (Hs & _)).
  split; [exact He|]. split; [exact Hm | exact Hs].
Defined.

Lemma float_set_keeps_value_witness :
  0 < 5 < 2^63 /\ - 2^31 < 0 < 2^31 - 1 /\
  exists r,
    float_set 0 5 = Some r /\
    (0 < r ->
     hook_float.minMantissa <= hook_float.get_mantissa r <= hook_float.maxMantissa /\
     hook_float.minExponent <= hook_float.get_exponent r <= hook_float.maxExponent /\
     hook_float.is_negative r = false /\
     ((hook_float.get_exponent r <= 0 /\
       hook_float.get_mantissa r = 5 * 10 ^ (0 - hook_float.get_exponent r)) \/
      (0 <= hook_float.get_exponent r /\
       hook_float.get_mantissa r = 5 / 10 ^ (hook_float.get_exponent r - 0)))).
Proof.
  assert (H1 : 0 < 5 < 2^63) by lia.
  assert (H2 : - 2^31 < 0 < 2^31 - 1) by lia.
  refine (conj H1 (conj H2 _)).
  exact (float_set_keeps_value 0 5 H1 H2).
Defined.

Lemma umul64wide_product_witness :
  0 <= 2^64 - 1 < 2^64 /\
  fst (umul64wide (2^64 - 1) (2^64 - 1)) * 2^64 + snd (umul64wide (2^64 - 1) (2^64 - 1))
  = (2^64 - 1) * (2^64 - 1).
Proof.
  assert (H1 : 0 <= 2^64 - 1 < 2^64) by lia.
  split; [exact H1|].
  destruct (umul64wide_product (2^64 - 1) (2^64 - 1) H1 H1) as (_ & _ & Hp).
  exact Hp.
Defined.

Lemma float_int_millionths_witness :
  is_i64 float_one /\ invalid_float float_one = false /\ float_one <> 0 /\
  (float_sign float_one = 0 \/ 0 <> 0) /\
  float_int float_one 2 0 = Some 1000000.
Proof.
  assert (H1 : is_i64 float_one)
    by (unfold is_i64; vm_compute; split; [discriminate | reflexivity]).
  assert (H2 : invalid_float float_one = false) by (vm_compute; reflexivity).
  assert (H3 : float_one <> 0) by (intros Hz; vm_compute in Hz; discriminate Hz).
  assert (H4 : float_sign float_one = 0 \/ 0 <> 0) by (left; vm_compute; reflexivity).
  refine (conj H1 (conj H2 (conj H3 (conj H4 _)))).
  rewrite (float_int_millionths float_one 2 0 H1 H2 H3 H4). vm_compute. reflexivity.
Defined.

(** ** Emit details *)

Lemma land_255 x : Z.land x 255 = x mod 256.
Proof. change 255 with (Z.ones 8). rewrite Z.land_ones by lia. reflexivity. Qed.

Lemma big_endian_be32 x : 0 <= x < 2^32 -> big_endian (be32 x) = x.
Proof.
  intros Hx. unfold big_endian, be32. cbn [fold_left].
  Z.div_mod_to_equations. lia.
Qed.

Lemma big_endian_be64 x : 0 <= x < 2^64 -> big_endian (be64 x) = x.
Proof.
  intros Hx. unfold big_endian, be64. cbn [fold_left].
  Z.div_mod_to_equations. lia.
Qed.

Section EmitDetails.
Context `{Externals}.

Lemma WRITE_WASM_MEMORY_AND_RETURN_splice memory dst dst_len src :
  0 <= dst -> Z.of_nat (length src) <= dst_len -> dst_len < 2^63 ->
  dst + Z.of_nat (length src) <= memory_length memory ->
  memory_length memory < 2^64 -> Z.of_nat (length src) < 2^62 ->
  WRITE_WASM_MEMORY_AND_RETURN memory dst dst_len src (Z.of_nat (length src))
  = (Z.of_nat (length src), setBytes memory src dst (Z.of_nat (length src))).
Proof.
  intros. unfold WRITE_WASM_MEMORY_AND_RETURN.
  rewrite WRITE_WASM_MEMORY_splice by lia. reflexivity.
Qed.

Lemma WRITE_WASM_MEMORY_AND_RETURN_at memory dst dst_len src n :
  n = Z.of_nat (length src) ->
  0 <= dst -> n <= dst_len -> dst_len < 2^63 ->
  dst + n <= memory_length memory ->
  memory_length memory < 2^64 -> n < 2^62 ->
  WRITE_WASM_MEMORY_AND_RETURN memory dst dst_len src n
  = (n, setBytes memory src dst n).
Proof. intros ->. apply WRITE_WASM_MEMORY_AND_RETURN_splice. Qed.

Lemma setBytes_extend memory X wp y n p :
  0 <= wp -> p = wp + Z.of_nat (length X) -> n = Z.of_nat (length y) ->
  wp + Z.of_nat (length X) + Z.of_nat (length y) <= memory_length memory ->
  setBytes (setBytes memory X wp (Z.of_nat (length X))) y p n
  = setBytes memory (X ++ y) wp (Z.of_nat (length (X ++ y))).
Proof. intros Hwp -> -> Hb. apply setBytes_two; assumption. Qed.

Lemma memory_length_written memory X wp :
  0 <= wp -> wp + Z.of_nat (length X) <= memory_length memory ->
  memory_length (setBytes memory X wp (Z.of_nat (length X))) = memory_length memory.
Proof. intros. apply memory_length_setBytes; lia. Qed.

Lemma otxn_id_at hookCtx memory p :
  wf_memory memory -> 0 <= p -> p + 32 <= memory_length memory ->
  length (TransactionID (tx (hook.applyCtx hookCtx))) = 32%nat ->
  otxn_id hookCtx memory (u32 p) 32
  = (32, setBytes memory (TransactionID (tx (hook.applyCtx hookCtx))) p 32).
Proof.
  intros Hwf Hp Hb Hid. pose proof (memory_length_nonneg memory).
  unfold wf_memory in Hwf. unfold otxn_id, u32. rewrite Z.mod_small by lia.
  rewrite Hid. change (Z.of_nat 32) with 32.
  rewrite NOT_IN_BOUNDS_spec by (unfold is_u32; lia).
  destruct (Z.gtb_spec 32 32); [lia|].
  destruct (Z.gtb_spec (p + 32) (memory_length memory)); [lia|].
  rewrite WRITE_WASM_MEMORY_AND_RETURN_at by (rewrite ?Hid; lia).
  reflexivity.
Qed.

Lemma hook_account_at hookCtx memory p :
  wf_memory memory -> 0 <= p -> p + 20 <= memory_length memory ->
  length (hook.account (hook.result hookCtx)) = 20%nat ->
  hook_account hookCtx memory (u32 p) 20
  = (20, setBytes memory (hook.account (hook.result hookCtx)) p 20).
Proof.
  intros Hwf Hp Hb Hacc. pose proof (memory_length_nonneg memory).
  unfold wf_memory in Hwf. unfold hook_account, u32. rewrite Z.mod_small by lia.
  rewrite NOT_IN_BOUNDS_spec by (unfold is_u32; lia).
  destruct (Z.gtb_spec (p + 20) (memory_length memory)); [lia|].
  rewrite WRITE_WASM_MEMORY_AND_RETURN_at by (rewrite ?Hacc; lia).
  reflexivity.
Qed.

Lemma nonce_at hookCtx memory p :
  wf_memory memory -> 0 <= p -> p + 32 <= memory_length memory ->
  (forall id counter account, length (sha512Half_nonce id counter account) = 32%nat) ->
  let hash := sha512Half_nonce (TransactionID (tx (hook.applyCtx hookCtx)))
                (hook.nonce_counter hookCtx) (hook.account (hook.result hookCtx)) in
  nonce hookCtx memory (u32 p) 32
  = if hook.nonce_counter hookCtx >? max_nonce then (TOO_MANY_NONCES, hookCtx, memory)
    else (32,
          hook.with_nonce (i32 (hook.nonce_counter hookCtx + 1))
            (<[hash := true]> (hook.nonce_used hookCtx)) hookCtx,
          setBytes memory hash p 32).
Proof.
  intros Hwf Hp Hb Hhash hash. pose proof (memory_length_nonneg memory).
  unfold wf_memory in Hwf. unfold nonce, u32. rewrite Z.mod_small by lia.
  rewrite NOT_IN_BOUNDS_spec by (unfold is_u32; lia).
  destruct (Z.ltb_spec 32 32); [lia|].
  destruct (Z.gtb_spec (p + 32) (memory_length memory)); [lia|].
  destruct (hook.nonce_counter hookCtx >? max_nonce); [reflexivity|].
  fold hash.
  assert (Hl : length hash = 32%nat) by apply Hhash.
  rewrite WRITE_WASM_MEMORY_AND_RETURN_at by (rewrite ?Hl; lia).
  reflexivity.
Qed.

(** X21: etxn_details, when it does not return an error, returns 105 and has
    written the EmitDetails object at [write_ptr]: the generation and the
    burden that etxn_generation and etxn_burden return, most significant
    byte first, the id of the originating transaction, a fresh nonce, which
    is registered as used, and the account of the hook; the rest of the
    memory is unchanged. *)
Theorem etxn_details_layout hookCtx memory write_ptr write_len r hookCtx' memory' :
  wf_memory memory -> is_u32 write_ptr -> is_u32 write_len ->
  length (TransactionID (tx (hook.applyCtx hookCtx))) = 32%nat ->
  length (hook.account (hook.result hookCtx)) = 20%nat ->
  (forall id counter account, length (sha512Half_nonce id counter account) = 32%nat) ->
  etxn_details hookCtx memory write_ptr write_len = (r, hookCtx', memory') ->
  0 <= r ->
  let nonce_hash :=
    sha512Half_nonce (TransactionID (tx (hook.applyCtx hookCtx)))
      (hook.nonce_counter hookCtx) (hook.account (hook.result hookCtx)) in
  r = 105 /\
  hook.nonce_used hookCtx' !! nonce_hash = Some true /\
  memory' =
    setBytes memory
      ([236; 32; 43] ++ be32 (u32 (fst (etxn_generation hookCtx))) ++
       [60] ++ be64 (fst (etxn_burden hookCtx)) ++
       [90] ++ TransactionID (tx (hook.applyCtx hookCtx)) ++
       [91] ++ nonce_hash ++
       [137; 20] ++ hook.account (hook.result hookCtx) ++ [225])
      write_ptr 105.
Proof.
  intros Hwf Hwp Hwl Hid Hacc Hhash Hrun Hr nonce_hash.
  pose proof (memory_length_nonneg memory) as Hml.
  unfold etxn_details in Hrun.
  rewrite NOT_IN_BOUNDS_spec in Hrun by (unfold is_u32, wf_memory in *; lia).
  unfold is_u32, wf_memory, etxn_details_size in *.
  destruct (Z.gtb_spec (write_ptr + write_len) (memory_length memory));
    [injection Hrun as <- _ _; unfold OUT_OF_BOUNDS in Hr; lia|].
  destruct (Z.ltb_spec write_len 105);
    [injection Hrun as <- _ _; unfold TOO_SMALL in Hr; lia|].
  destruct (Z.leb_spec (hook.expected_etxn_count hookCtx) (-1));
    [injection Hrun as <- _ _; unfold PREREQUISITE_NOT_MET in Hr; lia|].
  pose proof (etxn_generation_caches hookCtx) as Hc1.
  pose proof (etxn_generation_frame hookCtx) as [_ Hb1].
  destruct (etxn_generation hookCtx) as [g c1] eqn:Hgen. cbn [fst snd] in *.
  pose proof (etxn_burden_caches c1) as Hc2.
  pose proof (etxn_burden_range c1) as Hbr.
  assert (Hbur : fst (etxn_burden c1) = fst (etxn_burden hookCtx)).
  { destruct Hc1 as (Ha & _ & He & _). apply etxn_burden_ext; assumption. }
  destruct (etxn_burden c1) as [burden c2] eqn:Hburden. cbn [fst snd] in *.
  subst burden.
  destruct (Z.ltb_spec (fst (etxn_burden hookCtx)) 1);
    [injection Hrun as <- _ _; unfold FEE_TOO_LARGE in Hr; lia|].
  assert (Hc : caches_only hookCtx c2) by (eapply caches_only_trans; eassumption).
  destruct Hc as (Happ & Hres & _ & Hnc & Hnu & _).
  set (txid := TransactionID (tx (hook.applyCtx hookCtx))) in *.
  set (account := hook.account (hook.result hookCtx)) in *.
  match type of Hrun with context [setBytes memory ?h write_ptr 17] =>
    set (head := h) in * end.
  assert (Hhead : head = [236; 32; 43] ++ be32 (u32 g) ++ [60] ++
                         be64 (fst (etxn_burden hookCtx)) ++ [90]).
  { subst head. unfold be32, be64. rewrite !land_255, !Z.shiftr_div_pow2 by lia.
    rewrite !Z.pow_0_r, !Z.div_1_r. reflexivity. }
  assert (Hlh : Z.of_nat (length head) = 17) by reflexivity.
  clearbody head.
  assert (Hlt : Z.of_nat (length txid) = 32) by (rewrite Hid; reflexivity).
  assert (Hla : Z.of_nat (length account) = 20) by (rewrite Hacc; reflexivity).
  (* the id of the originating transaction *)
  assert (HM1 : memory_length (setBytes memory head write_ptr 17) = memory_length memory)
    by (rewrite <- Hlh; apply memory_length_written; lia).
  rewrite (otxn_id_at c2 (setBytes memory head write_ptr 17) (write_ptr + 17)) in Hrun;
    [| unfold wf_memory; rewrite HM1; lia | lia | rewrite HM1; lia
     | rewrite Happ; exact Hid ].
  rewrite Happ in Hrun. fold txid in Hrun.
  change (negb (32 =? 32)) with false in Hrun. cbv iota in Hrun.
  rewrite <- Hlh in Hrun at 1.
  rewrite (setBytes_extend memory head write_ptr txid 32 (write_ptr + 17)) in Hrun
    by lia.
  rewrite (setBytes_extend memory (head ++ txid) write_ptr [91] 1 (write_ptr + 17 + 32))
    in Hrun by (rewrite ?length_app; cbn [length]; lia).
  (* the nonce *)
  set (X2 := (head ++ txid) ++ [91]) in *.
  assert (HX2 : Z.of_nat (length X2) = 50)
    by (subst X2; rewrite !length_app; cbn [length]; lia).
  assert (HM2 : memory_length (setBytes memory X2 write_ptr (Z.of_nat (length X2)))
                = memory_length memory) by (apply memory_length_written; lia).
  rewrite (nonce_at c2 _ (write_ptr + 17 + 32 + 1)) in Hrun;
    [| unfold wf_memory; rewrite HM2; lia | lia | rewrite HM2; lia | exact Hhash ].
  cbv zeta in Hrun. rewrite Happ, Hres, Hnc, Hnu in Hrun.
  fold txid account nonce_hash in Hrun.
  destruct (hook.nonce_counter hookCtx >? max_nonce);
    [injection Hrun as <- _ _; unfold INTERNAL_ERROR in Hr; lia|].
  change (negb (32 =? 32)) with false in Hrun. cbv iota in Hrun.
  assert (Hlnh : Z.of_nat (length nonce_hash) = 32)
    by (unfold nonce_hash; rewrite Hhash; reflexivity).
  rewrite (setBytes_extend memory X2 write_ptr nonce_hash 32 (write_ptr + 17 + 32 + 1))
    in Hrun by lia.
  rewrite (setBytes_extend memory (X2 ++ nonce_hash) write_ptr [137; 20] 2
             (write_ptr + 17 + 32 + 1 + 32))
    in Hrun by (rewrite ?length_app; cbn [length]; lia).
  (* the account *)
  set (X3 := (X2 ++ nonce_hash) ++ [137; 20]) in *.
  assert (HX3 : Z.of_nat (length X3) = 84)
    by (subst X3; rewrite !length_app; cbn [length]; lia).
  assert (HM3 : memory_length (setBytes memory X3 write_ptr (Z.of_nat (length X3)))
                = memory_length memory) by (apply memory_length_written; lia).
  rewrite (hook_account_at _ _ (write_ptr + 17 + 32 + 1 + 32 + 2)) in Hrun;
    [| unfold wf_memory; rewrite HM3; lia | lia | rewrite HM3; lia
     | cbn [hook.result hook.with_nonce]; rewrite Hres; exact Hacc ].
  cbn [hook.result hook.with_nonce] in Hrun. rewrite Hres in Hrun.
  fold account in Hrun.
  change (negb (20 =? 20)) with false in Hrun. cbv iota in Hrun.
  rewrite (setBytes_extend memory X3 write_ptr account 20
             (write_ptr + 17 + 32 + 1 + 32 + 2)) in Hrun by lia.
  rewrite (setBytes_extend memory (X3 ++ account) write_ptr [225] 1
             (write_ptr + 17 + 32 + 1 + 32 + 2 + 20))
    in Hrun by (rewrite ?length_app; cbn [length]; lia).
  injection Hrun as <- <- <-.
  split; [reflexivity|]. split.
  - cbn [hook.nonce_used hook.with_nonce]. apply lookup_insert_eq.
  - replace (Z.of_nat (length ((X3 ++ account) ++ [225]))) with 105
      by (rewrite !length_app; cbn [length]; lia).
    f_equal. subst X3 X2. rewrite Hhead. rewrite <- !app_assoc. reflexivity.
Qed.

End EmitDetails.

Lemma etxn_details_layout_witness :
  wf_memory example_memory_large /\
  0 <= fst (fst (@etxn_details example_externals example_reserved
                   example_memory_large 8 105)) /\
  fst (fst (@etxn_details example_externals example_reserved
              example_memory_large 8 105)) = 105 /\
  hook.nonce_used
    (snd (fst (@etxn_details example_externals example_reserved
                 example_memory_large 8 105))) !! replicate 32 0 = Some true.
Proof.
  assert (H1 : wf_memory example_memory_large) by (vm_compute; discriminate).
  assert (H2 : 0 <= fst (fst (@etxn_details example_externals example_reserved
                                example_memory_large 8 105)))
    by (vm_compute; discriminate).
  refine (conj H1 (conj H2 _)).
  destruct (@etxn_details_layout example_externals example_reserved
              example_memory_large 8 105
              (fst (fst (@etxn_details example_externals example_reserved
                           example_memory_large 8 105)))
              (snd (fst (@etxn_details example_externals example_reserved
                           example_memory_large 8 105)))
              (snd (@etxn_details example_externals example_reserved
                      example_memory_large 8 105)))
    as (Hr & Hn & _).
  - exact H1.
  - unfold is_u32; lia.
  - unfold is_u32; lia.
  - reflexivity.
  - reflexivity.
  - intros id counter account. apply length_replicate.
  - vm_compute. reflexivity.
  - exact H2.
  - split; [exact Hr | exact Hn].
Defined.

(** ** The exit reason *)

Lemma is_UTF16LE_loop_utf16le s :
  Forall (fun b => b <> 0) s -> is_UTF16LE_loop (utf16le s) = true.
Proof.
  induction 1 as [|b s Hb _ IH]; [reflexivity|].
  change (utf16le (b :: s)) with (b :: 0 :: utf16le s). cbn [is_UTF16LE_loop].
  destruct (Z.eqb_spec b 0); [contradiction|]. exact IH.
Qed.

Lemma length_utf16le s : length (utf16le s) = (2 * length s)%nat.
Proof.
  induction s as [|b s IH]; [reflexivity|].
  change (utf16le (b :: s)) with (b :: 0 :: utf16le s). cbn [length]. lia.
Qed.

Lemma byte_at_utf16le s : forall i,
  byte_at (utf16le s) (Z.of_nat i * 2) = nth i s 0.
Proof.
  unfold byte_at. induction s as [|b s IH]; intros i.
  - cbn. destruct (Z.to_nat (Z.of_nat i * 2)), i; reflexivity.
  - destruct i as [|i]; [reflexivity|].
    replace (Z.to_nat (Z.of_nat (S i) * 2)) with (S (S (Z.to_nat (Z.of_nat i * 2))))
      by lia.
    change (utf16le (b :: s)) with (b :: 0 :: utf16le s). cbn [nth]. apply IH.
Qed.

Lemma map_nth_seq (s : list Z) : map (fun i => nth i s 0) (seq 0 (length s)) = s.
Proof.
  induction s as [|b s IH]; [reflexivity|].
  cbn [length seq map nth]. f_equal.
  rewrite <- seq_shift, map_map. exact IH.
Qed.

(** X22: accept and rollback store a reason given as UTF-16LE text in narrow
    characters: for a string of 1 to 32 non-zero bytes that lies in the
    memory with a zero byte after each of its bytes, the exit reason is the
    string itself, and the exit type and the exit code are those of the
    call. *)
Theorem exit_reason_utf16 hookCtx memory read_ptr s error_code :
  wf_memory memory -> is_u32 read_ptr -> read_ptr <> 0 ->
  (1 <= length s <= 32)%nat -> Forall (fun b => b <> 0) s ->
  read_ptr + 2 * Z.of_nat (length s) <= memory_length memory ->
  read_bytes memory read_ptr (2 * Z.of_nat (length s)) = utf16le s ->
  accept hookCtx memory read_ptr (2 * Z.of_nat (length s)) error_code
  = (RC_ACCEPT,
     hook.with_result
       (hook.with_exit ACCEPT error_code
          (hook.with_exitReason s (hook.result hookCtx))) hookCtx) /\
  rollback hookCtx memory read_ptr (2 * Z.of_nat (length s)) error_code
  = (RC_ROLLBACK,
     hook.with_result
       (hook.with_exit ROLLBACK error_code
          (hook.with_exitReason s (hook.result hookCtx))) hookCtx).
Proof.
  intros Hwf Hrp Hnz Hlen Hs Hb Hmem.
  pose proof (memory_length_nonneg memory) as Hml.
  assert (Hexit : forall t,
            HOOK_EXIT hookCtx memory read_ptr (2 * Z.of_nat (length s)) error_code t
            = (match t with ACCEPT => RC_ACCEPT | _ => RC_ROLLBACK end,
               hook.with_result
                 (hook.with_exit t error_code
                    (hook.with_exitReason s (hook.result hookCtx))) hookCtx)).
  { intros t. unfold HOOK_EXIT.
    destruct (Z.gtb_spec (2 * Z.of_nat (length s)) 64); [lia|].
    destruct (Z.eqb_spec read_ptr 0); [contradiction|]. cbn [negb].
    rewrite NOT_IN_BOUNDS_spec by (unfold is_u32, wf_memory in *; lia).
    destruct (Z.gtb_spec (read_ptr + 2 * Z.of_nat (length s)) (memory_length memory));
      [lia|].
    assert (Hutf : is_UTF16LE (drop (Z.to_nat read_ptr) memory)
                     (2 * Z.of_nat (length s)) = true).
    { unfold is_UTF16LE.
      replace ((2 * Z.of_nat (length s)) mod 2) with 0
        by (rewrite Z.mul_comm, Z.mod_mul; lia).
      destruct (Z.eqb_spec (2 * Z.of_nat (length s)) 0); [lia|]. cbn [Z.eqb negb orb].
      unfold read_bytes in Hmem. rewrite Hmem.
      apply is_UTF16LE_loop_utf16le. exact Hs. }
    rewrite Hutf.
    replace (2 * Z.of_nat (length s) / 2) with (Z.of_nat (length s))
      by (rewrite Z.mul_comm, Z.div_mul; lia).
    rewrite Nat2Z.id.
    assert (Hdec : map (fun i => byte_at memory (read_ptr + Z.of_nat i * 2))
                     (seq 0 (length s)) = s).
    { rewrite <- (map_nth_seq s) at 2. apply map_ext_in.
      intros i Hi. apply in_seq in Hi.
      rewrite <- byte_at_utf16le, <- Hmem. unfold read_bytes.
      rewrite byte_at_take by lia.
      rewrite byte_at_drop by (unfold is_u32 in *; lia). reflexivity. }
    rewrite Hdec. reflexivity. }
  unfold accept, rollback. rewrite !Hexit. split; reflexivity.
Qed.

(** ** Keylets *)

(** X23: A keylet written by serialize_keylet is read back by unserialize_keylet:
    the 34 bytes at [write_ptr] decode to the keylet, for a 16-bit type and
    a key of 32 bytes. *)
Theorem keylet_roundtrip kl memory write_ptr write_len :
  0 <= kl_type kl < 2^16 -> length (kl_key kl) = 32%nat ->
  0 <= write_ptr -> 34 <= write_len -> write_ptr + 34 <= memory_length memory ->
  fst (serialize_keylet kl memory write_ptr write_len) = 34 /\
  unserialize_keylet
    (read_bytes (snd (serialize_keylet kl memory write_ptr write_len)) write_ptr 34) 34
  = Some kl /\
  memory_length (snd (serialize_keylet kl memory write_ptr write_len))
  = memory_length memory.
Proof.
  intros Ht Hk Hwp Hwl Hb. unfold serialize_keylet.
  destruct (Z.ltb_spec write_len 34); [lia|]. cbn [fst snd].
  set (head := [Z.land (Z.shiftr (kl_type kl) 8) 255;
                Z.land (Z.shiftr (kl_type kl) 0) 255]).
  assert (Hm : setBytes (setBytes memory head write_ptr 2) (kl_key kl) (write_ptr + 2) 32
               = setBytes memory (head ++ kl_key kl) write_ptr
                   (Z.of_nat (length (head ++ kl_key kl)))).
  { apply setBytes_extend; try lia. change (Z.of_nat (length head)) with 2. lia.
    change (Z.of_nat (length head)) with 2. lia. }
  assert (Hl : Z.of_nat (length (head ++ kl_key kl)) = 34)
    by (rewrite length_app, Hk; reflexivity).
  rewrite Hm. split; [reflexivity|]. split.
  - rewrite <- Hl at 1. rewrite read_bytes_written by lia.
    unfold unserialize_keylet. cbn [Z.eqb negb Pos.eqb].
    subst head. cbn [app drop].
    change (byte_at (?a :: ?b :: ?l) 0) with a.
    change (byte_at (?a :: ?b :: ?l) 1) with b.
    rewrite drop_0, take_ge by lia.
    rewrite !land_255, !Z.shiftr_div_pow2, Z.shiftl_mul_pow2 by lia.
    assert (Hty : u16 (kl_type kl / 2 ^ 8 mod 256 * 2 ^ 8 + kl_type kl / 2 ^ 0 mod 256)
                  = kl_type kl).
    { unfold u16. Z.div_mod_to_equations. lia. }
    rewrite Hty. destruct kl; reflexivity.
  - apply memory_length_written; lia.
Qed.

(** ** The HookOn field *)

(** X24: Every bit of HookOn is active low, except the bit of ttHOOK_SET, which
    is active high: canHook answers, for a transaction type other than
    ttHOOK_SET, whether its bit is clear, and for ttHOOK_SET whether its bit
    is set. *)
Theorem canHook_active_low ttHOOK_SET txType hookOn :
  0 <= hookOn < 2^64 -> 0 <= txType < 64 -> 0 <= ttHOOK_SET < 64 ->
  canHook ttHOOK_SET txType hookOn
  = if txType =? ttHOOK_SET then Z.testbit hookOn txType
    else negb (Z.testbit hookOn txType).
Proof.
  intros Hh Ht Hs. unfold canHook.
  rewrite Z.shiftl_mul_pow2, Z.mul_1_l by lia.
  assert (Hpow : 0 < 2 ^ ttHOOK_SET < 2^64).
  { split; [apply Z.pow_pos_nonneg; lia|]. apply Z.pow_lt_mono_r; lia. }
  rewrite u64_small by lia.
  change 1 with (Z.ones 1) at 1. rewrite Z.land_ones by lia.
  change (2 ^ 1) with 2. rewrite <- Z.bit0_mod, Z.shiftr_spec by lia.
  rewrite Z.add_0_l.
  change 18446744073709551615 with (Z.ones 64).
  rewrite !Z.lxor_spec, Z.ones_spec_low, Z.pow2_bits_eqb by lia.
  rewrite (Z.eqb_sym ttHOOK_SET txType).
  destruct (Z.testbit hookOn txType), (txType =? ttHOOK_SET); reflexivity.
Qed.

(** ** Elements of an array *)

(** The loop over the fields of a buffer that starts, at [upto], with the
    fields [os]: when a visit leaves the loop inside [os], so does the
    loop. *)
Lemma fields_prefix_exit {A R : Type} buf (on_error : R)
    (visit : A -> Z -> sto_object -> A + R) os :
  forall n a upto P rest r,
  sto_fields P os -> drop (Z.to_nat upto) buf = P ++ rest -> 0 <= upto ->
  (length os <= n)%nat ->
  visit_all visit a upto os = inr r ->
  iter_nat n (sto_fields_step buf on_error visit) (a, upto) = inr (inr r).
Proof.
  induction os as [|o os IH]; intros n a upto P rest r Hf Hdrop Hu Hn Hv;
    [discriminate Hv|].
  inversion Hf as [|? ? ? Hp Hlen Hrest]; subst.
  pose proof (get_stobject_length_pos _ _ _ Hp) as Hpos.
  destruct n as [|n]; [cbn [length] in Hn; lia|].
  cbn [iter_nat]. unfold sto_fields_step at 1.
  assert (Hin : upto < Z.of_nat (length buf)).
  { apply (f_equal (@length Z)) in Hdrop.
    rewrite length_drop, length_app in Hdrop. lia. }
  destruct (Z.ltb_spec upto (Z.of_nat (length buf))); [|lia].
  rewrite Hdrop, (get_stobject_length_app _ _ _ _ Hp Hlen).
  cbn [visit_all] in Hv.
  destruct (visit a upto o) as [a'|r']; [|congruence].
  apply (IH n a' (upto + so_length o) (drop (Z.to_nat (so_length o)) P) rest r);
    try assumption; try lia.
  - replace (Z.to_nat (upto + so_length o))
      with (Z.to_nat upto + Z.to_nat (so_length o))%nat by lia.
    rewrite <- drop_drop, Hdrop. apply drop_app_le. lia.
  - cbn [length] in Hn. lia.
Qed.

(** X25: sto_subarray gives the place of the element [index_id]: when the buffer,
    behind the array header if its first byte is one, starts with
    [index_id + 1] parsed fields, the call returns the offset of the last of
    them in the upper and its length in the lower 32 bits (for a buffer of
    less than 2^31 bytes and an index below 1024). *)
Theorem sto_subarray_finds_element memory read_ptr read_len index_id P rest os1 o :
  wf_memory memory -> is_u32 read_ptr -> is_u32 read_len ->
  read_ptr + read_len <= memory_length memory -> 1 <= read_len < 2^31 ->
  drop (Z.to_nat (if Z.land (byte_at (read_bytes memory read_ptr read_len) 0) 240
                     =? 240 then 1 else 0))
    (read_bytes memory read_ptr read_len) = P ++ rest ->
  sto_fields P (os1 ++ [o]) ->
  Z.of_nat (length os1) = index_id -> index_id < 1024 ->
  sto_subarray memory read_ptr read_len index_id
  = ((if Z.land (byte_at (read_bytes memory read_ptr read_len) 0) 240 =? 240
      then 1 else 0) + sto_span os1) * 2^32 + so_length o.
Proof.
  intros Hwf Hrp Hrl Hrb Hlen Hdrop Hf Hidx Hsmall.
  pose proof (memory_length_nonneg memory) as Hml.
  unfold sto_subarray.
  rewrite NOT_IN_BOUNDS_spec by (unfold wf_memory in *; auto with lia).
  unfold is_u32, wf_memory in *.
  destruct (Z.gtb_spec (read_ptr + read_len) (memory_length memory)); [lia|].
  destruct (Z.ltb_spec read_len 1); [lia|].
  set (buf := read_bytes memory read_ptr read_len) in *.
  set (skip := if Z.land (byte_at buf 0) 240 =? 240 then 1 else 0) in *.
  assert (Hskip : 0 <= skip <= 1) by (subst skip; destruct (_ =? _); lia).
  assert (Hspan : 0 <= sto_span os1 /\
                  skip + sto_span os1 + so_length o <= read_len /\ 1 <= so_length o).
  { pose proof (sto_fields_span _ _ Hf) as Hs.
    destruct (sto_fields_app_inv _ _ _ Hf) as [Hs1 Hlast].
    inversion Hlast as [|? ? ? Hp _ _]; subst.
    pose proof (get_stobject_length_pos _ _ _ Hp).
    rewrite sto_span_app in Hs. cbn [sto_span fold_right] in Hs.
    apply (f_equal (@length Z)) in Hdrop.
    rewrite length_drop, length_app in Hdrop.
    assert (length buf = Z.to_nat read_len) by (apply length_read_bytes; lia).
    lia. }
  match goal with |- context [sto_fields_step buf PARSE_ERROR ?v] =>
    set (visit := v) end.
  assert (Hvisit : forall l i upto,
            i + Z.of_nat (length l) = index_id ->
            visit_all visit i upto (l ++ [o])
            = inr (i64 (i64 (Z.shiftl (upto + sto_span l) 32) + u32 (so_length o)))).
  { induction l as [|x l IH]; intros i upto Hi.
    - cbn [app visit_all length sto_span fold_right] in *. unfold visit at 1.
      destruct (Z.eqb_spec i index_id); [|lia].
      rewrite Z.add_0_r. reflexivity.
    - cbn [app visit_all length] in *. unfold visit at 1.
      destruct (Z.eqb_spec i index_id); [lia|].
      rewrite IH by lia. cbn [sto_span fold_right]. fold (sto_span l).
      rewrite <- Z.add_assoc. reflexivity. }
  rewrite (fields_prefix_exit buf PARSE_ERROR visit (os1 ++ [o]) sto_loop_bound
             0 skip P rest _ Hf Hdrop ltac:(lia)
             ltac:(rewrite length_app; cbn [length]; unfold sto_loop_bound; lia)
             (Hvisit os1 0 skip ltac:(lia))).
  rewrite Z.shiftl_mul_pow2 by lia.
  unfold u32. rewrite (Z.mod_small (so_length o)) by lia.
  rewrite (i64_small ((skip + sto_span os1) * 2^32)) by lia.
  apply i64_small. lia.
Qed.

(** ** What emit lets through *)

Section EmitValid.
Context `{Externals}.

Lemma forallb_zero pk : forallb (Z.eqb 0) pk = true -> Forall (fun b => b = 0) pk.
Proof.
  induction pk as [|b pk IH]; intros Hz; [constructor|].
  cbn [forallb] in Hz. apply andb_true_iff in Hz as [Hb Hz].
  constructor; [symmetry; apply Z.eqb_eq; exact Hb | apply IH; exact Hz].
Qed.

Lemma emit_rules_valid c stpTrans read_len c_f :
  emit_rules c stpTrans read_len = inr c_f ->
  emitted_shape stpTrans /\
  exists ed nonce_hash,
    sfEmitDetails stpTrans = Some ed /\
    sfEmitGeneration ed = Some (u32 (fst (etxn_generation c))) /\
    sfEmitBurden ed = Some (u64 (fst (etxn_burden c))) /\
    sfEmitParentTxnID ed = Some (TransactionID (tx (hook.applyCtx c))) /\
    sfEmitNonce ed = Some nonce_hash /\ is_Some (hook.nonce_used c !! nonce_hash) /\
    sfEmitCallback ed = Some (hook.account (hook.result c)).
Proof.
  unfold emit_rules, emitted_shape.
  destruct (bool_decide (sfSequence stpTrans = Some 0)) eqn:Hseq; [|discriminate].
  apply bool_decide_eq_true in Hseq. cbn [negb].
  destruct (sfSigningPubKey stpTrans) as [pk|]; [|discriminate].
  destruct (negb (Z.of_nat (length pk) =? 33) && negb (Z.of_nat (length pk) =? 0))
    eqn:Hlen; [discriminate|].
  assert (Hlen' : length pk = 33%nat \/ length pk = 0%nat).
  { destruct (Z.eqb_spec (Z.of_nat (length pk)) 33);
      destruct (Z.eqb_spec (Z.of_nat (length pk)) 0); cbn in Hlen;
      try discriminate; lia. }
  destruct (forallb (Z.eqb 0) pk) eqn:Hpk; [|discriminate]. cbn [negb].
  apply forallb_zero in Hpk.
  destruct (sfEmitDetails stpTrans) as [ed|]; [|discriminate].
  destruct (sfEmitGeneration ed) as [gen|] eqn:Eg; [|discriminate].
  destruct (sfEmitBurden ed) as [bur|] eqn:Eb; [|discriminate].
  destruct (sfEmitParentTxnID ed) as [pTxnID|] eqn:Ep; [|discriminate].
  destruct (sfEmitNonce ed) as [nonce_hash|] eqn:En; [|discriminate].
  destruct (sfEmitCallback ed) as [callback|] eqn:Ec; [|discriminate].
  pose proof (etxn_generation_caches c) as Hgc.
  pose proof (etxn_generation_frame c) as [_ Hgb].
  destruct (etxn_generation c) as [g c1]. cbn [fst snd] in *.
  destruct (Z.eqb_spec gen (u32 g)) as [->|]; [|discriminate]. cbn [negb].
  pose proof (etxn_burden_caches c1) as Hbc.
  assert (Hbur : fst (etxn_burden c1) = fst (etxn_burden c))
    by (destruct Hgc as (Ha & _ & He & _); apply etxn_burden_ext; assumption).
  destruct (etxn_burden c1) as [b c2]. cbn [fst snd] in *. subst b.
  assert (Hc : caches_only c c2) by (eapply caches_only_trans; eassumption).
  destruct Hc as (Happ & Hres & _ & _ & Hnu & _).
  destruct (Z.eqb_spec bur (u64 (fst (etxn_burden c)))) as [->|]; [|discriminate].
  cbn [negb]. rewrite Happ, Hres, Hnu.
  destruct (bool_decide (pTxnID = TransactionID (tx (hook.applyCtx c)))) eqn:Hp;
    [|discriminate]. apply bool_decide_eq_true in Hp. cbn [negb].
  destruct (bool_decide (is_Some (hook.nonce_used c !! nonce_hash))) eqn:Hn;
    [|discriminate]. apply bool_decide_eq_true in Hn. cbn [negb].
  destruct (bool_decide (callback = hook.account (hook.result c))) eqn:Hcb;
    [|discriminate]. apply bool_decide_eq_true in Hcb. cbn [negb].
  destruct (bool_decide (is_Some (sfSignature stpTrans))) eqn:Hsig; [discriminate|].
  apply bool_decide_eq_false in Hsig.
  destruct (sfLastLedgerSequence stpTrans) as [lls|] eqn:Hlls.
  2:{ rewrite bool_decide_eq_false_2 by (intros [x Hx]; discriminate Hx).
      discriminate. }
  rewrite bool_decide_eq_true_2 by eauto. cbn [negb orb default from_option]. unfold id.
  match goal with |- context [lls <? ?x] => destruct (lls <? x) end;
    [discriminate|].
  destruct (sfFirstLedgerSequence stpTrans) as [fls|]; [|discriminate].
  destruct (Z.gtb_spec fls lls) as [|Hfl]; [discriminate|].
  repeat (match goal with
          | |- (if ?x then _ else _) = _ -> _ => destruct x; [discriminate|]
          end).
  destruct (sfFee stpTrans); [|discriminate].
  repeat (match goal with
          | |- (if ?x then _ else _) = _ -> _ => destruct x; [discriminate|]
          end).
  intros _. subst. split.
  - split; [exact Hseq|]. split; [eauto|]. split.
    + destruct (sfSignature stpTrans); [contradiction Hsig; eauto | reflexivity].
    + split; [|eauto]. exists ed. rewrite Eg, Eb, Ep, En, Ec. repeat split; eauto.
  - exists ed, nonce_hash. rewrite Eg, Eb, Ep, En, Ec.
    repeat split; try reflexivity; assumption.
Qed.

Lemma emit_outcome c memory read_ptr read_len r c' :
  emit c memory read_ptr read_len = (r, c') ->
  (r < 0 /\ hook.emittedTxn (hook.result c') = hook.emittedTxn (hook.result c)) \/
  (r = read_len /\
   exists stpTrans c_f,
     emit_rules c stpTrans read_len = inr c_f /\
     hook.emittedTxn (hook.result c')
     = hook.emittedTxn (hook.result c) ++ [stpTrans]).
Proof.
  unfold emit.
  destruct (NOT_IN_BOUNDS _ _ _); [intros [= <- <-]; left; split; [reflexivity|auto]|].
  destruct (_ <? 0); [intros [= <- <-]; left; split; [reflexivity|auto]|].
  destruct (_ >=? _); [intros [= <- <-]; left; split; [reflexivity|auto]|].
  destruct (parse_STTx _) as [stp|]; [|intros [= <- <-]; left; split; [reflexivity|auto]].
  pose proof (emit_rules_caches c stp read_len) as Hc.
  destruct (emit_rules c stp read_len) as [c1|c1] eqn:Hrules;
    destruct Hc as (_ & Hr & _).
  - intros [= <- <-]. left. split; [reflexivity|]. rewrite Hr. reflexivity.
  - intros [= <- <-]. right. split; [reflexivity|]. exists stp, c1.
    split; [exact Hrules|]. cbn. rewrite Hr. reflexivity.
Qed.

(** X26: emit lets through only a transaction whose EmitDetails are those of
    this invocation: the generation and the burden that etxn_generation and
    etxn_burden return, the id of the originating transaction as parent, a
    nonce that the nonce call has given out, and the account of the hook as
    callback. *)
Theorem emit_checks_details c memory read_ptr read_len r c' :
  emit c memory read_ptr read_len = (r, c') -> 0 <= r ->
  exists stpTrans ed nonce_hash,
    hook.emittedTxn (hook.result c') = hook.emittedTxn (hook.result c) ++ [stpTrans] /\
    sfEmitDetails stpTrans = Some ed /\
    sfEmitGeneration ed = Some (u32 (fst (etxn_generation c))) /\
    sfEmitBurden ed = Some (u64 (fst (etxn_burden c))) /\
    sfEmitParentTxnID ed = Some (TransactionID (tx (hook.applyCtx c))) /\
    sfEmitNonce ed = Some nonce_hash /\
    is_Some (hook.nonce_used c !! nonce_hash) /\
    sfEmitCallback ed = Some (hook.account (hook.result c)).
Proof.
  intros Hrun Hr.
  destruct (emit_outcome _ _ _ _ _ _ Hrun) as [[Hneg _]|(_ & stp & c_f & Hrules & Hq)];
    [lia|].
  destruct (emit_rules_valid _ _ _ _ Hrules) as (_ & ed & nonce_hash & Hd).
  exists stp, ed, nonce_hash. split; [exact Hq | exact Hd].
Qed.

(** X27: Whatever the guest does, the queue of emitted transactions holds only
    transactions of the shape that emit demands: in every run that starts
    with such a queue (the empty one, for instance), every transaction
    queued at the end has Sequence 0, a signing key that is empty or 33 zero
    bytes, no signature, EmitDetails with its five fields, and a first
    ledger sequence not after its last. *)
Theorem emitted_queue_shape c0 rs c1 :
  emit_run c0 rs c1 ->
  Forall emitted_shape (hook.emittedTxn (hook.result c0)) ->
  Forall emitted_shape (hook.emittedTxn (hook.result c1)).
Proof.
  induction 1 as [c|c memory read_ptr read_len r c' rs c'' Hp Hl Hrun _ IH
                  |c c' rs c'' [Hq _] _ IH]; intros Hall.
  - exact Hall.
  - apply IH.
    destruct (emit_outcome _ _ _ _ _ _ Hrun)
      as [[_ ->]|(_ & stp & c_f & Hrules & ->)]; [exact Hall|].
    apply Forall_app. split; [exact Hall|].
    constructor; [|constructor].
    apply (emit_rules_valid _ _ _ _ Hrules).
  - apply IH. rewrite Hq. exact Hall.
Qed.

End EmitValid.

(** ** The sign of float_set *)

(** X28: The host call float_set never returns a negative float: whatever the
    exponent and the mantissa, also a negative one, the call returns, and
    its result is an error code, zero, or a float with the sign bit of a
    positive number. *)
Theorem float_set_not_negative e m :
  exists r,
    float_set e m = Some r /\
    (r < 0 \/ r = 0 \/ (0 < r /\ hook_float.is_negative r = false)).
Proof.
  destruct (host_float_set_total e m) as [r Hr]. exists r. split; [exact Hr|].
  revert Hr. unfold float_set.
  destruct (Z.eqb_spec m 0); [intros [= <-]; auto|].
  destruct (hook_float.normalize m e) as [[c|[m' e']]|] eqn:E; [| |discriminate].
  - apply normalize_post in E. cbn in E. subst c. intros [= <-]. left. reflexivity.
  - apply normalize_post in E. cbn in E. intros [= <-].
    destruct (Z.gtb_spec e' hook_float.maxExponent) as [Hhi|Hhi].
    { left. unfold hook_float.make_float.
      unfold hook_float.minMantissa, hook_float.maxMantissa in *.
      destruct (Z.eqb_spec m' 0); [lia|].
      destruct (Z.gtb_spec m' 9999999999999999); [lia|].
      destruct (Z.gtb_spec e' hook_float.maxExponent); [reflexivity | lia]. }
    destruct (Z.ltb_spec e' hook_float.minExponent) as [Hlo|Hlo].
    { left. unfold hook_float.make_float.
      unfold hook_float.minMantissa, hook_float.maxMantissa in *.
      destruct (Z.eqb_spec m' 0); [lia|].
      destruct (Z.gtb_spec m' 9999999999999999); [lia|].
      destruct (Z.gtb_spec e' hook_float.maxExponent); [lia|].
      destruct (Z.ltb_spec e' hook_float.minExponent); [reflexivity | lia]. }
    right. right.
    rewrite make_float_pack
      by (unfold hook_float.minMantissa, hook_float.maxMantissa in *; lia).
    destruct (Z.ltb_spec m' 0); [unfold hook_float.minMantissa in *; lia|].
    rewrite Z.abs_eq by (unfold hook_float.minMantissa in *; lia).
    destruct (pack_fields 1 e' m' ltac:(lia) E ltac:(lia)) as (Hr & _ & _ & ->).
    split; [lia | reflexivity].
Qed.

Lemma exit_reason_utf16_witness :
  wf_memory example_memory_text /\ 8 <> 0 /\
  (1 <= length [79; 75] <= 32)%nat /\ Forall (fun b => b <> 0) [79; 75] /\
  8 + 2 * Z.of_nat (length [79; 75]) <= memory_length example_memory_text /\
  read_bytes example_memory_text 8 (2 * Z.of_nat (length [79; 75])) = utf16le [79; 75] /\
  hook.exitReason
    (hook.result (snd (accept example_hookCtx example_memory_text 8 4 20)))
  = [79; 75].
Proof.
  assert (H1 : wf_memory example_memory_text) by (vm_compute; discriminate).
  assert (H2 : 8 <> 0) by lia.
  assert (H3 : (1 <= length [79; 75] <= 32)%nat) by (simpl; lia).
  assert (H4 : Forall (fun b => b <> 0) [79; 75]) by (repeat constructor; lia).
  assert (H5 : 8 + 2 * Z.of_nat (length [79; 75]) <= memory_length example_memory_text)
    by (vm_compute; discriminate).
  assert (H6 : read_bytes example_memory_text 8 (2 * Z.of_nat (length [79; 75]))
               = utf16le [79; 75]) by (vm_compute; reflexivity).
  refine (conj H1 (conj H2 (conj H3 (conj H4 (conj H5 (conj H6 _)))))).
  destruct (exit_reason_utf16 example_hookCtx example_memory_text 8 [79; 75] 20
              H1 ltac:(unfold is_u32; lia) H2 H3 H4 H5 H6) as [Ha _].
  change (2 * Z.of_nat (length [79; 75])) with 4 in Ha.
  rewrite Ha. reflexivity.
Defined.

Lemma keylet_roundtrip_witness :
  0 <= kl_type example_keylet < 2^16 /\ length (kl_key example_keylet) = 32%nat /\
  4 + 34 <= memory_length example_memory /\
  unserialize_keylet
    (read_bytes (snd (serialize_keylet example_keylet example_memory 4 34)) 4 34) 34
  = Some example_keylet.
Proof.
  assert (H1 : 0 <= kl_type example_keylet < 2^16) by (cbn; lia).
  assert (H2 : length (kl_key example_keylet) = 32%nat) by reflexivity.
  assert (H3 : 4 + 34 <= memory_length example_memory) by (vm_compute; discriminate).
  refine (conj H1 (conj H2 (conj H3 _))).
  destruct (keylet_roundtrip example_keylet example_memory 4 34 H1 H2
              ltac:(lia) ltac:(lia) H3) as (_ & Hu & _).
  exact Hu.
Defined.

Lemma canHook_active_low_witness :
  0 <= 4 < 2^64 /\ 0 <= 2 < 64 /\ 0 <= 22 < 64 /\
  canHook 22 2 4 = false /\ canHook 22 0 4 = true.
Proof.
  assert (H1 : 0 <= 4 < 2^64) by lia.
  assert (H2 : 0 <= 2 < 64) by lia.
  assert (H3 : 0 <= 22 < 64) by lia.
  assert (H4 : 0 <= 0 < 64) by lia.
  refine (conj H1 (conj H2 (conj H3 _))).
  rewrite (canHook_active_low 22 2 4 H1 H2 H3), (canHook_active_low 22 0 4 H1 H4 H3).
  split; reflexivity.
Defined.

Lemma sto_subarray_finds_element_witness :
  wf_memory example_array_memory /\ 0 + 10 <= memory_length example_array_memory /\
  sto_fields [17; 0; 1; 34; 0; 0; 0; 2] example_fields /\
  sto_subarray example_array_memory 0 10 1 = 4 * 2^32 + 5.
Proof.
  assert (H1 : wf_memory example_array_memory) by (vm_compute; discriminate).
  assert (H2 : 0 + 10 <= memory_length example_array_memory)
    by (vm_compute; discriminate).
  refine (conj H1 (conj H2 (conj example_fields_walk _))).
  rewrite (sto_subarray_finds_element example_array_memory 0 10 1
             [17; 0; 1; 34; 0; 0; 0; 2] [241]
             [ {| so_length := 3; so_type := 1; so_field := 1;
                  so_payload_start := 1; so_payload_length := 2 |} ]
             {| so_length := 5; so_type := 2; so_field := 2;
                so_payload_start := 1; so_payload_length := 4 |}
             H1 ltac:(unfold is_u32; lia) ltac:(unfold is_u32; lia) H2 ltac:(lia)
             ltac:(vm_compute; reflexivity) example_fields_walk
             ltac:(reflexivity) ltac:(lia)).
  vm_compute. reflexivity.
Defined.

Lemma emit_checks_details_witness :
  @emit example_externals example_ready example_memory_tx 0 8
  = (8, snd (@emit example_externals example_ready example_memory_tx 0 8)) /\
  exists stpTrans ed,
    hook.emittedTxn
      (hook.result (snd (@emit example_externals example_ready example_memory_tx 0 8)))
    = hook.emittedTxn (hook.result example_ready) ++ [stpTrans] /\
    sfEmitDetails stpTrans = Some ed /\
    sfEmitCallback ed = Some (hook.account (hook.result example_ready)).
Proof.
  assert (H1 : @emit example_externals example_ready example_memory_tx 0 8
               = (8, snd (@emit example_externals example_ready example_memory_tx 0 8)))
    by (vm_compute; reflexivity).
  split; [exact H1|].
  destruct (@emit_checks_details example_externals example_ready example_memory_tx
              0 8 8 _ H1 ltac:(lia))
    as (stp & ed & n & Hq & Hd & _ & _ & _ & _ & _ & Hc).
  exists stp, ed. split; [exact Hq|]. split; [exact Hd | exact Hc].
Defined.

Lemma emitted_queue_shape_witness :
  @emit_run example_externals example_ready [8]
    (snd (@emit example_externals example_ready example_memory_tx 0 8)) /\
  Forall emitted_shape (hook.emittedTxn (hook.result example_ready)) /\
  Forall emitted_shape
    (hook.emittedTxn
       (hook.result (snd (@emit example_externals example_ready example_memory_tx 0 8)))).
Proof.
  assert (H1 : @emit_run example_externals example_ready [8]
                 (snd (@emit example_externals example_ready example_memory_tx 0 8))).
  { apply (@emit_run_emit example_externals example_ready example_memory_tx 0 8 8
             (snd (@emit example_externals example_ready example_memory_tx 0 8))).
    - unfold is_u32; lia.
    - unfold is_u32; lia.
    - vm_compute. reflexivity.
    - apply emit_run_done. }
  assert (H2 : Forall emitted_shape (hook.emittedTxn (hook.result example_ready)))
    by (vm_compute; constructor).
  refine (conj H1 (conj H2 _)).
  exact (@emitted_queue_shape example_externals _ _ _ H1 H2).
Defined.

(** ** From the cache to the ledger and back *)

Section Persistence.
Context `{Externals}.

Lemma setHookState_stores hookResult v key data v' :
  setHookState hookResult v key data = (tesSUCCESS, v') -> data <> [] ->
  (exists entry,
     hook_states v' !! (hook.account hookResult, key) = Some entry /\
     sfHookStateData entry = data) /\
  is_Some (hooks v' !! hook.account hookResult).
Proof.
  intros Hrun Hne. revert Hrun. unfold setHookState.
  destruct (account_roots v !! hook.account hookResult) as [sle|]; [|discriminate].
  destruct (hooks v !! hook.account hookResult) as [hook_sle|] eqn:Hh; [|discriminate].
  destruct (Z.of_nat (length data) >? sfHookStateDataMaxSize hook_sle); [discriminate|].
  destruct (Z.eqb_spec (Z.of_nat (length data)) 0) as [Hz|Hz];
    [destruct data; [contradiction | discriminate Hz]|].
  destruct (hook_states v !! (hook.account hookResult, key)) as [old|].
  - intros [= <-]. cbn. rewrite lookup_insert_eq, Hh. eauto.
  - destruct (_ >? _).
    + destruct (sfBalance sle <? _); [discriminate|].
      destruct (dirAdd _ _ _); [|discriminate].
      intros [= <-]. cbn. rewrite !lookup_insert_eq. eauto.
    + destruct (dirAdd _ _ _); [|discriminate].
      intros [= <-]. cbn. rewrite !lookup_insert_eq. eauto.
Qed.

Lemma commit_state_changes_unmodified hookResult entries : forall v n,
  (forall k e, (k, e) ∈ entries -> fst e = false) ->
  commit_state_changes hookResult entries v n = (v, n).
Proof.
  induction entries as [|[k [m b]] rest IH]; intros v n Hun; [reflexivity|].
  cbn [commit_state_changes].
  assert (Hm : m = false) by (apply (Hun k (m, b)); left).
  subst m. apply IH. intros k' e Hin. apply (Hun k' e). right. exact Hin.
Qed.

Lemma commit_state_changes_single hookResult entries key blob : forall v n,
  NoDup (entries.*1) -> (key, (true, blob)) ∈ entries ->
  (forall k e, (k, e) ∈ entries -> k <> key -> fst e = false) ->
  fst (commit_state_changes hookResult entries v n)
  = snd (setHookState hookResult v key blob).
Proof.
  induction entries as [|[k [m b]] rest IH]; intros v n Hnd Hin Hun.
  - apply elem_of_nil in Hin. contradiction.
  - cbn [fmap list_fmap fst] in Hnd. apply NoDup_cons in Hnd as [Hk Hnd].
    cbn [commit_state_changes].
    apply elem_of_cons in Hin as [Heq|Hin].
    + injection Heq as <- <- <-.
      destruct (setHookState hookResult v key blob) as [t v1]. cbn [snd].
      rewrite commit_state_changes_unmodified; [reflexivity|].
      intros k' e Hin'. apply (Hun k' e); [right; exact Hin'|].
      intros ->. apply Hk. apply (list_elem_of_fmap_2 fst) in Hin'. exact Hin'.
    + assert (Hne : k <> key).
      { intros ->. apply Hk. apply (list_elem_of_fmap_2 fst) in Hin. exact Hin. }
      assert (Hm : m = false) by (apply (Hun k (m, b)); [left | exact Hne]).
      subst m. apply IH; [exact Hnd | exact Hin |].
      intros k' e Hin'. apply (Hun k' e). right. exact Hin'.
Qed.

Lemma commit_apply_states hookResult applyCtx cclMode :
  Z.land cclMode hook.cclAPPLY <> 0 ->
  hook_states (view (snd (commitChangesToLedger hookResult applyCtx cclMode)))
  = hook_states
      (fst (commit_state_changes hookResult
              (merge_sort entry_le (map_to_list (hook.changedState hookResult)))
              (view applyCtx) 0)) /\
  hooks (view (snd (commitChangesToLedger hookResult applyCtx cclMode)))
  = hooks
      (fst (commit_state_changes hookResult
              (merge_sort entry_le (map_to_list (hook.changedState hookResult)))
              (view applyCtx) 0)).
Proof.
  intros Hmode. unfold commitChangesToLedger.
  destruct (Z.eqb_spec cclMode 0) as [->|_]; [contradiction Hmode; reflexivity|].
  destruct (Z.eqb_spec (Z.land cclMode hook.cclAPPLY) 0) as [|_]; [contradiction|].
  cbn [negb].
  destruct (commit_state_changes hookResult _ (view applyCtx) 0) as [v1 n1].
  cbn [fst].
  destruct (open v1); [split; reflexivity|].
  unfold nextHookExecutionIndex.
  match goal with |- context [commit_emitted ?q ?v 0] =>
    pose proof (commit_emitted_hook_states q v 0) as (He & Hh & _);
    destruct (commit_emitted q v 0) as [[queue v3] n3] end.
  cbn [fst snd] in He, Hh.
  cbn [snd view with_view addHookMetaData hook_states hooks].
  destruct (negb (Z.land cclMode hook.cclREMOVE =? 0)).
  - destruct (commit_remove_hook_states applyCtx v3) as (-> & -> & _).
    rewrite He, Hh. split; reflexivity.
  - rewrite He, Hh. split; reflexivity.
Qed.

(** X29: What a hook stages with state_set and commits is what the next
    invocation reads: when nothing else in the cache is modified, the
    write of the entry to the ledger succeeds and the commit has the apply
    bit, state on the same key, in a context with an empty cache on the
    view left by the commit, returns the length of the value and writes the
    value. *)
Theorem state_persists hookCtx memory read_ptr read_len kread_ptr kread_len hookCtx1
    cclMode hookResult' applyCtx' key hookCtx2 memory2 write_ptr write_len kread_ptr2 :
  wf_memory memory -> is_u32 read_ptr -> is_u32 read_len ->
  is_u32 kread_ptr -> is_u32 kread_len ->
  (forall k e, hook.changedState (hook.result hookCtx) !! k = Some e -> fst e = false) ->
  0 < read_len ->
  state_set hookCtx memory read_ptr read_len kread_ptr kread_len = (read_len, hookCtx1) ->
  make_state_key (read_bytes memory kread_ptr kread_len) = Some key ->
  fst (setHookState (hook.result hookCtx1) (view (hook.applyCtx hookCtx1)) key
         (read_bytes memory read_ptr read_len)) = tesSUCCESS ->
  Z.land cclMode hook.cclAPPLY <> 0 ->
  commitChangesToLedger (hook.result hookCtx1) (hook.applyCtx hookCtx1) cclMode
  = (hookResult', applyCtx') ->
  (* the next invocation *)
  hook.applyCtx hookCtx2 = applyCtx' ->
  hook.changedState (hook.result hookCtx2) = ∅ ->
  hook.account (hook.result hookCtx2) = hook.account (hook.result hookCtx) ->
  wf_memory memory2 -> is_u32 write_ptr -> is_u32 write_len -> is_u32 kread_ptr2 ->
  kread_ptr2 + kread_len <= memory_length memory2 ->
  read_bytes memory2 kread_ptr2 kread_len = read_bytes memory kread_ptr kread_len ->
  write_ptr <> 0 -> write_ptr + write_len <= memory_length memory2 ->
  read_len <= write_len ->
  fst (fst (state hookCtx2 memory2 write_ptr write_len kread_ptr2 kread_len)) = read_len /\
  snd (state hookCtx2 memory2 write_ptr write_len kread_ptr2 kread_len)
  = setBytes memory2 (read_bytes memory read_ptr read_len) write_ptr read_len.
Proof.
  intros Hwf Hrp Hrl Hkp Hkl Hclean Hpos Hset Hkey Hok Hmode Hcommit
    Hctx2 Hcache2 Hacc2 Hwf2 Hwp Hwl Hkp2 Hkb2 Hsame Hwnz Hwb Hroom.
  pose proof (memory_length_nonneg memory) as Hml.
  pose proof (memory_length_nonneg memory2) as Hml2.
  (* what state_set staged *)
  unfold state_set in Hset.
  rewrite !NOT_IN_BOUNDS_spec in Hset by (unfold is_u32, wf_memory in *; lia).
  unfold is_u32, wf_memory in *.
  destruct (Z.gtb_spec (kread_ptr + 32) (memory_length memory));
    [injection Hset as Hc _; unfold OUT_OF_BOUNDS in Hc; lia|].
  destruct (negb ((read_ptr =? 0) && (read_len =? 0))
            && (read_ptr + read_len >? memory_length memory)) eqn:Hrb;
    [injection Hset as Hc _; unfold OUT_OF_BOUNDS in Hc; lia|].
  assert (Hrin : read_ptr + read_len <= memory_length memory).
  { destruct (Z.eqb_spec read_ptr 0), (Z.eqb_spec read_len 0),
      (Z.gtb_spec (read_ptr + read_len) (memory_length memory));
      cbn in Hrb; try discriminate; lia. }
  destruct (Z.gtb_spec kread_len 32);
    [injection Hset as Hc _; unfold TOO_BIG in Hc; lia|].
  destruct (Z.ltb_spec kread_len 1);
    [injection Hset as Hc _; unfold TOO_SMALL in Hc; lia|].
  destruct (hooks (view (hook.applyCtx hookCtx)) !! hook.account (hook.result hookCtx))
    as [sle|] eqn:Hsle;
    [|injection Hset as Hc _; unfold INTERNAL_ERROR in Hc; lia].
  destruct (Z.gtb_spec read_len (sfHookStateDataMaxSize sle));
    [injection Hset as Hc _; unfold TOO_BIG in Hc; lia|].
  rewrite Hkey in Hset. injection Hset as <-.
  set (data := read_bytes memory read_ptr read_len) in *.
  assert (Hdl : length data = Z.to_nat read_len)
    by (apply length_read_bytes; lia).
  assert (Hdne : data <> []) by (intros E; rewrite E in Hdl; cbn in Hdl; lia).
  cbn [hook.result hook.applyCtx hook.with_result hook.changedState
       hook.with_changedState hook.account] in *.
  set (r1 := hook.with_changedState
               (<[key := (true, data)]> (hook.changedState (hook.result hookCtx)))
               (hook.result hookCtx)) in *.
  set (v := view (hook.applyCtx hookCtx)) in *.
  (* the commit writes this entry and no other *)
  assert (Hsingle :
            fst (commit_state_changes r1
                   (merge_sort entry_le (map_to_list (hook.changedState r1))) v 0)
            = snd (setHookState r1 v key data)).
  { apply commit_state_changes_single.
    - rewrite merge_sort_Permutation. apply NoDup_fst_map_to_list.
    - rewrite merge_sort_Permutation. apply elem_of_map_to_list.
      cbn. apply lookup_insert_eq.
    - intros k e Hin Hne. rewrite merge_sort_Permutation in Hin.
      apply elem_of_map_to_list in Hin. cbn in Hin.
      rewrite lookup_insert_ne in Hin by congruence.
      apply (Hclean k e Hin). }
  destruct (commit_apply_states r1 (hook.applyCtx hookCtx) cclMode Hmode) as [Hst Hhk].
  rewrite Hcommit in Hst, Hhk. cbn [snd] in Hst, Hhk.
  fold v in Hst, Hhk. rewrite Hsingle in Hst, Hhk.
  destruct (setHookState r1 v key data) as [t v1] eqn:Eset.
  cbn [fst snd] in Hok, Hst, Hhk. subst t.
  destruct (setHookState_stores _ _ _ _ _ Eset Hdne) as [(entry & Hentry & Hd) [hs Hhs]].
  change (hook.account r1) with (hook.account (hook.result hookCtx)) in Hentry, Hhs.
  (* the read of the next invocation *)
  unfold state, state_foreign.
  rewrite !NOT_IN_BOUNDS_spec by (unfold is_u32; lia).
  destruct (Z.gtb_spec (kread_ptr2 + kread_len) (memory_length memory2)); [lia|].
  destruct (Z.gtb_spec (0 + 0) (memory_length memory2)); [lia|].
  destruct (Z.gtb_spec (write_ptr + write_len) (memory_length memory2)); [lia|].
  cbn [orb negb andb Z.eqb].
  destruct (Z.gtb_spec kread_len 32); [lia|].
  rewrite Hsame, Hkey, Hcache2, lookup_empty, Hctx2, Hacc2, Hhk, Hhs, Hst, Hentry, Hd.
  rewrite Hdl, Z2Nat.id by lia.
  destruct (Z.eqb_spec write_ptr 0); [contradiction|].
  destruct (Z.gtb_spec read_len write_len); [lia|].
  unfold WRITE_WASM_MEMORY_AND_RETURN.
  rewrite WRITE_WASM_MEMORY_ok by lia.
  cbn [fst snd]. split; [apply i64_small; lia | reflexivity].
Qed.

End Persistence.

Lemma state_persists_witness :
  wf_memory example_memory_tx /\ 0 < 3 /\
  state_set example_hookCtx example_memory_tx 0 3 4 4
  = (3, example_staged) /\
  make_state_key (read_bytes example_memory_tx 4 4) = Some (replicate 32 0) /\
  fst (@setHookState example_externals (hook.result example_staged)
         (view (hook.applyCtx example_staged)) (replicate 32 0)
         (read_bytes example_memory_tx 0 3)) = tesSUCCESS /\
  Z.land 3 hook.cclAPPLY <> 0 /\
  fst (fst (state example_next example_memory 40 8 4 4)) = 3 /\
  snd (state example_next example_memory 40 8 4 4)
  = setBytes example_memory [255; 0; 0] 40 3.
Proof.
  assert (H1 : wf_memory example_memory_tx) by (vm_compute; discriminate).
  assert (H2 : 0 < 3) by lia.
  assert (H3 : state_set example_hookCtx example_memory_tx 0 3 4 4
               = (3, example_staged)) by (vm_compute; reflexivity).
  assert (H4 : make_state_key (read_bytes example_memory_tx 4 4)
               = Some (replicate 32 0)) by (vm_compute; reflexivity).
  assert (H5 : fst (@setHookState example_externals (hook.result example_staged)
                      (view (hook.applyCtx example_staged)) (replicate 32 0)
                      (read_bytes example_memory_tx 0 3)) = tesSUCCESS)
    by (vm_compute; reflexivity).
  assert (H6 : Z.land 3 hook.cclAPPLY <> 0)
    by (intros Hz; vm_compute in Hz; discriminate Hz).
  refine (conj H1 (conj H2 (conj H3 (conj H4 (conj H5 (conj H6 _)))))).
  assert (U1 : is_u32 0) by (unfold is_u32; lia).
  assert (U3 : is_u32 3) by (unfold is_u32; lia).
  assert (U4 : is_u32 4) by (unfold is_u32; lia).
  assert (U8 : is_u32 8) by (unfold is_u32; lia).
  assert (U40 : is_u32 40) by (unfold is_u32; lia).
  assert (H7 : forall k e,
            hook.changedState (hook.result example_hookCtx) !! k = Some e ->
            fst e = false)
    by (intros k e Hl; vm_compute in Hl; discriminate Hl).
  assert (H8 : @commitChangesToLedger example_externals (hook.result example_staged)
                 (hook.applyCtx example_staged) 3
               = (fst (@commitChangesToLedger example_externals
                         (hook.result example_staged)
                         (hook.applyCtx example_staged) 3),
                  hook.applyCtx example_next))
    by apply surjective_pairing.
  assert (H9 : hook.changedState (hook.result example_next) = ∅) by reflexivity.
  assert (H10 : hook.account (hook.result example_next)
                = hook.account (hook.result example_hookCtx)) by reflexivity.
  assert (H11 : wf_memory example_memory) by (vm_compute; discriminate).
  assert (H12 : 4 + 4 <= memory_length example_memory) by (vm_compute; discriminate).
  assert (H13 : read_bytes example_memory 4 4 = read_bytes example_memory_tx 4 4)
    by (vm_compute; reflexivity).
  assert (H14 : 40 <> 0) by lia.
  assert (H15 : 40 + 8 <= memory_length example_memory) by (vm_compute; discriminate).
  assert (H16 : 3 <= 8) by lia.
  exact (@state_persists example_externals example_hookCtx example_memory_tx 0 3 4 4
           example_staged 3 _ _ (replicate 32 0) example_next example_memory 40 8 4
           H1 U1 U3 U4 U4 H7 H2 H3 H4 H5 H6 H8 eq_refl H9 H10 H11 U40 U8 U4
           H12 H13 H14 H15 H16).
Defined.

(** ** The nonce budget *)

Section NonceBudget.
Context `{Externals}.
Hypothesis max_nonce_int32 : max_nonce < 2^31 - 1.

Lemma nonce_counter_step c memory write_ptr write_len r c' memory' :
  nonce c memory write_ptr write_len = (r, c', memory') ->
  0 <= hook.nonce_counter c ->
  hook.nonce_counter c <= hook.nonce_counter c' /\
  (0 <= r ->
   hook.nonce_counter c <= max_nonce /\
   hook.nonce_counter c' = hook.nonce_counter c + 1).
Proof.
  intros Hrun Hc. revert Hrun. unfold nonce.
  destruct (write_len <? 32);
    [intros [= <- <- _]; split; [lia | unfold TOO_SMALL; lia]|].
  destruct (NOT_IN_BOUNDS _ _ _);
    [intros [= <- <- _]; split; [lia | unfold OUT_OF_BOUNDS; lia]|].
  destruct (Z.gtb_spec (hook.nonce_counter c) max_nonce);
    [intros [= <- <- _]; split; [lia | unfold TOO_MANY_NONCES; lia]|].
  destruct (WRITE_WASM_MEMORY_AND_RETURN _ _ _ _ _) as [code m].
  intros [= <- <- _]. cbn [hook.nonce_counter hook.with_nonce].
  rewrite i32_small by lia. lia.
Qed.

Lemma etxn_details_counter_step c memory write_ptr write_len r c' memory' :
  etxn_details c memory write_ptr write_len = (r, c', memory') ->
  0 <= hook.nonce_counter c ->
  hook.nonce_counter c <= hook.nonce_counter c' /\
  (0 <= r ->
   hook.nonce_counter c <= max_nonce /\
   hook.nonce_counter c' = hook.nonce_counter c + 1).
Proof.
  intros Hrun Hc. revert Hrun. unfold etxn_details.
  destruct (NOT_IN_BOUNDS _ _ _);
    [intros [= <- <- _]; split; [lia | unfold OUT_OF_BOUNDS; lia]|].
  destruct (write_len <? etxn_details_size);
    [intros [= <- <- _]; split; [lia | unfold TOO_SMALL; lia]|].
  destruct (hook.expected_etxn_count c <=? -1);
    [intros [= <- <- _]; split; [lia | unfold PREREQUISITE_NOT_MET; lia]|].
  pose proof (etxn_generation_caches c) as Hc1.
  destruct (etxn_generation c) as [g c1]. cbn [snd] in Hc1.
  pose proof (etxn_burden_caches c1) as Hc2.
  destruct (etxn_burden c1) as [b c2]. cbn [snd] in Hc2.
  assert (Hn : hook.nonce_counter c2 = hook.nonce_counter c).
  { destruct Hc1 as (_ & _ & _ & Hn1 & _). destruct Hc2 as (_ & _ & _ & Hn2 & _).
    congruence. }
  destruct (b <? 1);
    [intros [= <- <- _]; rewrite Hn; split; [lia | unfold FEE_TOO_LARGE; lia]|].
  destruct (otxn_id c2 _ _ _) as [n1 m1].
  destruct (negb (n1 =? 32));
    [intros [= <- <- _]; rewrite Hn; split; [lia | unfold INTERNAL_ERROR; lia]|].
  destruct (nonce c2 _ _ _) as [[n2 c3] m2] eqn:Hnonce.
  destruct (nonce_counter_step _ _ _ _ _ _ _ Hnonce ltac:(lia)) as [Hle Hsucc].
  rewrite Hn in Hle, Hsucc.
  destruct (Z.eqb_spec n2 32) as [->|Hne]; cbn [negb];
    [|intros [= <- <- _]; split; [lia | unfold INTERNAL_ERROR; lia]].
  specialize (Hsucc ltac:(lia)).
  destruct (hook_account c3 _ _ _) as [n3 m3].
  destruct (negb (n3 =? 20)); intros [= <- <- _]; split; lia.
Qed.

Lemma nonce_run_budget c rs c' :
  nonce_run c rs c' -> 0 <= hook.nonce_counter c ->
  successes rs <= Z.max 0 (max_nonce + 1 - hook.nonce_counter c) /\
  hook.nonce_counter c + successes rs <= hook.nonce_counter c'.
Proof.
  induction 1 as [c|c memory wp wl r c' memory' rs c'' Hcall _ IH
                  |c memory wp wl r c' memory' rs c'' Hcall _ IH
                  |c c' rs c'' Hsame _ IH]; intros Hc.
  - change (successes []) with 0. lia.
  - destruct (nonce_counter_step _ _ _ _ _ _ _ Hcall Hc) as [Hle Hs].
    destruct (IH ltac:(lia)) as [IH1 IH2].
    rewrite successes_cons. destruct (Z.leb_spec 0 r); lia.
  - destruct (etxn_details_counter_step _ _ _ _ _ _ _ Hcall Hc) as [Hle Hs].
    destruct (IH ltac:(lia)) as [IH1 IH2].
    rewrite successes_cons. destruct (Z.leb_spec 0 r); lia.
  - rewrite Hsame in IH. destruct (IH Hc) as [IH1 IH2]. lia.
Qed.

(** X30: An invocation gets at most max_nonce + 1 nonces, through nonce and
    etxn_details together: in every run that starts with the nonce counter
    at 0, at most max_nonce + 1 of these calls succeed, and when that many
    have succeeded a further call of nonce changes nothing and returns an
    error. *)
Theorem nonce_budget c0 rs c1 :
  hook.nonce_counter c0 = 0 -> 0 <= max_nonce ->
  nonce_run c0 rs c1 ->
  successes rs <= max_nonce + 1 /\
  (successes rs = max_nonce + 1 ->
   forall memory write_ptr write_len,
     fst (fst (nonce c1 memory write_ptr write_len)) < 0 /\
     snd (fst (nonce c1 memory write_ptr write_len)) = c1 /\
     snd (nonce c1 memory write_ptr write_len) = memory).
Proof.
  intros H0 Hmax Hrun.
  destruct (nonce_run_budget _ _ _ Hrun ltac:(lia)) as [Hle Hcount].
  rewrite H0 in Hle, Hcount. split; [lia|].
  intros Hfull memory write_ptr write_len. unfold nonce.
  destruct (write_len <? 32); [cbn; unfold TOO_SMALL; auto with lia|].
  destruct (NOT_IN_BOUNDS _ _ _); [cbn; unfold OUT_OF_BOUNDS; auto with lia|].
  destruct (Z.gtb_spec (hook.nonce_counter c1) max_nonce); [|lia].
  cbn. unfold TOO_MANY_NONCES. auto with lia.
Qed.

End NonceBudget.

Lemma nonce_budget_witness :
  @max_nonce example_externals < 2^31 - 1 /\
  hook.nonce_counter example_reserved = 0 /\
  0 <= @max_nonce example_externals /\
  @nonce_run example_externals example_reserved [32] example_ready /\
  successes [32] <= @max_nonce example_externals + 1.
Proof.
  assert (H1 : @max_nonce example_externals < 2^31 - 1) by (cbn; lia).
  assert (H2 : hook.nonce_counter example_reserved = 0) by reflexivity.
  assert (H3 : 0 <= @max_nonce example_externals) by (cbn; lia).
  assert (H4 : @nonce_run example_externals example_reserved [32] example_ready).
  { apply (@nonce_run_nonce example_externals example_reserved example_memory_tx 32 32
             32 example_ready
             (snd (@nonce example_externals example_reserved example_memory_tx 32 32))).
    - vm_compute. reflexivity.
    - apply nonce_run_done. }
  refine (conj H1 (conj H2 (conj H3 (conj H4 _)))).
  destruct (@nonce_budget example_externals H1 example_reserved [32] example_ready
              H2 H3 H4) as [Hle _].
  exact Hle.
Defined.

(** ** sto_emplace undone by sto_erase *)



